(* ===== verification/_CoqProject ===== *)
-Q . S2P
Prelude.v
Packet.v
Types.v
Topic.v
Net.v
Send.v
Database.v
Security.v
Passwd.v
Subs.v
Queue.v
Context.v
Handle.v
Connect.v
Bridge.v
Conf.v
ConfRules.v
ConfSafe.v
ConfText.v
Client.v
Loop.v
Persist.v
Start.v
ConfReload.v
Frame.v
Sessions.v
Invariant.v
Running.v
Exchange.v
Starting.v
Broker.v
Joining.v
ClientRules.v
ClientLists.v
Library.v
Delivery.v
Saved.v
Subscribing.v
