(* ===== verification/Prelude.v ===== *)
(** * mosquitto 1.4.2: the broker, its configuration, its bridges, its saved database and its client library

    The repository is a collection of packages; the program verified here is the MQTT
    broker in contrib/deb/mosquitto/mosquitto-1.4.2 (paths below are relative to it) as
    its config.mk builds it: with TLS, TLS-PSK, BRIDGE, PERSISTENCE, SYS_TREE and UUID, without
    WEBSOCKETS; and the client library of lib/ (the same files without WITH_BROKER).

    ** How the program is modelled

    A routine is a state-passing program that may fault: [ST S A] (this file) is
    [S -> option (A * S)], with [None] for what C leaves undefined or aborts on: a read
    outside a buffer, a freed or NULL pointer, a failed assertion. The broker's state is
    the record [mosquitto_db] of Types.v: heap objects have addresses in maps, so a stale
    pointer is a failed lookup. The library's is [client] of Client.v. Error codes are
    results, as in the code. Integers are [Z], wrapped where the code's types wrap
    ([u8], [u16], [u32]). Strings are lists of bytes; a C string ends before its first NUL.
    uthash tables that are walked are lists, those that are only looked into are maps; a
    walk visits what the table held when it began. The clock does not move during a
    routine; malloc does not fail; chunks of the saved file that are written as the host
    has them are little endian.

    What is not under src/ is a parameter: the answers of read(2) and write(2) are
    the streams [d_reads] and [d_writes] of the state; digests and base64 are the class
    [Crypto] (Security.v); the common name of a peer's certificate and a random UUID are
    [Environment] (Connect.v); the host's name and connecting are [Network] (Bridge.v); files, directories, name
    resolution and what memory holds behind a line of text are [Files] (Conf.v); users, the identity
    of the process, files to write, addresses to listen on, fork and plugins are [System] (Start.v); the library's
    socket and random characters are [LibSystem] (Client.v); what poll(2), select(2) and
    accept(2) answer are arguments; an authentication plugin is a record of
    functions. Theorems hold for all of them, with the documented behaviour they need as
    hypotheses.

    ** The files

    Model, in the order of the code's layers, each with the theorems about its own routines:
    - Prelude: strings, machine integers, the monad and its weakest preconditions [wp],
      record updates, list lemmas, tactics, the hint databases [wp] and [keeps].
    - Packet: struct _mosquitto_packet and its readers and writers (lib/net_mosq.c,
      lib/util_mosq.c: _mosquitto_packet_alloc).
    - Types: the structures (lib/mosquitto_internal.h, src/mosquitto_broker.h).
    - Topic: checks of topics and filters and the matcher (lib/util_mosq.c).
    - Net: outgoing queue, partial writes, incremental reader, closing (lib/net_mosq.c).
    - Send: every builder of a packet, identifiers, keepalive (lib/send_mosq.c,
      lib/send_client_mosq.c, src/send_server.c, lib/util_mosq.c).
    - Database: stored messages and the queue of a client (src/database.c).
    - Security: passwords and access control (src/security.c, src/security_default.c).
    - Passwd: the tool that writes the password file (src/mosquitto_passwd.c), and that the
      broker reads what it writes.
    - Subs: the subscription tree and retained messages (src/subs.c).
    - Queue: publishing and the release of QoS 2 messages (src/database.c).
    - Context: the life of a context, wills (src/context.c, parts of src/loop.c).
    - Handle: the handlers of packets (src/read_handle.c, src/read_handle_server.c,
      src/read_handle_client.c, lib/read_handle_shared.c).
    - Connect: CONNECT in parts and the dispatch (src/read_handle_server.c, src/read_handle.c).
    - Bridge: bridges and wills (src/bridge.c, lib/will_mosq.c).
    - Conf: the configuration: every option of the file, its lines and included directories,
      reading it again, the command line (src/conf.c). One definition [opt_<name>] per option.
    - Client: the library (lib/mosquitto.c, lib/messages_mosq.c, lib/read_handle.c,
      lib/read_handle_client.c and the library's half of the shared files).
    - Loop: an iteration of mosquitto_main_loop and accepting (src/loop.c, src/net.c).
    - Persist: saving and restoring the database (src/persist.c, src/persist.h).
    - Start: main before and after the loop (src/mosquitto.c), privileges, opening the log
      (src/logging.c), the plugin (src/security.c), listening (src/net.c), saving in the loop
      (src/loop.c). The state [boot] has the process, the configuration and the database.

    Proofs that need several of them:
    - Frame: what each routine of the broker leaves alone, for any preorder on states (a
      type class) that the primitive steps stay within.
    - Sessions: the abstract table of sessions, its steps and its invariant.
    - Invariant: the broker's routines are steps of that table.
    - Exchange: PUBLISH from the wire to the decision, QoS 2, retries, renaming by bridges.
    - Running: the states that are reached from [main_start] through [main_loop_iteration]
      and [main_loop_reload]; their tables are those of Sessions.
    - Broker: what holds in all of them; leaving and falling silent.
    - Starting: privileges are given up, all listeners are open.
    - Joining: CONNECT written by one side and read by the other; authorisation.
    - ClientRules, ClientLists, Library: the library's invariant through every call;
      where it goes wrong.
    - ConfRules: the values that are accepted. ConfSafe: which texts make the reader fault, and
      that no other does. ConfText: statements written to a file and read back. ConfReload: a
      reload in the main loop (src/loop.c), what it leaves alone and what a failed one does.
    - Delivery: a message from the library to the broker and from the broker to the user.
    - Subscribing: SUBSCRIBE from the call of the library to the broker's tree, and SUBACK back.
    - Saved: the saved file read back.

    ** What the theorems show

    - Bytes: allocation succeeds exactly below 2^28 and the buffer starts with the
      right digits; readers never leave the buffer; strings and packets survive writing and
      reading in pieces of any size; packets leave in the order they were queued, each
      builder adding exactly the bytes of its packet.
    - Topics: the checks accept what they should; the matcher agrees with matching level by
      level except for one gap, which is proved as such; the tree finds exactly the
      subscriptions that comparing every filter finds; retained messages are found.
    - Messages: which are admitted to a queue, what is sent, what an acknowledgement
      removes, what coming back resets; QoS 2 messages are published once.
    - Who may do what: passwords and access lists decide as specified, and nobody is
      connected that is not authorised.
    - Starting: a broker that starts as root ends up with the identity of its user, if its log
      opens; it listens on every address of every listener.
    - The broker: in all states that can be reached from its command line, whatever is sent, the
      tables of clients by socket and by identifier are exact; an iteration of the loop is a
      sequence of steps of the abstract table. These are statements about the states in
      which routines return; a step that faults leads nowhere.
    - The configuration: a broker that starts has values in their ranges and complete bridges;
      reading does not fault but on the texts named; a file that was written from statements means
      what they mean; a reload changes neither listeners nor bridges.
    - The saved database: the file is restored as it was meant; the loop ends on any file.
    - The library: no sequence of calls and no input makes it fault, but for two
      defects named in the theorem; a message it publishes is the one the broker decides on,
      and a message the broker sends is the one that is handed to the user; a subscription that it
      asks for is in the broker's tree, and the user gets the granted QoS.

    Lemmas that show a defect by running the code on a small state are at the end of the
    files (or named [..._gap], [..._misses], [..._dangles] and the like).

    ** Fuel

    - [release_loop] (Queue): one unit per message that can be on the queue; a
      round that does not stop the loop removes one.
    - [write_msgs] and the loops of the library follow the list they walk.
    - [restore_loop] (Persist): the length of the file, of which each chunk takes a byte
      at least; [restore_loop_ends] proves it enough for any file.
    - [words] (Conf): the length of the rest of the line, of which each word takes a byte.
    - [subscribe_loop], [unsubscribe_loop], [read_codes], [lib_read_codes]: the bytes
      of the packet; running out is a fault, and the theorems that exclude faults exclude it.
    - [read_remaining]: five digits, where the code stops as well.
    - [reconnect_loop] and [forever_loop] (Client) are the first so many rounds of a
      loop that need not end; their result says when it is still running.

    ** Not modelled

    - What is written to the log, and the publishing of $SYS but for its two constant messages
      (its counters are kept); of src/conf.c the messages and the branches for Windows and websockets.
    - Sockets, name resolution, SOCKS, the TLS handshake and [want_write] (lib/socks_mosq.c,
      lib/srv_mosq.c, lib/tls_mosq.c, parts of lib/net_mosq.c and src/net.c): system and
      OpenSSL calls.
    - The handlers of signals, which set a flag each, the clock, and the Windows service
      (src/mosquitto.c, src/service.c); threads and mutexes: a
      call of the library is atomic and its callbacks do not call back.
    - src/websockets.c is not compiled; the C++ wrapper, the command-line clients and
      db_dump; version 1.3.4, which is kept beside 1.4.2; the other packages of the repository.
    - The theorems of Sessions, Invariant, Running and Broker are about brokers without bridges.

    ** What is not proved

    QoS 2 between the library and the broker as one exchange of both. *)

From stdpp Require Export base option list gmap fin_maps.
From stdpp Require Export strings.
From Stdlib Require Export ZArith Lia.
From Stdlib Require Export Ascii.
From Stdlib Require String.
#[local] Open Scope list_scope.
#[local] Open Scope char_scope.

#[local] Open Scope Z_scope.

#[global] Arguments bool_decide P {_} : simpl never.

(** * Bytes and C strings *)

(** A C [char] / [uint8_t]; a C string is the list of its characters before
    the terminating NUL. *)
Abbreviation byte := ascii.
Abbreviation str := (list ascii).

Definition Z_of_byte (b : byte) : Z := Z.of_N (N_of_ascii b).
Definition byte_of_Z (z : Z) : byte := ascii_of_N (Z.to_N (z mod 256)).

(** A string literal of the C source. *)
Definition lit (s : string) : str := String.list_ascii_of_string s.
Arguments lit s%_string.

Definition NUL : byte := "000"%char.
Definition SLASH : byte := "/"%char.
Definition PLUS : byte := "+"%char.
Definition HASH : byte := "#"%char.
Definition DOLLAR : byte := "$"%char.

(** [strlen], and the contents of a buffer seen as a C string: what precedes
    the first NUL. *)
Definition strlen (s : str) : Z := Z.of_nat (length s).

Fixpoint cstr (s : list byte) : str :=
  match s with
  | [] => []
  | c :: s' => if decide (c = NUL) then [] else c :: cstr s'
  end.

(** [s[i]] for an index up to and including the terminating NUL. *)
Definition cget (s : str) (i : Z) : byte := nth (Z.to_nat i) s NUL.

(** [!strcmp(a, b)] and [!strncmp(a, b, n)] on C strings. *)
Definition streq (a b : str) : bool := bool_decide (a = b).
Definition strneq (a b : str) (n : nat) : bool := bool_decide (take n a = take n b).

Lemma strlen_app p s : strlen (p ++ s) = strlen p + strlen s.
Proof. unfold strlen. rewrite length_app. lia. Qed.

Lemma strlen_cons c s : strlen (c :: s) = 1 + strlen s.
Proof. unfold strlen. cbn [length]. lia. Qed.

Lemma strlen_nonneg s : 0 <= strlen s.
Proof. unfold strlen. lia. Qed.

(** * Machine integers *)

Definition wrap (w : Z) (z : Z) : Z := z mod 2 ^ w.
Definition u8 : Z -> Z := wrap 8.
Definition u16 : Z -> Z := wrap 16.
Definition u32 : Z -> Z := wrap 32.
Definition u64 : Z -> Z := wrap 64.

#[global] Arguments insert : simpl never.
#[global] Arguments delete : simpl never.
#[global] Arguments wrap : simpl never.
#[global] Arguments u8 : simpl never.
#[global] Arguments u16 : simpl never.
#[global] Arguments u32 : simpl never.
#[global] Arguments u64 : simpl never.
#[global] Arguments strlen : simpl never.
#[global] Arguments cget : simpl never.
#[global] Arguments Z_of_byte : simpl never.
#[global] Arguments byte_of_Z : simpl never.

Definition zbool (b : bool) : Z := if b then 1 else 0.

(** A call that returns an out-parameter on success and an error code
    otherwise. *)
Inductive res (A : Type) : Type :=
| ROk (a : A)
| RErr (rc : Z).
Arguments ROk {A} a.
Arguments RErr {A} rc.

(** * Record update

    [r <| f := v |>] replaces field [f]; the setter is computed from the eta
    expansion registered for the record type. *)
Class Eta (R : Type) := eta : R -> R.
Class Upd {R T : Type} (p : R -> T) := upd : (T -> T) -> R -> R.
Arguments upd {R T} p {_} g r.
#[global] Hint Mode Upd + + + : typeclass_instances.

Ltac derive_upd p :=
  lazymatch type of p with
  | ?R -> ?T =>
    let i := constr:(_ : Eta R) in
    let e := (eval red in i) in
    let e := (eval cbv beta in e) in
    lazymatch (eval pattern p in e) with
    | ?h _ => let u := (eval cbv beta in (fun (g : T -> T) (r : R) => h (fun x => g (p x)) r)) in
              exact u
    end
  end.

#[global] Hint Extern 0 (Upd ?p) => derive_upd p : typeclass_instances.

Notation "r <| p := v |>" := (upd p (fun _ => v) r)
  (at level 1, left associativity, p at next level, v at level 200) : stdpp_scope.
Notation "r <| p ::= f |>" := (upd p f r)
  (at level 1, left associativity, p at next level, f at level 200) : stdpp_scope.

(** * The state-and-fault monad

    [ST S A] is a C routine over state [S] that returns an [A]; [None] is
    undefined behaviour: a dangling pointer dereferenced, an index outside its
    buffer, a failed [assert]. *)
Definition ST (S A : Type) : Type := S -> option (A * S).

#[global] Instance st_ret {S} : MRet (ST S) := fun A a s => Some (a, s).
#[global] Instance st_bind {S} : MBind (ST S) :=
  fun A B f m s => match m s with Some (a, s') => f a s' | None => None end.

Definition get {S} : ST S S := fun s => Some (s, s).
Definition gets {S A} (f : S -> A) : ST S A := fun s => Some (f s, s).
Definition modify {S} (f : S -> S) : ST S unit := fun s => Some (tt, f s).
Definition fault {S A} : ST S A := fun _ => None.
Definition assertM {S} (b : bool) : ST S unit := if b then mret tt else fault.
Definition unwrap {S A} (o : option A) : ST S A :=
  match o with Some a => mret a | None => fault end.
Definition whenM {S} (b : bool) (m : ST S unit) : ST S unit := if b then m else mret tt.

Notation "m1 ;; m2" := (m1 ≫= fun _ => m2)
  (at level 100, right associativity, only parsing) : stdpp_scope.

(** Weakest precondition: [m] runs without fault from [s] and ends in [Q]. *)
Definition wp {S A} (m : ST S A) (Q : A -> S -> Prop) (s : S) : Prop :=
  match m s with Some (a, s') => Q a s' | None => False end.

Section wp.
Context {S : Type}.
Implicit Types s : S.

Lemma wp_ret {A} (a : A) (Q : A -> S -> Prop) s : wp (mret a) Q s <-> Q a s.
Proof. done. Qed.

Lemma wp_bind {A B} (m : ST S A) (f : A -> ST S B) Q s :
    wp (m ≫= f) Q s <-> wp m (fun a s' => wp (f a) Q s') s.
Proof.
    unfold wp, mbind, st_bind. by destruct (m s) as [[a s']|].
  Qed.

Lemma wp_mono {A} (m : ST S A) (Q Q' : A -> S -> Prop) s :
    wp m Q s -> (forall a s', Q a s' -> Q' a s') -> wp m Q' s.
Proof. unfold wp. destruct (m s) as [[a s']|]; eauto. Qed.

Lemma wp_and {A} (m : ST S A) (Q Q' : A -> S -> Prop) s :
    wp m Q s -> wp m Q' s -> wp m (fun a s' => Q a s' /\ Q' a s') s.
Proof. unfold wp. by destruct (m s) as [[a s']|]. Qed.

Lemma wp_get (Q : S -> S -> Prop) s : wp get Q s <-> Q s s.
Proof. done. Qed.

Lemma wp_gets {A} (f : S -> A) Q s : wp (gets f) Q s <-> Q (f s) s.
Proof. done. Qed.

Lemma wp_modify (f : S -> S) Q s : wp (modify f) Q s <-> Q tt (f s).
Proof. done. Qed.

Lemma wp_assertM b Q s : wp (assertM b) Q s <-> b = true /\ Q tt s.
Proof. destruct b; cbn; [tauto | split; [done | by intros [? _]]]. Qed.

Lemma wp_unwrap {A} (o : option A) Q s :
    wp (unwrap o) Q s <-> exists a, o = Some a /\ Q a s.
Proof.
    destruct o as [a|]; cbn; [|by split; [|intros (? & ? & _)]].
    split; [by exists a | by intros (? & [= <-] & ?)].
  Qed.

Lemma wp_eq {A} (m : ST S A) Q s :
    wp m Q s = match m s with Some (a, s') => Q a s' | None => False end.
Proof. done. Qed.

Lemma wp_some {A} (m : ST S A) Q s :
    wp m Q s <-> exists a s', m s = Some (a, s') /\ Q a s'.
Proof.
    unfold wp. destruct (m s) as [[a s']|]; [|by split; [|intros (? & ? & ? & ?)]].
    split; [eauto | by intros (? & ? & [= <- <-] & ?)].
  Qed.
End wp.

(** ** Partial correctness

    [wlp m Q s]: if [m] returns from [s], it is in [Q]. *)
Definition wlp {S A} (m : ST S A) (Q : A -> S -> Prop) (s : S) : Prop :=
  match m s with Some (a, s') => Q a s' | None => True end.

Section wlp.
Context {S : Type}.
Implicit Types s : S.

Lemma wlp_ret {A} (a : A) (Q : A -> S -> Prop) s : wlp (mret a) Q s <-> Q a s.
Proof. done. Qed.

Lemma wlp_bind {A B} (m : ST S A) (f : A -> ST S B) Q s :
  wlp (m ≫= f) Q s <-> wlp m (fun a s' => wlp (f a) Q s') s.
Proof. unfold wlp, mbind, st_bind. by destruct (m s) as [[a s']|]. Qed.

Lemma wlp_mono {A} (m : ST S A) (Q Q' : A -> S -> Prop) s :
  wlp m Q s -> (forall a s', Q a s' -> Q' a s') -> wlp m Q' s.
Proof. unfold wlp. destruct (m s) as [[a s']|]; eauto. Qed.

Lemma wlp_any {A} (m : ST S A) (Q : A -> S -> Prop) s : (forall a s', Q a s') -> wlp m Q s.
Proof. unfold wlp. by destruct (m s) as [[a s']|]. Qed.

Lemma wlp_get (Q : S -> S -> Prop) s : wlp get Q s <-> Q s s.
Proof. done. Qed.

Lemma wlp_gets {A} (f : S -> A) Q s : wlp (gets f) Q s <-> Q (f s) s.
Proof. done. Qed.

Lemma wlp_modify (f : S -> S) Q s : wlp (modify f) Q s <-> Q tt (f s).
Proof. done. Qed.

Lemma wlp_assertM (b : bool) (Q : unit -> S -> Prop) s : wlp (assertM b) Q s <-> (b = true -> Q tt s).
Proof. destruct b; cbn; [|done]. split; [done|]. intros H. by apply H. Qed.

Lemma wlp_unwrap {A} (o : option A) Q s : wlp (unwrap o) Q s <-> forall a, o = Some a -> Q a s.
Proof. destruct o as [a|]; cbn; [|done]. split; [by intros ? ? [= <-]|]. intros H. by apply H. Qed.

Lemma wlp_whenM (b : bool) m Q s : wlp (whenM b m) Q s <-> if b then wlp m Q s else Q tt s.
Proof. by destruct b. Qed.

Lemma wlp_if {A} (b : bool) (m1 m2 : ST S A) Q s :
  wlp (if b then m1 else m2) Q s <-> if b then wlp m1 Q s else wlp m2 Q s.
Proof. by destruct b. Qed.

Lemma wlp_some {A} (m : ST S A) Q s a s' : wlp m Q s -> m s = Some (a, s') -> Q a s'.
Proof. intros H E. unfold wlp in H. by rewrite E in H. Qed.
End wlp.

Create Rewrite HintDb wlp.
#[global] Hint Rewrite @wlp_ret @wlp_bind @wlp_get @wlp_gets @wlp_modify @wlp_assertM @wlp_unwrap @wlp_whenM : wlp.

(** ** Equality of routines

    Two routines are equal when they do the same from every state. *)
Record st_eq {S A} (m1 m2 : ST S A) : Prop := StEq { st_eq_at : forall s, m1 s = m2 s }.
Infix "≈" := st_eq (at level 70, no associativity) : stdpp_scope.

#[global] Instance st_eq_equivalence {S A} : Equivalence (@st_eq S A).
Proof.
  split; [done | by intros m1 m2 [H]; split; intros s; rewrite H |].
  intros m1 m2 m3 [H1] [H2]. split. intros s. by rewrite H1, H2.
Qed.

#[global] Instance bind_proper {S A B} :
  Proper (pointwise_relation A (@st_eq S B) ==> @st_eq S A ==> @st_eq S B) (mbind (M := ST S)).
Proof.
  intros f g Hf m1 m2 [Hm]. split. intros s. unfold mbind, st_bind. rewrite Hm.
  destruct (m2 s) as [[a s']|]; [apply Hf | done].
Qed.

#[global] Instance wp_proper {S A} :
  Proper (@st_eq S A ==> eq ==> eq ==> iff) wp.
Proof. intros m1 m2 [H] Q ? <- s ? <-. unfold wp. by rewrite H. Qed.

Lemma bind_ret_l {S A B} (a : A) (f : A -> ST S B) : (mret a ≫= f) ≈ f a.
Proof. by split. Qed.

Lemma bind_ret_r {S A} (m : ST S A) : (a ← m; mret a) ≈ m.
Proof. split. intros s. unfold mbind, st_bind. by destruct (m s) as [[a s']|]. Qed.

Lemma bind_unit {S} (m : ST S unit) : (m;; mret tt) ≈ m.
Proof. split. intros s. unfold mbind, st_bind. by destruct (m s) as [[[] s']|]. Qed.

Lemma bind_assoc {S A B C} (m : ST S A) (f : A -> ST S B) (g : B -> ST S C) :
  ((m ≫= f) ≫= g) ≈ (m ≫= (fun a => f a ≫= g)).
Proof. split. intros s. unfold mbind, st_bind. by destruct (m s) as [[a s']|]. Qed.

(** Flatten nested binds and drop the binds of returned values. *)
Ltac st_norm := repeat first [setoid_rewrite bind_assoc | setoid_rewrite bind_ret_l]; cbv beta iota.

(** The body of a loop for each element in turn. *)
Fixpoint for_each {S A} (f : A -> ST S unit) (l : list A) : ST S unit :=
  match l with
  | [] => mret tt
  | a :: l => f a;; for_each f l
  end.

Lemma for_each_app {S A} (f : A -> ST S unit) l k :
  for_each f (l ++ k) ≈ (for_each f l;; for_each f k).
Proof.
  induction l as [|a l IH]; cbn; [done|].
  rewrite bind_assoc. f_equiv. intros ?. apply IH.
Qed.

Lemma for_each_map {S A B} (g : A -> B) (f : B -> ST S unit) l :
  for_each f (g <$> l) ≈ for_each (fun a => f (g a)) l.
Proof. induction l as [|a l IH]; cbn; [done|]. f_equiv. intros ?. apply IH. Qed.

(** ** What a routine leaves alone

    [keeps f m]: when [m] returns, [f] of the state is what it was. *)
Definition keeps {S A B} (f : S -> B) (m : ST S A) : Prop :=
  forall s, match m s with Some (_, s') => f s' = f s | None => True end.

Create HintDb keeps.

Section keeps.
Context {S B : Type} (f : S -> B).

Lemma keeps_ret {A} (a : A) : keeps f (mret a).
Proof. by intros s. Qed.

Lemma keeps_bind {A C} (m : ST S A) (g : A -> ST S C) :
  keeps f m -> (forall a, keeps f (g a)) -> keeps f (m ≫= g).
Proof.
  intros Hm Hg s. specialize (Hm s). unfold mbind, st_bind.
  destruct (m s) as [[a s']|]; [|done]. specialize (Hg a s').
  destruct (g a s') as [[? ?]|]; [|done]. by rewrite Hg.
Qed.

Lemma keeps_get : keeps f get.
Proof. by intros s. Qed.

Lemma keeps_gets {A} (g : S -> A) : keeps f (gets g).
Proof. by intros s. Qed.

Lemma keeps_modify g : (forall s, f (g s) = f s) -> keeps f (modify g).
Proof. intros H s. apply H. Qed.

Lemma keeps_assertM b : keeps f (assertM b).
Proof. by destruct b. Qed.

Lemma keeps_unwrap {A} (o : option A) : keeps f (unwrap o).
Proof. by destruct o. Qed.

Lemma keeps_fault {A} : keeps f (@fault S A).
Proof. by intros s. Qed.

Lemma keeps_whenM b m : keeps f m -> keeps f (whenM b m).
Proof. by destruct b. Qed.

Lemma keeps_for_each {A} (g : A -> ST S unit) l : (forall a, keeps f (g a)) -> keeps f (for_each g l).
Proof. intros H. induction l; cbn; [apply keeps_ret | by apply keeps_bind]. Qed.

Lemma keeps_wp {A} (m : ST S A) Q s :
  keeps f m -> wp m Q s -> wp m (fun a s' => Q a s' /\ f s' = f s) s.
Proof. intros Hk. specialize (Hk s). unfold wp. by destruct (m s) as [[a s']|]. Qed.

Lemma keeps_st_eq {A} (m1 m2 : ST S A) : m1 ≈ m2 -> keeps f m1 -> keeps f m2.
Proof. intros [H] Hk s. rewrite <- H. apply Hk. Qed.
End keeps.

#[export] Hint Resolve keeps_ret keeps_get keeps_gets keeps_assertM keeps_unwrap keeps_fault
  keeps_for_each : keeps.

(** Follow the structure of a routine; an update of other fields keeps this one. *)
Ltac keeps_step :=
  match goal with
  | |- keeps _ (_ ≫= _) => apply keeps_bind; [|intros ?]
  | |- keeps _ (whenM _ _) => apply keeps_whenM
  | |- keeps _ (modify _) => apply keeps_modify; intros ?; reflexivity
  | |- keeps _ (match ?x with _ => _ end) => destruct x
  | |- keeps _ (let '_ := ?x in _) => destruct x
  | _ => solve [auto with keeps]
  end.
Ltac keeps_tac := repeat keeps_step.

#[global] Opaque wp.

Create Rewrite HintDb wp.
#[global] Hint Rewrite @wp_ret @wp_bind @wp_get @wp_gets @wp_modify @wp_assertM @wp_unwrap : wp.

(** [wp_step] pushes [wp] through the monadic structure of the goal. *)
Ltac wp_step := autorewrite with wp; cbv beta.

(** [upd_simpl] computes record updates and projections. *)
Ltac upd_simpl := unfold upd in *; cbn in *.

(** [proj_simpl] computes the projections of record updates only: [p (r <| q ::= g |>)]
    becomes [g (p r)] or [p r], for the fields [p] of a registered record. *)
Ltac is_field p :=
  is_const p;
  lazymatch type of p with
  | ?R -> _ =>
    let i := constr:(_ : Eta R) in
    let e := (eval red in i) in
    lazymatch e with context [p] => idtac end
  end.

Ltac proj_simpl :=
  repeat match goal with
  | |- context [?p (upd ?q ?g ?r)] =>
    is_field p;
    tryif constr_eq p q
    then (let E := constr:(forall h x, p (upd q h x) = h (p x)) in
          rewrite ((fun _ _ => eq_refl) : E); cbv beta)
    else (let E := constr:(forall h x, p (upd q h x) = p x) in
          rewrite ((fun _ _ => eq_refl) : E))
  | H : context [?p (upd ?q ?g ?r)] |- _ =>
    is_field p;
    tryif constr_eq p q
    then (let E := constr:(forall h x, p (upd q h x) = h (p x)) in
          rewrite ((fun _ _ => eq_refl) : E) in H; cbv beta in H)
    else (let E := constr:(forall h x, p (upd q h x) = p x) in
          rewrite ((fun _ _ => eq_refl) : E) in H)
  end.
