(* ===== verification/Packet.v ===== *)
(** Packet buffers: [struct _mosquitto_packet] (lib/mosquitto_internal.h), its
    allocation with the MQTT variable-length header (lib/util_mosq.c) and the
    bounds-checked readers and writers of lib/net_mosq.c.  The routines are
    [ST packet] programs: an index outside [payload] or a failed [assert] is a
    fault. *)

From S2P Require Export Prelude.
#[local] Open Scope Z_scope.

(** * Data *)

(** enum mosq_err_t *)
Definition MOSQ_ERR_CONN_PENDING : Z := -1.
Definition MOSQ_ERR_SUCCESS : Z := 0.
Definition MOSQ_ERR_NOMEM : Z := 1.
Definition MOSQ_ERR_PROTOCOL : Z := 2.
Definition MOSQ_ERR_INVAL : Z := 3.
Definition MOSQ_ERR_NO_CONN : Z := 4.
Definition MOSQ_ERR_CONN_REFUSED : Z := 5.
Definition MOSQ_ERR_NOT_FOUND : Z := 6.
Definition MOSQ_ERR_CONN_LOST : Z := 7.
Definition MOSQ_ERR_TLS : Z := 8.
Definition MOSQ_ERR_PAYLOAD_SIZE : Z := 9.
Definition MOSQ_ERR_NOT_SUPPORTED : Z := 10.
Definition MOSQ_ERR_AUTH : Z := 11.
Definition MOSQ_ERR_ACL_DENIED : Z := 12.
Definition MOSQ_ERR_UNKNOWN : Z := 13.
Definition MOSQ_ERR_ERRNO : Z := 14.

(** The control packet types and CONNACK codes of lib/mqtt3_protocol.h. *)
Definition CONNECT : Z := 0x10.
Definition CONNACK : Z := 0x20.
Definition PUBLISH : Z := 0x30.
Definition PUBACK : Z := 0x40.
Definition PUBREC : Z := 0x50.
Definition PUBREL : Z := 0x60.
Definition PUBCOMP : Z := 0x70.
Definition SUBSCRIBE : Z := 0x80.
Definition SUBACK : Z := 0x90.
Definition UNSUBSCRIBE : Z := 0xA0.
Definition UNSUBACK : Z := 0xB0.
Definition PINGREQ : Z := 0xC0.
Definition PINGRESP : Z := 0xD0.
Definition DISCONNECT : Z := 0xE0.

Definition CONNACK_ACCEPTED : Z := 0.
Definition CONNACK_REFUSED_PROTOCOL_VERSION : Z := 1.
Definition CONNACK_REFUSED_IDENTIFIER_REJECTED : Z := 2.
Definition CONNACK_REFUSED_SERVER_UNAVAILABLE : Z := 3.
Definition CONNACK_REFUSED_BAD_USERNAME_PASSWORD : Z := 4.
Definition CONNACK_REFUSED_NOT_AUTHORIZED : Z := 5.

(** [struct _mosquitto_packet]; [next] is the position in the queue that holds
    the packet.  A NULL [payload] is the empty buffer. *)
Record packet := Packet {
  p_payload : list byte;
  p_remaining_mult : Z;
  p_remaining_length : Z;
  p_packet_length : Z;
  p_to_process : Z;
  p_pos : Z;
  p_mid : Z;
  p_command : Z;
  p_remaining_count : Z }.

#[global] Instance eta_packet : Eta packet := fun p =>
  Packet (p_payload p) (p_remaining_mult p) (p_remaining_length p) (p_packet_length p)
    (p_to_process p) (p_pos p) (p_mid p) (p_command p) (p_remaining_count p).

(** Normalise updates of a packet to the record they denote. *)
Ltac packet_compute :=
  cbv beta iota delta [upd p_payload p_remaining_mult p_remaining_length p_packet_length
    p_to_process p_pos p_mid p_command p_remaining_count] in *.

(** [_mosquitto_calloc(1, sizeof(struct _mosquitto_packet))] *)
Definition packet_calloc : packet := Packet [] 0 0 0 0 0 0 0 0.

(** [MOSQ_MSB], [MOSQ_LSB] *)
Definition MOSQ_MSB (a : Z) : Z := u8 (Z.shiftr (Z.land a 0xFF00) 8).
Definition MOSQ_LSB (a : Z) : Z := u8 (Z.land a 0x00FF).

(** * Operations *)

(** The do-while loop that splits [remaining_length] into 7-bit digits; five
    iterations at most. *)
Fixpoint remaining_bytes (n : nat) (remaining_length : Z) : list Z :=
  match n with
  | O => []
  | S n =>
    let byte := u8 (remaining_length mod 128) in
    let rest := remaining_length / 128 in
    if 0 <? rest then Z.lor byte 0x80 :: remaining_bytes n rest
    else [byte]
  end.

Definition _mosquitto_packet_alloc : ST packet Z :=
  p ← get;
  let bs := remaining_bytes 5 (p_remaining_length p) in
  let count := Z.of_nat (length bs) in
  modify (fun p => p <| p_payload := [] |> <| p_remaining_count := count |>);;
  if count =? 5 then mret MOSQ_ERR_PAYLOAD_SIZE else
  let plen := u32 (p_remaining_length p + 1 + count) in
  modify (fun p => p
    <| p_packet_length := plen |>
    <| p_payload := byte_of_Z (p_command p) :: map byte_of_Z bs
                    ++ replicate (Z.to_nat plen - 1 - length bs) NUL |>
    <| p_pos := 1 + count |>);;
  mret MOSQ_ERR_SUCCESS.

Definition _mosquitto_packet_cleanup (p : packet) : packet :=
  p <| p_command := 0 |> <| p_remaining_count := 0 |> <| p_remaining_mult := 1 |>
    <| p_remaining_length := 0 |> <| p_payload := [] |> <| p_to_process := 0 |>
    <| p_pos := 0 |>.

Definition _mosquitto_read_byte : ST packet (res Z) :=
  p ← get;
  if p_remaining_length p <? u32 (p_pos p + 1) then mret (RErr MOSQ_ERR_PROTOCOL) else
  b ← unwrap (p_payload p !! Z.to_nat (p_pos p));
  modify (fun p => p <| p_pos := u32 (p_pos p + 1) |>);;
  mret (ROk (Z_of_byte b)).

Definition _mosquitto_write_byte (byte : Z) : ST packet unit :=
  p ← get;
  assertM (u32 (p_pos p + 1) <=? p_packet_length p);;
  assertM (p_pos p <? Z.of_nat (length (p_payload p)));;
  modify (fun p => p <| p_payload := <[Z.to_nat (p_pos p) := byte_of_Z byte]> (p_payload p) |>
                     <| p_pos := u32 (p_pos p + 1) |>).

Definition _mosquitto_read_bytes (count : Z) : ST packet (res (list byte)) :=
  p ← get;
  if p_remaining_length p <? u32 (p_pos p + count) then mret (RErr MOSQ_ERR_PROTOCOL) else
  assertM (p_pos p + count <=? Z.of_nat (length (p_payload p)));;
  modify (fun p => p <| p_pos := u32 (p_pos p + count) |>);;
  mret (ROk (take (Z.to_nat count) (drop (Z.to_nat (p_pos p)) (p_payload p)))).

(** [memcpy(&payload[pos], bytes, count)] *)
Definition memcpy_at (buf : list byte) (i : nat) (bytes : list byte) : list byte :=
  take i buf ++ bytes ++ drop (i + length bytes) buf.

Definition _mosquitto_write_bytes (bytes : list byte) (count : Z) : ST packet unit :=
  p ← get;
  assertM (u32 (p_pos p + count) <=? p_packet_length p);;
  assertM (p_pos p + count <=? Z.of_nat (length (p_payload p)));;
  assertM (count <=? Z.of_nat (length bytes));;
  modify (fun p => p
    <| p_payload := memcpy_at (p_payload p) (Z.to_nat (p_pos p)) (take (Z.to_nat count) bytes) |>
    <| p_pos := u32 (p_pos p + count) |>).

Definition _mosquitto_read_uint16 : ST packet (res Z) :=
  p ← get;
  if p_remaining_length p <? u32 (p_pos p + 2) then mret (RErr MOSQ_ERR_PROTOCOL) else
  msb ← unwrap (p_payload p !! Z.to_nat (p_pos p));
  modify (fun p => p <| p_pos := u32 (p_pos p + 1) |>);;
  p ← get;
  lsb ← unwrap (p_payload p !! Z.to_nat (p_pos p));
  modify (fun p => p <| p_pos := u32 (p_pos p + 1) |>);;
  mret (ROk (u16 (Z.shiftl (Z_of_byte msb) 8 + Z_of_byte lsb))).

Definition _mosquitto_write_uint16 (word : Z) : ST packet unit :=
  _mosquitto_write_byte (MOSQ_MSB word);;
  _mosquitto_write_byte (MOSQ_LSB word).

(** The caller sees the copied bytes as a C string: [cstr]. *)
Definition _mosquitto_read_string : ST packet (res str) :=
  r ← _mosquitto_read_uint16;
  match r with
  | RErr rc => mret (RErr rc)
  | ROk len =>
    p ← get;
    if p_remaining_length p <? u32 (p_pos p + len) then mret (RErr MOSQ_ERR_PROTOCOL) else
    assertM (p_pos p + len <=? Z.of_nat (length (p_payload p)));;
    modify (fun p => p <| p_pos := u32 (p_pos p + len) |>);;
    mret (ROk (cstr (take (Z.to_nat len) (drop (Z.to_nat (p_pos p)) (p_payload p)))))
  end.

(** [length] is a [uint16_t] parameter: the argument is truncated. *)
Definition _mosquitto_write_string (s : str) (len : Z) : ST packet unit :=
  _mosquitto_write_uint16 (u16 len);;
  _mosquitto_write_bytes s (u16 len).


(** * Bytes *)

Lemma Z_of_byte_range b : 0 <= Z_of_byte b < 256.
Proof. unfold Z_of_byte. pose proof (N_ascii_bounded b). lia. Qed.

Lemma byte_of_Z_of_byte b : byte_of_Z (Z_of_byte b) = b.
Proof.
  unfold byte_of_Z. pose proof (Z_of_byte_range b). rewrite Z.mod_small by lia.
  unfold Z_of_byte. by rewrite N2Z.id, ascii_N_embedding.
Qed.

Lemma Z_of_byte_of_Z z : Z_of_byte (byte_of_Z z) = z mod 256.
Proof.
  unfold Z_of_byte, byte_of_Z. pose proof (Z.mod_pos_bound z 256).
  rewrite N_ascii_embedding by lia. lia.
Qed.

Lemma u32_small z : 0 <= z < 2 ^ 32 -> u32 z = z.
Proof. apply Z.mod_small. Qed.

Lemma u16_small z : 0 <= z < 2 ^ 16 -> u16 z = z.
Proof. apply Z.mod_small. Qed.

(** A fact about 7-bit digits, checked on all of them. *)
Lemma digit_cases (P : Z -> bool) :
  forallb P (map Z.of_nat (seq 0 128)) = true -> forall x, 0 <= x < 128 -> P x = true.
Proof.
  rewrite forallb_forall. intros H x Hx. apply H, in_map_iff.
  exists (Z.to_nat x). split; [lia|]. apply in_seq. lia.
Qed.

Lemma lor_128 x : 0 <= x < 128 -> Z.lor x 0x80 = x + 128.
Proof.
  intros Hx. apply Z.eqb_eq.
  by apply (digit_cases (fun x => Z.lor x 0x80 =? x + 128)); [vm_compute|].
Qed.

Lemma land_127 x : Z.land x 127 = x mod 128.
Proof. change 127 with (Z.ones 7). by rewrite Z.land_ones. Qed.

(** * The remaining-length digits *)

(** The number the digits stand for, and their framing: every digit but the
    last has its top bit set. *)
Fixpoint digits_value (bs : list Z) : Z :=
  match bs with
  | [] => 0
  | b :: bs => Z.land b 127 + 128 * digits_value bs
  end.

Fixpoint digits_framed (bs : list Z) : Prop :=
  match bs with
  | [] => False
  | [b] => 0 <= b < 128
  | b :: bs => 128 <= b < 256 /\ digits_framed bs
  end.

Lemma remaining_bytes_S n rl :
  0 <= rl ->
  remaining_bytes (S n) rl =
  if 0 <? rl / 128 then (rl mod 128 + 128) :: remaining_bytes n (rl / 128) else [rl mod 128].
Proof.
  intros H. cbn [remaining_bytes]. pose proof (Z.mod_pos_bound rl 128).
  assert (u8 (rl mod 128) = rl mod 128) as -> by (apply Z.mod_small; lia).
  by rewrite lor_128 by lia.
Qed.

Lemma remaining_bytes_value n rl :
  0 <= rl < 128 ^ Z.of_nat (S n) ->
  digits_value (remaining_bytes (S n) rl) = rl /\ digits_framed (remaining_bytes (S n) rl).
Proof.
  revert rl. induction n as [|n IH]; intros rl Hrl; rewrite remaining_bytes_S by lia;
    pose proof (Z.mod_pos_bound rl 128); pose proof (Z.div_mod rl 128).
  - rewrite (proj2 (Z.ltb_ge 0 _)) by (apply Z.lt_succ_r, Z.div_lt_upper_bound; lia).
    cbn [digits_value digits_framed]. rewrite land_127, Z.mod_mod by lia.
    assert (rl / 128 = 0) by (apply Z.div_small; lia). lia.
  - destruct (0 <? rl / 128) eqn:E.
    + destruct (IH (rl / 128)) as [IH1 IH2].
      { split; [lia|]. apply Z.div_lt_upper_bound; [lia|].
        rewrite Nat2Z.inj_succ, Z.pow_succ_r in Hrl by lia. lia. }
      cbn [digits_value]. rewrite IH1, land_127.
      replace (rl mod 128 + 128) with (rl mod 128 + 1 * 128) by lia.
      rewrite Z.mod_add, Z.mod_mod by lia. split; [lia|].
      cbn [digits_framed]. destruct (remaining_bytes (S n) (rl / 128)); [done|]. split; [lia|done].
    + cbn [digits_value digits_framed]. rewrite land_127, Z.mod_mod by lia. lia.
Qed.

Lemma remaining_bytes_length n rl :
  0 <= rl -> (1 <= length (remaining_bytes (S n) rl) <= S n)%nat.
Proof.
  revert rl. induction n as [|n IH]; intros rl Hrl; rewrite remaining_bytes_S by lia;
    destruct (0 <? rl / 128); cbn [length]; try (cbn; lia).
  specialize (IH (rl / 128) ltac:(apply Z.div_pos; lia)). lia.
Qed.

Lemma remaining_bytes_full n rl :
  0 <= rl -> length (remaining_bytes (S (S n)) rl) = S (S n) <-> 128 ^ Z.of_nat (S n) <= rl.
Proof.
  revert rl. induction n as [|n IH]; intros rl Hrl; rewrite remaining_bytes_S by lia;
    pose proof (Z.mul_div_le rl 128 ltac:(lia)); pose proof (Z.div_pos rl 128 Hrl ltac:(lia)).
  - change (128 ^ Z.of_nat 1) with 128.
    pose proof (remaining_bytes_length 0 (rl / 128) ltac:(lia)).
    destruct (0 <? rl / 128) eqn:E; cbn [length].
    + split; lia.
    + split; [done|]. intros. pose proof (Z.div_le_lower_bound rl 128 1). lia.
  - rewrite (Nat2Z.inj_succ (S n)), Z.pow_succ_r by lia.
    pose proof (Z.pow_pos_nonneg 128 (Z.of_nat (S n)) ltac:(lia) ltac:(lia)).
    destruct (0 <? rl / 128) eqn:E; cbn [length].
    + rewrite Nat.succ_inj_wd, IH by lia. split; intros H2; [lia|].
      apply Z.div_le_lower_bound; lia.
    + split; [done|]. intros H2. pose proof (Z.div_le_lower_bound rl 128 1). lia.
Qed.

(** * Writing *)

(** A packet whose buffer is allocated and whose cursor is inside it. *)
Definition packet_wf (p : packet) : Prop :=
  0 <= p_pos p <= p_packet_length p /\
  Z.of_nat (length (p_payload p)) = p_packet_length p /\ p_packet_length p < 2 ^ 32.

(** What has been written so far. *)
Definition written (p : packet) : list byte := take (Z.to_nat (p_pos p)) (p_payload p).

Definition enc_uint16 (w : Z) : list byte := [byte_of_Z (MOSQ_MSB w); byte_of_Z (MOSQ_LSB w)].
Definition enc_string (s : str) : list byte := enc_uint16 (strlen s) ++ s.

(** [appends bs p p']: the routine wrote exactly [bs] at the cursor. *)
Definition appends (bs : list byte) (p p' : packet) : Prop :=
  packet_wf p' /\ written p' = written p ++ bs
  /\ p_pos p' = p_pos p + Z.of_nat (length bs)
  /\ p_packet_length p' = p_packet_length p /\ p_command p' = p_command p
  /\ p_remaining_length p' = p_remaining_length p /\ p_mid p' = p_mid p.

Definition room (p : packet) : Z := p_packet_length p - p_pos p.

Lemma memcpy_at_length buf i bs :
  (i + length bs <= length buf)%nat -> length (memcpy_at buf i bs) = length buf.
Proof. intros H. unfold memcpy_at. rewrite !length_app, length_take, length_drop. lia. Qed.

Lemma write_bytes_appends bs p :
  packet_wf p -> Z.of_nat (length bs) <= room p ->
  wp (_mosquitto_write_bytes bs (Z.of_nat (length bs))) (fun _ p' => appends bs p p') p.
Proof.
  unfold room. intros (H1 & H2 & H3) Hr. unfold _mosquitto_write_bytes. wp_step.
  rewrite u32_small by lia. split; [lia|]. split; [lia|]. split; [lia|].
  unfold appends, packet_wf, written. upd_simpl.
  rewrite Nat2Z.id, firstn_all, memcpy_at_length by lia.
  split; [lia|]. split; [|done]. unfold memcpy_at. rewrite app_assoc, take_app_le.
  - rewrite take_ge; [done|]. rewrite length_app, length_take. lia.
  - rewrite length_app, length_take. lia.
Qed.

Lemma write_byte_appends b p :
  packet_wf p -> 1 <= room p ->
  wp (_mosquitto_write_byte b) (fun _ p' => appends [byte_of_Z b] p p') p.
Proof.
  unfold room. intros (H1 & H2 & H3) Hr. unfold _mosquitto_write_byte. wp_step.
  rewrite u32_small by lia. split; [lia|]. split; [lia|].
  unfold appends, packet_wf, written. upd_simpl.
  rewrite length_insert. split; [lia|]. split; [|done].
  replace (Z.to_nat (p_pos p + 1)) with (S (Z.to_nat (p_pos p))) by lia.
  rewrite (take_S_r _ _ (byte_of_Z b)) by (apply list_lookup_insert_eq; lia).
  by rewrite take_insert_ge by lia.
Qed.

Lemma appends_trans bs1 bs2 p p1 p2 :
  appends bs1 p p1 -> appends bs2 p1 p2 -> appends (bs1 ++ bs2) p p2.
Proof.
  intros (H1 & H2 & H3 & H4 & H5 & H6 & H7) (G1 & G2 & G3 & G4 & G5 & G6 & G7).
  split; [done|]. rewrite G2, H2, app_assoc. rewrite length_app. split; [done|]. split; [lia|].
  split; [lia|]. repeat split; congruence.
Qed.

Lemma appends_room bs p p' : appends bs p p' -> room p' = room p - Z.of_nat (length bs).
Proof. intros (_ & _ & H3 & H4 & _). unfold room. lia. Qed.

Lemma appends_wf bs p p' : appends bs p p' -> packet_wf p'.
Proof. by intros [? _]. Qed.

Lemma write_uint16_appends w p :
  packet_wf p -> 2 <= room p ->
  wp (_mosquitto_write_uint16 w) (fun _ p' => appends (enc_uint16 w) p p') p.
Proof.
  intros Hp Hr. unfold _mosquitto_write_uint16. wp_step.
  eapply wp_mono; [apply write_byte_appends; [done | lia]|cbv beta]. intros _ p1 H1.
  pose proof (appends_room _ _ _ H1) as R. cbn in R.
  eapply wp_mono; [apply write_byte_appends; [by eapply appends_wf | lia]|cbv beta]. intros _ p2 H2.
  apply (appends_trans _ _ _ _ _ H1 H2).
Qed.

Lemma write_string_appends s p :
  packet_wf p -> strlen s < 2 ^ 16 -> 2 + strlen s <= room p ->
  wp (_mosquitto_write_string s (strlen s)) (fun _ p' => appends (enc_string s) p p') p.
Proof.
  intros Hp Hl Hr. unfold _mosquitto_write_string. wp_step.
  assert (0 <= strlen s) by (unfold strlen; lia). rewrite u16_small by lia.
  eapply wp_mono; [apply write_uint16_appends; [done | lia]|cbv beta]. intros _ p1 H1.
  pose proof (appends_room _ _ _ H1) as R. cbn in R.
  eapply wp_mono; [apply write_bytes_appends; [by eapply appends_wf | unfold strlen in *; lia]|cbv beta].
  intros _ p2 H2. apply (appends_trans _ _ _ _ _ H1 H2).
Qed.

(** * Reading *)

(** A received packet: the buffer holds [remaining_length] bytes, fewer than the
    2^28 that four length digits can announce, and the cursor is inside. *)
Definition inpacket_wf (p : packet) : Prop :=
  0 <= p_pos p <= p_remaining_length p /\
  Z.of_nat (length (p_payload p)) = p_remaining_length p /\ p_remaining_length p < 2 ^ 28.

(** What is left to read. *)
Definition unread (p : packet) : list byte := drop (Z.to_nat (p_pos p)) (p_payload p).

Definition advance (n : Z) (p : packet) : packet := p <| p_pos ::= Z.add n |>.

Lemma unread_length p : inpacket_wf p -> Z.of_nat (length (unread p)) = p_remaining_length p - p_pos p.
Proof. intros (H1 & H2 & H3). unfold unread. rewrite length_drop. lia. Qed.

Lemma advance_wf n p : inpacket_wf p -> 0 <= n <= p_remaining_length p - p_pos p -> inpacket_wf (advance n p).
Proof. unfold inpacket_wf, advance. upd_simpl. lia. Qed.

Lemma unread_advance n p :
  inpacket_wf p -> 0 <= n -> unread (advance n p) = drop (Z.to_nat n) (unread p).
Proof.
  intros (H & _) Hn. unfold unread, advance. upd_simpl. rewrite drop_drop. f_equal. lia.
Qed.

Lemma advance_add n m p : advance n (advance m p) = advance (n + m) p.
Proof. unfold advance. upd_simpl. f_equal. lia. Qed.

Lemma set_pos_advance n p :
  inpacket_wf p -> 0 <= n <= p_remaining_length p - p_pos p ->
  p <| p_pos := u32 (p_pos p + n) |> = advance n p.
Proof. intros (? & ? & ?) ?. unfold advance. upd_simpl. rewrite u32_small by lia. f_equal. lia. Qed.

Lemma unread_lookup p : inpacket_wf p -> p_payload p !! Z.to_nat (p_pos p) = head (unread p).
Proof.
  intros _. unfold unread. rewrite <- (Nat.add_0_r (Z.to_nat (p_pos p))) at 1.
  rewrite <- lookup_drop. by destruct (drop _ _).
Qed.

Lemma read_byte_eq p :
  inpacket_wf p ->
  _mosquitto_read_byte p = Some match unread p with
                                | [] => (RErr MOSQ_ERR_PROTOCOL, p)
                                | b :: _ => (ROk (Z_of_byte b), advance 1 p)
                                end.
Proof.
  intros Hp. pose proof (unread_length p Hp) as Hl. pose proof (unread_lookup p Hp) as Hu.
  pose proof Hp as (H1 & H2 & H3). unfold _mosquitto_read_byte, get, mbind, st_bind.
  rewrite u32_small by lia. destruct (unread p) as [|b u]; cbn [length] in Hl.
  - by rewrite (proj2 (Z.ltb_lt _ _)) by lia.
  - rewrite (proj2 (Z.ltb_ge _ _)), Hu by lia. cbn. f_equal. f_equal.
    rewrite <- set_pos_advance by (done || lia). done.
Qed.

Lemma read_bytes_eq n p :
  inpacket_wf p -> 0 <= n < 2 ^ 28 ->
  _mosquitto_read_bytes n p =
  Some (if Z.of_nat (length (unread p)) <? n then (RErr MOSQ_ERR_PROTOCOL, p)
        else (ROk (take (Z.to_nat n) (unread p)), advance n p)).
Proof.
  intros Hp Hn. pose proof (unread_length p Hp) as Hl. rewrite Hl.
  pose proof Hp as (H1 & H2 & H3). unfold _mosquitto_read_bytes, get, mbind, st_bind.
  rewrite u32_small by lia.
  destruct (p_remaining_length p <? p_pos p + n) eqn:E.
  - by rewrite (proj2 (Z.ltb_lt _ _)) by lia.
  - rewrite (proj2 (Z.ltb_ge (_ - _) _)) by lia. rewrite (proj2 (Z.leb_le _ _)) by lia.
    cbn. rewrite <- set_pos_advance by (done || lia). by rewrite u32_small by lia.
Qed.

Lemma read_uint16_eq p :
  inpacket_wf p ->
  _mosquitto_read_uint16 p =
  Some match unread p with
       | a :: b :: _ => (ROk (256 * Z_of_byte a + Z_of_byte b), advance 2 p)
       | _ => (RErr MOSQ_ERR_PROTOCOL, p)
       end.
Proof.
  intros Hp. pose proof (unread_length p Hp) as Hl. pose proof (unread_lookup p Hp) as Hu.
  pose proof Hp as (H1 & H2 & H3). unfold _mosquitto_read_uint16, get, mbind, st_bind.
  rewrite u32_small by lia. destruct (unread p) as [|a [|b u]] eqn:E; cbn [length] in Hl.
  1-2: by rewrite (proj2 (Z.ltb_lt _ _)) by lia.
  rewrite (proj2 (Z.ltb_ge _ _)), Hu by lia. cbn [unwrap head mret st_ret modify].
  rewrite set_pos_advance by (done || lia).
  assert (Hp1 : inpacket_wf (advance 1 p)) by (apply advance_wf; [done | lia]).
  rewrite unread_lookup, unread_advance, E by (done || lia).
  change (Z.to_nat 1) with 1%nat. cbn [unwrap head drop mret st_ret].
  rewrite set_pos_advance by (done || (unfold advance; upd_simpl; lia)). rewrite advance_add.
  pose proof (Z_of_byte_range a). pose proof (Z_of_byte_range b).
  rewrite Z.shiftl_mul_pow2 by done. rewrite u16_small by lia.
  cbv [mret st_ret]. do 3 f_equal. lia.
Qed.

Lemma read_string_eq p :
  inpacket_wf p ->
  _mosquitto_read_string p =
  Some match unread p with
       | a :: b :: u =>
         let len := 256 * Z_of_byte a + Z_of_byte b in
         if Z.of_nat (length u) <? len then (RErr MOSQ_ERR_PROTOCOL, advance 2 p)
         else (ROk (cstr (take (Z.to_nat len) u)), advance (2 + len) p)
       | _ => (RErr MOSQ_ERR_PROTOCOL, p)
       end.
Proof.
  intros Hp. unfold _mosquitto_read_string. unfold mbind at 1, st_bind at 1.
  rewrite read_uint16_eq by done. pose proof (unread_length p Hp) as Hl.
  destruct (unread p) as [|a [|b u]] eqn:E; cbn [length] in Hl; [done | done|].
  assert (Hp2 : inpacket_wf (advance 2 p)) by (apply advance_wf; [done | lia]).
  pose proof (unread_advance 2 p Hp ltac:(lia)) as Hu. rewrite E in Hu. cbn [Z.to_nat] in Hu.
  change (drop (Z.to_nat 2) (a :: b :: u)) with u in Hu.
  pose proof (unread_length _ Hp2) as Hl2. rewrite Hu in Hl2.
  pose proof (Z_of_byte_range a). pose proof (Z_of_byte_range b).
  set (len := 256 * Z_of_byte a + Z_of_byte b) in *. cbv zeta.
  pose proof Hp2 as (G1 & G2 & G3).
  unfold get, mbind, st_bind. rewrite u32_small by lia. rewrite Hl2.
  destruct (p_remaining_length (advance 2 p) <? p_pos (advance 2 p) + len) eqn:E2.
  - by rewrite (proj2 (Z.ltb_lt _ _)) by lia.
  - rewrite (proj2 (Z.ltb_ge (_ - _) _)) by lia. rewrite (proj2 (Z.leb_le _ _)) by lia.
    cbn [assertM mret st_ret modify]. rewrite set_pos_advance by (done || lia).
    rewrite advance_add, (Z.add_comm len). fold (unread (advance 2 p)). by rewrite Hu.
Qed.

Lemma cstr_no_nul s : NUL ∉ s -> cstr s = s.
Proof.
  induction s as [|c s IH]; cbn; [done|]. intros [? ?]%not_elem_of_cons.
  rewrite decide_False by congruence. by rewrite IH.
Qed.

Lemma cstr_nul s : NUL ∉ cstr s.
Proof.
  induction s as [|c s IH]; cbn; [apply not_elem_of_nil|].
  case_decide; [apply not_elem_of_nil|]. by apply not_elem_of_cons.
Qed.

Lemma enc_uint16_value w :
  0 <= w < 2 ^ 16 ->
  256 * Z_of_byte (byte_of_Z (MOSQ_MSB w)) + Z_of_byte (byte_of_Z (MOSQ_LSB w)) = w.
Proof.
  intros Hw. rewrite !Z_of_byte_of_Z. unfold MOSQ_MSB, MOSQ_LSB, u8, wrap.
  change (2 ^ 8) with 256. rewrite !Z.mod_mod by lia.
  change 0x00FF with (Z.ones 8). rewrite Z.land_ones by lia.
  rewrite Z.shiftr_land. change (Z.shiftr 0xFF00 8) with (Z.ones 8).
  rewrite Z.land_ones, Z.shiftr_div_pow2 by lia. change (2 ^ 8) with 256.
  rewrite !Z.mod_mod by lia. rewrite (Z.mod_small (w / 256)).
  - pose proof (Z.div_mod w 256). lia.
  - split; [apply Z.div_pos; lia | apply Z.div_lt_upper_bound; lia].
Qed.

(** * Allocation *)

(** The fixed header: command byte and remaining length. *)
Definition enc_header (command rl : Z) : list byte :=
  byte_of_Z command :: map byte_of_Z (remaining_bytes 5 rl).

Lemma packet_alloc_run p :
  0 <= p_remaining_length p < 2 ^ 32 ->
  wp _mosquitto_packet_alloc (fun rc p' =>
    (rc = MOSQ_ERR_SUCCESS /\ p_remaining_length p < 2 ^ 28
     /\ packet_wf p' /\ room p' = p_remaining_length p
     /\ written p' = enc_header (p_command p) (p_remaining_length p)
     /\ p_command p' = p_command p /\ p_mid p' = p_mid p)
    \/ (rc = MOSQ_ERR_PAYLOAD_SIZE /\ 2 ^ 28 <= p_remaining_length p /\ p_payload p' = [])) p.
Proof.
  intros H. unfold _mosquitto_packet_alloc, enc_header. wp_step. cbv zeta.
  set (rl := p_remaining_length p) in *.
  pose proof (remaining_bytes_length 4 rl ltac:(lia)) as Hlen.
  pose proof (remaining_bytes_full 3 rl ltac:(lia)) as Hfull.
  change (128 ^ Z.of_nat 4) with (2 ^ 28) in Hfull.
  set (ds := remaining_bytes 5 rl) in *. clearbody ds.
  destruct (Z.of_nat (length ds) =? 5) eqn:E; wp_step.
  - assert (2 ^ 28 <= rl) by (apply Hfull; lia). right. split; [done|]. split; [done|]. by upd_simpl.
  - assert (~ 2 ^ 28 <= rl) by (intros Hc; apply Hfull in Hc; lia). left. split; [done|]. split; [lia|].
    unfold packet_wf, room, written. upd_simpl.
    change (p_remaining_length p) with rl. rewrite u32_small by lia.
    rewrite !length_app, length_map, length_replicate.
    split; [lia|]. split; [lia|]. split; [|done].
    replace (Z.to_nat (1 + Z.of_nat (length ds))) with (S (length ds)) by lia. cbn. f_equal.
    rewrite take_app_le by (rewrite length_map; lia). by rewrite take_ge by (rewrite length_map; lia).
Qed.

(** * Properties *)

(** [_mosquitto_packet_alloc] succeeds exactly for a remaining length below
    2^28; the buffer then starts with the command byte and the length digits,
    which are well framed and denote the remaining length, has room for exactly
    [remaining_length] more bytes, and the cursor is behind the header. *)
Theorem packet_alloc_spec p :
  0 <= p_remaining_length p < 2 ^ 32 ->
  wp _mosquitto_packet_alloc (fun rc p' =>
    (rc = MOSQ_ERR_SUCCESS <-> p_remaining_length p < 2 ^ 28) /\
    (rc <> MOSQ_ERR_SUCCESS -> rc = MOSQ_ERR_PAYLOAD_SIZE /\ p_payload p' = []) /\
    (rc = MOSQ_ERR_SUCCESS ->
       packet_wf p' /\ room p' = p_remaining_length p /\
       exists digits, written p' = byte_of_Z (p_command p) :: map byte_of_Z digits /\
         digits_value digits = p_remaining_length p /\ digits_framed digits)) p.
Proof.
  intros H. eapply wp_mono; [by apply packet_alloc_run|cbv beta].
  intros rc p' [(-> & Hl & Hw & Hr & Hh & _)|(-> & Hl & Hp)].
  - split; [done|]. split; [done|]. intros _. split; [done|]. split; [done|].
    exists (remaining_bytes 5 (p_remaining_length p)). split; [done|].
    apply (remaining_bytes_value 4). change (128 ^ Z.of_nat 5) with (2 ^ 35). lia.
  - split; [split; [done|lia]|]. done.
Qed.

Lemma packet_alloc_spec_witness :
  0 <= p_remaining_length (packet_calloc <| p_remaining_length := 321 |>) < 2 ^ 32 /\
  wp _mosquitto_packet_alloc (fun rc p' =>
    (rc = MOSQ_ERR_SUCCESS <-> 321 < 2 ^ 28) /\
    (rc <> MOSQ_ERR_SUCCESS -> rc = MOSQ_ERR_PAYLOAD_SIZE /\ p_payload p' = []) /\
    (rc = MOSQ_ERR_SUCCESS ->
       packet_wf p' /\ room p' = 321 /\
       exists digits, written p' = byte_of_Z 0 :: map byte_of_Z digits /\
         digits_value digits = 321 /\ digits_framed digits))
    (packet_calloc <| p_remaining_length := 321 |>).
Proof.
  split; [done|].
  exact (packet_alloc_spec (packet_calloc <| p_remaining_length := 321 |>) ltac:(done)).
Defined.

(** C35: [_mosquitto_read_string] on a received packet never reads outside the
    buffer: it returns either a protocol error, or the C string held in the
    [len] bytes that follow the two-byte length, and moves the cursor exactly
    behind them. *)
Theorem read_string_spec p :
  inpacket_wf p ->
  wp _mosquitto_read_string (fun r p' =>
    inpacket_wf p' /\
    match r with
    | RErr rc => rc = MOSQ_ERR_PROTOCOL
    | ROk s => exists a b body rest,
        unread p = a :: b :: body ++ rest /\ unread p' = rest /\
        Z.of_nat (length body) = 256 * Z_of_byte a + Z_of_byte b /\ s = cstr body
    end) p.
Proof.
  intros Hp. rewrite wp_eq, read_string_eq by done. pose proof (unread_length p Hp) as Hl.
  destruct (unread p) as [|a [|b u]] eqn:E; [done | done|]. cbv zeta. cbn [length] in Hl.
  pose proof (Z_of_byte_range a). pose proof (Z_of_byte_range b).
  set (len := 256 * Z_of_byte a + Z_of_byte b) in *.
  destruct (Z.of_nat (length u) <? len) eqn:E2.
  - split; [|done]. apply advance_wf; [done | lia].
  - split; [apply advance_wf; [done | lia]|].
    exists a, b, (take (Z.to_nat len) u), (drop (Z.to_nat len) u). rewrite take_drop.
    split; [done|]. rewrite unread_advance, E, length_take by (done || lia).
    replace (Z.to_nat (2 + len)) with (S (S (Z.to_nat len))) by lia. split; [done|].
    split; [lia | done].
Qed.

Definition sample_in_packet : packet :=
  packet_calloc <| p_payload := enc_string (lit "MQTT") |> <| p_remaining_length := 6 |>.

Lemma read_string_spec_witness :
  inpacket_wf sample_in_packet /\
  wp _mosquitto_read_string (fun r p' =>
    inpacket_wf p' /\
    match r with
    | RErr rc => rc = MOSQ_ERR_PROTOCOL
    | ROk s => exists a b body rest,
        unread sample_in_packet = a :: b :: body ++ rest /\ unread p' = rest /\
        Z.of_nat (length body) = 256 * Z_of_byte a + Z_of_byte b /\ s = cstr body
    end) sample_in_packet.
Proof.
  assert (inpacket_wf sample_in_packet) as H by (vm_compute; intuition discriminate).
  split; [exact H | exact (read_string_spec sample_in_packet H)].
Defined.

(** a string written with [_mosquitto_write_string] is what
    [_mosquitto_read_string] reads back from a packet that carries the written
    bytes, whatever follows them. *)
Theorem string_roundtrip s p q rest :
  (NUL ∉ s) -> strlen s < 2 ^ 16 -> packet_wf p -> 2 + strlen s <= room p -> inpacket_wf q ->
  wp (_mosquitto_write_string s (strlen s)) (fun _ p' =>
    unread q = drop (length (written p)) (written p') ++ rest ->
    wp _mosquitto_read_string (fun r q' => r = ROk s /\ unread q' = rest /\ inpacket_wf q') q) p.
Proof.
  intros HN Hl Hp Hr Hq. eapply wp_mono; [by apply write_string_appends|cbv beta].
  intros _ p' (_ & Hw & _) Hu. rewrite Hw, drop_app_length in Hu. rewrite wp_eq.
  pose proof (unread_length q Hq) as Hlen. rewrite read_string_eq, Hu by done.
  rewrite Hu in Hlen. unfold enc_string, enc_uint16 in *. cbn [app length] in *. cbv zeta.
  rewrite length_app in Hlen. rewrite length_app.
  rewrite enc_uint16_value by (unfold strlen in *; lia). unfold strlen in *.
  rewrite (proj2 (Z.ltb_ge _ _)), Nat2Z.id, take_app_length by lia.
  rewrite cstr_no_nul by done. split; [done|].
  split; [|apply advance_wf; [done | lia]]. rewrite unread_advance, Hu by (done || lia).
  replace (Z.to_nat (2 + Z.of_nat (length s))) with (S (S (length s))) by lia.
  cbn [drop]. by rewrite drop_app_length.
Qed.

Definition sample_out_packet : packet :=
  packet_calloc <| p_payload := replicate 8 NUL |> <| p_packet_length := 8 |>.

Lemma string_roundtrip_witness :
  wp (_mosquitto_write_string (lit "MQTT") (strlen (lit "MQTT"))) (fun _ p' =>
    unread sample_in_packet = drop (length (written sample_out_packet)) (written p') ++ [] ->
    wp _mosquitto_read_string (fun r q' => r = ROk (lit "MQTT") /\ unread q' = [] /\ inpacket_wf q')
      sample_in_packet) sample_out_packet.
Proof.
  apply string_roundtrip.
  - by apply (bool_decide_unpack _); vm_compute.
  - done.
  - vm_compute; intuition discriminate.
  - vm_compute; discriminate.
  - vm_compute; intuition discriminate.
Defined.
