(* ===== verification/Types.v ===== *)
(** The broker's data: the structures of lib/mosquitto_internal.h and
    src/mosquitto_broker.h.  Heap objects that several structures point to
    (contexts, stored messages, subscription nodes, ACL users) have an address
    and live in the maps of [mosquitto_db]; an absent key is freed memory, so a
    lookup that fails is a dangling pointer and faults. *)

From S2P Require Export Packet.
#[local] Open Scope Z_scope.

(** * Enumerations (lib/mosquitto_internal.h) *)

Inductive mosquitto_msg_direction := mosq_md_in | mosq_md_out.

Inductive mosquitto_msg_state :=
| mosq_ms_invalid
| mosq_ms_publish_qos0
| mosq_ms_publish_qos1
| mosq_ms_wait_for_puback
| mosq_ms_publish_qos2
| mosq_ms_wait_for_pubrec
| mosq_ms_resend_pubrel
| mosq_ms_wait_for_pubrel
| mosq_ms_resend_pubcomp
| mosq_ms_wait_for_pubcomp
| mosq_ms_send_pubrec
| mosq_ms_queued.

Inductive mosquitto_client_state :=
| mosq_cs_new
| mosq_cs_connected
| mosq_cs_disconnecting
| mosq_cs_connect_async
| mosq_cs_connect_pending
| mosq_cs_connect_srv
| mosq_cs_disconnect_ws
| mosq_cs_disconnected
| mosq_cs_socks5_new
| mosq_cs_socks5_start
| mosq_cs_socks5_request
| mosq_cs_socks5_reply
| mosq_cs_socks5_auth_ok
| mosq_cs_socks5_userpass_reply
| mosq_cs_socks5_send_userpass
| mosq_cs_expiring.

Inductive _mosquitto_protocol := mosq_p_invalid | mosq_p_mqtt31 | mosq_p_mqtt311 | mosq_p_mqtts.

Inductive mqtt3_bridge_direction := bd_out | bd_in | bd_both.
Inductive mosquitto_bridge_start_type := bst_automatic | bst_lazy | bst_manual | bst_once.

#[global] Instance direction_eq_dec : EqDecision mosquitto_msg_direction.
Proof. solve_decision. Defined.
#[global] Instance msg_state_eq_dec : EqDecision mosquitto_msg_state.
Proof. solve_decision. Defined.
#[global] Instance client_state_eq_dec : EqDecision mosquitto_client_state.
Proof. solve_decision. Defined.
#[global] Instance protocol_eq_dec : EqDecision _mosquitto_protocol.
Proof. solve_decision. Defined.
#[global] Instance bridge_direction_eq_dec : EqDecision mqtt3_bridge_direction.
Proof. solve_decision. Defined.
#[global] Instance start_type_eq_dec : EqDecision mosquitto_bridge_start_type.
Proof. solve_decision. Defined.

(** The integer each state has in the C enum, as the persistence file stores
    it. *)
Definition msg_state_Z (s : mosquitto_msg_state) : Z :=
  match s with
  | mosq_ms_invalid => 0 | mosq_ms_publish_qos0 => 1 | mosq_ms_publish_qos1 => 2
  | mosq_ms_wait_for_puback => 3 | mosq_ms_publish_qos2 => 4 | mosq_ms_wait_for_pubrec => 5
  | mosq_ms_resend_pubrel => 6 | mosq_ms_wait_for_pubrel => 7 | mosq_ms_resend_pubcomp => 8
  | mosq_ms_wait_for_pubcomp => 9 | mosq_ms_send_pubrec => 10 | mosq_ms_queued => 11
  end.

Definition direction_Z (d : mosquitto_msg_direction) : Z :=
  match d with mosq_md_in => 0 | mosq_md_out => 1 end.

Definition INVALID_SOCKET : Z := -1.
Definition MOSQ_ACL_NONE : Z := 0.
Definition MOSQ_ACL_READ : Z := 1.
Definition MOSQ_ACL_WRITE : Z := 2.

(** * Records *)

(** Addresses of heap objects. *)
Abbreviation addr := nat.

(** [struct _mosquitto_subleaf]; [prev]/[next] are the list that holds it. *)
Record _mosquitto_subleaf := Leaf { lf_context : addr; lf_qos : Z }.

(** [struct _mosquitto_subhier]: [HNode a topic subs retained children next] is
    the node at address [a]; [HNil] is the NULL pointer. *)
Inductive _mosquitto_subhier : Type :=
| HNil
| HNode (h_addr : addr) (h_topic : str) (h_subs : list _mosquitto_subleaf)
        (h_retained : option addr) (h_children h_next : _mosquitto_subhier).

(** [struct mosquitto_msg_store]; a NULL [topic] is [None]. *)
Record mosquitto_msg_store := Store {
  s_db_id : Z;
  s_source_id : str;
  s_dest_ids : list str;
  s_ref_count : Z;
  s_topic : option str;
  s_payload : list byte;
  s_source_mid : Z;
  s_mid : Z;
  s_qos : Z;
  s_retain : bool }.

#[global] Instance eta_store : Eta mosquitto_msg_store := fun s =>
  Store (s_db_id s) (s_source_id s) (s_dest_ids s) (s_ref_count s) (s_topic s) (s_payload s)
    (s_source_mid s) (s_mid s) (s_qos s) (s_retain s).

Definition s_payloadlen (s : mosquitto_msg_store) : Z := Z.of_nat (length (s_payload s)).

(** [struct mosquitto_client_msg]; [m_addr] is its own address. *)
Record mosquitto_client_msg := ClientMsg {
  m_addr : addr;
  m_store : addr;
  m_timestamp : Z;
  m_mid : Z;
  m_qos : Z;
  m_retain : bool;
  m_direction : mosquitto_msg_direction;
  m_state : mosquitto_msg_state;
  m_dup : bool }.

#[global] Instance eta_client_msg : Eta mosquitto_client_msg := fun m =>
  ClientMsg (m_addr m) (m_store m) (m_timestamp m) (m_mid m) (m_qos m) (m_retain m)
    (m_direction m) (m_state m) (m_dup m).

(** [struct mosquitto_message], used for wills. *)
Record mosquitto_message := Message {
  msg_topic : str;
  msg_payload : list byte;
  msg_qos : Z;
  msg_retain : bool }.

(** [struct _mosquitto_unpwd] *)
Record _mosquitto_unpwd := Unpwd {
  u_username : str;
  u_password : option (list byte);
  u_salt : list byte }.

(** [struct _mosquitto_acl] *)
Record _mosquitto_acl := Acl {
  a_topic : str;
  a_access : Z;
  a_ucount : Z;
  a_ccount : Z }.

(** [struct _mosquitto_acl_user] *)
Record _mosquitto_acl_user := AclUser {
  au_addr : addr;
  au_username : option str;
  au_acl : list _mosquitto_acl }.

(** [struct _mqtt3_listener], the fields the MQTT core reads. *)
Record _mqtt3_listener := Listener {
  l_port : Z;
  l_max_connections : Z;
  l_mount_point : option str;
  l_client_count : Z;
  l_use_username_as_clientid : bool;
  l_ssl_ctx : bool;
  l_psk_hint : bool;
  l_use_identity_as_username : bool;
  l_socks : list Z }.

#[global] Instance eta_listener : Eta _mqtt3_listener := fun l =>
  Listener (l_port l) (l_max_connections l) (l_mount_point l) (l_client_count l)
    (l_use_username_as_clientid l) (l_ssl_ctx l) (l_psk_hint l) (l_use_identity_as_username l)
    (l_socks l).

(** [struct _mqtt3_bridge_topic] *)
Record _mqtt3_bridge_topic := BridgeTopic {
  bt_topic : option str;
  bt_qos : Z;
  bt_direction : mqtt3_bridge_direction;
  bt_local_prefix : option str;
  bt_remote_prefix : option str;
  bt_local_topic : str;
  bt_remote_topic : str }.

#[global] Instance eta_bridge_topic : Eta _mqtt3_bridge_topic := fun t =>
  BridgeTopic (bt_topic t) (bt_qos t) (bt_direction t) (bt_local_prefix t) (bt_remote_prefix t)
    (bt_local_topic t) (bt_remote_topic t).

(** [struct _mqtt3_bridge], less its TLS and address lists. *)
Record _mqtt3_bridge := Bridge {
  b_name : str;
  b_address_count : Z;
  b_cur_address : Z;
  b_round_robin : bool;
  b_try_private : bool;
  b_try_private_accepted : bool;
  b_clean_session : bool;
  b_keepalive : Z;
  b_topics : list _mqtt3_bridge_topic;
  b_topic_remapping : bool;
  b_remote_clientid : option str;
  b_remote_username : option str;
  b_remote_password : option str;
  b_local_clientid : option str;
  b_local_username : option str;
  b_local_password : option str;
  b_notifications : bool;
  b_notification_topic : option str;
  b_start_type : mosquitto_bridge_start_type;
  b_idle_timeout : Z;
  b_restart_timeout : Z;
  b_threshold : Z;
  b_lazy_reconnect : bool;
  b_attempt_unsubscribe : bool;
  b_protocol_version : _mosquitto_protocol;
  b_restart_t : Z;
  b_primary_retry : Z }.

#[global] Instance eta_bridge : Eta _mqtt3_bridge := fun b =>
  Bridge (b_name b) (b_address_count b) (b_cur_address b) (b_round_robin b) (b_try_private b)
    (b_try_private_accepted b) (b_clean_session b) (b_keepalive b) (b_topics b)
    (b_topic_remapping b) (b_remote_clientid b) (b_remote_username b) (b_remote_password b)
    (b_local_clientid b) (b_local_username b) (b_local_password b) (b_notifications b)
    (b_notification_topic b) (b_start_type b) (b_idle_timeout b) (b_restart_timeout b)
    (b_threshold b) (b_lazy_reconnect b) (b_attempt_unsubscribe b) (b_protocol_version b)
    (b_restart_t b) (b_primary_retry b).

(** [struct mosquitto] as the broker compiles it.  Pointers: [c_listener] is an
    index of [d_listeners]; [c_acl_list] the address of an ACL user;
    [c_last_msg] the address of a message; [c_subs] the array of [sub_count]
    node pointers.  [c_out_packet] is the queue [out_packet .. out_packet_last]. *)
Record mosquitto := Context {
  c_sock : Z;
  c_protocol : _mosquitto_protocol;
  c_address : option str;
  c_id : option str;
  c_username : option str;
  c_password : option str;
  c_keepalive : Z;
  c_last_mid : Z;
  c_state : mosquitto_client_state;
  c_last_msg_in : Z;
  c_last_msg_out : Z;
  c_ping_t : Z;
  c_in_packet : packet;
  c_current_out_packet : option packet;
  c_out_packet : list packet;
  c_will : option mosquitto_message;
  c_ssl : bool;
  c_clean_session : bool;
  c_is_dropping : bool;
  c_is_bridge : bool;
  c_bridge : option _mqtt3_bridge;
  c_msgs : list mosquitto_client_msg;
  c_last_msg : option addr;
  c_msg_count : Z;
  c_msg_count12 : Z;
  c_acl_list : option addr;
  c_listener : option nat;
  c_disconnect_t : Z;
  c_subs : list (option addr) }.

#[global] Instance eta_context : Eta mosquitto := fun c =>
  Context (c_sock c) (c_protocol c) (c_address c) (c_id c) (c_username c) (c_password c)
    (c_keepalive c) (c_last_mid c) (c_state c) (c_last_msg_in c) (c_last_msg_out c) (c_ping_t c)
    (c_in_packet c) (c_current_out_packet c) (c_out_packet c) (c_will c) (c_ssl c)
    (c_clean_session c) (c_is_dropping c) (c_is_bridge c) (c_bridge c) (c_msgs c) (c_last_msg c)
    (c_msg_count c) (c_msg_count12 c) (c_acl_list c) (c_listener c) (c_disconnect_t c) (c_subs c).

(** [struct mqtt3_config], the settings the MQTT core reads. *)
Record mqtt3_config := Config {
  cf_allow_anonymous : bool;
  cf_allow_duplicate_messages : bool;
  cf_allow_zero_length_clientid : bool;
  cf_auto_id_prefix : option str;
  cf_clientid_prefixes : option str;
  cf_connection_messages : bool;
  cf_message_size_limit : Z;
  cf_persistence : bool;
  cf_queue_qos0_messages : bool;
  cf_retry_interval : Z;
  cf_upgrade_outgoing_qos : bool;
  cf_persistent_client_expiration : Z }.

#[global] Instance eta_mqtt3_config : Eta mqtt3_config := fun g =>
  Config (cf_allow_anonymous g) (cf_allow_duplicate_messages g) (cf_allow_zero_length_clientid g)
    (cf_auto_id_prefix g) (cf_clientid_prefixes g) (cf_connection_messages g) (cf_message_size_limit g)
    (cf_persistence g) (cf_queue_qos0_messages g) (cf_retry_interval g) (cf_upgrade_outgoing_qos g)
    (cf_persistent_client_expiration g).

(** [struct _mosquitto_auth_plugin]: the entry points of a loaded plugin.  The
    plugin is not part of the broker, so they are parameters. *)
Record _mosquitto_auth_plugin := AuthPlugin {
  ap_acl_check : str -> option str -> str -> Z -> Z;
  ap_unpwd_check : option str -> option str -> Z;
  ap_security_init : list (str * str) -> bool -> Z;
  ap_security_cleanup : list (str * str) -> bool -> Z }.

(** What the operating system answers to one [write(2)] (how many bytes it took,
    or the error), and what a socket delivers to successive [read(2)] calls: a
    chunk of bytes, the end of the stream, or an error. *)
Inductive write_result := WOk (n : Z) | WAgain | WConnReset | WErr.
Inductive read_result := RdOk (bytes : list byte) | RdEof | RdAgain | RdConnReset | RdErr.

(** [struct mosquitto_db] with the file-scope variables of the broker:
    [max_inflight] and [max_queued] of src/database.c and the counters of
    src/sys_tree.c.  [d_contexts], [d_stores] and [d_next] are the heap;
    [d_msg_store] is the linked list of stored messages, [d_subs] the children
    of the root of the subscription tree, [d_contexts_by_id]/[d_contexts_by_sock]
    the uthash tables in iteration order.  [d_writes] are the answers of the
    write calls still to come, [d_reads] what arrives on each socket, [d_sent]
    what each socket was given, and [d_time] the clock. *)
Record mosquitto_db := Db {
  d_contexts : gmap addr mosquitto;
  d_stores : gmap addr mosquitto_msg_store;
  d_next : addr;
  d_last_db_id : Z;
  d_subs : _mosquitto_subhier;
  d_unpwd : list _mosquitto_unpwd;
  d_psk_id : list _mosquitto_unpwd;
  d_acl_list : list _mosquitto_acl_user;
  d_acl_patterns : list _mosquitto_acl;
  d_contexts_by_id : list addr;
  d_contexts_by_sock : list addr;
  d_ll_for_free : list addr;
  d_bridges : list (option addr);
  d_msg_store : list addr;
  d_msg_store_count : Z;
  d_config : mqtt3_config;
  d_listeners : list _mqtt3_listener;
  d_persistence_changes : Z;
  d_auth_plugin : option _mosquitto_auth_plugin;
  d_subscription_count : Z;
  d_retained_count : Z;
  d_max_inflight : Z;
  d_max_queued : Z;
  d_msgs_dropped : Z;
  d_bytes_sent : Z;
  d_bytes_received : Z;
  d_msgs_sent : Z;
  d_msgs_received : Z;
  d_pub_msgs_sent : Z;
  d_pub_msgs_received : Z;
  d_pub_bytes_sent : Z;
  d_pub_bytes_received : Z;
  d_connection_count : Z;
  d_writes : list write_result;
  d_reads : gmap Z (list read_result);
  d_sent : gmap Z (list byte);
  d_time : Z }.

#[global] Instance eta_db : Eta mosquitto_db := fun d =>
  Db (d_contexts d) (d_stores d) (d_next d) (d_last_db_id d) (d_subs d) (d_unpwd d) (d_psk_id d)
    (d_acl_list d) (d_acl_patterns d) (d_contexts_by_id d) (d_contexts_by_sock d) (d_ll_for_free d)
    (d_bridges d) (d_msg_store d) (d_msg_store_count d) (d_config d) (d_listeners d)
    (d_persistence_changes d) (d_auth_plugin d) (d_subscription_count d) (d_retained_count d)
    (d_max_inflight d) (d_max_queued d) (d_msgs_dropped d) (d_bytes_sent d) (d_bytes_received d)
    (d_msgs_sent d) (d_msgs_received d) (d_pub_msgs_sent d) (d_pub_msgs_received d)
    (d_pub_bytes_sent d) (d_pub_bytes_received d) (d_connection_count d)
    (d_writes d) (d_reads d) (d_sent d) (d_time d).

(** [_mosquitto_calloc(1, sizeof(struct mosquitto))], a static [struct
    mosquitto_db] and a static [struct mqtt3_config]: all zero. *)
Definition context_calloc : mosquitto :=
  Context 0 mosq_p_invalid None None None None 0 0 mosq_cs_new 0 0 0 packet_calloc None [] None
    false false false false None [] None 0 0 None None 0 [].

Definition config_calloc : mqtt3_config :=
  Config false false false None None false 0 false false 0 false 0.

Definition db_calloc : mosquitto_db :=
  Db ∅ ∅ 1 0 HNil [] [] [] [] [] [] [] [] [] 0 config_calloc [] 0 None 0 0 0 0 0 0 0 0 0 0 0 0 0 0
    [] ∅ ∅ 0.

(** Broker programs. *)
Abbreviation M := (ST mosquitto_db).

(** * Access through pointers *)

(** [*context], [*store]: a freed address faults. *)
Definition get_ctx (c : addr) : M mosquitto := d ← get; unwrap (d_contexts d !! c).
Definition get_store (s : addr) : M mosquitto_msg_store := d ← get; unwrap (d_stores d !! s).

Definition upd_ctx (c : addr) (f : mosquitto -> mosquitto) : M unit :=
  x ← get_ctx c;
  modify (fun d => d <| d_contexts ::= <[c := f x]> |>).

Definition upd_store (s : addr) (f : mosquitto_msg_store -> mosquitto_msg_store) : M unit :=
  x ← get_store s;
  modify (fun d => d <| d_stores ::= <[s := f x]> |>).

(** A fresh address from the allocator. *)
Definition malloc : M addr :=
  d ← get;
  modify (fun d => d <| d_next := S (d_next d) |>);;
  mret (d_next d).

(** [mosquitto_time()] and [time(NULL)]: the clock is read once per event. *)
Definition mosquitto_time : M Z := gets d_time.

(** [context->listener]: [None] is the NULL pointer. *)
Definition get_listener (o : option nat) : M (option _mqtt3_listener) :=
  match o with
  | None => mret None
  | Some i => d ← get; l ← unwrap (d_listeners d !! i); mret (Some l)
  end.

(** Run a packet routine on [context->in_packet]. *)
Definition on_in_packet {A} (c : addr) (m : ST packet A) : M A :=
  x ← get_ctx c;
  match m (c_in_packet x) with
  | None => fault
  | Some (a, p) => upd_ctx c (fun x => x <| c_in_packet := p |>);; mret a
  end.

Lemma wp_get_ctx c Q d :
  wp (get_ctx c) Q d <-> exists x, d_contexts d !! c = Some x /\ Q x d.
Proof. unfold get_ctx. by wp_step. Qed.

Lemma wp_get_store s Q d :
  wp (get_store s) Q d <-> exists x, d_stores d !! s = Some x /\ Q x d.
Proof. unfold get_store. by wp_step. Qed.

Lemma wp_upd_ctx c f Q d :
  wp (upd_ctx c f) Q d <->
  exists x, d_contexts d !! c = Some x /\ Q tt (d <| d_contexts ::= <[c := f x]> |>).
Proof.
  unfold upd_ctx. rewrite wp_bind, wp_get_ctx. by setoid_rewrite wp_modify.
Qed.

Lemma wp_upd_store s f Q d :
  wp (upd_store s f) Q d <->
  exists x, d_stores d !! s = Some x /\ Q tt (d <| d_stores ::= <[s := f x]> |>).
Proof.
  unfold upd_store. rewrite wp_bind, wp_get_store. by setoid_rewrite wp_modify.
Qed.

Lemma upd_ctx_eq c x f d :
  d_contexts d !! c = Some x -> upd_ctx c f d = Some (tt, d <| d_contexts ::= <[c := f x]> |>).
Proof. intros H. unfold upd_ctx, get_ctx, mbind, st_bind, get, unwrap. by rewrite H. Qed.

Lemma wp_malloc Q d : wp malloc Q d <-> Q (d_next d) (d <| d_next := S (d_next d) |>).
Proof. unfold malloc. by wp_step. Qed.

Lemma wp_time Q d : wp mosquitto_time Q d <-> Q (d_time d) d.
Proof. apply wp_gets. Qed.

#[global] Hint Rewrite wp_get_ctx wp_get_store wp_upd_ctx wp_upd_store wp_malloc wp_time : wp.

(** [wp_ptr]: the pointer just dereferenced is live in the current state, by a
    hypothesis or because it was just stored. *)
Ltac wp_ptr :=
  eexists; split;
    [proj_simpl; rewrite ?lookup_insert_eq; first [eassumption | reflexivity] |];
  wp_step; proj_simpl.

(** [db_compute], [ctx_compute]: normalise nested updates of a state or a context
    to the record they denote. *)
Ltac db_compute :=
  lazy beta iota delta [upd d_contexts d_stores d_next d_last_db_id d_subs d_unpwd d_psk_id d_acl_list d_acl_patterns
    d_contexts_by_id d_contexts_by_sock d_ll_for_free d_bridges d_msg_store d_msg_store_count
    d_config d_listeners d_persistence_changes d_auth_plugin d_subscription_count
    d_retained_count d_max_inflight d_max_queued d_msgs_dropped d_bytes_sent d_bytes_received
    d_msgs_sent d_msgs_received d_pub_msgs_sent d_pub_msgs_received d_pub_bytes_sent
    d_pub_bytes_received d_connection_count d_writes d_reads d_sent d_time].

Ltac ctx_compute :=
  lazy beta iota delta [upd c_sock c_protocol c_address c_id c_username c_password c_keepalive c_last_mid c_state
    c_last_msg_in c_last_msg_out c_ping_t c_in_packet c_current_out_packet c_out_packet c_will
    c_ssl c_clean_session c_is_dropping c_is_bridge c_bridge c_msgs c_last_msg c_msg_count
    c_msg_count12 c_acl_list c_listener c_disconnect_t c_subs].

Lemma insert_ctx_id c x d : d_contexts d !! c = Some x -> d <| d_contexts ::= <[c := x]> |> = d.
Proof.
  intros H. destruct d. lazy beta iota delta [d_contexts] in H. db_compute. by rewrite insert_id.
Qed.

Lemma insert_ctx_twice c x y d :
  d <| d_contexts ::= <[c := x]> |> <| d_contexts ::= <[c := y]> |> = d <| d_contexts ::= <[c := y]> |>.
Proof. destruct d. db_compute. by rewrite insert_insert_eq. Qed.

(** ** What access through pointers leaves alone *)

Lemma keeps_get_ctx {B} (f : mosquitto_db -> B) c : keeps f (get_ctx c).
Proof. unfold get_ctx. keeps_tac. Qed.

Lemma keeps_get_store {B} (f : mosquitto_db -> B) c : keeps f (get_store c).
Proof. unfold get_store. keeps_tac. Qed.

Lemma keeps_time {B} (f : mosquitto_db -> B) : keeps f mosquitto_time.
Proof. unfold mosquitto_time. keeps_tac. Qed.

Lemma keeps_get_listener {B} (f : mosquitto_db -> B) o : keeps f (get_listener o).
Proof. unfold get_listener. keeps_tac. Qed.

#[export] Hint Resolve keeps_get_ctx keeps_get_store keeps_time keeps_get_listener : keeps.
#[export] Hint Extern 1 (keeps _ (upd_ctx _ _)) => unfold upd_ctx; keeps_tac : keeps.
#[export] Hint Extern 1 (keeps _ (upd_store _ _)) => unfold upd_store; keeps_tac : keeps.
#[export] Hint Extern 1 (keeps _ malloc) => unfold malloc; keeps_tac : keeps.
