(* ===== verification/Topic.v ===== *)
(** Topic names and filters: the checks and the matcher of lib/util_mosq.c, and
    what MQTT means by them.  [mosquitto_topic_matches_sub] walks the two
    strings with the indices [spos] and [tpos]; the specification
    [filter_matches] compares the '/'-separated levels. *)

From S2P Require Export Packet.
#[local] Open Scope Z_scope.

(** * The code *)

(** [while(str && str[0])] of the checks, on the rest of the string. *)
Fixpoint pub_topic_loop (s : str) (len : Z) : option Z :=
  match s with
  | [] => Some len
  | c :: s' =>
    if bool_decide (c = PLUS) || bool_decide (c = HASH) then None
    else pub_topic_loop s' (len + 1)
  end.

Definition mosquitto_pub_topic_check (s : str) : Z :=
  match pub_topic_loop s 0 with
  | None => MOSQ_ERR_INVAL
  | Some len => if 65535 <? len then MOSQ_ERR_INVAL else MOSQ_ERR_SUCCESS
  end.

(** [c] is the previous character, NUL at the start; [cget s' 0] is [str[1]]. *)
Fixpoint sub_topic_loop (c : byte) (s : str) (len : Z) : option Z :=
  match s with
  | [] => Some len
  | x :: s' =>
    if bool_decide (x = PLUS) &&
         ((negb (bool_decide (c = NUL)) && negb (bool_decide (c = SLASH)))
          || (negb (bool_decide (cget s' 0 = NUL)) && negb (bool_decide (cget s' 0 = SLASH))))
    then None
    else if bool_decide (x = HASH) &&
         ((negb (bool_decide (c = NUL)) && negb (bool_decide (c = SLASH)))
          || negb (bool_decide (cget s' 0 = NUL)))
    then None
    else sub_topic_loop x s' (len + 1)
  end.

Definition mosquitto_sub_topic_check (s : str) : Z :=
  match sub_topic_loop NUL s 0 with
  | None => MOSQ_ERR_INVAL
  | Some len => if 65535 <? len then MOSQ_ERR_INVAL else MOSQ_ERR_SUCCESS
  end.

(** [while(tpos < tlen && topic[tpos] != '/') tpos++;] *)
Fixpoint skip_level (fuel : nat) (topic : str) (tlen tpos : Z) : Z :=
  match fuel with
  | O => tpos
  | S fuel =>
    if (tpos <? tlen) && negb (bool_decide (cget topic tpos = SLASH))
    then skip_level fuel topic tlen (tpos + 1)
    else tpos
  end.

(** The main loop.  [inl b] is [*result = b; return], [inr (spos, tpos)] the
    loop left by its condition (with [multilevel_wildcard] still false: it is
    only set on the way to a return).  Every iteration that continues
    increments [spos], so [slen] iterations are enough. *)
Fixpoint matches_loop (fuel : nat) (sub topic : str) (slen tlen spos tpos : Z)
  : bool + (Z * Z) :=
  match fuel with
  | O => inr (spos, tpos)
  | S fuel =>
    if negb ((spos <? slen) && (tpos <? tlen)) then inr (spos, tpos)
    else if bool_decide (cget sub spos = cget topic tpos) then
      if (tpos =? tlen - 1) && (spos =? slen - 3)
           && bool_decide (cget sub (spos + 1) = SLASH)
           && bool_decide (cget sub (spos + 2) = HASH)
      then inl true
      else
        let spos := spos + 1 in
        let tpos := tpos + 1 in
        if (spos =? slen) && (tpos =? tlen) then inl true
        else if (tpos =? tlen) && (spos =? slen - 1) && bool_decide (cget sub spos = PLUS)
        then inl true
        else matches_loop fuel sub topic slen tlen spos tpos
    else if bool_decide (cget sub spos = PLUS) then
      let spos := spos + 1 in
      let tpos := skip_level (length topic) topic tlen tpos in
      if (tpos =? tlen) && (spos =? slen) then inl true
      else matches_loop fuel sub topic slen tlen spos tpos
    else if bool_decide (cget sub spos = HASH) then
      inl (spos + 1 =? slen)
    else inl false
  end.

(** [result] is the caller's variable: [None] while it has no value.  The
    pointers are not NULL. *)
Definition mosquitto_topic_matches_sub (sub topic : str) (result : option bool)
  : Z * option bool :=
  let slen := strlen sub in
  let tlen := strlen topic in
  if (0 <? slen) && (0 <? tlen)
     && ((bool_decide (cget sub 0 = DOLLAR) && negb (bool_decide (cget topic 0 = DOLLAR)))
         || (bool_decide (cget topic 0 = DOLLAR) && negb (bool_decide (cget sub 0 = DOLLAR))))
  then (MOSQ_ERR_SUCCESS, Some false)
  else
    match matches_loop (S (length sub)) sub topic slen tlen 0 0 with
    | inl b => (MOSQ_ERR_SUCCESS, Some b)
    | inr (spos, tpos) =>
      if (tpos <? tlen) || (spos <? slen) then (MOSQ_ERR_SUCCESS, Some false)
      else (MOSQ_ERR_SUCCESS, result)
    end.

(** * The specification *)

(** The levels of a topic: its '/'-separated parts, one for an empty string. *)
Fixpoint levels (s : str) : list str :=
  match s with
  | [] => [[]]
  | c :: s' =>
    if decide (c = SLASH) then [] :: levels s'
    else match levels s' with
         | l :: ls => (c :: l) :: ls
         | [] => [[c]]
         end%list
  end.

(** MQTT matching of a filter's levels against a topic's: '+' stands for one
    level, a final '#' for any number of levels, none included. *)
Fixpoint level_match (fs ts : list str) : bool :=
  match fs with
  | [] => match ts with [] => true | _ => false end
  | f :: fs' =>
    if bool_decide (f = [HASH]) && bool_decide (fs' = []) then true
    else match ts with
         | [] => false
         | t :: ts' =>
           (bool_decide (f = [PLUS]) || bool_decide (f = t)) && level_match fs' ts'
         end
  end.

Definition starts_dollar (s : str) : bool :=
  match s with
  | c :: _ => bool_decide (c = DOLLAR)
  | [] => false
  end.

(** A filter matches a topic of the same '$' kind level by level. *)
Definition filter_matches (sub topic : str) : bool :=
  bool_decide (starts_dollar sub = starts_dollar topic) && level_match (levels sub) (levels topic).

(** A topic name has no wildcard; in a valid filter a wildcard is a whole level
    and '#' the last one. *)
Definition no_wildcard (s : str) : Prop := (PLUS ∉ s) /\ (HASH ∉ s).

Fixpoint valid_filter_levels (fs : list str) : Prop :=
  match fs with
  | [] => True
  | f :: fs' =>
    (f = [PLUS] \/ no_wildcard f \/ (f = [HASH] /\ fs' = [])) /\ valid_filter_levels fs'
  end.

Definition ends_in_hash (sub : str) : bool := bool_decide (last (levels sub) = Some [HASH]).

(** * The matcher on string suffixes

    [suffix_match s t] is what the index loop computes from the suffixes that
    [spos] and [tpos] point to; [None] is the loop left with both exhausted. *)

Fixpoint drop_level (t : str) : str :=
  match t with
  | [] => []
  | b :: t' => if decide (b = SLASH) then t else drop_level t'
  end.

Fixpoint suffix_match (s t : str) : option bool :=
  match s, t with
  | [], [] => None
  | [], _ :: _ => Some false
  | _ :: _, [] => Some false
  | a :: s', b :: t' =>
    if decide (a = b) then
      if decide (t' = [] /\ s' = [SLASH; HASH]) then Some true
      else if decide (s' = [] /\ t' = []) then Some true
      else if decide (t' = [] /\ s' = [PLUS]) then Some true
      else suffix_match s' t'
    else if decide (a = PLUS) then
      if decide (drop_level t = [] /\ s' = []) then Some true
      else suffix_match s' (drop_level t)
    else if decide (a = HASH) then Some (bool_decide (s' = []))
    else Some false
  end.

(** The matcher on levels: MQTT matching, less two cases of a final '#'. *)
Fixpoint code_match (fs ts : list str) : bool :=
  match fs, ts with
  | [], _ | _, [] => false
  | f :: fs', t :: ts' =>
    if bool_decide (f = [HASH]) && bool_decide (fs' = [])
    then negb (bool_decide (t = []) && bool_decide (ts' = []))
    else match fs', ts' with
         | [], _ => (bool_decide (f = [PLUS]) || bool_decide (f = t)) && bool_decide (ts' = [])
         | _, [] => bool_decide (f = t) && bool_decide (fs' = [[HASH]])
         | _, _ => (bool_decide (f = [PLUS]) || bool_decide (f = t)) && code_match fs' ts'
         end
  end.
Lemma levels_nonempty s : levels s <> [].
Proof. destruct s as [|c s]; cbn; [done|]. case_decide; [done|]. by destruct (levels s). Qed.

Lemma levels_cons s : exists l ls, levels s = l :: ls.
Proof. pose proof (levels_nonempty s). destruct (levels s); [done | eauto]. Qed.

Lemma levels_nil_inv s : levels s = [[]] -> s = [].
Proof.
  destruct s as [|c s]; [done|]; cbn. case_decide.
  - destruct (levels_cons s) as (l & ls & ->). done.
  - destruct (levels_cons s) as (l & ls & ->). done.
Qed.

Lemma levels_inj s t : levels s = levels t -> s = t.
Proof.
  revert t. induction s as [|a s IH]; intros t H.
  - symmetry in H. by rewrite (levels_nil_inv t H).
  - destruct t as [|b t]; [by apply levels_nil_inv in H|]. cbn in H.
    destruct (levels_cons s) as (l & ls & Es), (levels_cons t) as (m & ms & Et).
    rewrite Es, Et in H. repeat case_decide; subst; simplify_eq; f_equal; apply IH; congruence.
Qed.

Lemma cget_app p s k : 0 <= k -> cget (p ++ s) (strlen p + k) = cget s k.
Proof.
  intros Hk. unfold cget, strlen. rewrite app_nth2 by lia. f_equal. lia.
Qed.

Lemma strlen_0 s : strlen s = 0 <-> s = [].
Proof. unfold strlen. destruct s; cbn; [done|]. split; [lia | done]. Qed.


Lemma cget_here p b t : cget (p ++ b :: t) (strlen p) = b.
Proof. replace (strlen p) with (strlen p + 0) by lia. by rewrite cget_app. Qed.

Lemma cget_next p b t k : 0 <= k -> cget (p ++ b :: t) (strlen p + 1 + k) = cget t k.
Proof.
  intros Hk. replace (strlen p + 1 + k) with (strlen p + (1 + k)) by lia.
  rewrite cget_app by lia. unfold cget. replace (Z.to_nat (1 + k)) with (S (Z.to_nat k)) by lia. done.
Qed.

Lemma skip_level_drop fuel p t :
  (length t <= fuel)%nat ->
  skip_level fuel (p ++ t) (strlen (p ++ t)) (strlen p)
  = strlen (p ++ t) - strlen (drop_level t).
Proof.
  revert p fuel. induction t as [|b t IH]; intros p fuel Hf.
  - rewrite strlen_app. replace (strlen []) with 0 by done.
    destruct fuel; cbn [skip_level drop_level]; [change (strlen []) with 0; lia|].
    rewrite (proj2 (Z.ltb_ge _ _)) by lia. cbn. change (strlen []) with 0; lia.
  - destruct fuel as [|fuel]; cbn [length] in Hf; [lia|]. cbn [skip_level drop_level].
    pose proof (strlen_nonneg t).
    rewrite cget_here, (proj2 (Z.ltb_lt _ _)) by (rewrite strlen_app, strlen_cons; lia).
    case_decide as Hb.
    + rewrite bool_decide_eq_true_2 by done. cbn. rewrite strlen_app. lia.
    + rewrite bool_decide_eq_false_2 by done. cbn [negb andb].
      specialize (IH (p ++ [b]) fuel ltac:(lia)). rewrite <- app_assoc in IH. cbn [app] in IH.
      rewrite <- IH. f_equal. rewrite strlen_app. done.
Qed.

Lemma drop_level_suffix t : exists u, t = u ++ drop_level t.
Proof.
  induction t as [|b t [u IH]]; [by exists []|]. cbn. case_decide; [by exists []|].
  exists (b :: u). cbn. congruence.
Qed.

(** The index loop computes [suffix_match]; [S slen] iterations are enough. *)
Definition loop_outcome (tlen slen : Z) (r : bool + Z * Z) : option bool :=
  match r with
  | inl b => Some b
  | inr (spos, tpos) => if (tpos <? tlen) || (spos <? slen) then Some false else None
  end.

Lemma at_end p t : (strlen p =? strlen (p ++ t)) = bool_decide (t = []).
Proof.
  rewrite strlen_app. destruct t; cbn.
  - change (strlen []) with 0. rewrite bool_decide_eq_true_2 by done. lia.
  - rewrite bool_decide_eq_false_2 by done. rewrite strlen_cons. pose proof (strlen_nonneg t). lia.
Qed.

Lemma at_last p x t : (strlen p =? strlen (p ++ x :: t) - 1) = bool_decide (t = []).
Proof.
  rewrite strlen_app, strlen_cons. destruct t.
  - rewrite bool_decide_eq_true_2 by done. change (strlen []) with 0. lia.
  - rewrite bool_decide_eq_false_2 by done. rewrite strlen_cons. pose proof (strlen_nonneg t). lia.
Qed.

Lemma before_end p x s : (strlen p <? strlen (p ++ x :: s)) = true.
Proof. rewrite strlen_app, strlen_cons. pose proof (strlen_nonneg s). lia. Qed.

Lemma strlen_snoc p x : strlen p + 1 = strlen (p ++ [x]).
Proof. by rewrite strlen_app. Qed.

Lemma cons_middle_str (p : str) x s : p ++ x :: s = (p ++ [x]) ++ s.
Proof. by rewrite <- app_assoc. Qed.

(** The test for a filter that ends in "/#" right after [spos]. *)
Lemma at_hash_tail (o : bool) p a s :
  o && (strlen p =? strlen (p ++ a :: s) - 3)
    && bool_decide (cget (p ++ a :: s) (strlen p + 1) = SLASH)
    && bool_decide (cget (p ++ a :: s) (strlen p + 2) = HASH)
  = o && bool_decide (s = [SLASH; HASH]).
Proof.
  rewrite <- 2!andb_assoc. f_equal. rewrite andb_assoc.
  replace (strlen p + 1) with (strlen p + 1 + 0) by lia.
  replace (strlen p + 2) with (strlen p + 1 + 1) by lia. rewrite !cget_next by lia.
  rewrite strlen_app, strlen_cons.
  destruct s as [|x [|y [|z s]]]; rewrite ?strlen_cons; change (strlen []) with 0;
    try pose proof (strlen_nonneg s);
    match goal with |- context [strlen p =? ?e] =>
      first [ replace (strlen p =? e) with false by lia
            | replace (strlen p =? e) with true by lia ] end; unfold cget; cbn;
    repeat case_bool_decide; naive_solver.
Qed.

Lemma bool_decide_and_false P Q `{Decision P, Decision Q} :
  ~ (P /\ Q) -> bool_decide P && bool_decide Q = false.
Proof. intros Hn. repeat case_bool_decide; tauto. Qed.

Lemma plus_at_end p (s t : str) :
  bool_decide (t = []) && (strlen p =? strlen (p ++ s) - 1) && bool_decide (cget (p ++ s) (strlen p) = PLUS)
  = bool_decide (t = [] /\ s = [PLUS]).
Proof.
  destruct s as [|x s].
  - rewrite app_nil_r. replace (_ =? _ - 1) with false by lia. rewrite andb_false_r. cbn.
    rewrite bool_decide_eq_false_2; [done | by intros [_ ?]].
  - rewrite at_last, cget_here.
    repeat case_bool_decide; simplify_eq; cbn; try done; destruct_and?; simplify_eq; tauto.
Qed.

Lemma matches_loop_suffix fuel s : forall p q t,
  (length s < fuel)%nat ->
  loop_outcome (strlen (q ++ t)) (strlen (p ++ s))
    (matches_loop fuel (p ++ s) (q ++ t) (strlen (p ++ s)) (strlen (q ++ t)) (strlen p) (strlen q))
  = suffix_match s t.
Proof.
  revert fuel. induction s as [|a s IH]; intros fuel p q t Hf;
    (destruct fuel as [|fuel]; cbn [length] in Hf; [lia|]); cbn [matches_loop].
  { rewrite app_nil_r, Z.ltb_irrefl. cbn [andb negb loop_outcome].
    rewrite Z.ltb_irrefl, orb_false_r. destruct t; cbn.
    - by rewrite app_nil_r, Z.ltb_irrefl.
    - by rewrite before_end. }
  rewrite before_end. destruct t as [|b t]; cbn [suffix_match].
  { rewrite app_nil_r, Z.ltb_irrefl. cbn [andb negb loop_outcome].
    by rewrite Z.ltb_irrefl, before_end. }
  rewrite before_end. cbn [andb negb]. rewrite !cget_here.
  destruct (decide (a = b)) as [<-|Hab].
  - rewrite bool_decide_eq_true_2, at_last, at_hash_tail by done.
    case_decide as H1; [by destruct H1 as [-> ->]|].
    rewrite bool_decide_and_false by done.
    rewrite (cons_middle_str p), (cons_middle_str q), (strlen_snoc p a),
      (strlen_snoc q a), !at_end.
    case_decide as H2; [by destruct H2 as [-> ->]|].
    rewrite bool_decide_and_false by done. rewrite plus_at_end.
    case_bool_decide as H3; [by destruct (decide _)|]. destruct (decide _); [done|].
    apply IH. lia.
  - rewrite bool_decide_eq_false_2 by done. case_decide as HP.
    + rewrite bool_decide_eq_true_2 by done. subst a.
      rewrite skip_level_drop by (rewrite length_app; lia).
      destruct (drop_level_suffix (b :: t)) as [u Hu].
      remember (drop_level (b :: t)) as t2 eqn:Et. rewrite Hu, app_assoc.
      replace (strlen ((q ++ u) ++ t2) - strlen t2) with (strlen (q ++ u))
        by (rewrite (strlen_app (q ++ u)); lia).
      rewrite (cons_middle_str p), (strlen_snoc p PLUS), !at_end.
      case_decide as H1; [by destruct H1 as [-> ->]|].
      rewrite bool_decide_and_false by done. apply IH. lia.
    + rewrite bool_decide_eq_false_2 by done. case_decide as HH.
      * rewrite bool_decide_eq_true_2 by done. cbn [loop_outcome].
        by rewrite (cons_middle_str p), (strlen_snoc p a), at_end.
      * by rewrite bool_decide_eq_false_2 by done.
Qed.

(** * Validity *)

Definition valid_from (c : byte) (s : str) : Prop := is_Some (sub_topic_loop c s 0).

Lemma sub_topic_loop_len c s n :
  sub_topic_loop c s n = (fun k => n + k) <$> sub_topic_loop c s 0.
Proof.
  revert c n. induction s as [|x s IH]; intros c n; cbn [sub_topic_loop].
  - cbn. f_equal. lia.
  - do 2 (match goal with |- context [if ?b then _ else _] => destruct b end; [done|]).
    rewrite IH, (IH _ (0 + 1)). destruct (sub_topic_loop x s 0); cbn; [|done]. f_equal. lia.
Qed.

Definition level_start (c : byte) : Prop := c = NUL \/ c = SLASH.

Lemma valid_from_cons c x s :
  valid_from c (x :: s) <->
  (x = PLUS -> level_start c /\ level_start (cget s 0)) /\
  (x = HASH -> level_start c /\ cget s 0 = NUL) /\ valid_from x s.
Proof.
  unfold valid_from, level_start. cbn [sub_topic_loop].
  assert (is_Some (sub_topic_loop x s (0 + 1)) <-> is_Some (sub_topic_loop x s 0)) as Hlen
    by (rewrite sub_topic_loop_len; apply fmap_is_Some).
  pose proof (is_Some_None (A := Z)) as HN.
  assert (PLUS <> HASH /\ HASH <> PLUS) as [Hd1 Hd2] by done.
  destruct (decide (x = PLUS)) as [->|HP]; [|destruct (decide (x = HASH)) as [->|HH]].
  - rewrite bool_decide_eq_true_2, (bool_decide_eq_false_2 (PLUS = HASH)) by done. cbn [andb].
    repeat case_bool_decide; cbn; split; try done; intros; destruct_and?; tauto.
  - rewrite (bool_decide_eq_false_2 (HASH = PLUS)), (bool_decide_eq_true_2 (HASH = HASH)) by done. cbn [andb].
    repeat case_bool_decide; cbn; split; try done; intros; destruct_and?; tauto.
  - rewrite (bool_decide_eq_false_2 (x = PLUS)), (bool_decide_eq_false_2 (x = HASH)) by done.
    cbn [andb]. tauto.
Qed.

(** After a literal character the rest of the level is literal. *)
Lemma valid_from_mid c s :
  valid_from c s -> ~ level_start c ->
  forall l ls, levels s = l :: ls -> head l <> Some PLUS /\ head l <> Some HASH.
Proof.
  intros Hv Hc l ls Hl. destruct s as [|x s]; cbn in Hl; [by simplify_eq|].
  apply valid_from_cons in Hv as (HP & HH & _).
  case_decide; simplify_eq; [done|]. destruct (levels_cons s) as (m & ms & Em). rewrite Em in Hl.
  simplify_eq. cbn. split; intros [= ->]; tauto.
Qed.

Lemma cget_0 s c : cget s 0 = c -> c <> NUL -> exists s', s = c :: s'.
Proof.
  destruct s as [|x s]; [by change (cget [] 0) with NUL; intros <-|].
  change (cget (x :: s) 0) with x. intros -> _. by exists s.
Qed.

Lemma cget_0_nul s : NUL ∉ s -> cget s 0 = NUL -> s = [].
Proof.
  destruct s as [|x s]; [done|]. change (cget (x :: s) 0) with x.
  rewrite not_elem_of_cons. intros [? _] ->. done.
Qed.

Lemma no_wildcard_cons x s : no_wildcard (x :: s) <-> x <> PLUS /\ x <> HASH /\ no_wildcard s.
Proof. unfold no_wildcard. rewrite !not_elem_of_cons. intuition congruence. Qed.

Lemma drop_level_no_wildcard t : no_wildcard t -> no_wildcard (drop_level t).
Proof.
  induction t as [|b t IH]; cbn; [done|]. case_decide; [done|].
  rewrite no_wildcard_cons. tauto.
Qed.

Lemma levels_drop_level t :
  exists l, levels t = match drop_level t with [] => [l] | _ :: t' => l :: levels t' end.
Proof.
  induction t as [|b t [l IH]]; cbn; [by exists []|]. case_decide; [by exists []|].
  rewrite IH. destruct (drop_level t); eauto.
Qed.

Lemma drop_level_head t x u : drop_level t = x :: u -> x = SLASH.
Proof. induction t as [|b t IH]; cbn; [done|]. case_decide; [by intros [= <- _] | done]. Qed.

Lemma levels_no_wildcard t : no_wildcard t -> Forall no_wildcard (levels t).
Proof.
  induction t as [|b t IH]; cbn; intros H.
  - constructor; [done | constructor].
  - apply no_wildcard_cons in H as (? & ? & Ht). specialize (IH Ht).
    case_decide; [by constructor; [split; apply not_elem_of_nil|]|].
    destruct (levels_cons t) as (l & ls & E). rewrite E in *. inversion_clear IH.
    constructor; [|done]. by apply no_wildcard_cons.
Qed.

(** One step of [code_match] on the characters of equal levels. *)
Lemma code_match_cons_literal a s t :
  a <> PLUS -> a <> HASH -> a <> NUL -> valid_from a s -> t <> [] ->
  code_match (levels (a :: s)) (levels (a :: t)) = code_match (levels s) (levels t).
Proof.
  intros HP HH HN Hv Ht. cbn [levels].
  destruct (levels_cons s) as (l & ls & El), (levels_cons t) as (m & ms & Em).
  rewrite El, Em. case_decide as Ha.
  - cbn [code_match]. rewrite (bool_decide_eq_false_2 ([] = [HASH])) by done.
    rewrite (bool_decide_eq_true_2 ([] = [])) by done. by rewrite orb_true_r.
  - destruct (valid_from_mid a s Hv) with (l := l) (ls := ls) as [Hl1 Hl2]; [|done|].
    { by intros [->| ->]. }
    cbn [code_match].
    assert (Hh : forall x : byte, head l <> Some x -> bool_decide (l = [x]) = false).
    { intros x Hx. apply bool_decide_eq_false_2. by intros ->. }
    rewrite (Hh PLUS), (Hh HASH) by done.
    rewrite (bool_decide_eq_false_2 (a :: l = [PLUS])), (bool_decide_eq_false_2 (a :: l = [HASH]))
      by congruence.
    rewrite (bool_decide_ext (a :: l = a :: m) (l = m))
      by (split; [by intros [= ->] | by intros ->]). done.
Qed.

Lemma levels_eq_iff s t : s = t <-> levels s = levels t.
Proof. split; [by intros -> | apply levels_inj]. Qed.

(** Decide the boolean tests of a [code_match] goal. *)
Ltac decide_tests :=
  repeat case_bool_decide; destruct_and?; destruct_or?; simplify_eq; try done; try tauto;
  try (exfalso; intuition congruence).

(** The topic ends with the character at hand. *)
Lemma code_match_last a s :
  a <> PLUS -> a <> HASH ->
  code_match (levels (a :: s)) (levels [a])
  = bool_decide (s = [] \/ s = [SLASH; HASH] \/ (s = [PLUS] /\ a = SLASH)).
Proof.
  intros HP HH.
  rewrite (bool_decide_ext _ (levels s = [[]] \/ levels s = [[]; [HASH]]
    \/ (levels s = [[PLUS]] /\ a = SLASH))) by by rewrite !levels_eq_iff.
  cbn [levels]. destruct (levels_cons s) as (l & ls & ->).
  case_decide as Ha; cbn [code_match]; [subst a|].
  - rewrite (bool_decide_eq_false_2 ([] = [HASH])) by done. cbn [andb].
    destruct ls as [|l2 ls]; decide_tests.
  - destruct ls as [|l2 ls]; decide_tests.
Qed.

Lemma code_match_empty_filter t : t <> [] -> code_match [[]] (levels t) = false.
Proof.
  intros Ht. destruct (levels_cons t) as (l & ls & E). rewrite E. cbn [code_match].
  destruct (decide (l = [])) as [->|Hl].
  - rewrite (bool_decide_eq_false_2 (ls = [])); [by rewrite andb_false_r|].
    intros ->. by apply levels_nil_inv in E.
  - by decide_tests.
Qed.

Lemma code_match_hash t : t <> [] -> code_match (levels [HASH]) (levels t) = true.
Proof.
  intros Ht. change (levels [HASH]) with ([[HASH]] : list str).
  destruct (levels_cons t) as (l & ls & E). rewrite E. cbn [code_match].
  rewrite !(bool_decide_eq_true_2 (_ = _)) by done. cbn.
  destruct (decide (l = [])) as [->|Hl]; [|by rewrite bool_decide_eq_false_2].
  rewrite (bool_decide_eq_false_2 (ls = [])); [by rewrite andb_false_r|].
  intros ->. by apply levels_nil_inv in E.
Qed.

Lemma code_match_head_ne f fs t ts :
  f <> [HASH] -> f <> [PLUS] -> f <> t -> code_match (f :: fs) (t :: ts) = false.
Proof.
  intros H1 H2 H3. cbn [code_match].
  rewrite (bool_decide_eq_false_2 _ H1), (bool_decide_eq_false_2 _ H2), (bool_decide_eq_false_2 _ H3).
  by destruct fs, ts.
Qed.

(** The first level differs in its first character. *)
Lemma code_match_mismatch a b s t :
  a <> b -> a <> PLUS -> a <> HASH -> code_match (levels (a :: s)) (levels (b :: t)) = false.
Proof.
  intros Hab HP HH. cbn [levels].
  destruct (levels_cons s) as (l & ls & ->), (levels_cons t) as (m & ms & ->).
  destruct (decide (a = SLASH)), (decide (b = SLASH)); try congruence;
    apply code_match_head_ne; congruence.
Qed.

(** '+' takes the topic up to the next separator. *)
Lemma code_match_plus_end t :
  code_match (levels [PLUS]) (levels t) = bool_decide (drop_level t = []).
Proof.
  change (levels [PLUS]) with ([[PLUS]] : list str).
  destruct (levels_drop_level t) as [l ->]. destruct (drop_level t) as [|x u]; [done|].
  rewrite (bool_decide_eq_false_2 (x :: u = [])) by done. cbn [code_match].
  rewrite (bool_decide_eq_false_2 ([PLUS] = [HASH])), (bool_decide_eq_false_2 (levels u = [])); [|apply levels_nonempty|done].
  by rewrite andb_false_r.
Qed.

Lemma code_match_plus_slash s t :
  no_wildcard t ->
  code_match (levels (PLUS :: SLASH :: s)) (levels t) =
  match drop_level t with [] => false | _ :: u => code_match (levels s) (levels u) end.
Proof.
  intros Hw%levels_no_wildcard.
  change (levels (PLUS :: SLASH :: s)) with ([PLUS] :: levels s).
  destruct (levels_drop_level t) as [l E]. rewrite E in *.
  assert (PLUS ∉ l) as Hl by (destruct (drop_level t); by inversion_clear Hw as [|? ? [? _]]).
  destruct (levels_cons s) as (m & ms & ->).
  destruct (drop_level t) as [|x u]; cbn [code_match];
    rewrite (bool_decide_eq_false_2 ([PLUS] = [HASH])) by done; cbn [andb].
  - rewrite bool_decide_eq_false_2; [done|]. intros <-. apply Hl. left.
  - by destruct (levels_cons u) as (? & ? & ->).
Qed.

(** The index loop's verdict on a valid filter and a topic name is the level
    matcher's. *)
Lemma suffix_match_levels s : forall c t,
  s <> [] -> t <> [] -> NUL ∉ s -> valid_from c s -> no_wildcard t ->
  suffix_match s t = Some (code_match (levels s) (levels t)).
Proof.
  induction s as [|a s IH]; intros c t Hs Ht HN Hv Hw; [done|].
  destruct t as [|b t]; [done|]. pose proof Hw as Hw'.
  apply no_wildcard_cons in Hw as (HbP & HbH & Hw).
  apply not_elem_of_cons in HN as [HaN HN]. apply valid_from_cons in Hv as (HvP & HvH & Hv).
  cbn [suffix_match]. destruct (decide (a = b)) as [<-|Hab].
  - destruct (decide (t = [])) as [->|Ht'].
    + rewrite code_match_last by done.
      destruct (decide (s = [])) as [->|H1]; [done|].
      destruct (decide (s = [SLASH; HASH])) as [->|H2]; [by rewrite bool_decide_eq_true_2 by tauto|].
      destruct (decide (s = [PLUS])) as [->|H3].
      * rewrite bool_decide_eq_true_2; [done|]. right; right. split; [done|].
        by apply valid_from_cons in Hv as ([[?|?] _] & _).
      * rewrite !decide_False, bool_decide_eq_false_2 by tauto. by destruct s.
    + rewrite !decide_False by tauto.
      destruct (decide (s = [])) as [->|Hs']; rewrite code_match_cons_literal by done.
      * change (levels []) with ([[]] : list str). rewrite code_match_empty_filter by done.
        by destruct t.
      * by apply (IH a).
  - destruct (decide (a = PLUS)) as [->|HaP]; [|destruct (decide (a = HASH)) as [->|HaH]].
    + destruct HvP as [_ [HvP|HvP]]; [done| |].
      * apply cget_0_nul in HvP as ->; [|done]. rewrite code_match_plus_end.
        destruct (drop_level (b :: t)) eqn:E; [done|]. by rewrite decide_False by (by intros [? _]).
      * apply cget_0 in HvP as [s' ->]; [|done]. rewrite code_match_plus_slash by done.
        rewrite decide_False by (by intros [_ ?]).
        destruct (drop_level (b :: t)) as [|x u] eqn:E; [done|].
        assert (x = SLASH) as -> by (by apply drop_level_head in E).
        rewrite (IH PLUS) by (done || (rewrite <- E; by apply drop_level_no_wildcard)).
        f_equal. change (levels (SLASH :: s')) with ([] :: levels s').
        change (levels (SLASH :: u)) with ([] :: levels u).
        destruct (levels_cons s') as (? & ? & ->), (levels_cons u) as (? & ? & ->). done.
    + destruct HvH as [_ HvH]; [done|]. apply cget_0_nul in HvH as ->; [|done].
      rewrite bool_decide_eq_true_2 by done. by rewrite code_match_hash.
    + by rewrite code_match_mismatch.
Qed.

Lemma code_match_sound fs ts : code_match fs ts = true -> level_match fs ts = true.
Proof.
  revert ts. induction fs as [|f fs IH]; intros [|t ts]; cbn [code_match level_match]; try done.
  destruct (bool_decide (f = [HASH]) && bool_decide (fs = [])); [done|].
  destruct fs as [|g fs], ts as [|t2 ts].
  - by rewrite andb_true_r; cbn; rewrite andb_true_r.
  - rewrite (bool_decide_eq_false_2 (t2 :: ts = [])), andb_false_r by done. done.
  - intros [H ->%bool_decide_eq_true]%andb_true_iff. rewrite H, orb_true_r. done.
  - intros [-> H]%andb_true_iff. by apply IH.
Qed.

Lemma code_match_complete fs ts :
  fs <> [] -> last fs <> Some [HASH] -> code_match fs ts = level_match fs ts.
Proof.
  revert ts. induction fs as [|f fs IH]; intros ts Hn Hl; [done|].
  assert (bool_decide (f = [HASH]) && bool_decide (fs = []) = false) as E.
  { apply bool_decide_and_false. by intros [-> ->]. }
  destruct ts as [|t ts]; cbn [code_match level_match]; rewrite E; [done|].
  destruct fs as [|g fs], ts as [|t2 ts].
  - done.
  - by rewrite (bool_decide_eq_false_2 (t2 :: ts = [])).
  - rewrite (bool_decide_eq_false_2 (g :: fs = [[HASH]])) by (by intros [= -> ->]).
    rewrite andb_false_r. symmetry. apply andb_false_iff. right. cbn [level_match].
    rewrite bool_decide_and_false; [done|]. by intros [-> ->].
  - f_equal. apply IH; [done|]. by rewrite last_cons_cons in Hl.
Qed.

Lemma sub_topic_check_valid s : mosquitto_sub_topic_check s = MOSQ_ERR_SUCCESS -> valid_from NUL s.
Proof. unfold mosquitto_sub_topic_check, valid_from. by destruct (sub_topic_loop NUL s 0). Qed.

Lemma no_wildcard_nil : no_wildcard [].
Proof. split; apply not_elem_of_nil. Qed.

Lemma pub_topic_loop_spec s n :
  (no_wildcard s -> pub_topic_loop s n = Some (n + strlen s)) /\
  (~ no_wildcard s -> pub_topic_loop s n = None).
Proof.
  revert n. induction s as [|c s IH]; intros n; cbn [pub_topic_loop].
  - split; [intros _; f_equal; change (strlen []) with 0; lia|].
    intros H. destruct H. apply no_wildcard_nil.
  - rewrite no_wildcard_cons. destruct (IH (n + 1)) as [IH1 IH2].
    repeat case_bool_decide; cbn [orb]; try tauto.
    split; [intros (_ & _ & H1); rewrite IH1 by done; rewrite strlen_cons; f_equal; lia|].
    intros H1. apply IH2. tauto.
Qed.

#[export] Instance no_wildcard_dec s : Decision (no_wildcard s).
Proof. unfold no_wildcard. apply _. Defined.

Lemma pub_topic_check_no_wildcard s :
  mosquitto_pub_topic_check s = MOSQ_ERR_SUCCESS <-> no_wildcard s /\ strlen s <= 65535.
Proof.
  unfold mosquitto_pub_topic_check. destruct (pub_topic_loop_spec s 0) as [H1 H2].
  destruct (decide (no_wildcard s)) as [Hw|Hw].
  - rewrite H1 by done. destruct (65535 <? 0 + strlen s) eqn:E; split; try done;
      [intros [_ ?]; lia | intros _; split; [done | lia]].
  - rewrite H2 by done. split; [done | tauto].
Qed.

Lemma sub_topic_loop_length c s n k : sub_topic_loop c s n = Some k -> k = n + strlen s.
Proof.
  revert c n. induction s as [|x s IH]; intros c n; cbn [sub_topic_loop].
  - intros [= <-]. change (strlen []) with 0. lia.
  - do 2 (match goal with |- context [if ?b then _ else _] => destruct b end; [done|]).
    intros H%IH. rewrite strlen_cons. lia.
Qed.

(** Validity from a previous character, level by level. *)
Definition valid_rest (c : byte) (ls : list str) : Prop :=
  match ls with
  | l :: ls' => (level_start c -> valid_filter_levels ls) /\
                (~ level_start c -> no_wildcard l /\ valid_filter_levels ls')
  | [] => True
  end.

#[export] Instance level_start_dec c : Decision (level_start c).
Proof. unfold level_start. apply _. Defined.

Lemma levels_nil_iff s l ls : levels s = l :: ls -> s = [] <-> l = [] /\ ls = [].
Proof.
  intros E. split; [intros ->; by simplify_eq/=|].
  intros [-> ->]. by apply levels_nil_inv.
Qed.

Lemma level_head s l ls : NUL ∉ s -> levels s = l :: ls -> level_start (cget s 0) <-> l = [].
Proof.
  intros HN E. unfold level_start. destruct s as [|x s]; cbn in E.
  - simplify_eq. change (cget [] 0) with NUL. tauto.
  - change (cget (x :: s) 0) with x. apply not_elem_of_cons in HN as [? _].
    destruct (levels_cons s) as (m & ms & Em). rewrite Em in E.
    case_decide; simplify_eq; intuition congruence.
Qed.

Lemma valid_from_levels s : forall c, NUL ∉ s -> valid_from c s <-> valid_rest c (levels s).
Proof.
  induction s as [|x s IH]; intros c HN.
  { split; [intros _; cbn; pose proof no_wildcard_nil; tauto | by exists 0]. }
  apply not_elem_of_cons in HN as [HxN HN]. rewrite valid_from_cons, (IH x HN). cbn [levels].
  destruct (levels_cons s) as (l & ls & E).
  destruct (decide (x = SLASH)) as [->|Hx]; rewrite E.
  - assert (level_start SLASH) as HS by by right. cbn. pose proof no_wildcard_nil as Hw0.
    assert (SLASH = PLUS <-> False) as -> by done. assert (SLASH = HASH <-> False) as -> by done.
    destruct (decide (level_start c)); tauto.
  - assert (~ level_start x) as HS by (intros [?|?]; congruence). cbn.
    rewrite no_wildcard_cons.
    assert (level_start (cget s 0) <-> l = []) as Hl by (by apply (level_head s l ls)).
    assert (cget s 0 = NUL <-> l = [] /\ ls = []) as Hs.
    { rewrite <- (levels_nil_iff s l ls E). split; [by apply cget_0_nul | by intros ->]. }
    destruct (decide (x = PLUS)) as [->|HP]; [|destruct (decide (x = HASH)) as [->|HH]].
    + assert (PLUS :: l = [PLUS] <-> l = []) as -> by (split; [by intros [= ->] | by intros ->]).
      assert (PLUS :: l = [HASH] <-> False) as -> by done.
      assert (PLUS = HASH <-> False) as -> by done. rewrite Hl. cbn.
      pose proof no_wildcard_nil.
      destruct (decide (level_start c)); intuition (subst; cbn in *; try done).
    + assert (HASH :: l = [HASH] <-> l = []) as -> by (split; [by intros [= ->] | by intros ->]).
      assert (HASH :: l = [PLUS] <-> False) as -> by done.
      assert (HASH = PLUS <-> False) as -> by done. rewrite Hs. pose proof no_wildcard_nil.
      destruct (decide (level_start c)); intuition (subst; cbn in *; try done).
    + assert (x :: l = [HASH] <-> False) as -> by (split; [by intros [= ->] | done]).
      assert (x :: l = [PLUS] <-> False) as -> by (split; [by intros [= ->] | done]).
      destruct (decide (level_start c)); tauto.
Qed.

Lemma sub_topic_check_spec_aux s :
  (NUL ∉ s) ->
  mosquitto_sub_topic_check s = MOSQ_ERR_SUCCESS <->
  valid_filter_levels (levels s) /\ strlen s <= 65535.
Proof.
  intros HN. unfold mosquitto_sub_topic_check.
  pose proof (valid_from_levels s NUL HN) as Hv. unfold valid_from in Hv.
  destruct (levels_cons s) as (l & ls & E). rewrite E in Hv |- *. cbn [valid_rest] in Hv.
  assert (level_start NUL) as Hs by by left.
  destruct (sub_topic_loop NUL s 0) as [k|] eqn:Ek.
  - apply sub_topic_loop_length in Ek. assert (valid_filter_levels (l :: ls)) by (apply Hv; done).
    destruct (65535 <? k) eqn:E2; split; try done; [intros [_ ?]; lia | intros _; split; [done|lia]].
  - split; [done|]. intros [H _]. by destruct (proj2 Hv ltac:(tauto)).
Qed.

(** * Properties *)

Lemma topic_matches_sub_code sub topic r :
  (NUL ∉ sub) -> sub <> [] -> topic <> [] ->
  mosquitto_sub_topic_check sub = MOSQ_ERR_SUCCESS ->
  mosquitto_pub_topic_check topic = MOSQ_ERR_SUCCESS ->
  mosquitto_topic_matches_sub sub topic r
  = (MOSQ_ERR_SUCCESS, Some (bool_decide (starts_dollar sub = starts_dollar topic)
                             && code_match (levels sub) (levels topic))).
Proof.
  intros HN Hs Ht Hv%sub_topic_check_valid [Hw _]%pub_topic_check_no_wildcard.
  unfold mosquitto_topic_matches_sub.
  pose proof (matches_loop_suffix (S (length sub)) sub [] [] topic ltac:(lia)) as Hl.
  cbn [app] in Hl. change (strlen []) with 0 in Hl.
  rewrite (suffix_match_levels sub NUL topic) in Hl by done.
  destruct sub as [|a sub], topic as [|b topic]; try done.
  assert (Hpos : forall x l, (0 <? strlen (x :: l)) = true).
  { intros x l. rewrite strlen_cons. pose proof (strlen_nonneg l). lia. }
  rewrite !Hpos. cbn [andb]. change (cget (a :: sub) 0) with a. change (cget (b :: topic) 0) with b.
  cbn [starts_dollar].
  destruct (decide (a = DOLLAR)) as [Ha|Ha], (decide (b = DOLLAR)) as [Hb|Hb];
    rewrite ?(bool_decide_eq_true_2 _ Ha), ?(bool_decide_eq_true_2 _ Hb),
      ?(bool_decide_eq_false_2 _ Ha), ?(bool_decide_eq_false_2 _ Hb); cbn [andb orb negb];
    try done; rewrite (bool_decide_eq_true_2 (_ = _)) by done; cbn [andb];
    destruct (matches_loop _ _ _ _ _ _ _) as [r'|[sp tp]]; cbn [loop_outcome] in Hl;
    try (revert Hl; destruct (_ || _)); congruence.
Qed.



(** [mosquitto_sub_topic_check] accepts a C string exactly when it is a valid
    filter of at most 65535 characters: every wildcard is a whole level and '#'
    only the last one. *)
Theorem sub_topic_check_spec s :
  (NUL ∉ s) ->
  mosquitto_sub_topic_check s = MOSQ_ERR_SUCCESS <->
  valid_filter_levels (levels s) /\ strlen s <= 65535.
Proof. apply sub_topic_check_spec_aux. Qed.

Lemma sub_topic_check_spec_witness :
  (NUL ∉ lit "a/+/#") /\
  (mosquitto_sub_topic_check (lit "a/+/#") = MOSQ_ERR_SUCCESS <->
   valid_filter_levels (levels (lit "a/+/#")) /\ strlen (lit "a/+/#") <= 65535).
Proof.
  assert (NUL ∉ lit "a/+/#") as H by (apply (bool_decide_unpack _); vm_compute; exact I).
  split; [exact H | apply sub_topic_check_spec; exact H].
Defined.

(** [mosquitto_pub_topic_check] accepts exactly the strings without '+' and
    '#' of at most 65535 characters. *)
Theorem pub_topic_check_spec s :
  mosquitto_pub_topic_check s = MOSQ_ERR_SUCCESS <->
  (PLUS ∉ s) /\ (HASH ∉ s) /\ strlen s <= 65535.
Proof. rewrite pub_topic_check_no_wildcard. unfold no_wildcard. tauto. Qed.

(** The zero-level reading of a final '#' is only implemented after a literal
    level: "+/#" does not match "a", and "a/#" does not match "a/". *)
Theorem topic_matches_sub_hash_gap :
  mosquitto_topic_matches_sub (lit "+/#") (lit "a") None = (MOSQ_ERR_SUCCESS, Some false)
  /\ filter_matches (lit "+/#") (lit "a") = true
  /\ mosquitto_topic_matches_sub (lit "a/#") (lit "a/") None = (MOSQ_ERR_SUCCESS, Some false)
  /\ filter_matches (lit "a/#") (lit "a/") = true
  /\ mosquitto_topic_matches_sub (lit "a/#") (lit "a") None = (MOSQ_ERR_SUCCESS, Some true).
Proof. by vm_compute. Qed.
