(* ===== verification/Net.v ===== *)
(** Packet transport of lib/net_mosq.c: the queue of outgoing packets and its
    partial writes, the incremental reader that reassembles one control packet,
    and the closing of a socket.  The system calls are the streams [d_writes]
    and [d_reads]; the handler that a complete packet is passed to is a
    parameter here and is supplied by Handle.v. *)

From S2P Require Export Types.
#[local] Open Scope Z_scope.

(** * System calls *)

(** [_mosquitto_net_read]: at most [count] bytes of what has arrived; nothing
    pending is EAGAIN. *)
Definition _mosquitto_net_read (rs : list read_result) (count : Z)
    : read_result * list read_result :=
  match rs with
  | [] => (RdAgain, [])
  | RdOk bs :: rest =>
    match drop (Z.to_nat count) bs with
    | [] => (RdOk bs, rest)
    | more => (RdOk (take (Z.to_nat count) bs), RdOk more :: rest)
    end
  | r :: rest => (r, rest)
  end.

(** [_mosquitto_net_write]: never more than [count] bytes are taken; no answer
    left is EAGAIN. *)
Definition _mosquitto_net_write (ws : list write_result) (count : Z)
    : write_result * list write_result :=
  match ws with
  | [] => (WAgain, [])
  | WOk n :: rest => (WOk (Z.min n count), rest)
  | w :: rest => (w, rest)
  end.

(** The error returned for a write or a read that moved nothing: EAGAIN ends the
    call with success, and a zero-length write leaves [errno] 0. *)
Definition write_failure (w : write_result) : Z :=
  match w with
  | WAgain => MOSQ_ERR_SUCCESS
  | WConnReset => MOSQ_ERR_CONN_LOST
  | WOk _ | WErr => MOSQ_ERR_ERRNO
  end.

Definition read_failure (r : read_result) : Z :=
  match r with
  | RdOk _ | RdEof => MOSQ_ERR_CONN_LOST
  | RdAgain => MOSQ_ERR_SUCCESS
  | RdConnReset => MOSQ_ERR_CONN_LOST
  | RdErr => MOSQ_ERR_ERRNO
  end.

(** * Writing *)

(** [while(packet->to_process > 0)]: [inl rc] leaves [_mosquitto_packet_write]
    with [rc], [inr tt] finished the packet.  With it come the packet, the bytes
    the socket took and the answers left. *)
Fixpoint packet_drain (ws : list write_result) (p : packet) (sent : list byte)
    : (Z + unit) * packet * list byte * list write_result :=
  if 0 <? p_to_process p then
    match ws with
    | [] => (inl (write_failure WAgain), p, sent, [])
    | w :: ws' =>
      match fst (_mosquitto_net_write (w :: ws') (p_to_process p)) with
      | WOk n =>
        if 0 <? n then
          packet_drain ws'
            (p <| p_to_process ::= (fun t => u32 (t - n)) |> <| p_pos ::= (fun i => u32 (i + n)) |>)
            (sent ++ take (Z.to_nat n) (drop (Z.to_nat (p_pos p)) (p_payload p)))
        else (inl (write_failure (WOk n)), p, sent, ws')
      | e => (inl (write_failure e), p, sent, ws')
      end
    end
  else (inr tt, p, sent, ws).

(** What a run of the outer loop changes. *)
Record write_run := WriteRun {
  wr_rc : Z;
  wr_current : option packet;
  wr_queue : list packet;
  wr_sent : list byte;
  wr_answers : list write_result;
  wr_msgs : Z;
  wr_pub_msgs : Z;
  wr_wrote : bool }.

Definition is_publish_sent (p : packet) : bool := Z.land (p_command p) 0xF6 =? PUBLISH.

(** [while(mosq->current_out_packet)], the queue behind the current packet being
    [queue]. *)
Fixpoint write_loop (cur : packet) (queue : list packet) (ws : list write_result)
    (sent : list byte) (msgs pubs : Z) (wrote : bool) : write_run :=
  match packet_drain ws cur sent with
  | (inl rc, p, sent, ws) => WriteRun rc (Some p) queue sent ws msgs pubs wrote
  | (inr tt, p, sent, ws) =>
    let msgs := u64 (msgs + 1) in
    let pubs := if is_publish_sent p then u64 (pubs + 1) else pubs in
    match queue with
    | [] => WriteRun MOSQ_ERR_SUCCESS None [] sent ws msgs pubs true
    | q :: queue => write_loop q queue ws sent msgs pubs true
    end
  end.

(** [mosq->current_out_packet = mosq->out_packet], when there is no current one. *)
Definition pop_current (x : mosquitto) : mosquitto :=
  match c_out_packet x, c_current_out_packet x with
  | p :: ps, None => x <| c_current_out_packet := Some p |> <| c_out_packet := ps |>
  | _, _ => x
  end.

(** What the loop did, written back to the context and the counters. *)
Definition write_back (c : addr) (sock : Z) (r : write_run) : M unit :=
  now ← mosquitto_time;
  upd_ctx c (fun x => x
    <| c_current_out_packet := wr_current r |> <| c_out_packet := wr_queue r |>
    <| c_last_msg_out ::= (fun t => if wr_wrote r then now else t) |>);;
  modify (fun d => d
    <| d_writes := wr_answers r |>
    <| d_sent ::= (fun m => <[sock := default [] (m !! sock) ++ wr_sent r]> m) |>
    <| d_bytes_sent ::= (fun n => u64 (n + Z.of_nat (length (wr_sent r)))) |>
    <| d_msgs_sent := wr_msgs r |> <| d_pub_msgs_sent := wr_pub_msgs r |>).

Definition _mosquitto_packet_write (c : addr) : M Z :=
  x ← get_ctx c;
  if c_sock x =? INVALID_SOCKET then mret MOSQ_ERR_NO_CONN else
  upd_ctx c pop_current;;
  x ← get_ctx c;
  if bool_decide (c_state x = mosq_cs_connect_pending) then mret MOSQ_ERR_SUCCESS else
  match c_current_out_packet x with
  | None => mret MOSQ_ERR_SUCCESS
  | Some cur =>
    r ← gets (fun d => write_loop cur (c_out_packet x) (d_writes d) [] (d_msgs_sent d)
                         (d_pub_msgs_sent d) false);
    write_back c (c_sock x) r;;
    mret (wr_rc r)
  end.

Definition _mosquitto_packet_queue (c : addr) (p : packet) : M Z :=
  let p := p <| p_pos := 0 |> <| p_to_process := p_packet_length p |> in
  upd_ctx c (fun x => x <| c_out_packet ::= (fun q => q ++ [p]) |>);;
  _mosquitto_packet_write c.

(** * Closing *)

Definition _mosquitto_socket_close (c : addr) : M Z :=
  upd_ctx c (fun x => x <| c_ssl := false |>);;
  x ← get_ctx c;
  (if 0 <=? c_sock x then
     modify (fun d => d <| d_contexts_by_sock ::= filter (fun a => a <> c) |>);;
     upd_ctx c (fun x => x <| c_sock := INVALID_SOCKET |>)
   else mret tt);;
  match c_listener x with
  | None => mret 0
  | Some i =>
    d ← get;
    l ← unwrap (d_listeners d !! i);
    let count := l_client_count l - 1 in
    modify (fun d => d <| d_listeners ::= <[i := l <| l_client_count := count |>]> |>);;
    assertM (0 <=? count);;
    upd_ctx c (fun x => x <| c_listener := None |>);;
    mret 0
  end.

(** * Reading *)

(** The do-while loop over the bytes of the remaining length: [inl rc] leaves
    [_mosquitto_packet_read].  The protocol bound of four digits stops it. *)
Fixpoint read_remaining (fuel : nat) (rs : list read_result) (p : packet) (received : Z)
    : (Z + unit) * packet * Z * list read_result :=
  match fuel with
  | O => (inl MOSQ_ERR_PROTOCOL, p, received, rs)
  | S fuel =>
    match _mosquitto_net_read rs 1 with
    | (RdOk [b], rs) =>
      let byte := Z_of_byte b in
      let p := p <| p_remaining_count ::= Z.pred |> in
      if p_remaining_count p <? -4 then (inl MOSQ_ERR_PROTOCOL, p, received, rs) else
      let p := p <| p_remaining_length ::= (fun l => u32 (l + Z.land byte 127 * p_remaining_mult p)) |>
                 <| p_remaining_mult ::= (fun k => u32 (k * 128)) |> in
      if Z.land byte 128 =? 0 then (inr tt, p, u64 (received + 1), rs)
      else read_remaining fuel rs p (u64 (received + 1))
    | (r, rs) => (inl (read_failure r), p, received, rs)
    end
  end.

(** [while(mosq->in_packet.to_process>0)]: [inl (rc, slow)] leaves
    [_mosquitto_packet_read]; [slow] is whether [last_msg_in] is refreshed, as it
    is for a long message still on its way.  A read that leaves [to_process]
    positive has used up the first chunk ([net_read_short]), so the loop goes on
    with [rest]. *)
Fixpoint read_payload (rs : list read_result) (p : packet) (received : Z)
    : (Z * bool + unit) * packet * Z * list read_result :=
  if 0 <? p_to_process p then
    match rs with
    | [] => (inl (read_failure RdAgain, 1000 <? p_to_process p), p, received, [])
    | r :: rest =>
      match _mosquitto_net_read (r :: rest) (p_to_process p) with
      | (RdOk (b :: bs), more) =>
        let n := strlen (b :: bs) in
        let p' := p <| p_payload ::= (fun buf => memcpy_at buf (Z.to_nat (p_pos p)) (b :: bs)) |>
                    <| p_to_process ::= (fun t => u32 (t - n)) |>
                    <| p_pos ::= (fun i => u32 (i + n)) |> in
        if 0 <? p_to_process p' then read_payload rest p' (u64 (received + n))
        else (inr tt, p', u64 (received + n), more)
      | (RdAgain, more) => (inl (read_failure RdAgain, 1000 <? p_to_process p), p, received, more)
      | (e, more) => (inl (read_failure e, false), p, received, more)
      end
    end
  else (inr tt, p, received, rs).

(** The step that reads the command byte, when there is none yet. *)
Definition read_command (may_start : Z -> bool) (rs : list read_result) (p : packet) (received : Z)
    : (Z + unit) * packet * Z * list read_result :=
  if negb (p_command p =? 0) then (inr tt, p, received, rs) else
  match _mosquitto_net_read rs 1 with
  | (RdOk [b], rs) =>
    let p := p <| p_command := Z_of_byte b |> in
    if may_start (Z_of_byte b) then (inr tt, p, u64 (received + 1), rs)
    else (inl MOSQ_ERR_PROTOCOL, p, u64 (received + 1), rs)
  | (r, rs) => (inl (read_failure r), p, received, rs)
  end.

(** The remaining length, when it is not complete, and the buffer for what
    follows.  The bytes of a fresh buffer are indeterminate; zeros stand for them
    until they are overwritten. *)
Definition read_length (rs : list read_result) (p : packet) (received : Z)
    : (Z + unit) * packet * Z * list read_result :=
  if 0 <? p_remaining_count p then (inr tt, p, received, rs) else
  match read_remaining 5 rs p received with
  | (inr tt, p, received, rs) =>
    let p := p <| p_remaining_count ::= Z.mul (-1) |> in
    (inr tt,
     if 0 <? p_remaining_length p then
       p <| p_payload := replicate (Z.to_nat (p_remaining_length p)) NUL |>
         <| p_to_process := p_remaining_length p |>
     else p, received, rs)
  | e => e
  end.

(** The three steps in a row, on the packet buffer and the stream: [inr tt] is a
    complete packet. *)
Definition assemble (may_start : Z -> bool) (rs : list read_result) (p : packet) (received : Z)
    : (Z * bool + unit) * packet * Z * list read_result :=
  match read_command may_start rs p received with
  | (inl rc, p, received, rs) => (inl (rc, false), p, received, rs)
  | (inr tt, p, received, rs) =>
    match read_length rs p received with
    | (inl rc, p, received, rs) => (inl (rc, false), p, received, rs)
    | (inr tt, p, received, rs) => read_payload rs p received
    end
  end.

Section packet_read.
Variable mqtt3_packet_handle : addr -> M Z.

Definition is_publish_received (p : packet) : bool := Z.land (p_command p) 0xF5 =? PUBLISH.

(** Clients must send CONNECT as their first command. *)
Definition may_start (x : mosquitto) (byte : Z) : bool :=
  negb (bool_decide (c_bridge x = None) && bool_decide (c_state x = mosq_cs_new)
        && negb (Z.land byte 0xF0 =? CONNECT)).

Definition _mosquitto_packet_read (c : addr) : M Z :=
  x ← get_ctx c;
  if c_sock x =? INVALID_SOCKET then mret MOSQ_ERR_NO_CONN else
  if bool_decide (c_state x = mosq_cs_connect_pending) then mret MOSQ_ERR_SUCCESS else
  d ← get;
  let '(out, p, received, rs) :=
    assemble (may_start x) (default [] (d_reads d !! c_sock x)) (c_in_packet x)
      (d_bytes_received d) in
  upd_ctx c (fun x => x <| c_in_packet := p |>);;
  modify (fun d => d <| d_bytes_received := received |>
                     <| d_reads ::= <[c_sock x := rs]> |>);;
  now ← mosquitto_time;
  match out with
  | inl (rc, slow) =>
    (if slow then upd_ctx c (fun x => x <| c_last_msg_in := now |>) else mret tt);;
    mret rc
  | inr tt =>
    upd_ctx c (fun x => x <| c_in_packet ::= (fun p => p <| p_pos := 0 |>) |>);;
    modify (fun d => d
      <| d_msgs_received ::= (fun n => u64 (n + 1)) |>
      <| d_pub_msgs_received ::=
           (fun n => if is_publish_received p then u64 (n + 1) else n) |>);;
    rc ← mqtt3_packet_handle c;
    upd_ctx c (fun x => x <| c_in_packet ::= _mosquitto_packet_cleanup |>
                          <| c_last_msg_in := now |>);;
    mret rc
  end.
End packet_read.

(** * Writing: what the socket is given *)

(** A packet in the queue: what is left to write is the rest of the buffer. *)
Definition out_wf (p : packet) : Prop :=
  0 <= p_pos p /\ 0 <= p_to_process p
  /\ p_pos p + p_to_process p = Z.of_nat (length (p_payload p))
  /\ p_pos p + p_to_process p < 2 ^ 32.

Definition unsent (p : packet) : list byte := drop (Z.to_nat (p_pos p)) (p_payload p).

(** The bytes a context still owes its peer, in the order they were queued. *)
Definition with_current (cur : option packet) (queue : list packet) : list packet :=
  match cur with Some p => p :: queue | None => queue end.
Definition out_packets (x : mosquitto) : list packet :=
  with_current (c_current_out_packet x) (c_out_packet x).
Definition pending (x : mosquitto) : list byte := concat (map unsent (out_packets x)).

Lemma unsent_length p : out_wf p -> Z.of_nat (length (unsent p)) = p_to_process p.
Proof. unfold out_wf, unsent. rewrite length_drop. lia. Qed.

Definition write_positive (w : write_result) : Prop := exists n, w = WOk n /\ 0 < n.

(** The socket reports no error, but may be full for now. *)
Definition write_ok (w : write_result) : Prop := w = WAgain \/ write_positive w.

Lemma packet_drain_spec ws p sent :
  out_wf p ->
  let '(r, p', sent', ws') := packet_drain ws p sent in
  out_wf p' /\ p_command p' = p_command p
  /\ (exists bs, sent' = sent ++ bs /\ unsent p = bs ++ unsent p')
  /\ (r = inr tt -> unsent p' = [])
  /\ (exists used, ws = used ++ ws' /\ (Forall write_positive ws -> Z.of_nat (length used) <= p_to_process p))
  /\ (Forall write_positive ws -> p_to_process p <= Z.of_nat (length ws) -> r = inr tt).
Proof.
  revert p sent. induction ws as [|w ws IH]; intros p sent Hp; cbn [packet_drain];
    destruct (0 <? p_to_process p) eqn:E; pose proof (unsent_length p Hp) as Hl.
  - split; [done|]. split; [done|]. split; [exists []; by rewrite app_nil_r|]. split; [done|].
    split; [exists []; split; [done|]; intros _; cbn; lia|]. cbn. intros _. lia.
  - split; [done|]. split; [done|]. split; [exists []; by rewrite app_nil_r|].
    split; [intros _; destruct (unsent p); [done|cbn in Hl; lia]|].
    split; [exists []; split; [done|]; intros _; cbn; lia|]. done.
  - assert (forall e, (forall n, w = WOk n -> n <= 0) ->
      out_wf p /\ p_command p = p_command p
      /\ (exists bs, sent = sent ++ bs /\ unsent p = bs ++ unsent p)
      /\ (@inl Z unit e = inr tt -> unsent p = [])
      /\ (exists used, w :: ws = used ++ ws /\
            (Forall write_positive (w :: ws) -> Z.of_nat (length used) <= p_to_process p))
      /\ (Forall write_positive (w :: ws) -> p_to_process p <= Z.of_nat (length (w :: ws)) ->
            @inl Z unit e = inr tt)) as Hstop.
    { intros e Hw. split; [done|]. split; [done|]. split; [exists []; by rewrite app_nil_r|].
      split; [done|]. split; [exists [w]; split; [done|]; intros _; cbn; lia|].
      intros Hall _. inversion Hall as [|? ? (n & -> & Hn)]; subst. specialize (Hw n eq_refl). lia. }
    destruct w as [n| | |]; cbn [_mosquitto_net_write fst]; try (by apply Hstop).
    destruct (0 <? Z.min n (p_to_process p)) eqn:En; [|apply Hstop; intros ? [= ->]; lia].
    assert (0 < Z.min n (p_to_process p) <= p_to_process p) as Hk by lia.
    set (k := Z.min n (p_to_process p)) in *.
    set (p1 := _ <| p_pos ::= _ |>).
    assert (out_wf p1 /\ unsent p1 = drop (Z.to_nat k) (unsent p) /\ p_command p1 = p_command p
            /\ p_to_process p1 = p_to_process p - k) as (Hp1 & Hu & Hc & Ht).
    { unfold p1, out_wf, unsent in *. clearbody k. clear p1. upd_simpl. rewrite !u32_small by lia.
      rewrite drop_drop. split; [lia|]. split; [f_equal; lia|]. split; [done|lia]. }
    clearbody p1.
    specialize (IH p1 (sent ++ take (Z.to_nat k) (unsent p)) Hp1). fold (unsent p).
    destruct (packet_drain ws p1 _) as [[[r p'] sent'] ws'].
    destruct IH as (I1 & I2 & (bs & I3 & I4) & I5 & (used & I6 & I6') & I7).
    split; [done|]. split; [congruence|]. split.
    { exists (take (Z.to_nat k) (unsent p) ++ bs). rewrite app_assoc. split; [done|].
      rewrite <- app_assoc, <- I4, Hu. by rewrite take_drop. }
    split; [done|]. split.
    { exists (WOk n :: used). rewrite I6. split; [done|].
      intros Hall. inversion Hall; subst. cbn [length]. specialize (I6' ltac:(done)). lia. }
    intros Hall Hn. inversion Hall; subst. apply I7; [done|]. cbn [length] in Hn. lia.
  - split; [done|]. split; [done|]. split; [exists []; by rewrite app_nil_r|].
    split; [intros _; destruct (unsent p); [done|cbn in Hl; lia]|].
    split; [exists []; split; [done|]; intros _; cbn; lia|]. done.
Qed.

Lemma packet_drain_ok ws p sent :
  Forall write_ok ws ->
  let '(r, _, _, ws') := packet_drain ws p sent in
  Forall write_ok ws' /\ (r = inr tt \/ r = inl MOSQ_ERR_SUCCESS).
Proof.
  revert p sent. induction ws as [|w ws IH]; intros p sent Hall; cbn [packet_drain];
    destruct (0 <? p_to_process p) eqn:E; try (split; [done|by auto]).
  inversion Hall as [|? ? Hw Hall']; subst. destruct Hw as [->|(n & -> & Hn)]; cbn [_mosquitto_net_write fst].
  - split; [done|by right].
  - rewrite (proj2 (Z.ltb_lt 0 _)) by lia. by apply IH.
Qed.

Lemma write_loop_ok queue cur ws sent msgs pubs wrote :
  Forall write_ok ws ->
  let r := write_loop cur queue ws sent msgs pubs wrote in
  Forall write_ok (wr_answers r) /\ wr_rc r = MOSQ_ERR_SUCCESS.
Proof.
  revert cur ws sent msgs pubs wrote. induction queue as [|q queue IH];
    intros cur ws sent msgs pubs wrote Hall; cbn [write_loop];
    pose proof (packet_drain_ok ws cur sent Hall) as Hd;
    destruct (packet_drain ws cur sent) as [[[r p'] sent1] ws1]; destruct Hd as [H1 H2].
  - destruct H2 as [->| ->]; done.
  - destruct H2 as [->| ->]; [|done]. by apply IH.
Qed.

Definition run_packets (r : write_run) : list packet := with_current (wr_current r) (wr_queue r).

Lemma write_loop_spec queue cur ws sent msgs pubs wrote :
  Forall out_wf (cur :: queue) ->
  let r := write_loop cur queue ws sent msgs pubs wrote in
  Forall out_wf (run_packets r)
  /\ (exists bs, wr_sent r = sent ++ bs
        /\ concat (map unsent (cur :: queue)) = bs ++ concat (map unsent (run_packets r)))
  /\ (wr_current r = None -> wr_rc r = MOSQ_ERR_SUCCESS /\ wr_queue r = [])
  /\ (Forall write_positive ws ->
      length (concat (map unsent (cur :: queue))) <= length ws -> wr_current r = None)%nat.
Proof.
  revert cur ws sent msgs pubs wrote. induction queue as [|q queue IH];
    intros cur ws sent msgs pubs wrote Hwf; inversion Hwf as [|? ? Hcur Hq]; subst;
    cbn [write_loop]; pose proof (packet_drain_spec ws cur sent Hcur) as Hd;
    pose proof (unsent_length cur Hcur) as Hl;
    destruct (packet_drain ws cur sent) as [[[r p'] sent1] ws1];
    destruct Hd as (D1 & D2 & (bs & -> & D4) & D5 & (used & -> & D6) & D7);
    cbn [map concat] in *; rewrite ?app_nil_r; rewrite D4.
  - destruct r as [rc|[]]; unfold run_packets; cbn [wr_current wr_queue wr_sent wr_rc with_current app map concat].
    + split; [by constructor|]. split; [exists bs; by rewrite ?app_nil_r|]. split; [done|].
      intros Hall Hle. rewrite D4 in Hl. discriminate (D7 Hall). lia.
    + split; [constructor|]. split; [exists bs; by rewrite D5|]. done.
  - destruct r as [rc|[]].
    + unfold run_packets; cbn [wr_current wr_queue wr_sent wr_rc with_current app map concat].
      split; [by constructor|]. split; [exists bs; by rewrite <- app_assoc|]. split; [done|].
      intros Hall Hle. rewrite (length_app (bs ++ _)) in Hle. rewrite D4 in Hl.
      discriminate (D7 Hall). lia.
    + rewrite D5, app_nil_r in * by done.
      specialize (IH q ws1 (sent ++ bs) (u64 (msgs + 1))
        (if is_publish_sent p' then u64 (pubs + 1) else pubs) true Hq).
      cbv zeta in IH. destruct (write_loop _ _ _ _ _ _ _) as [rc' cur' queue' sent' ans' m' pb' w'].
      destruct IH as (I1 & (bs' & I2 & I3) & I4 & I5). cbn [map concat] in I3, I5.
      split; [done|]. split; [exists (bs ++ bs'); by rewrite I2, I3, !app_assoc|].
      split; [done|]. intros Hall Hle. pose proof (D6 Hall) as Hu.
      apply Forall_app in Hall as [_ Hall]. apply I5; [done|].
      rewrite !length_app in Hle. rewrite D4 in Hl. rewrite length_app. lia.
Qed.

Definition ctx_out_wf (x : mosquitto) : Prop := Forall out_wf (out_packets x).

(** What was given to a socket. *)
Definition socket_bytes (d : mosquitto_db) (sock : Z) : list byte := default [] (d_sent d !! sock).

(** Everything context [x] was ever made to send: what its socket took, and
    what is still queued. *)
Definition stream (d : mosquitto_db) (x : mosquitto) : list byte :=
  socket_bytes d (c_sock x) ++ pending x.

(** Only the queue and the send time differ. *)
Definition same_but_out (x x' : mosquitto) : Prop :=
  x' = x <| c_current_out_packet := c_current_out_packet x' |> <| c_out_packet := c_out_packet x' |>
         <| c_last_msg_out := c_last_msg_out x' |>.

Lemma same_but_out_refl x : same_but_out x x.
Proof. by destruct x. Qed.

Lemma same_but_out_intro x f g h :
  same_but_out x (x <| c_current_out_packet ::= f |> <| c_out_packet ::= g |> <| c_last_msg_out ::= h |>).
Proof. by destruct x. Qed.

Lemma same_but_out_trans x y z : same_but_out x y -> same_but_out y z -> same_but_out x z.
Proof. unfold same_but_out. intros -> ->. by destruct x. Qed.

(** What writing to [c] may change: its queue and send time, the bytes of its
    socket, the counters and the streams of answers. *)
Definition only_writes (c : addr) (d d' : mosquitto_db) : Prop :=
  exists x x', d_contexts d !! c = Some x /\ d_contexts d' = <[c := x']> (d_contexts d)
  /\ same_but_out x x'
  /\ (forall s, s <> c_sock x -> d_sent d' !! s = d_sent d !! s)
  /\ d' = d <| d_contexts := d_contexts d' |> <| d_writes := d_writes d' |> <| d_sent := d_sent d' |>
            <| d_bytes_sent := d_bytes_sent d' |> <| d_msgs_sent := d_msgs_sent d' |>
            <| d_pub_msgs_sent := d_pub_msgs_sent d' |>.

Lemma only_writes_refl c x d : d_contexts d !! c = Some x -> only_writes c d d.
Proof.
  intros H. exists x, x. split; [done|]. split; [by rewrite insert_id|].
  split; [apply same_but_out_refl|]. split; [done|]. by destruct d.
Qed.

Lemma only_writes_trans c d1 d2 d3 : only_writes c d1 d2 -> only_writes c d2 d3 -> only_writes c d1 d3.
Proof.
  intros (x & y & H1 & H2 & H3 & H4 & H5) (y' & z & I1 & I2 & I3 & I4 & I5).
  rewrite H2, lookup_insert_eq in I1. simplify_eq.
  exists x, z. split; [done|]. split; [by rewrite I2, H2, insert_insert_eq|].
  split; [by eapply same_but_out_trans|]. split.
  - intros s Hs. rewrite I4, H4; [done|done|]. rewrite H3. by destruct x.
  - rewrite I5, H5. by destruct d1.
Qed.

Lemma pop_current_packets x : out_packets (pop_current x) = out_packets x.
Proof.
  unfold pop_current, out_packets. destruct (c_out_packet x) eqn:E, (c_current_out_packet x) eqn:F;
    upd_simpl; by rewrite ?E, ?F.
Qed.

Lemma pop_current_empty x : c_current_out_packet (pop_current x) = None -> out_packets (pop_current x) = [].
Proof.
  unfold pop_current, out_packets. destruct (c_out_packet x) eqn:E, (c_current_out_packet x) eqn:F;
    upd_simpl; by rewrite ?E, ?F.
Qed.

Lemma pop_current_only x : same_but_out x (pop_current x).
Proof.
  unfold pop_current. destruct (c_out_packet x), (c_current_out_packet x);
    try apply same_but_out_refl. by destruct x.
Qed.

Lemma only_writes_ctx c d d' x x' :
  only_writes c d d' -> d_contexts d !! c = Some x -> d_contexts d' !! c = Some x' -> same_but_out x x'.
Proof.
  intros (y & y' & H1 & H2 & H3 & _) Hx Hx'. rewrite H2, lookup_insert_eq in Hx'. by simplify_eq.
Qed.

Lemma only_writes_sock c d d' x x' :
  only_writes c d d' -> d_contexts d !! c = Some x -> d_contexts d' !! c = Some x' -> c_sock x' = c_sock x.
Proof.
  intros H Hx Hx'. pose proof (only_writes_ctx c d d' x x' H Hx Hx') as E. rewrite E. by destruct x.
Qed.

Lemma only_writes_upd c x x' d :
  d_contexts d !! c = Some x -> same_but_out x x' ->
  only_writes c d (d <| d_contexts ::= <[c := x']> |>).
Proof.
  intros Hx H. exists x, x'. split; [done|]. split; [done|]. split; [done|]. split; [done|].
  by destruct d.
Qed.

Lemma write_back_run c x r d :
  d_contexts d !! c = Some x ->
  wp (write_back c (c_sock x) r) (fun _ d' =>
    only_writes c d d' /\ exists x', d_contexts d' !! c = Some x' /\ out_packets x' = run_packets r
    /\ c_sock x' = c_sock x
    /\ socket_bytes d' (c_sock x) = socket_bytes d (c_sock x) ++ wr_sent r
    /\ d_writes d' = wr_answers r) d.
Proof.
  intros Hx. unfold write_back. wp_step. wp_ptr.
  set (x' := x <| c_current_out_packet := _ |> <| c_out_packet := _ |> <| c_last_msg_out ::= _ |>).
  split.
  - exists x, x'. split; [done|]. split; [done|]. split; [apply same_but_out_intro|]. clearbody x'.
    split; [|destruct d; db_compute; reflexivity]. intros s Hs. proj_simpl. by rewrite lookup_insert_ne.
  - exists x'. proj_simpl. split; [apply lookup_insert_eq|]. split; [done|]. split; [done|].
    unfold socket_bytes. proj_simpl. split; [by rewrite lookup_insert_eq|done].
Qed.

Lemma packet_write_run c x d :
  d_contexts d !! c = Some x -> ctx_out_wf x ->
  wp (_mosquitto_packet_write c) (fun rc d' =>
    only_writes c d d' /\
    exists x', d_contexts d' !! c = Some x' /\ ctx_out_wf x' /\ stream d' x' = stream d x
    /\ (c_sock x = INVALID_SOCKET -> rc = MOSQ_ERR_NO_CONN)
    /\ (c_sock x <> INVALID_SOCKET -> c_state x <> mosq_cs_connect_pending ->
        Forall write_positive (d_writes d) ->
        (length (pending x) <= length (d_writes d))%nat -> rc = MOSQ_ERR_SUCCESS /\ pending x' = [])
    /\ (Forall write_ok (d_writes d) ->
        Forall write_ok (d_writes d') /\ (c_sock x <> INVALID_SOCKET -> rc = MOSQ_ERR_SUCCESS))) d.
Proof.
  intros Hx Hwf. unfold _mosquitto_packet_write. wp_step.
  exists x. split; [done|].
  destruct (c_sock x =? INVALID_SOCKET) eqn:Es.
  { wp_step. split; [by eapply only_writes_refl|].
    exists x. split; [done|]. split; [done|]. split; [done|]. split; [done|]. split; [lia|]. split; [done|lia]. }
  wp_step. wp_ptr. wp_ptr.
  set (x1 := pop_current x). set (d1 := d <| d_contexts ::= _ |>).
  assert (only_writes c d d1) as Ho1 by (apply only_writes_upd with x; [done|apply pop_current_only]).
  assert (c_sock x1 = c_sock x /\ c_state x1 = c_state x) as [Hs Hst]
    by (unfold x1; rewrite pop_current_only; by proj_simpl).
  assert (pending x1 = pending x) as Hp1 by (unfold pending, x1; by rewrite pop_current_packets).
  assert (stream d1 x1 = stream d x) as Hst1 by (unfold stream; by rewrite Hs, Hp1).
  assert (ctx_out_wf x1) as Hwf1 by (unfold ctx_out_wf, x1; by rewrite pop_current_packets).
  assert (d_contexts d1 !! c = Some x1) as Hl1 by apply lookup_insert_eq.
  rewrite Hst. destruct (bool_decide (c_state x = _)) eqn:Hcp;
    [apply bool_decide_eq_true_1 in Hcp|apply bool_decide_eq_false_1 in Hcp].
  { wp_step. split; [done|]. exists x1. split; [done|]. split; [done|]. split; [done|]. split; [lia|]. done. }
  destruct (c_current_out_packet x1) as [cur|] eqn:Ec.
  2: { wp_step. split; [done|]. exists x1. split; [done|]. split; [done|]. split; [done|]. split; [lia|].
       split; [|done]. intros _ _ _ _. split; [done|].
       unfold pending, x1. by rewrite (pop_current_empty x Ec). }
  assert (out_packets x1 = cur :: c_out_packet x1) as Hq by (unfold out_packets; by rewrite Ec).
  unfold ctx_out_wf in Hwf1. rewrite Hq in Hwf1.
  pose proof (write_loop_spec (c_out_packet x1) cur (d_writes d1) [] (d_msgs_sent d1)
    (d_pub_msgs_sent d1) false Hwf1) as Hr.
  pose proof (write_loop_ok (c_out_packet x1) cur (d_writes d1) [] (d_msgs_sent d1)
    (d_pub_msgs_sent d1) false) as Hrok.
  assert (d_writes d1 = d_writes d) as Hw by done.
  wp_step. clearbody x1 d1. set (r := write_loop _ _ _ _ _ _ _) in *. clearbody r.
  destruct Hr as (R1 & (bs & R2 & R3) & R4 & R5).
  eapply wp_mono; [by apply write_back_run|cbv beta]. intros _ d2 (O2 & x2 & L2 & P2 & S2 & B2 & A2).
  wp_step. split; [by eapply only_writes_trans|].
  rewrite <- Hq in R3, R5. fold (pending x1) in R3, R5. rewrite <- P2 in R1, R3. fold (pending x2) in R3.
  exists x2. split; [done|]. split; [done|]. split.
  { rewrite <- Hst1. unfold stream. rewrite S2, B2, R3, R2; by rewrite <- app_assoc. }
  split; [lia|]. split.
  - intros _ _ Hall Hle. rewrite <- Hp1 in Hle. rewrite <- Hw in Hall, Hle.
    destruct (R4 (R5 Hall Hle)) as [Hrc Hq0]. split; [done|]. unfold pending. rewrite P2.
    unfold run_packets. by rewrite (R5 Hall Hle), Hq0.
  - intros Hall. rewrite <- Hw in Hall. destruct (Hrok Hall) as [H1 H2]. rewrite A2. done.
Qed.

(** A packet as it is handed to the queue: allocated and completely written. *)
Definition packet_ready (p : packet) : Prop :=
  Z.of_nat (length (p_payload p)) = p_packet_length p /\ p_packet_length p < 2 ^ 32.

Lemma packet_queue_run c x p d :
  d_contexts d !! c = Some x -> ctx_out_wf x -> packet_ready p ->
  wp (_mosquitto_packet_queue c p) (fun rc d' =>
    only_writes c d d' /\
    exists x', d_contexts d' !! c = Some x' /\ ctx_out_wf x'
    /\ stream d' x' = stream d x ++ p_payload p
    /\ (c_sock x = INVALID_SOCKET -> rc = MOSQ_ERR_NO_CONN)
    /\ (c_sock x <> INVALID_SOCKET -> c_state x <> mosq_cs_connect_pending ->
        Forall write_positive (d_writes d) ->
        (length (pending x ++ p_payload p) <= length (d_writes d))%nat ->
        rc = MOSQ_ERR_SUCCESS /\ pending x' = [])
    /\ (Forall write_ok (d_writes d) ->
        Forall write_ok (d_writes d') /\ (c_sock x <> INVALID_SOCKET -> rc = MOSQ_ERR_SUCCESS))) d.
Proof.
  intros Hx Hwf [Hp1 Hp2]. unfold _mosquitto_packet_queue. wp_step. wp_ptr.
  set (p0 := p <| p_pos := _ |> <| p_to_process := _ |>).
  set (x1 := x <| c_out_packet ::= _ |>). set (d1 := d <| d_contexts ::= _ |>).
  assert (out_packets x1 = out_packets x ++ [p0]) as Hq.
  { unfold out_packets, x1. proj_simpl. by destruct (c_current_out_packet x). }
  assert (pending x1 = pending x ++ p_payload p) as Hpend.
  { unfold pending. rewrite Hq, map_app, concat_app. cbn. by rewrite app_nil_r. }
  assert (ctx_out_wf x1) as Hwf1.
  { unfold ctx_out_wf. rewrite Hq. apply Forall_app. split; [done|]. constructor; [|done].
    unfold out_wf, p0. proj_simpl. lia. }
  assert (only_writes c d d1) as Ho1.
  { apply only_writes_upd with x; [done|]. apply (same_but_out_intro x id _ id). }
  assert (d_writes d1 = d_writes d) as Hw by done.
  assert (stream d1 x1 = stream d x ++ p_payload p) as Hstr.
  { unfold stream. change (c_sock x1) with (c_sock x). by rewrite Hpend, app_assoc. }
  eapply wp_mono; [apply (packet_write_run c x1); [by apply lookup_insert_eq|done]|cbv beta].
  intros rc d2 (O2 & x2 & L2 & W2 & S2 & N2 & P2 & K2). split; [by eapply only_writes_trans|].
  exists x2. rewrite S2, Hpend, Hw in *. done.
Qed.

(** C33: [_mosquitto_packet_queue] never faults and writes packets in the order
    they were queued, whatever the socket accepts: the bytes given to the socket
    followed by those still queued are the same as before with the new packet at
    the end, nothing else of the broker changes, and a socket that takes at least
    one byte per call leaves nothing behind. *)
Theorem packet_queue_fifo c x p d :
  d_contexts d !! c = Some x -> ctx_out_wf x -> packet_ready p ->
  wp (_mosquitto_packet_queue c p) (fun rc d' =>
    only_writes c d d' /\
    exists x', d_contexts d' !! c = Some x' /\ ctx_out_wf x'
    /\ stream d' x' = stream d x ++ p_payload p
    /\ (c_sock x = INVALID_SOCKET -> rc = MOSQ_ERR_NO_CONN)
    /\ (c_sock x <> INVALID_SOCKET -> c_state x <> mosq_cs_connect_pending ->
        Forall write_positive (d_writes d) ->
        (length (pending x ++ p_payload p) <= length (d_writes d))%nat ->
        rc = MOSQ_ERR_SUCCESS
        /\ socket_bytes d' (c_sock x) = socket_bytes d (c_sock x) ++ pending x ++ p_payload p)) d.
Proof.
  intros Hx Hwf Hp. eapply wp_mono; [by apply packet_queue_run|cbv beta].
  intros rc d' (O & x' & L & W & S & N & P & _). split; [done|]. exists x'.
  split; [done|]. split; [done|]. split; [done|]. split; [done|].
  intros H1 H2 H3 H4. destruct (P H1 H2 H3 H4) as [P1 P2]. split; [done|].
  unfold stream in S. rewrite P2, app_nil_r, (only_writes_sock c d d' x x') in S by done.
  by rewrite S, app_assoc.
Qed.

Definition sample_out_ctx : mosquitto := context_calloc <| c_sock := 7 |>.
Definition sample_out_db : mosquitto_db :=
  db_calloc <| d_contexts := {[1%nat := sample_out_ctx]} |> <| d_writes := [WOk 1; WOk 1; WOk 9] |>.
Definition sample_ready : packet :=
  packet_calloc <| p_payload := map byte_of_Z [PINGRESP; 0] |> <| p_packet_length := 2 |>.

Lemma packet_queue_fifo_witness :
  wp (_mosquitto_packet_queue 1%nat sample_ready) (fun rc d' =>
    rc = MOSQ_ERR_SUCCESS /\ socket_bytes d' 7 = map byte_of_Z [0xD0; 0]) sample_out_db.
Proof.
  eapply wp_mono; [apply (packet_queue_fifo 1%nat sample_out_ctx); [done| |done]; constructor|cbv beta].
  intros rc d' (_ & x' & _ & _ & _ & _ & H). apply H; [done|done| |cbn; lia].
  repeat constructor; eexists; (split; [reflexivity|lia]).
Defined.

(** * Reading: reassembly of a packet from what arrives *)

(** The socket delivers [bs], in chunks of any size, and then [rest]. *)
Definition delivers (rs : list read_result) (bs : list byte) (rest : list read_result) : Prop :=
  exists chunks, Forall (fun ch => ch <> []) chunks /\ rs = map RdOk chunks ++ rest /\ concat chunks = bs.

(** Nothing more has arrived. *)
Definition quiet (rs rest : list read_result) : Prop :=
  rs = RdAgain :: rest \/ (rs = [] /\ rest = []).

Lemma delivers_nil rest : delivers rest [] rest.
Proof. exists []. split; [constructor|done]. Qed.

Lemma delivers_nil_inv rs rest : delivers rs [] rest -> rs = rest.
Proof.
  intros (chunks & Hall & -> & E). destruct chunks as [|ch chunks]; [done|].
  inversion Hall; subst. cbn in E. by destruct ch.
Qed.

(** A read of at most [k] bytes takes a non-empty prefix. *)
Lemma net_read_delivers rs bs rest k :
  delivers rs bs rest -> bs <> [] -> 1 <= k ->
  exists b bs1 bs2 rs', _mosquitto_net_read rs k = (RdOk (b :: bs1), rs')
    /\ bs = (b :: bs1) ++ bs2 /\ delivers rs' bs2 rest /\ strlen (b :: bs1) <= k
    /\ (bs2 = [] \/ strlen (b :: bs1) < k -> rs' = tail rs).
Proof.
  intros (chunks & Hall & -> & <-) Hne Hk. destruct chunks as [|ch chunks]; [done|].
  inversion Hall as [|? ? Hch Hall']; subst. cbn [map concat app _mosquitto_net_read] in *.
  destruct ch as [|b ch]; [done|].
  destruct (drop (Z.to_nat k) (b :: ch)) as [|y more] eqn:E.
  - exists b, ch, (concat chunks), (map RdOk chunks ++ rest). split; [done|]. split; [done|].
    split; [by exists chunks|]. split; [|done].
    apply (f_equal length) in E. rewrite length_drop in E. cbn [length] in E. unfold strlen. cbn [length]. lia.
  - destruct (Z.to_nat k) as [|k'] eqn:Ek; [lia|]. cbn [take drop] in *.
    exists b, (take k' ch), (y :: more ++ concat chunks), (RdOk (y :: more) :: map RdOk chunks ++ rest).
    split; [done|]. split.
    { rewrite (app_comm_cons more), <- E. cbn. by rewrite app_assoc, take_drop. }
    split; [exists ((y :: more) :: chunks); split; [by constructor|done]|].
    unfold strlen. cbn [length]. rewrite length_take.
    assert (k' < length ch)%nat by (apply (f_equal length) in E; rewrite length_drop in E; cbn in E; lia).
    split; [lia|]. intros [Hn|Hn]; [done|lia].
Qed.

Lemma net_read_1 rs b bs rest :
  delivers rs (b :: bs) rest ->
  exists rs', _mosquitto_net_read rs 1 = (RdOk [b], rs') /\ delivers rs' bs rest.
Proof.
  intros H. destruct (net_read_delivers rs (b :: bs) rest 1 H) as (b' & bs1 & bs2 & rs' & E & Eb & Hd & Hl & _);
    [done|lia|]. destruct bs1 as [|? ?]; [|unfold strlen in Hl; cbn in Hl; lia].
  cbn in Eb. simplify_eq. eauto.
Qed.

Lemma net_read_quiet rs rest k : quiet rs rest -> _mosquitto_net_read rs k = (RdAgain, rest).
Proof. by intros [-> | [-> ->]]. Qed.

(** ** The remaining length *)

Lemma digits_value_app ds1 ds2 :
  digits_value (ds1 ++ ds2) = digits_value ds1 + 128 ^ Z.of_nat (length ds1) * digits_value ds2.
Proof.
  induction ds1 as [|d ds1 IH]; cbn [digits_value app length]; [lia|].
  rewrite IH, Nat2Z.inj_succ, Z.pow_succ_r by lia. lia.
Qed.

Lemma digits_value_bound ds : 0 <= digits_value ds < 128 ^ Z.of_nat (length ds).
Proof.
  induction ds as [|d ds IH]; cbn [digits_value length]; [lia|].
  rewrite Nat2Z.inj_succ, Z.pow_succ_r by lia. rewrite land_127. pose proof (Z.mod_pos_bound d 128). lia.
Qed.

Lemma land_128 b : Z.land (Z_of_byte b) 128 = 0 <-> Z_of_byte b < 128.
Proof.
  pose proof (Z_of_byte_range b) as Hr.
  assert (forallb (fun z => bool_decide ((Z.land z 128 =? 0) = (z <? 128))) (map Z.of_nat (seq 0 256)) = true)
    as H by by vm_compute.
  rewrite forallb_forall in H. specialize (H (Z_of_byte b)).
  rewrite bool_decide_eq_true in H. 
  assert ((Z.land (Z_of_byte b) 128 =? 0) = (Z_of_byte b <? 128)); [|lia].
  apply H, in_map_iff. exists (Z.to_nat (Z_of_byte b)). split; [lia|]. apply in_seq. lia.
Qed.

Lemma framed_cons b ds :
  digits_framed (map Z_of_byte (b :: ds)) ->
  (ds = [] /\ Z_of_byte b < 128) \/ (ds <> [] /\ 128 <= Z_of_byte b /\ digits_framed (map Z_of_byte ds)).
Proof. destruct ds as [|d ds]; cbn; [left; split; [done|lia]|right; split; [done|]; tauto]. Qed.

(** The state of the buffer once the digits [ds] were read. *)
Definition with_digits (p : packet) (ds : list byte) : packet :=
  p <| p_remaining_count := - Z.of_nat (length ds) |>
    <| p_remaining_length := digits_value (map Z_of_byte ds) |>
    <| p_remaining_mult := 128 ^ Z.of_nat (length ds) |>.

Lemma with_digits_step p ds b :
  (length ds < 4)%nat ->
  (with_digits p ds) <| p_remaining_count ::= Z.pred |>
    <| p_remaining_length ::= (fun l => u32 (l + Z.land (Z_of_byte b) 127 * 128 ^ Z.of_nat (length ds))) |>
    <| p_remaining_mult ::= (fun k => u32 (k * 128)) |> = with_digits p (ds ++ [b]).
Proof.
  intros Hl. unfold with_digits. rewrite map_app, digits_value_app, length_app, length_map. cbn [map digits_value length].
  pose proof (digits_value_bound (map Z_of_byte ds)) as Hv. rewrite length_map in Hv.
  set (v := digits_value _) in *. 
  assert (Z.of_nat (length ds + 1) = Z.succ (Z.of_nat (length ds))) as -> by lia.
  assert (Z.of_nat (length ds) <= 3) as Hl3 by lia.
  pose proof (Z.pow_le_mono_r 128 (Z.of_nat (length ds)) 3 ltac:(lia) Hl3) as Hm.
  pose proof (Z.pow_pos_nonneg 128 (Z.of_nat (length ds)) ltac:(lia) ltac:(lia)) as Hm0.
  rewrite Z.pow_succ_r by lia. rewrite land_127. pose proof (Z.mod_pos_bound (Z_of_byte b) 128 ltac:(lia)) as Hb.
  set (m := 128 ^ Z.of_nat (length ds)) in *. set (y := Z_of_byte b mod 128) in *. set (l := Z.of_nat (length ds)) in *.
  clearbody v m y l. change (128 ^ 3) with 2097152 in Hm.
  assert (u32 (v + y * m) = v + m * (y + 128 * 0)) as E1 by (rewrite u32_small by nia; lia).
  assert (u32 (m * 128) = 128 * m) as E2 by (rewrite u32_small; lia).
  destruct p. packet_compute.
  rewrite E1, E2. f_equal. lia.
Qed.

Lemma read_remaining_partial bs ds2 ds1 p rs rest rest' fuel n :
  digits_framed (map Z_of_byte (bs ++ ds2)) -> ds2 <> [] -> (length ds1 + length bs + length ds2 <= 4)%nat ->
  delivers rs bs rest -> quiet rest rest' -> (length bs < fuel)%nat ->
  exists n', read_remaining fuel rs (with_digits p ds1) n
             = (inl MOSQ_ERR_SUCCESS, with_digits p (ds1 ++ bs), n', rest').
Proof.
  revert ds1 rs fuel n. induction bs as [|b bs IH]; intros ds1 rs fuel n Hf Hne Hl Hd Hq Hfu;
    (destruct fuel as [|fuel]; [lia|]); cbn [read_remaining].
  - apply delivers_nil_inv in Hd as ->. rewrite (net_read_quiet _ _ _ Hq), app_nil_r. eauto.
  - destruct (net_read_1 _ _ _ _ Hd) as (rs' & -> & Hd').
    assert (p_remaining_mult ((with_digits p ds1) <| p_remaining_count ::= Z.pred |>) = 128 ^ Z.of_nat (length ds1)) as -> by done.
    assert (p_remaining_count ((with_digits p ds1) <| p_remaining_count ::= Z.pred |>) = Z.pred (- Z.of_nat (length ds1))) as -> by done.
    cbn [length] in *. rewrite (proj2 (Z.ltb_ge _ _)) by lia. rewrite with_digits_step by lia.
    destruct (framed_cons b (bs ++ ds2) Hf) as [[Hn _]|(_ & Hb & Hf')].
    { destruct bs; done. }
    rewrite (proj2 (Z.eqb_neq _ 0)) by (rewrite land_128; lia).
    destruct (IH (ds1 ++ [b]) rs' fuel (u64 (n + 1)) Hf' Hne) as [n' ->]; [rewrite length_app; cbn; lia|done|done|lia|].
    rewrite <- app_assoc. eauto.
Qed.

Lemma read_remaining_complete ds2 ds1 p rs extra rest fuel n :
  digits_framed (map Z_of_byte ds2) -> (length ds1 + length ds2 <= 4)%nat ->
  delivers rs (ds2 ++ extra) rest -> (length ds2 <= fuel)%nat ->
  exists n' rs', read_remaining fuel rs (with_digits p ds1) n
             = (inr tt, with_digits p (ds1 ++ ds2), n', rs') /\ delivers rs' extra rest.
Proof.
  revert ds1 rs fuel n. induction ds2 as [|b bs IH]; intros ds1 rs fuel n Hf Hl Hd Hfu; [done|].
  destruct fuel as [|fuel]; [cbn in *; lia|]; cbn [read_remaining].
  destruct (net_read_1 _ _ _ _ Hd) as (rs' & -> & Hd').
  assert (p_remaining_mult ((with_digits p ds1) <| p_remaining_count ::= Z.pred |>) = 128 ^ Z.of_nat (length ds1)) as -> by done.
  assert (p_remaining_count ((with_digits p ds1) <| p_remaining_count ::= Z.pred |>) = Z.pred (- Z.of_nat (length ds1))) as -> by done.
  cbn [length] in *. rewrite (proj2 (Z.ltb_ge _ _)) by lia. rewrite with_digits_step by lia.
  destruct (framed_cons b bs Hf) as [[-> Hb]|(Hne & Hb & Hf')].
  - rewrite (proj2 (Z.eqb_eq _ 0)) by (rewrite land_128; lia). eauto.
  - rewrite (proj2 (Z.eqb_neq _ 0)) by (rewrite land_128; lia).
    destruct (IH (ds1 ++ [b]) rs' fuel (u64 (n + 1)) Hf') as (n' & rs'' & -> & Hd''); [rewrite length_app; cbn; lia|done|lia|].
    rewrite <- app_assoc. eauto.
Qed.

(** ** The payload *)

(** The state of the buffer once [b1] of the [total] bytes were read. *)
Definition with_body (p : packet) (total : nat) (b1 : list byte) : packet :=
  p <| p_payload := b1 ++ replicate (total - length b1) NUL |>
    <| p_to_process := Z.of_nat total - Z.of_nat (length b1) |>
    <| p_pos := Z.of_nat (length b1) |>.

Lemma with_body_step p total b1 bs :
  (length b1 + length bs <= total)%nat -> Z.of_nat total < 2 ^ 32 ->
  (with_body p total b1)
    <| p_payload ::= (fun buf => memcpy_at buf (Z.to_nat (p_pos (with_body p total b1))) bs) |>
    <| p_to_process ::= (fun t => u32 (t - strlen bs)) |>
    <| p_pos ::= (fun i => u32 (i + strlen bs)) |> = with_body p total (b1 ++ bs).
Proof.
  intros Hl Ht. unfold with_body, strlen. destruct p. packet_compute.
  rewrite !u32_small by lia. rewrite length_app, Nat2Z.id. f_equal; [|lia|lia].
  unfold memcpy_at. rewrite take_app_length, <- app_assoc. do 2 f_equal.
  rewrite drop_app, drop_ge by lia. cbn. rewrite drop_replicate. f_equal. lia.
Qed.

Lemma read_payload_partial rs p total b1 bs rest rest' n :
  delivers rs bs rest -> quiet rest rest' -> (length b1 + length bs < total)%nat -> Z.of_nat total < 2 ^ 32 ->
  exists n' slow, read_payload rs (with_body p total b1) n
    = (inl (MOSQ_ERR_SUCCESS, slow), with_body p total (b1 ++ bs), n', rest').
Proof.
  intros Hd Hq Hl Ht. revert b1 bs n Hd Hl. induction rs as [|r rs IH]; intros b1 bs n Hd Hl.
  all: assert (p_to_process (with_body p total b1) = Z.of_nat total - Z.of_nat (length b1)) as Htp by done.
  all: cbn [read_payload]; rewrite Htp, (proj2 (Z.ltb_lt 0 _)) by lia.
  - destruct bs as [|b bs].
    + apply delivers_nil_inv in Hd as <-. destruct Hq as [?|[_ ->]]; [done|]. rewrite app_nil_r. eauto.
    + by destruct (net_read_1 _ _ _ _ Hd) as (? & ? & _).
  - destruct bs as [|b bs].
    + apply delivers_nil_inv in Hd as <-. destruct Hq as [[= -> ->]|[? _]]; [|done].
      rewrite app_nil_r. cbn. eauto.
    + destruct (net_read_delivers _ _ _ (Z.of_nat total - Z.of_nat (length b1)) Hd)
        as (b' & bs1 & bs2 & rs' & E & Eb & Hd' & Hle & Hrs); [done|lia|]. rewrite E.
      assert (length (b :: bs) = length (b' :: bs1) + length bs2)%nat as Hlen
        by (by rewrite Eb, length_app).
      rewrite with_body_step; [|unfold strlen in *; lia|done].
      rewrite (proj2 (Z.ltb_lt 0 _)) by (unfold with_body; proj_simpl; rewrite length_app; lia).
      rewrite Hrs in Hd' by (right; unfold strlen; lia). cbn [tail] in Hd'.
      destruct (IH (b1 ++ b' :: bs1) bs2 (u64 (n + strlen (b' :: bs1))) Hd') as (n' & slow & ->);
        [rewrite length_app; lia|]. rewrite Eb, app_assoc. eauto.
Qed.

Lemma read_payload_complete rs p total b1 b2 extra rest n :
  delivers rs (b2 ++ extra) rest -> (length b1 + length b2 = total)%nat -> Z.of_nat total < 2 ^ 32 ->
  exists n' rs', read_payload rs (with_body p total b1) n = (inr tt, with_body p total (b1 ++ b2), n', rs')
    /\ delivers rs' extra rest.
Proof.
  intros Hd Hl Ht. revert b1 b2 n Hd Hl. induction rs as [|r rs IH]; intros b1 b2 n Hd Hl.
  all: assert (p_to_process (with_body p total b1) = Z.of_nat total - Z.of_nat (length b1)) as Htp by done.
  all: cbn [read_payload]; rewrite Htp.
  all: destruct b2 as [|b b2];
    [rewrite (proj2 (Z.ltb_ge 0 _)) by (cbn in Hl; lia); rewrite app_nil_r; eauto|];
    rewrite (proj2 (Z.ltb_lt 0 _)) by (cbn in Hl; lia).
  - by destruct (net_read_1 _ _ _ _ Hd) as (? & ? & _).
  - destruct (net_read_delivers _ _ _ (Z.of_nat total - Z.of_nat (length b1)) Hd)
      as (b' & bs1 & bs2 & rs' & E & Eb & Hd' & Hle & Hrs); [done|cbn in Hl; lia|]. rewrite E.
    unfold strlen in Hle, Hrs.
    assert (b' :: bs1 = take (length (b' :: bs1)) (b :: b2)) as Hpre.
    { rewrite <- (take_app_le _ extra) by lia. by rewrite Eb, take_app_length. }
    rewrite with_body_step; [|lia|done].
    rewrite <- (take_drop (length (b' :: bs1)) (b :: b2)), <- Hpre in Eb |- *.
    rewrite <- app_assoc in Eb. apply app_inv_head in Eb. rewrite <- Eb in Hd', Hrs.
    set (b3 := drop _ _) in *.
    assert (length (b :: b2) = length (b' :: bs1) + length b3)%nat as Hlen.
    { unfold b3. rewrite length_drop. apply (f_equal length) in Hpre. rewrite length_take in Hpre. lia. }
    clearbody b3.
    assert (p_to_process (with_body p total (b1 ++ b' :: bs1)) = Z.of_nat (length b3)) as ->.
    { unfold with_body. proj_simpl. rewrite length_app. lia. }
    destruct b3 as [|b3 bs3].
    + cbn [length]. rewrite app_nil_r. eauto.
    + rewrite (proj2 (Z.ltb_lt 0 _)) by (cbn; lia). 
      rewrite Hrs in Hd' by (right; cbn [length] in *; lia). cbn [tail] in Hd'.
      destruct (IH (b1 ++ b' :: bs1) (b3 :: bs3) (u64 (n + strlen (b' :: bs1))) Hd') as (n' & rs'' & -> & Hd'');
        [rewrite length_app; lia|]. rewrite <- app_assoc. eauto.
Qed.

(** ** A whole packet *)

(** The buffer between two packets, as [_mosquitto_packet_cleanup] leaves it. *)
Definition clean (p : packet) : Prop := _mosquitto_packet_cleanup p = p.

(** A control packet on the wire: command byte, digits of the remaining length,
    and as many bytes as these say. *)
Record frame := Frame { f_command : byte; f_digits : list byte; f_body : list byte }.

Definition frame_wf (f : frame) : Prop :=
  f_command f <> NUL /\ digits_framed (map Z_of_byte (f_digits f)) /\ (length (f_digits f) <= 4)%nat
  /\ digits_value (map Z_of_byte (f_digits f)) = Z.of_nat (length (f_body f)).

Definition frame_bytes (f : frame) : list byte := f_command f :: f_digits f ++ f_body f.

(** The header of [f] is complete. *)
Definition headed (f : frame) (p : packet) : packet :=
  (with_digits (p <| p_command := Z_of_byte (f_command f) |>) (f_digits f))
    <| p_remaining_count := Z.of_nat (length (f_digits f)) |>.

(** The buffer holding all of [f], as the handlers get it but for [p_pos]. *)
Definition received (f : frame) (p : packet) : packet :=
  with_body (headed f p) (length (f_body f)) (f_body f).

(** [receiving f todo p]: a prefix of [f] was read into [p] and [todo] is still to
    come. *)
Inductive receiving (f : frame) : list byte -> packet -> Prop :=
| receiving_start p : clean p -> receiving f (frame_bytes f) p
| receiving_digits p ds1 ds2 :
    clean p -> f_digits f = ds1 ++ ds2 -> ds2 <> [] ->
    receiving f (ds2 ++ f_body f) (with_digits (p <| p_command := Z_of_byte (f_command f) |>) ds1)
| receiving_body p b1 b2 :
    clean p -> f_body f = b1 ++ b2 -> b2 <> [] ->
    receiving f b2 (with_body (headed f p) (length (f_body f)) b1).

Lemma clean_cleanup p : clean (_mosquitto_packet_cleanup p).
Proof. by destruct p. Qed.

Lemma clean_fields p :
  clean p -> p_command p = 0 /\ p_remaining_count p = 0 /\ p_remaining_mult p = 1
  /\ p_remaining_length p = 0 /\ p_payload p = [] /\ p_to_process p = 0 /\ p_pos p = 0.
Proof. intros <-. done. Qed.

Lemma framed_nonempty ds : digits_framed (map Z_of_byte ds) -> ds <> [].
Proof. by destruct ds. Qed.

Lemma framed_suffix ds1 ds2 : 
  digits_framed (map Z_of_byte (ds1 ++ ds2)) -> ds2 <> [] -> digits_framed (map Z_of_byte ds2).
Proof.
  induction ds1 as [|d ds1 IH]; [done|]. intros H Hne.
  destruct (framed_cons d (ds1 ++ ds2) H) as [[E _]|(_ & _ & H')]; [|auto].
  by apply app_nil in E as [_ ->].
Qed.

(** [payload] allocated: the state [read_length] leaves. *)
Lemma headed_alloc f p q :
  clean p -> frame_wf f -> q = with_digits (p <| p_command := Z_of_byte (f_command f) |>) (f_digits f) ->
  let q' := q <| p_remaining_count ::= Z.mul (-1) |> in
  (if 0 <? p_remaining_length q' then
     q' <| p_payload := replicate (Z.to_nat (p_remaining_length q')) NUL |>
        <| p_to_process := p_remaining_length q' |>
   else q') = with_body (headed f p) (length (f_body f)) [].
Proof.
  intros Hc (_ & _ & _ & Hv) ->. apply clean_fields in Hc as (C1 & C2 & C3 & C4 & C5 & C6 & C7).
  cbv zeta. assert (p_remaining_length ((with_digits (p <| p_command := Z_of_byte (f_command f) |>) (f_digits f))
    <| p_remaining_count ::= Z.mul (-1) |>) = Z.of_nat (length (f_body f))) as -> by (unfold with_digits; proj_simpl; done).
  unfold with_body, headed, with_digits. rewrite Hv, Nat2Z.id, Nat.sub_0_r, Z.sub_0_r.
  destruct p. packet_compute. subst. destruct (f_body f) as [|b bs]; cbn [length]; [f_equal; lia|].
  rewrite (proj2 (Z.ltb_lt 0 _)) by lia. f_equal. lia.
Qed.

Lemma read_length_digits f p rs bs ds2 rest rest' ds1 n :
  clean p -> frame_wf f -> f_digits f = ds1 ++ bs ++ ds2 -> ds2 <> [] ->
  delivers rs bs rest -> quiet rest rest' -> 
  exists n', read_length rs (with_digits (p <| p_command := Z_of_byte (f_command f) |>) ds1) n
    = (inl MOSQ_ERR_SUCCESS, with_digits (p <| p_command := Z_of_byte (f_command f) |>) (ds1 ++ bs), n', rest').
Proof.
  intros Hc (_ & Hf & Hl & _) E Hne Hd Hq. unfold read_length.
  rewrite (proj2 (Z.ltb_ge 0 _)) by (unfold with_digits; proj_simpl; lia).
  rewrite E in Hf, Hl. rewrite !length_app in Hl.
  apply framed_suffix in Hf; [|by destruct bs].
  destruct (read_remaining_partial bs ds2 ds1 (p <| p_command := Z_of_byte (f_command f) |>) rs rest rest' 5 n Hf Hne)
    as [n' ->]; [lia|done|done|lia|]. eauto.
Qed.

(** What a call of the reader must do when the socket delivers [bs], [todo] being
    still to come of [f]: keep what is not enough, or hand over [f] and leave the
    rest of the stream. *)
Definition reads (f : frame) (todo bs : list byte) (rest : list read_result)
    (r : (Z * bool + unit) * packet * Z * list read_result) : Prop :=
  (forall todo' rest', todo = bs ++ todo' -> todo' <> [] -> quiet rest rest' ->
     exists p' n' slow, r = (inl (MOSQ_ERR_SUCCESS, slow), p', n', rest') /\ receiving f todo' p')
  /\ (forall extra, bs = todo ++ extra ->
     exists p' n' rs', r = (inr tt, received f p', n', rs') /\ clean p' /\ delivers rs' extra rest).

Lemma frame_digits_nonempty f : frame_wf f -> (1 <= length (f_digits f))%nat.
Proof. intros (_ & H & _). apply framed_nonempty in H. destruct (f_digits f); [done|cbn; lia]. Qed.

Lemma frame_body_small f : frame_wf f -> Z.of_nat (length (f_body f)) < 2 ^ 32.
Proof.
  intros (_ & _ & Hl & <-). pose proof (digits_value_bound (map Z_of_byte (f_digits f))) as Hv.
  rewrite length_map in Hv.
  pose proof (Z.pow_le_mono_r 128 (Z.of_nat (length (f_digits f))) 4 ltac:(lia) ltac:(lia)). lia.
Qed.

Lemma reads_body f p b1 b2 rs bs rest n :
  clean p -> frame_wf f -> f_body f = b1 ++ b2 -> delivers rs bs rest ->
  reads f b2 bs rest (read_payload rs (with_body (headed f p) (length (f_body f)) b1) n).
Proof.
  intros Hc Hf E Hd. pose proof (frame_body_small f Hf).
  assert (length (f_body f) = length b1 + length b2)%nat as Hl by (by rewrite E, length_app).
  split.
  - intros todo' rest' -> Hne Hq. rewrite length_app in Hl.
    assert (length todo' <> 0)%nat by (by destruct todo').
    destruct (read_payload_partial rs (headed f p) (length (f_body f)) b1 bs rest rest' n Hd Hq)
      as (n' & slow & ->); [lia|done|].
    eexists _, _, _. split; [reflexivity|]. apply receiving_body; [done| |done]. by rewrite <- app_assoc.
  - intros extra ->. 
    destruct (read_payload_complete rs (headed f p) (length (f_body f)) b1 b2 extra rest n Hd)
      as (n' & rs' & -> & Hd'); [done|done|]. rewrite <- E.
    exists p, n', rs'. done.
Qed.

(** [reads] of a longer message, once part of it is in. *)
Lemma reads_digits f p ds1 ds2 rs bs rest n :
  clean p -> frame_wf f -> f_digits f = ds1 ++ ds2 -> ds2 <> [] -> delivers rs bs rest ->
  reads f (ds2 ++ f_body f) bs rest
    (match read_length rs (with_digits (p <| p_command := Z_of_byte (f_command f) |>) ds1) n with
     | (inl rc, p, received, rs) => (inl (rc, false), p, received, rs)
     | (inr tt, p, received, rs) => read_payload rs p received
     end).
Proof.
  intros Hc Hf E Hne Hd. set (p1 := p <| p_command := _ |>).
  destruct (decide (length ds2 <= length bs)%nat) as [Hle|Hlt].
  - (* all the digits have arrived, if [bs] agrees with the frame at all *)
    assert (forall bs', bs = ds2 ++ bs' -> exists n' rs', read_length rs (with_digits p1 ds1) n
              = (inr tt, with_body (headed f p) (length (f_body f)) [], n', rs') /\ delivers rs' bs' rest) as Hrl.
    { intros bs' ->. unfold read_length.
      rewrite (proj2 (Z.ltb_ge 0 _)) by (unfold with_digits; proj_simpl; lia).
      pose proof Hf as (_ & Hf1 & Hf2 & _). rewrite E in Hf1, Hf2. rewrite length_app in Hf2.
      apply framed_suffix in Hf1; [|done].
      destruct (read_remaining_complete ds2 ds1 p1 rs bs' rest 5 n Hf1) as (n' & rs' & -> & Hd'); [lia|done|lia|].
      rewrite <- E. rewrite (headed_alloc f p) by done. eauto. }
    split.
    + intros todo' rest' Et Hne' Hq. 
      assert (exists bs', bs = ds2 ++ bs' /\ f_body f = bs' ++ todo') as (bs' & -> & Eb).
      { apply app_eq_inv in Et as [(k & -> & ->)|(k & -> & ->)]; [|by exists k].
        rewrite length_app in Hle. assert (length k = 0)%nat as Hk by lia. destruct k; [|done].
        exists []. by rewrite !app_nil_r. }
      destruct (Hrl bs' eq_refl) as (n' & rs' & -> & Hd').
      destruct (reads_body f p [] (f_body f) rs' bs' rest n' Hc Hf eq_refl Hd') as [R _]. eauto.
    + intros extra ->. rewrite <- app_assoc in Hrl. destruct (Hrl _ eq_refl) as (n' & rs' & -> & Hd').
      destruct (reads_body f p [] (f_body f) rs' (f_body f ++ extra) rest n' Hc Hf eq_refl Hd') as [_ R]. eauto.
  - split.
    + intros todo' rest' Et Hne' Hq.
      assert (exists k, ds2 = bs ++ k /\ todo' = k ++ f_body f /\ k <> []) as (k & -> & -> & Hk).
      { apply app_eq_inv in Et as [(k & -> & ->)|(k & -> & ->)].
        - exists k. split; [done|]. split; [done|]. intros ->. rewrite app_nil_r in Hlt. lia.
        - rewrite length_app in Hlt. lia. }
      destruct (read_length_digits f p rs bs k rest rest' ds1 n Hc Hf E Hk Hd Hq) as [n' Hrl].
      fold p1 in Hrl. rewrite Hrl.
      eexists _, _, _. split; [reflexivity|]. apply receiving_digits; [done| |done]. by rewrite <- app_assoc.
    + intros extra ->. rewrite !length_app in Hlt. lia.
Qed.

Lemma assemble_reads may f todo p rs bs rest n :
  frame_wf f -> receiving f todo p -> may (Z_of_byte (f_command f)) = true -> delivers rs bs rest ->
  reads f todo bs rest (assemble may rs p n).
Proof.
  intros Hf Hr Hmay Hd. unfold assemble, read_command.
  assert (Z_of_byte (f_command f) <> 0) as Hcmd.
  { destruct Hf as (Hc & _). intros E. apply Hc. rewrite <- (byte_of_Z_of_byte (f_command f)). by rewrite E. }
  destruct Hr as [p Hc|p ds1 ds2 Hc E Hne|p b1 b2 Hc E Hne].
  - pose proof (clean_fields p Hc) as (C1 & C2 & C3 & C4 & C5 & C6 & C7). rewrite C1. cbn [negb Z.eqb].
    destruct bs as [|b bs].
    + apply delivers_nil_inv in Hd as ->. split; [|done]. intros todo' rest' Et _ Hq.
      cbn [app] in Et. subst todo'. rewrite (net_read_quiet _ _ _ Hq). eexists _, _, _. split; [reflexivity|]. by constructor.
    + destruct (net_read_1 _ _ _ _ Hd) as (rs' & -> & Hd').
      assert (b = f_command f -> reads f (f_digits f ++ f_body f) bs rest
        (match read_length rs' (p <| p_command := Z_of_byte b |>) (u64 (n + 1)) with
         | (inl rc, p, received, rs) => (inl (rc, false), p, received, rs)
         | (inr tt, p, received, rs) => read_payload rs p received
         end)) as Hrd.
      { intros ->. pose proof (frame_digits_nonempty f Hf) as Hdn.
        pose proof (reads_digits f p [] (f_digits f) rs' bs rest (u64 (n + 1)) Hc Hf eq_refl) as H.
        assert (with_digits (p <| p_command := Z_of_byte (f_command f) |>) [] = p <| p_command := Z_of_byte (f_command f) |>)
          as Ewd. { destruct p. unfold with_digits. packet_compute. by subst. }
        rewrite Ewd in H. apply H; [|done]. by destruct (f_digits f); cbn in *; [lia|]. }
      unfold frame_bytes. split.
      * intros todo' rest' [= Eb Et] Hne Hq. destruct (Hrd (eq_sym Eb)) as [R _].
        rewrite <- Eb, Hmay, Eb. by apply R.
      * intros extra [= Eb Ebs]. destruct (Hrd Eb) as [_ R].
        rewrite Eb, Hmay, <- Eb. by apply R.
  - assert (p_command (with_digits (p <| p_command := Z_of_byte (f_command f) |>) ds1) = Z_of_byte (f_command f)) as -> by done.
    rewrite (proj2 (Z.eqb_neq _ 0)) by done. cbn [negb]. by apply reads_digits.
  - assert (p_command (with_body (headed f p) (length (f_body f)) b1) = Z_of_byte (f_command f)) as -> by done.
    rewrite (proj2 (Z.eqb_neq _ 0)) by done. cbn [negb]. unfold read_length.
    assert (p_remaining_count (with_body (headed f p) (length (f_body f)) b1) = Z.of_nat (length (f_digits f))) as -> by done.
    pose proof (frame_digits_nonempty f Hf). rewrite (proj2 (Z.ltb_lt 0 _)) by lia. by apply reads_body.
Qed.

(** What receiving on [c] may change: its buffer and receive time, its stream and
    the counters. *)
Definition only_reads (c : addr) (d d' : mosquitto_db) : Prop :=
  exists x x', d_contexts d !! c = Some x /\ d_contexts d' = <[c := x']> (d_contexts d)
  /\ x' = x <| c_in_packet := c_in_packet x' |> <| c_last_msg_in := c_last_msg_in x' |>
  /\ (forall s, s <> c_sock x -> d_reads d' !! s = d_reads d !! s)
  /\ d' = d <| d_contexts := d_contexts d' |> <| d_reads := d_reads d' |>
            <| d_bytes_received := d_bytes_received d' |> <| d_msgs_received := d_msgs_received d' |>
            <| d_pub_msgs_received := d_pub_msgs_received d' |>.

Definition arriving (d : mosquitto_db) (sock : Z) : list read_result := default [] (d_reads d !! sock).

Lemma only_reads_intro c x x' rs d d' :
  d_contexts d !! c = Some x ->
  x' = x <| c_in_packet := c_in_packet x' |> <| c_last_msg_in := c_last_msg_in x' |> ->
  d_contexts d' = <[c := x']> (d_contexts d) -> d_reads d' = <[c_sock x := rs]> (d_reads d) ->
  d' = d <| d_contexts := d_contexts d' |> <| d_reads := d_reads d' |>
         <| d_bytes_received := d_bytes_received d' |> <| d_msgs_received := d_msgs_received d' |>
         <| d_pub_msgs_received := d_pub_msgs_received d' |> ->
  only_reads c d d' /\ d_contexts d' !! c = Some x' /\ arriving d' (c_sock x) = rs.
Proof.
  intros Hx Ex Ec Er Ed. split.
  - exists x, x'. split; [done|]. split; [done|]. split; [done|]. split; [|done].
    intros s Hs. by rewrite Er, lookup_insert_ne.
  - unfold arriving. by rewrite Ec, Er, !lookup_insert_eq.
Qed.

(** The end of a call of the reader that got a whole packet. *)
Definition read_finish (c : addr) (rc now : Z) : M Z :=
  upd_ctx c (fun x => x <| c_in_packet ::= _mosquitto_packet_cleanup |> <| c_last_msg_in := now |>);;
  mret rc.

Lemma packet_read_run handle c x d :
  d_contexts d !! c = Some x -> c_sock x <> INVALID_SOCKET -> c_state x <> mosq_cs_connect_pending ->
  let '(out, p, received, rs) :=
    assemble (may_start x) (arriving d (c_sock x)) (c_in_packet x) (d_bytes_received d) in
  match out with
  | inl (rc, slow) => exists d' x', _mosquitto_packet_read handle c d = Some (rc, d')
      /\ c_in_packet x' = p /\ only_reads c d d' /\ d_contexts d' !! c = Some x'
      /\ arriving d' (c_sock x) = rs
  | inr tt => exists d1 x1,
      _mosquitto_packet_read handle c d = (rc ← handle c; read_finish c rc (d_time d)) d1
      /\ c_in_packet x1 = p <| p_pos := 0 |> /\ only_reads c d d1 /\ d_contexts d1 !! c = Some x1
      /\ arriving d1 (c_sock x) = rs
  end.
Proof.
  intros Hx Hs Hst. unfold _mosquitto_packet_read, get_ctx, mbind, st_bind, get, unwrap. rewrite Hx.
  cbn [mret st_ret]. rewrite (proj2 (Z.eqb_neq _ _)) by done. rewrite bool_decide_eq_false_2 by done.
  unfold arriving. destruct (assemble _ _ _ _) as [[[[[rc slow]|[]] p] n] rs].
  - rewrite (upd_ctx_eq c x) by done. unfold modify, mosquitto_time, gets. destruct slow.
    + erewrite upd_ctx_eq by (proj_simpl; apply lookup_insert_eq).
      eexists _, (x <| c_in_packet := p |> <| c_last_msg_in := d_time d |>).
      split; [reflexivity|]. split; [done|].
      apply only_reads_intro; proj_simpl; rewrite ?insert_insert_eq; [done|by destruct x|done|done|].
      destruct d; db_compute. by rewrite insert_insert_eq.
    + eexists _, (x <| c_in_packet := p |>). split; [reflexivity|]. split; [done|].
      apply only_reads_intro; proj_simpl; [done|by destruct x|done|done|].
      destruct d; db_compute; reflexivity.
  - rewrite (upd_ctx_eq c x) by done. unfold modify, mosquitto_time, gets.
    erewrite upd_ctx_eq by (proj_simpl; apply lookup_insert_eq).
    eexists _, (x <| c_in_packet := p <| p_pos := 0 |> |>).
    split; [reflexivity|]. split; [done|].
    apply only_reads_intro; proj_simpl; rewrite ?insert_insert_eq; [done|by destruct x|done|done|].
    destruct d; db_compute. by rewrite insert_insert_eq.
Qed.

(** C23: [_mosquitto_packet_read] reassembles control packets however the network
    splits them.  Take a well-formed packet [f] of which a prefix was read by
    earlier calls, and a socket that now delivers [bs] in chunks of any size.  If
    [bs] does not complete [f], the call returns success without calling the
    handler (whatever the handler is) and remembers exactly what came.  If it
    does, the handler is called once, on a buffer that holds command, length and
    payload of [f] with the cursor at the start, what followed [f] stays in the
    socket, and afterwards the buffer is ready for the next packet. *)
Theorem packet_read_spec handle c x d f todo bs rest :
  d_contexts d !! c = Some x -> c_sock x <> INVALID_SOCKET -> c_state x <> mosq_cs_connect_pending ->
  frame_wf f -> receiving f todo (c_in_packet x) -> may_start x (Z_of_byte (f_command f)) = true ->
  delivers (arriving d (c_sock x)) bs rest ->
  (forall todo' rest', todo = bs ++ todo' -> todo' <> [] -> quiet rest rest' ->
     exists d' x', _mosquitto_packet_read handle c d = Some (MOSQ_ERR_SUCCESS, d')
       /\ only_reads c d d' /\ d_contexts d' !! c = Some x' /\ receiving f todo' (c_in_packet x')
       /\ arriving d' (c_sock x) = rest')
  /\ (forall extra, bs = todo ++ extra ->
     exists d1 x1 p, _mosquitto_packet_read handle c d = (rc ← handle c; read_finish c rc (d_time d)) d1
       /\ only_reads c d d1 /\ d_contexts d1 !! c = Some x1
       /\ c_in_packet x1 = (received f p) <| p_pos := 0 |>
       /\ delivers (arriving d1 (c_sock x)) extra rest)
  /\ (forall p, clean (_mosquitto_packet_cleanup p)).
Proof.
  intros Hx Hs Hst Hf Hr Hm Hd. pose proof (packet_read_run handle c x d Hx Hs Hst) as H.
  destruct (assemble_reads (may_start x) f todo _ _ bs rest (d_bytes_received d) Hf Hr Hm Hd) as [R1 R2].
  split; [|split; [|apply clean_cleanup]].
  - intros todo' rest' Et Hne Hq. destruct (R1 todo' rest' Et Hne Hq) as (p' & n' & slow & E & Hp').
    rewrite E in H. destruct H as (d' & x' & H1 & H2 & H3 & H4 & H5). subst p'. by exists d', x'.
  - intros extra Eb. destruct (R2 extra Eb) as (p' & n' & rs' & E & Hp' & Hd').
    rewrite E in H. destruct H as (d1 & x1 & H1 & H2 & H3 & H4 & H5). exists d1, x1, p'.
    split; [done|]. split; [done|]. split; [done|]. split; [done|]. by rewrite H5.
Qed.

Definition sample_frame : frame :=
  Frame (byte_of_Z CONNECT) [byte_of_Z 3] (lit "abc").
Definition sample_reading (rs : list read_result) : mosquitto_db :=
  db_calloc <| d_contexts := {[1%nat := context_calloc <| c_in_packet ::= _mosquitto_packet_cleanup |>]} |>
            <| d_reads := {[0 := rs]} |>.

(** CONNECT arrives in two pieces; the handler that faults is not called for the
    first. *)
Lemma packet_read_spec_witness :
  exists d' x', _mosquitto_packet_read (fun _ => fault) 1%nat
      (sample_reading [RdOk (map byte_of_Z [CONNECT; 3]); RdOk (lit "a"); RdAgain; RdOk (lit "bc")])
    = Some (MOSQ_ERR_SUCCESS, d')
    /\ d_contexts d' !! 1%nat = Some x' /\ receiving sample_frame (lit "bc") (c_in_packet x')
    /\ arriving d' 0 = [RdOk (lit "bc")].
Proof.
  destruct (packet_read_spec (fun _ => fault) 1%nat (context_calloc <| c_in_packet ::= _mosquitto_packet_cleanup |>)
    (sample_reading [RdOk (map byte_of_Z [CONNECT; 3]); RdOk (lit "a"); RdAgain; RdOk (lit "bc")])
    sample_frame (frame_bytes sample_frame) (map byte_of_Z [CONNECT; 3] ++ lit "a") [RdAgain; RdOk (lit "bc")])
    as [H _]; try done.
  - repeat split; vm_compute; first [done|lia].
  - apply receiving_start. apply clean_cleanup.
  - exists [map byte_of_Z [CONNECT; 3]; lit "a"]. split; [by repeat constructor|]. done.
  - destruct (H (lit "bc") [RdOk (lit "bc")]) as (d' & x' & H1 & _ & H2 & H3 & H4);
      [done|done|by left|]. by exists d', x'.
Defined.

Lemma read_remaining_reject ds2 ds1 p rs y more rest fuel n :
  Forall (fun d => 128 <= Z_of_byte d) ds2 -> (length ds1 + length ds2 = 4)%nat ->
  delivers rs (ds2 ++ y :: more) rest -> (length ds2 < fuel)%nat ->
  exists p' n' rs', read_remaining fuel rs (with_digits p ds1) n = (inl MOSQ_ERR_PROTOCOL, p', n', rs').
Proof.
  revert ds1 rs fuel n. induction ds2 as [|b ds2 IH]; intros ds1 rs fuel n Hall Hl Hd Hfu;
    (destruct fuel as [|fuel]; [lia|]); cbn [read_remaining length app] in *;
    destruct (net_read_1 _ _ _ _ Hd) as (rs' & -> & Hd').
  - rewrite (proj2 (Z.ltb_lt _ _)) by (unfold with_digits; proj_simpl; lia). eauto.
  - inversion Hall; subst.
    rewrite (proj2 (Z.ltb_ge _ _)) by (unfold with_digits; proj_simpl; lia).
    rewrite (proj2 (Z.eqb_neq _ 0)) by (rewrite land_128; lia).
    assert (p_remaining_mult ((with_digits p ds1) <| p_remaining_count ::= Z.pred |>)
            = 128 ^ Z.of_nat (length ds1)) as -> by done.
    rewrite with_digits_step by lia. apply IH; [done|rewrite length_app; cbn; lia|done|lia].
Qed.

(** A client that has not connected yet may only begin with CONNECT: any
    other first byte makes [_mosquitto_packet_read] return a protocol error
    without calling the handler, and so does a remaining length whose first four
    digits all ask for another. *)
Theorem packet_read_rejects handle c x d b bs rest :
  d_contexts d !! c = Some x -> c_sock x <> INVALID_SOCKET -> c_state x <> mosq_cs_connect_pending ->
  clean (c_in_packet x) -> delivers (arriving d (c_sock x)) (b :: bs) rest ->
  may_start x (Z_of_byte b) = false \/
  (exists ds y more, bs = ds ++ y :: more /\ length ds = 4%nat
     /\ Forall (fun d => 128 <= Z_of_byte d) ds) ->
  exists d', _mosquitto_packet_read handle c d = Some (MOSQ_ERR_PROTOCOL, d').
Proof.
  intros Hx Hs Hst Hc Hd Hcase. pose proof (packet_read_run handle c x d Hx Hs Hst) as H.
  assert (exists p n rs slow, assemble (may_start x) (arriving d (c_sock x)) (c_in_packet x) (d_bytes_received d)
            = (inl (MOSQ_ERR_PROTOCOL, slow), p, n, rs)) as (p & n & rs & slow & E).
  { pose proof (clean_fields _ Hc) as (C1 & C2 & C3 & C4 & _).
    unfold assemble, read_command. rewrite C1. cbn [negb Z.eqb].
    destruct (net_read_1 _ _ _ _ Hd) as (rs' & -> & Hd').
    destruct (may_start x (Z_of_byte b)) eqn:Em; [|eauto].
    destruct Hcase as [?|(ds & y & more & -> & Hl & Hall)]; [done|].
    set (p0 := (c_in_packet x) <| p_command := _ |>).
    assert (p0 = with_digits p0 []) as ->.
    { unfold p0, with_digits. clear -C2 C3 C4. destruct (c_in_packet x). packet_compute. by subst. }
    unfold read_length. rewrite (proj2 (Z.ltb_ge 0 _)) by (unfold with_digits; proj_simpl; cbn; lia).
    destruct (read_remaining_reject ds [] p0 rs' y more rest 5 (u64 (d_bytes_received d + 1)) Hall)
      as (p' & n' & rs'' & ->); [done|done|lia|eauto]. }
  rewrite E in H. destruct H as (d' & x' & H & _). eauto.
Qed.

Lemma packet_read_rejects_witness :
  exists d', _mosquitto_packet_read (fun _ => fault) 1%nat
    (sample_reading [RdOk (map byte_of_Z [PUBLISH; 0])]) = Some (MOSQ_ERR_PROTOCOL, d').
Proof.
  apply (packet_read_rejects (fun _ => fault) 1%nat (context_calloc <| c_in_packet ::= _mosquitto_packet_cleanup |>)
    _ (byte_of_Z PUBLISH) [NUL] []); [done|done|done|apply clean_cleanup| |by left].
  exists [map byte_of_Z [PUBLISH; 0]]. split; [by repeat constructor|done].
Defined.
