(* ===== verification/Send.v ===== *)
(** Building and queueing control packets: lib/send_mosq.c, src/send_server.c and
    the bridge's client packets of lib/send_client_mosq.c, with the message
    identifiers and the keepalive check of lib/util_mosq.c. *)

From S2P Require Export Net Topic.
#[local] Open Scope Z_scope.

(** * Building a packet *)

(** [packet->payload[packet->pos + i] = byte] *)
Definition poke (i : Z) (byte : Z) : ST packet unit :=
  p ← get;
  assertM (p_pos p + i <? Z.of_nat (length (p_payload p)));;
  modify (fun p => p <| p_payload ::= <[Z.to_nat (p_pos p + i) := byte_of_Z byte]> |>).

(** [packet = calloc; ...; rc = _mosquitto_packet_alloc(packet); if(rc) return rc;
    ...; return _mosquitto_packet_queue(mosq, packet);] *)
Definition build_packet (command remaining_length : Z) (body : ST packet unit) : ST packet Z :=
  modify (fun p => p <| p_command := u8 command |> <| p_remaining_length := u32 remaining_length |>);;
  rc ← _mosquitto_packet_alloc;
  if negb (rc =? 0) then mret rc else
  body;;
  mret 0.

Definition queue_built (c : addr) (b : ST packet Z) : M Z :=
  match b packet_calloc with
  | None => fault
  | Some (rc, p) => if negb (rc =? 0) then mret rc else _mosquitto_packet_queue c p
  end.

(** * lib/send_mosq.c *)

Definition _mosquitto_send_simple_command (c : addr) (command : Z) : M Z :=
  queue_built c (build_packet command 0 (mret tt)).

Definition _mosquitto_send_command_with_mid (c : addr) (command mid : Z) (dup : bool) : M Z :=
  queue_built c (build_packet (if dup then Z.lor command 8 else command) 2
    (poke 0 (MOSQ_MSB mid);; poke 1 (MOSQ_LSB mid))).

Definition _mosquitto_send_pingreq (c : addr) : M Z :=
  rc ← _mosquitto_send_simple_command c PINGREQ;
  if rc =? MOSQ_ERR_SUCCESS then
    now ← mosquitto_time;
    upd_ctx c (fun x => x <| c_ping_t := now |>);;
    mret rc
  else mret rc.

Definition _mosquitto_send_pingresp (c : addr) : M Z := _mosquitto_send_simple_command c PINGRESP.
Definition _mosquitto_send_puback (c : addr) (mid : Z) : M Z :=
  _mosquitto_send_command_with_mid c PUBACK mid false.
Definition _mosquitto_send_pubcomp (c : addr) (mid : Z) : M Z :=
  _mosquitto_send_command_with_mid c PUBCOMP mid false.
Definition _mosquitto_send_pubrec (c : addr) (mid : Z) : M Z :=
  _mosquitto_send_command_with_mid c PUBREC mid false.
Definition _mosquitto_send_pubrel (c : addr) (mid : Z) : M Z :=
  _mosquitto_send_command_with_mid c (Z.lor PUBREL 2) mid false.

Definition publish_command (qos : Z) (retain dup : bool) : Z :=
  Z.lor (Z.lor (Z.lor PUBLISH (Z.shiftl (zbool dup) 3)) (Z.shiftl qos 1)) (zbool retain).

Definition _mosquitto_send_real_publish (c : addr) (mid : Z) (topic : str) (payload : list byte)
    (qos : Z) (retain dup : bool) : M Z :=
  let payloadlen := Z.of_nat (length payload) in
  let packetlen := 2 + strlen topic + payloadlen + (if 0 <? qos then 2 else 0) in
  queue_built c
    (modify (fun p => p <| p_mid := mid |>);;
     build_packet (publish_command qos retain dup) packetlen
       (_mosquitto_write_string topic (strlen topic);;
        whenM (0 <? qos) (_mosquitto_write_uint16 mid);;
        whenM (negb (payloadlen =? 0)) (_mosquitto_write_bytes payload payloadlen))).

(** The outgoing topic of a bridge, for the first of its topics that is mapped
    and matches: [inl rc] is an error of the matcher. *)
Definition map_remote (t : _mqtt3_bridge_topic) (topic : str) : str :=
  let mapped_topic :=
    match bt_local_prefix t with
    | Some p => if strneq p topic (length p) then drop (length p) topic else topic
    | None => topic
    end in
  match bt_remote_prefix t with
  | Some p => p ++ mapped_topic
  | None => mapped_topic
  end.

Fixpoint bridge_remap (ts : list _mqtt3_bridge_topic) (topic : str) (result : option bool)
    : option (Z + str) :=
  match ts with
  | [] => Some (inr topic)
  | t :: ts =>
    if (bool_decide (bt_direction t = bd_both) || bool_decide (bt_direction t = bd_out))
       && (bool_decide (bt_remote_prefix t <> None) || bool_decide (bt_local_prefix t <> None))
    then
      let '(rc, result) := mosquitto_topic_matches_sub (bt_local_topic t) topic result in
      if negb (rc =? 0) then Some (inl rc) else
      match result with
      | None => None
      | Some true => Some (inr (map_remote t topic))
      | Some false => bridge_remap ts topic result
      end
    else bridge_remap ts topic result
  end.

Definition _mosquitto_send_publish (c : addr) (mid : Z) (topic : option str) (payload : list byte)
    (qos : Z) (retain dup : bool) : M Z :=
  topic ← unwrap topic;
  x ← get_ctx c;
  if c_sock x =? INVALID_SOCKET then mret MOSQ_ERR_NO_CONN else
  l ← get_listener (c_listener x);
  match (match l ≫= l_mount_point with
         | Some mp => if strlen mp <? strlen topic then Some (drop (length mp) topic) else None
         | None => Some topic
         end) with
  | None => mret MOSQ_ERR_SUCCESS
  | Some topic =>
    target ← unwrap
      (match c_bridge x with
       | Some b => if b_topic_remapping b then bridge_remap (b_topics b) topic None else Some (inr topic)
       | None => Some (inr topic)
       end);
    match target with
    | inl rc => mret rc
    | inr topic =>
      modify (fun d => d <| d_pub_bytes_sent ::= (fun n => u64 (n + Z.of_nat (length payload))) |>);;
      _mosquitto_send_real_publish c mid topic payload qos retain dup
    end
  end.

(** * src/send_server.c *)

Definition _mosquitto_send_connack (c : addr) (ack result : Z) : M Z :=
  queue_built c (build_packet CONNACK 2 (poke 0 ack;; poke 1 result)).

Definition _mosquitto_send_suback (c : addr) (mid : Z) (payload : list byte) : M Z :=
  let payloadlen := Z.of_nat (length payload) in
  queue_built c (build_packet SUBACK (2 + payloadlen)
    (_mosquitto_write_uint16 mid;;
     whenM (negb (payloadlen =? 0)) (_mosquitto_write_bytes payload payloadlen))).

(** * lib/util_mosq.c *)

Definition next_mid (last_mid : Z) : Z :=
  let last_mid := u16 (last_mid + 1) in
  if last_mid =? 0 then u16 (last_mid + 1) else last_mid.

Definition _mosquitto_mid_generate (c : addr) : M Z :=
  upd_ctx c (fun x => x <| c_last_mid ::= next_mid |>);;
  x ← get_ctx c;
  mret (c_last_mid x).

(** The first part: a lazy bridge that was idle for too long. *)
Definition lazy_bridge_idle (x : mosquitto) (now : Z) : bool :=
  match c_bridge x with
  | Some b => bool_decide (b_start_type b = bst_lazy) && negb (c_sock x =? INVALID_SOCKET)
              && (b_idle_timeout b <=? now - c_last_msg_out x)
  | None => false
  end.

Definition keepalive_due (x : mosquitto) (now : Z) : bool :=
  negb (c_keepalive x =? 0) && negb (c_sock x =? INVALID_SOCKET)
  && ((c_keepalive x <=? now - c_last_msg_out x) || (c_keepalive x <=? now - c_last_msg_in x)).

Definition _mosquitto_check_keepalive (c : addr) : M unit :=
  now ← mosquitto_time;
  x ← get_ctx c;
  if lazy_bridge_idle x now then _mosquitto_socket_close c;; mret tt else
  if negb (keepalive_due x now) then mret tt else
  if bool_decide (c_state x = mosq_cs_connected) && (c_ping_t x =? 0) then
    _mosquitto_send_pingreq c;;
    upd_ctx c (fun x => x <| c_last_msg_in := now |> <| c_last_msg_out := now |>)
  else
    (match c_listener x with
     | None => mret tt
     | Some i =>
       d ← get;
       l ← unwrap (d_listeners d !! i);
       let count := l_client_count l - 1 in
       modify (fun d => d <| d_listeners ::= <[i := l <| l_client_count := count |>]> |>);;
       assertM (0 <=? count)
     end);;
    upd_ctx c (fun x => x <| c_listener := None |>);;
    _mosquitto_socket_close c;;
    mret tt.

(** * lib/send_client_mosq.c: what a bridge sends *)

Definition MQTT_PROTOCOL_V31 : Z := 3.
Definition MQTT_PROTOCOL_V311 : Z := 4.
Definition PROTOCOL_NAME_v31 : str := lit "MQIsdp".
Definition PROTOCOL_NAME_v311 : str := lit "MQTT".

(** The identity a context connects with: that of the bridge, if it is one. *)
Definition connect_identity (x : mosquitto) : option str * option str * option str :=
  match c_bridge x with
  | Some b => (b_remote_clientid b, b_remote_username b, b_remote_password b)
  | None => (c_id x, c_username x, c_password x)
  end.

Definition opt_len (s : option str) : Z := match s with Some s => 2 + strlen s | None => 0 end.

Definition connect_payloadlen (x : mosquitto) (clientid : str) (username password : option str) : Z :=
  2 + strlen clientid
  + match c_will x with
    | Some w => 2 + strlen (msg_topic w) + 2 + Z.of_nat (length (msg_payload w))
    | None => 0
    end
  + match username with Some u => opt_len username + opt_len password | None => 0 end.

Definition connect_flags (x : mosquitto) (clean_session : bool) (username : option str) : Z :=
  let byte := Z.shiftl (zbool clean_session) 1 in
  let byte :=
    match c_will x with
    | Some w => Z.lor (Z.lor (Z.lor byte (Z.shiftl (zbool (msg_retain w)) 5))
                             (Z.shiftl (Z.land (msg_qos w) 3) 3)) (Z.shiftl 1 2)
    | None => byte
    end in
  match username with
  | Some _ =>
    let byte := Z.lor byte (Z.shiftl 1 7) in
    match c_password x with Some _ => Z.lor byte (Z.shiftl 1 6) | None => byte end
  | None => byte
  end.

Definition connect_version_byte (x : mosquitto) (version : Z) : Z :=
  match c_bridge x with
  | Some b => if b_try_private b && b_try_private_accepted b then Z.lor version 0x80 else version
  | None => version
  end.

Definition connect_body (x : mosquitto) (version keepalive : Z) (clean_session : bool)
    (clientid : str) (username password : option str) : ST packet unit :=
  let name := if version =? MQTT_PROTOCOL_V31 then PROTOCOL_NAME_v31 else PROTOCOL_NAME_v311 in
  _mosquitto_write_string name (strlen name);;
  _mosquitto_write_byte (connect_version_byte x version);;
  _mosquitto_write_byte (connect_flags x clean_session username);;
  _mosquitto_write_uint16 keepalive;;
  _mosquitto_write_string clientid (strlen clientid);;
  (match c_will x with
   | Some w => _mosquitto_write_string (msg_topic w) (strlen (msg_topic w));;
               _mosquitto_write_string (msg_payload w) (Z.of_nat (length (msg_payload w)))
   | None => mret tt
   end);;
  match username with
  | Some u =>
    _mosquitto_write_string u (strlen u);;
    match password with Some pw => _mosquitto_write_string pw (strlen pw) | None => mret tt end
  | None => mret tt
  end.

Definition _mosquitto_send_connect (c : addr) (keepalive : Z) (clean_session : bool) : M Z :=
  x ← get_ctx c;
  _ ← unwrap (c_id x);
  let '(clientid, username, password) := connect_identity x in
  clientid ← unwrap clientid;
  match (match c_protocol x with
         | mosq_p_mqtt31 => Some (MQTT_PROTOCOL_V31, 12)
         | mosq_p_mqtt311 => Some (MQTT_PROTOCOL_V311, 10)
         | _ => None
         end) with
  | None => mret MOSQ_ERR_INVAL
  | Some (version, headerlen) =>
    match build_packet CONNECT (headerlen + connect_payloadlen x clientid username password)
            (connect_body x version keepalive clean_session clientid username password) packet_calloc with
    | None => fault
    | Some (rc, p) =>
      if negb (rc =? 0) then mret rc else
      upd_ctx c (fun x => x <| c_keepalive := keepalive |>);;
      _mosquitto_packet_queue c p
    end
  end.

Definition _mosquitto_send_disconnect (c : addr) : M Z := _mosquitto_send_simple_command c DISCONNECT.

(** The identifier is drawn after the buffer was allocated: no identifier is used
    up when that fails. *)
Definition queue_with_mid (c : addr) (command len : Z) (body : Z -> ST packet unit) : M Z :=
  match build_packet command len (mret tt) packet_calloc with
  | None => fault
  | Some (rc, p) =>
    if negb (rc =? 0) then mret rc else
    mid ← _mosquitto_mid_generate c;
    match body mid p with
    | None => fault
    | Some (_, p) => _mosquitto_packet_queue c p
    end
  end.

Definition _mosquitto_send_subscribe (c : addr) (topic : str) (topic_qos : Z) : M Z :=
  queue_with_mid c (Z.lor SUBSCRIBE (Z.shiftl 1 1)) (2 + 2 + strlen topic + 1) (fun mid =>
    _mosquitto_write_uint16 mid;;
    _mosquitto_write_string topic (strlen topic);;
    _mosquitto_write_byte topic_qos).

Definition _mosquitto_send_unsubscribe (c : addr) (topic : str) : M Z :=
  queue_with_mid c (Z.lor UNSUBSCRIBE (Z.shiftl 1 1)) (2 + 2 + strlen topic) (fun mid =>
    _mosquitto_write_uint16 mid;;
    _mosquitto_write_string topic (strlen topic)).

(** * What the builders produce *)

(** [m] appends exactly [bs] to any packet that has room for it. *)
Definition writes (bs : list byte) (m : ST packet unit) : Prop :=
  forall p, packet_wf p -> Z.of_nat (length bs) <= room p -> wp m (fun _ p' => appends bs p p') p.

Lemma appends_nil p : packet_wf p -> appends [] p p.
Proof. intros H. split; [done|]. by rewrite app_nil_r, Z.add_0_r. Qed.

Lemma writes_ret : writes [] (mret tt).
Proof. intros p Hp _. wp_step. by apply appends_nil. Qed.

Lemma writes_bind bs1 bs2 m1 m2 : writes bs1 m1 -> writes bs2 m2 -> writes (bs1 ++ bs2) (m1;; m2).
Proof.
  intros H1 H2 p Hp Hr. rewrite length_app in Hr. wp_step.
  eapply wp_mono; [apply H1; [done|lia]|cbv beta]. intros _ p1 A1.
  pose proof (appends_room _ _ _ A1).
  eapply wp_mono; [apply H2; [by eapply appends_wf|lia]|cbv beta]. intros _ p2 A2.
  by eapply appends_trans.
Qed.

Lemma writes_string s : strlen s < 2 ^ 16 -> writes (enc_string s) (_mosquitto_write_string s (strlen s)).
Proof.
  intros Hs p Hp Hr. apply write_string_appends; [done|done|].
  unfold enc_string, strlen in *. rewrite length_app in Hr. cbn in Hr. lia.
Qed.

Lemma writes_uint16 w : writes (enc_uint16 w) (_mosquitto_write_uint16 w).
Proof. intros p Hp Hr. apply write_uint16_appends; [done|cbn in Hr; lia]. Qed.

Lemma writes_byte b : writes [byte_of_Z b] (_mosquitto_write_byte b).
Proof. intros p Hp Hr. apply write_byte_appends; [done|cbn in Hr; lia]. Qed.

Lemma writes_bytes bs : writes bs (_mosquitto_write_bytes bs (Z.of_nat (length bs))).
Proof. intros p Hp Hr. by apply write_bytes_appends. Qed.

Lemma writes_when (b : bool) bs m : writes bs m -> writes (if b then bs else []) (whenM b m).
Proof. destruct b; [done|]. intros _. apply writes_ret. Qed.

Lemma writes_payload bs :
  writes bs (whenM (negb (Z.of_nat (length bs) =? 0)) (_mosquitto_write_bytes bs (Z.of_nat (length bs)))).
Proof.
  destruct bs as [|b bs]; [apply writes_ret|].
  rewrite (proj2 (Z.eqb_neq _ 0)) by (cbn; lia). apply writes_bytes.
Qed.

Lemma writes_opt (o : option str) (f : str -> list byte) (m : str -> ST packet unit) :
  (forall s, o = Some s -> writes (f s) (m s)) ->
  writes (match o with Some s => f s | None => [] end) (match o with Some s => m s | None => mret tt end).
Proof. destruct o; intros H; [by apply H|apply writes_ret]. Qed.

Create HintDb writes.
#[export] Hint Resolve writes_ret writes_bind writes_string writes_uint16 writes_byte writes_bytes
  writes_when writes_payload : writes.

(** A whole control packet. *)
Definition enc_packet (command : Z) (body : list byte) : list byte :=
  enc_header command (Z.of_nat (length body)) ++ body.

(** The buffer is exactly [bs] and may be queued. *)
Definition holds (bs : list byte) (p : packet) : Prop := packet_ready p /\ p_payload p = bs.

Lemma byte_of_Z_u8 z : byte_of_Z (u8 z) = byte_of_Z z.
Proof. unfold byte_of_Z, u8, wrap. by rewrite Zmod_mod. Qed.

Lemma written_full p : packet_wf p -> room p = 0 -> written p = p_payload p.
Proof. unfold room, written. intros (H1 & H2 & H3) Hr. apply take_ge. lia. Qed.

Lemma build_packet_run command rl body p Q :
  0 <= rl < 2 ^ 32 ->
  (forall p', rl < 2 ^ 28 -> packet_wf p' -> room p' = rl -> written p' = enc_header command rl -> p_mid p' = p_mid p ->
     wp body (fun _ p'' => Q 0 p'') p') ->
  (2 ^ 28 <= rl -> forall p', Q MOSQ_ERR_PAYLOAD_SIZE p') ->
  wp (build_packet command rl body) Q p.
Proof.
  intros Hrl Hbody Hbig. unfold build_packet. wp_step.
  set (p1 := p <| p_command := _ |> <| p_remaining_length := _ |>).
  assert (p_remaining_length p1 = rl) as E by (unfold p1; proj_simpl; by rewrite u32_small by lia).
  eapply wp_mono; [apply packet_alloc_run; by rewrite E|cbv beta].
  intros rc p' [(-> & Hl & Hw & Hr & Hh & Hc & Hm)|(-> & Hl & Hp)]; rewrite E in *.
  - change (negb (MOSQ_ERR_SUCCESS =? 0)) with false. wp_step. eapply wp_mono; [apply Hbody|cbv beta].
    + done.
    + done.
    + done.
    + rewrite Hh. unfold enc_header, p1. proj_simpl. by rewrite byte_of_Z_u8.
    + by rewrite Hm.
    + intros _ p2 HQ. by wp_step.
  - change (negb (MOSQ_ERR_PAYLOAD_SIZE =? 0)) with true. wp_step. by apply Hbig.
Qed.

Lemma build_packet_writes command bs rl body p :
  writes bs body -> rl = Z.of_nat (length bs) -> rl < 2 ^ 32 ->
  wp (build_packet command rl body) (fun rc p' =>
    (rc = 0 /\ rl < 2 ^ 28 /\ holds (enc_packet command bs) p')
    \/ (rc = MOSQ_ERR_PAYLOAD_SIZE /\ 2 ^ 28 <= rl)) p.
Proof.
  intros Hb -> Hl. apply build_packet_run; [lia| |by right].
  intros p' Hs Hw Hr Hh _. eapply wp_mono; [apply Hb; [done|lia]|cbv beta].
  intros _ p2 A. left. split; [done|]. split; [done|].
  pose proof (appends_room _ _ _ A) as R. pose proof (appends_wf _ _ _ A) as W.
  assert (p_payload p2 = enc_packet command bs) as E.
  { rewrite <- written_full by (done || lia). destruct A as (_ & -> & _). by rewrite Hh. }
  split; [|done]. destruct W as (_ & W1 & W2). done.
Qed.

Lemma build_packet_pokes command a b p :
  wp (build_packet command 2 (poke 0 a;; poke 1 b)) (fun rc p' =>
    rc = 0 /\ holds (enc_packet command [byte_of_Z a; byte_of_Z b]) p') p.
Proof.
  apply build_packet_run; [lia| |lia].
  intros p' _ (W1 & W2 & W3) Hr Hh _. unfold room, written in *. unfold poke. wp_step.
  split; [lia|]. proj_simpl. rewrite length_insert. split; [lia|]. split; [done|].
  unfold holds, packet_ready. proj_simpl. rewrite !length_insert. split; [done|].
  unfold enc_packet. cbn [length]. change (Z.of_nat 2) with 2. rewrite <- Hh.
  set (i := Z.to_nat (p_pos p')) in *. rewrite Z.add_0_r.
  replace (Z.to_nat (p_pos p')) with i by done. replace (Z.to_nat (p_pos p' + 1)) with (S i) by lia.
  set (buf := p_payload p') in *.
  assert (length buf = S (S i)) as Hl by lia. clearbody buf i. clear -Hl.
  assert (exists pre y z, buf = pre ++ [y; z] /\ length pre = i) as (pre & y & z & -> & <-).
  { exists (take i buf). destruct (drop i buf) as [|y [|z [|? ?]]] eqn:E;
      apply (f_equal length) in E as El; rewrite length_drop in El; cbn in El; try lia.
    exists y, z. rewrite <- E, take_drop, length_take. split; [done|lia]. }
  rewrite take_app_length. rewrite insert_app_r_alt by lia. rewrite Nat.sub_diag.
  rewrite insert_app_r_alt by lia. by replace (S (length pre) - length pre)%nat with 1%nat by lia.
Qed.

(** * What reaches the peer *)

(** From state [d], in which [c] is [x], to [d']: [bs] was added to what [c] is made
    to send, and nothing else changed. *)
Definition queues (c : addr) (bs : list byte) (x : mosquitto) (d : mosquitto_db) (rc : Z)
    (d' : mosquitto_db) : Prop :=
  only_writes c d d'
  /\ (exists x', d_contexts d' !! c = Some x' /\ ctx_out_wf x' /\ stream d' x' = stream d x ++ bs)
  /\ (c_sock x = INVALID_SOCKET -> rc = MOSQ_ERR_NO_CONN)
  /\ (Forall write_ok (d_writes d) ->
      Forall write_ok (d_writes d') /\ (c_sock x <> INVALID_SOCKET -> rc = MOSQ_ERR_SUCCESS)).

(** [m] always sends exactly [bs] to [c]. *)
Definition sends (c : addr) (bs : list byte) (m : M Z) : Prop :=
  forall x d, d_contexts d !! c = Some x -> ctx_out_wf x -> wp m (queues c bs x d) d.

Lemma queue_ready c x d p bs :
  d_contexts d !! c = Some x -> ctx_out_wf x -> holds bs p ->
  wp (_mosquitto_packet_queue c p) (queues c bs x d) d.
Proof.
  intros Hx Hwf [Hp <-]. eapply wp_mono; [by apply packet_queue_run|cbv beta].
  intros rc d' (O & x' & L & W & S & N & _ & K). split; [done|]. split; [by exists x'|done].
Qed.

Lemma queue_built_sends c b bs :
  wp b (fun rc p => rc = 0 /\ holds bs p) packet_calloc -> sends c bs (queue_built c b).
Proof.
  intros Hb x d Hx Hwf. unfold queue_built. rewrite wp_eq in Hb.
  destruct (b packet_calloc) as [[rc p]|]; [|done]. destruct Hb as [-> Hp]. by apply queue_ready.
Qed.

Lemma build_writes_sends c command bs rl body :
  writes bs body -> rl = Z.of_nat (length bs) -> rl < 2 ^ 28 ->
  sends c (enc_packet command bs) (queue_built c (build_packet command rl body)).
Proof.
  intros Hb Hrl Hl. apply queue_built_sends.
  eapply wp_mono; [apply (build_packet_writes command bs); [done|done|lia]|cbv beta].
  intros rc p [(-> & _ & H)|[_ ?]]; [done|lia].
Qed.

Lemma send_mid_sends c command mid :
  sends c (enc_packet command (enc_uint16 mid)) (_mosquitto_send_command_with_mid c command mid false).
Proof. apply queue_built_sends, build_packet_pokes. Qed.

Lemma send_simple_sends c command : sends c (enc_packet command []) (_mosquitto_send_simple_command c command).
Proof. apply build_writes_sends; [apply writes_ret|done|done]. Qed.

Lemma send_suback_sends c mid codes : Z.of_nat (length codes) < 2 ^ 16 ->
  sends c (enc_packet SUBACK (enc_uint16 mid ++ codes)) (_mosquitto_send_suback c mid codes).
Proof.
  intros Hcodes. apply build_writes_sends.
  - apply writes_bind; auto with writes.
  - rewrite length_app, Nat2Z.inj_add. done.
  - lia.
Qed.

(** Every packet the builders produce is a frame the reader accepts. *)
Lemma enc_packet_frame command body :
  byte_of_Z command <> NUL -> Z.of_nat (length body) < 2 ^ 28 ->
  exists f, enc_packet command body = frame_bytes f /\ frame_wf f
    /\ f_command f = byte_of_Z command /\ f_body f = body.
Proof.
  intros Hc Hl. set (rl := Z.of_nat (length body)) in *.
  exists (Frame (byte_of_Z command) (map byte_of_Z (remaining_bytes 5 rl)) body).
  split; [done|]. split; [|done].
  destruct (remaining_bytes_value 4 rl) as [Hv Hf]; [change (128 ^ Z.of_nat 5) with (2 ^ 35); lia|].
  pose proof (remaining_bytes_full 3 rl ltac:(lia)) as Hfull. change (128 ^ Z.of_nat 4) with (2 ^ 28) in Hfull.
  pose proof (remaining_bytes_length 4 rl ltac:(lia)) as Hlen.
  assert (forall ds, digits_framed ds -> map Z_of_byte (map byte_of_Z ds) = ds) as Hid.
  { clear. induction ds as [|d ds IH]; [done|]. intros H.
    assert (0 <= d < 256 /\ (ds = [] \/ digits_framed ds)) as [Hd Hds]
      by (destruct ds; cbn in H; [split; [lia|by left]|split; [lia|right; tauto]]).
    cbn [map]. rewrite Z_of_byte_of_Z, Z.mod_small by lia. f_equal. destruct Hds as [->|Hds]; auto. }
  split; [done|]. cbn [f_digits f_body]. rewrite Hid by done. split; [done|].
  rewrite length_map. split; [|done]. destruct (decide (length (remaining_bytes 5 rl) = 5%nat)) as [E|]; [|lia].
  apply Hfull in E. lia.
Qed.

(** * Properties *)

(** Each fixed-size control packet the broker sends is, byte for byte, the MQTT
    packet of that name: the routine adds exactly these bytes to what the client is
    sent (and changes nothing else). *)
Theorem send_commands_spec c mid ack result codes :
  Z.of_nat (length codes) < 2 ^ 16 ->
  Forall (fun '(m, bs) => sends c (map byte_of_Z bs) m)
    [(_mosquitto_send_pingresp c, [0xD0; 0]);
     (_mosquitto_send_disconnect c, [0xE0; 0]);
     (_mosquitto_send_puback c mid, [0x40; 2; MOSQ_MSB mid; MOSQ_LSB mid]);
     (_mosquitto_send_pubrec c mid, [0x50; 2; MOSQ_MSB mid; MOSQ_LSB mid]);
     (_mosquitto_send_pubrel c mid, [0x62; 2; MOSQ_MSB mid; MOSQ_LSB mid]);
     (_mosquitto_send_pubcomp c mid, [0x70; 2; MOSQ_MSB mid; MOSQ_LSB mid]);
     (_mosquitto_send_connack c ack result, [0x20; 2; ack; result])]
  /\ sends c (enc_packet SUBACK (enc_uint16 mid ++ codes)) (_mosquitto_send_suback c mid codes).
Proof.
  intros Hcodes. split.
  - repeat apply Forall_cons_2; try apply Forall_nil_2; cbn [map].
    + apply send_simple_sends.
    + apply send_simple_sends.
    + apply (send_mid_sends c PUBACK).
    + apply (send_mid_sends c PUBREC).
    + apply (send_mid_sends c (Z.lor PUBREL 2)).
    + apply (send_mid_sends c PUBCOMP).
    + apply queue_built_sends, build_packet_pokes.
  - by apply send_suback_sends.
Qed.

Lemma send_commands_spec_witness :
  sends 1%nat (map byte_of_Z [0x90; 4; 0; 10; 1; 0x80])
    (_mosquitto_send_suback 1%nat 10 (map byte_of_Z [1; 0x80])).
Proof. apply (send_commands_spec 1%nat 10 0 0 (map byte_of_Z [1; 0x80])). done. Defined.

Definition enc_publish (mid : Z) (topic : str) (payload : list byte) (qos : Z) (retain dup : bool) : list byte :=
  enc_packet (publish_command qos retain dup)
    (enc_string topic ++ (if 0 <? qos then enc_uint16 mid else []) ++ payload).

Lemma send_real_publish_sends c mid topic payload qos retain dup :
  strlen topic < 2 ^ 16 -> 4 + strlen topic + Z.of_nat (length payload) < 2 ^ 28 ->
  sends c (enc_publish mid topic payload qos retain dup)
    (_mosquitto_send_real_publish c mid topic payload qos retain dup).
Proof.
  intros Ht Hl. apply queue_built_sends. wp_step.
  eapply wp_mono; [apply (build_packet_writes (publish_command qos retain dup)
    (enc_string topic ++ (if 0 <? qos then enc_uint16 mid else []) ++ payload))|cbv beta].
  - auto 8 with writes.
  - unfold enc_string, strlen. destruct (0 <? qos); rewrite ?length_app; cbn [length enc_uint16]; lia.
  - destruct (0 <? qos); lia.
  - intros rc p [(-> & _ & H)|[_ ?]]; [done|]. exfalso. destruct (0 <? qos); lia.
Qed.

(** The mount point of the client's listener. *)
Definition mount_point (d : mosquitto_db) (x : mosquitto) : option str :=
  c_listener x ≫= fun i => d_listeners d !! i ≫= l_mount_point.

Definition listener_ok (d : mosquitto_db) (x : mosquitto) : Prop :=
  forall i, c_listener x = Some i -> is_Some (d_listeners d !! i).

Lemma wp_get_listener d x Q :
  listener_ok d x ->
  (forall l, l ≫= l_mount_point = mount_point d x ->
     (forall i, c_listener x = Some i -> l = d_listeners d !! i) ->
     (c_listener x = None -> l = None) -> Q l d) ->
  wp (get_listener (c_listener x)) Q d.
Proof.
  unfold listener_ok, mount_point, get_listener. intros Hok HQ. destruct (c_listener x) as [i|]; wp_step.
  - destruct (Hok i eq_refl) as [l Hl]. exists l. split; [done|]. wp_step. 
    apply HQ; [cbn; by rewrite Hl|by intros ? [= <-]|done].
  - by apply HQ.
Qed.

Definition count_published (payload : list byte) (d : mosquitto_db) : mosquitto_db :=
  d <| d_pub_bytes_sent ::= (fun n => u64 (n + Z.of_nat (length payload))) |>.

Lemma send_publish_run c x d mid topic payload qos retain dup :
  d_contexts d !! c = Some x -> ctx_out_wf x -> listener_ok d x -> c_bridge x = None ->
  strlen topic < 2 ^ 16 -> 4 + strlen topic + Z.of_nat (length payload) < 2 ^ 28 ->
  wp (_mosquitto_send_publish c mid (Some topic) payload qos retain dup) (fun rc d' =>
    (c_sock x = INVALID_SOCKET /\ rc = MOSQ_ERR_NO_CONN /\ d' = d)
    \/ (c_sock x <> INVALID_SOCKET /\
        let mp := default [] (mount_point d x) in
        (mount_point d x = None \/ strlen mp < strlen topic) /\
        queues c (enc_publish mid (drop (length mp) topic) payload qos retain dup) x
          (count_published payload d) rc d')
    \/ (c_sock x <> INVALID_SOCKET /\ strlen topic <= strlen (default [] (mount_point d x))
        /\ mount_point d x <> None /\ rc = MOSQ_ERR_SUCCESS /\ d' = d)) d.
Proof.
  intros Hx Hwf Hl Hb Ht Hsz. unfold _mosquitto_send_publish. wp_step. exists topic. split; [done|].
  wp_step. wp_ptr. destruct (c_sock x =? INVALID_SOCKET) eqn:Es; wp_step; [left; split; [lia|done]|].
  apply wp_get_listener; [done|]. intros l Hmp _ _. rewrite Hmp.
  assert (forall t, (length t <= length topic)%nat ->
    wp (target ← unwrap (match c_bridge x with
         | Some b => if b_topic_remapping b then bridge_remap (b_topics b) t None else Some (inr t)
         | None => Some (inr t) end);
        match target with
        | inl rc => mret rc
        | inr topic => modify (fun d => d <| d_pub_bytes_sent ::= (fun n => u64 (n + Z.of_nat (length payload))) |>);;
                       _mosquitto_send_real_publish c mid topic payload qos retain dup
        end)
      (queues c (enc_publish mid t payload qos retain dup) x (count_published payload d)) d) as Hsend.
  { intros t Hlen. rewrite Hb. wp_step. exists (inr t). split; [done|]. wp_step.
    fold (count_published payload d). unfold strlen in *.
    apply send_real_publish_sends; [unfold strlen; lia|unfold strlen; lia|exact Hx|done]. }
  destruct (mount_point d x) as [mp|]; cbn [default].
  - destruct (strlen mp <? strlen topic) eqn:El.
    + eapply wp_mono; [apply Hsend; rewrite length_drop; lia|cbv beta]. intros rc d' Hq. right; left.
      split; [lia|]. split; [right; cbn; lia|done].
    + wp_step. right; right. split; [lia|]. split; [cbn; lia|]. done.
  - eapply wp_mono; [apply Hsend; done|cbv beta]. intros rc d' Hq. right; left.
    split; [lia|]. split; [by left|]. done.
Qed.

(** [_mosquitto_send_publish] to a client (not a bridge): it refuses a client
    without a socket, swallows a topic not longer than the mount point of the
    client's listener, and otherwise sends exactly one PUBLISH packet with the
    topic stripped of the mount point, the identifier only for QoS > 0, the
    payload and the flags.  The packet is a frame that a reader accepts. *)
Theorem send_publish_spec c x d mid topic payload qos retain dup :
  d_contexts d !! c = Some x -> ctx_out_wf x -> listener_ok d x -> c_bridge x = None ->
  strlen topic < 2 ^ 16 -> 4 + strlen topic + Z.of_nat (length payload) < 2 ^ 28 -> 0 <= qos <= 2 ->
  wp (_mosquitto_send_publish c mid (Some topic) payload qos retain dup) (fun rc d' =>
    let mp := default [] (mount_point d x) in
    let sent := enc_publish mid (drop (length mp) topic) payload qos retain dup in
    if c_sock x =? INVALID_SOCKET then rc = MOSQ_ERR_NO_CONN /\ d' = d
    else if bool_decide (mount_point d x = None) || (strlen mp <? strlen topic) then
      queues c sent x (count_published payload d) rc d'
      /\ (exists f, sent = frame_bytes f /\ frame_wf f /\
           Z_of_byte (f_command f) = PUBLISH + 8 * zbool dup + 2 * qos + zbool retain)
    else rc = MOSQ_ERR_SUCCESS /\ d' = d) d.
Proof.
  intros Hx Hwf Hl Hb Ht Hsz Hq. cbv zeta. eapply wp_mono; [by apply send_publish_run|cbv beta zeta].
  intros rc d' [(H1 & H2 & H3)|[(H1 & H2 & H3)|(H1 & H2 & H3 & H4 & H5)]].
  - by rewrite (proj2 (Z.eqb_eq _ _)).
  - rewrite (proj2 (Z.eqb_neq _ _)) by done.
    assert (bool_decide (mount_point d x = None)
            || (strlen (default [] (mount_point d x)) <? strlen topic) = true) as ->.
    { destruct H2 as [->|H2]; [done|]. rewrite (proj2 (Z.ltb_lt _ _)) by done. by rewrite orb_true_r. }
    split; [done|]. set (mp := default [] _) in *. unfold enc_publish.
    assert (byte_of_Z (publish_command qos retain dup)
            = byte_of_Z (PUBLISH + 8 * zbool dup + 2 * qos + zbool retain)) as Ec.
    { assert (qos = 0 \/ qos = 1 \/ qos = 2) as [->|[->| ->]] by lia; by destruct retain, dup. }
    edestruct enc_packet_frame as (f & E & W & C & B); [| |exists f; split; [exact E|split; [exact W|]]].
    + rewrite Ec. intros E%(f_equal Z_of_byte). rewrite Z_of_byte_of_Z in E.
      assert (qos = 0 \/ qos = 1 \/ qos = 2) as [->|[->| ->]] by lia; by destruct retain, dup.
    + unfold enc_string, strlen in *. rewrite !length_app, length_drop. cbn [length enc_uint16].
      destruct (0 <? qos); cbn [length enc_uint16]; lia.
    + rewrite C, Ec, Z_of_byte_of_Z. apply Z.mod_small.
      assert (qos = 0 \/ qos = 1 \/ qos = 2) as [->|[->| ->]] by lia; destruct retain, dup; by vm_compute.
  - rewrite (proj2 (Z.eqb_neq _ _)) by done. rewrite bool_decide_eq_false_2 by done.
    by rewrite (proj2 (Z.ltb_ge _ _)).
Qed.

Definition sample_mounted_db : mosquitto_db :=
  db_calloc <| d_contexts := {[1%nat := context_calloc <| c_sock := 7 |> <| c_listener := Some 0%nat |>]} |>
            <| d_listeners := [Listener 1883 (-1) (Some (lit "up/")) 1 false false false false []] |>.

Lemma send_publish_spec_witness :
  wp (_mosquitto_send_publish 1%nat 9 (Some (lit "up/a")) (lit "x") 1 false false) (fun _ d' =>
    exists x', d_contexts d' !! 1%nat = Some x' /\
      stream d' x' = map byte_of_Z [0x32; 6; 0; 1] ++ lit "a" ++ map byte_of_Z [0; 9] ++ lit "x")
    sample_mounted_db.
Proof.
  eapply wp_mono; [apply (send_publish_spec 1%nat (context_calloc <| c_sock := 7 |> <| c_listener := Some 0%nat |>));
    [done|constructor| |done|done|done|lia]|cbv beta].
  - intros i [= <-]. by eexists.
  - intros rc d' [(_ & (x' & L & _ & S) & _) _]. exists x'. split; [done|]. rewrite S. by vm_compute.
Defined.

(** ** Message identifiers *)

Lemma next_mid_eq m : 0 <= m < 2 ^ 16 -> next_mid m = if m =? 65535 then 1 else m + 1.
Proof.
  intros H. unfold next_mid. cbv zeta. destruct (Z.eqb_spec m 65535) as [->|]; [done|].
  rewrite !u16_small by lia. by rewrite (proj2 (Z.eqb_neq _ _)) by lia.
Qed.

Lemma next_mid_iter k m :
  1 <= m < 2 ^ 16 -> Nat.iter k next_mid m = (m - 1 + Z.of_nat k) mod 65535 + 1.
Proof.
  intros H. induction k as [|k IH]; [change (Nat.iter 0 next_mid m) with m; rewrite Z.mod_small by lia; lia|].
  rewrite Nat.iter_succ, IH. pose proof (Z.mod_pos_bound (m - 1 + Z.of_nat k) 65535 ltac:(lia)) as Hb.
  rewrite next_mid_eq by lia. rewrite Nat2Z.inj_succ.
  replace (m - 1 + Z.succ (Z.of_nat k)) with (m - 1 + Z.of_nat k + 1) by lia.
  set (z := m - 1 + Z.of_nat k) in *. rewrite <- (Z.add_mod_idemp_l z) by lia.
  destruct (Z.eqb_spec (z mod 65535 + 1) 65535) as [E|E].
  - replace (z mod 65535) with 65534 by lia. done.
  - rewrite (Z.mod_small (z mod 65535 + 1)) by lia. done.
Qed.

(** [_mosquitto_mid_generate] never yields the forbidden identifier 0, whatever
    identifier was last used, and any 65535 successive identifiers of a client
    are pairwise different. *)
Theorem mid_generate_spec c x d :
  d_contexts d !! c = Some x -> 0 <= c_last_mid x < 2 ^ 16 ->
  wp (_mosquitto_mid_generate c) (fun mid d' =>
    1 <= mid < 2 ^ 16 /\ mid = next_mid (c_last_mid x)
    /\ d' = d <| d_contexts ::= <[c := x <| c_last_mid := mid |>]> |>
    /\ (forall i j, (i < j)%nat -> Z.of_nat j < 65535 -> Nat.iter i next_mid mid <> Nat.iter j next_mid mid)) d.
Proof.
  intros Hx Hm. unfold _mosquitto_mid_generate. wp_step. wp_ptr. wp_ptr.
  assert (1 <= next_mid (c_last_mid x) < 2 ^ 16) as Hr.
  { rewrite next_mid_eq by done. destruct (Z.eqb_spec (c_last_mid x) 65535); lia. }
  split; [done|]. split; [done|]. split; [done|]. intros i j Hij Hj E.
  rewrite !next_mid_iter in E by done. set (m := next_mid _) in *.
  pose proof (Z.div_mod (m - 1 + Z.of_nat i) 65535 ltac:(lia)).
  pose proof (Z.div_mod (m - 1 + Z.of_nat j) 65535 ltac:(lia)). lia.
Qed.

Lemma mid_generate_spec_witness :
  wp (_mosquitto_mid_generate 1%nat) (fun mid _ => mid = 1)
    (db_calloc <| d_contexts := {[1%nat := context_calloc <| c_last_mid := 65535 |>]} |>).
Proof.
  eapply wp_mono; [apply (mid_generate_spec 1%nat (context_calloc <| c_last_mid := 65535 |>)); [done|cbn; lia]|cbv beta].
  intros mid d' (_ & -> & _). done.
Defined.
