(* ===== verification/Database.v ===== *)
(** Stored messages and the message queue of each client: src/database.c, but for
    the two functions that publish ([mqtt3_db_messages_easy_queue] and
    [mqtt3_db_message_release], in Queue.v) and the restoring of a saved database
    (Persist.v).

    The list a client's messages are on is [c_msgs]; the loops of the code walk it
    with the pointers [last] and [tail], here the parts [before] and [tail] of the
    list, and write it back whenever they change a message. *)

From S2P Require Export Send.
#[local] Open Scope Z_scope.

(** * The message store *)

Definition mosquitto__db_msg_store_add (s : addr) : M unit :=
  modify (fun d => d <| d_msg_store ::= cons s |>).

Definition mosquitto__db_msg_store_remove (s : addr) : M unit :=
  get_store s;;
  modify (fun d => d <| d_msg_store ::= filter (fun a => a <> s) |>
                     <| d_msg_store_count ::= Z.pred |>
                     <| d_stores ::= delete s |>).

(** The caller's pointer is cleared when the message is freed: the result. *)
Definition mosquitto__db_msg_store_deref (s : addr) : M (option addr) :=
  upd_store s (fun st => st <| s_ref_count ::= Z.pred |>);;
  st ← get_store s;
  if s_ref_count st =? 0 then mosquitto__db_msg_store_remove s;; mret None
  else mret (Some s).

(** [while(store)]: [next] is read before the store is freed. *)
Fixpoint msg_store_clean_loop (l : list addr) : M unit :=
  match l with
  | [] => mret tt
  | s :: l => mosquitto__db_msg_store_remove s;; msg_store_clean_loop l
  end.

Definition mosquitto__db_msg_store_clean : M unit := d ← get; msg_store_clean_loop (d_msg_store d).

Definition mqtt3_db_message_store (source : option str) (source_mid : Z) (topic : option str)
    (qos : Z) (payload : list byte) (retain : bool) (store_id : Z) : M addr :=
  s ← malloc;
  modify (fun d => d <| d_msg_store_count ::= Z.succ |>);;
  id ← (if store_id =? 0 then
          modify (fun d => d <| d_last_db_id ::= (fun n => u64 (n + 1)) |>);; gets d_last_db_id
        else mret store_id);
  modify (fun d => d <| d_stores ::= <[s := Store id (default [] source) [] 0 topic payload
                                             source_mid 0 qos retain]> |>);;
  mosquitto__db_msg_store_add s;;
  mret s.

(** * Messages of a client *)

Definition set_msgs (c : addr) (l : list mosquitto_client_msg) : M unit :=
  upd_ctx c (fun x => x <| c_msgs := l |>).

(** [_message_remove(db, context, &msg, last)], [m] standing between [before] and
    [rest] on the list, [last] the end of [before]. *)
Definition unlink_msg (before rest : list mosquitto_client_msg) (m : mosquitto_client_msg)
    (x : mosquitto) : mosquitto :=
  x <| c_msgs := before ++ rest |>
    <| c_last_msg ::= (fun p => match rest with [] => m_addr <$> last before | _ => p end) |>
    <| c_msg_count ::= Z.pred |>
    <| c_msg_count12 ::= (fun n => if 0 <? m_qos m then n - 1 else n) |>.

Definition _message_remove (c : addr) (before rest : list mosquitto_client_msg)
    (m : mosquitto_client_msg) : M unit :=
  mosquitto__db_msg_store_deref (m_store m);;
  upd_ctx c (unlink_msg before rest m).

(** [switch(qos)] that picks the state of a message about to be sent. *)
Definition publish_state (qos : Z) (otherwise : mosquitto_msg_state) : mosquitto_msg_state :=
  if qos =? 0 then mosq_ms_publish_qos0
  else if qos =? 1 then mosq_ms_publish_qos1
  else if qos =? 2 then mosq_ms_publish_qos2
  else otherwise.

Definition is_queued (m : mosquitto_client_msg) : bool := bool_decide (m_state m = mosq_ms_queued).
Definition is_out (m : mosquitto_client_msg) : bool := bool_decide (m_direction m = mosq_md_out).
Definition msg_is (mid : Z) (dir : mosquitto_msg_direction) (m : mosquitto_client_msg) : bool :=
  (m_mid m =? mid) && bool_decide (m_direction m = dir).

(** A queued message that comes to stand within the inflight window. *)
Definition promote (now : Z) (m : mosquitto_client_msg) : mosquitto_client_msg :=
  let m := m <| m_timestamp := now |> in
  if is_out m then m <| m_state := publish_state (m_qos m) (m_state m) |>
  else if m_qos m =? 2 then m <| m_state := mosq_ms_wait_for_pubrel |> else m.

Fixpoint delete_loop (c : addr) (mid : Z) (dir : mosquitto_msg_direction)
    (before tail : list mosquitto_client_msg) (msg_index : Z) (deleted : bool) : M Z :=
  match tail with
  | [] => mret MOSQ_ERR_SUCCESS
  | m :: rest =>
    d ← get;
    let msg_index := msg_index + 1 in
    let m := if is_queued m && (msg_index <=? d_max_inflight d) then promote (d_time d) m else m in
    set_msgs c (before ++ m :: rest);;
    if msg_is mid dir m then
      let msg_index := msg_index - 1 in
      _message_remove c before rest m;;
      if d_max_inflight d <? msg_index then mret MOSQ_ERR_SUCCESS
      else delete_loop c mid dir before rest msg_index true
    else if (d_max_inflight d <? msg_index) && deleted then mret MOSQ_ERR_SUCCESS
    else delete_loop c mid dir (before ++ [m]) rest msg_index deleted
  end.

Definition mqtt3_db_message_delete (c : addr) (mid : Z) (dir : mosquitto_msg_direction) : M Z :=
  x ← get_ctx c;
  delete_loop c mid dir [] (c_msgs x) 0 false.

(** * Inserting *)

(** [context->last_msg->next = msg]: what followed [last_msg] is lost; [last_msg]
    must be on the list. *)
Fixpoint append_after (a : addr) (m : mosquitto_client_msg) (l : list mosquitto_client_msg)
    : option (list mosquitto_client_msg) :=
  match l with
  | [] => None
  | y :: l => if decide (m_addr y = a) then Some [y; m] else cons y <$> append_after a m l
  end.

Definition append_msg (m : mosquitto_client_msg) (x : mosquitto) : option mosquitto :=
  l ← match c_last_msg x with
      | Some a => append_after a m (c_msgs x)
      | None => Some [m]
      end;
  Some (x <| c_msgs := l |> <| c_last_msg := Some (m_addr m) |>
          <| c_msg_count ::= Z.succ |>
          <| c_msg_count12 ::= (fun n => if 0 <? m_qos m then n + 1 else n) |>).

(** What the checks of [mqtt3_db_message_insert] decide: leave with a result, leave
    because the queue is full, or put the message on the list in a state. *)
Inductive insert_verdict :=
| ins_return (rc : Z)
| ins_dropped
| ins_append (state : mosquitto_msg_state) (rc : Z).

Definition already_sent (d : mosquitto_db) (dir : mosquitto_msg_direction)
    (retain : bool) (st : mosquitto_msg_store) (id : str) : bool :=
  negb (cf_allow_duplicate_messages (d_config d)) && bool_decide (dir = mosq_md_out)
  && negb retain && bool_decide (id ∈ s_dest_ids st).

Definition offline_refused (d : mosquitto_db) (x : mosquitto) (qos : Z) : bool :=
  (c_sock x =? INVALID_SOCKET) && (qos =? 0) && negb (cf_queue_qos0_messages (d_config d))
  && match c_bridge x with
     | None => true
     | Some b => negb (bool_decide (b_start_type b = bst_lazy))
     end.

Definition insert_decision (d : mosquitto_db) (x : mosquitto) (dir : mosquitto_msg_direction)
    (qos : Z) (retain : bool) (st : mosquitto_msg_store) (id : str) : insert_verdict :=
  if already_sent d dir retain st id then ins_return MOSQ_ERR_SUCCESS else
  if offline_refused d x qos then ins_return 2 else
  if negb (c_sock x =? INVALID_SOCKET) then
    if (qos =? 0) || (d_max_inflight d =? 0) || (c_msg_count12 x <? d_max_inflight d) then
      if bool_decide (dir = mosq_md_out) then ins_append (publish_state qos mosq_ms_invalid) 0
      else if qos =? 2 then ins_append mosq_ms_wait_for_pubrel 0
      else ins_return 1
    else if (d_max_queued d =? 0) || (c_msg_count12 x - d_max_inflight d <? d_max_queued d) then
      ins_append mosq_ms_queued 2
    else ins_dropped
  else if (0 <? d_max_queued d) && (d_max_queued d <=? c_msg_count12 x) then ins_dropped
  else ins_append mosq_ms_queued 0.

Definition drop_message (c : addr) : M unit :=
  upd_ctx c (fun x => x <| c_is_dropping := true |>);;
  modify (fun d => d <| d_msgs_dropped ::= (fun n => u64 (n + 1)) |>).

(** A lazy bridge with enough messages waiting is to be started. *)
Definition lazy_threshold (x : mosquitto) : mosquitto :=
  match c_bridge x with
  | Some b =>
    if bool_decide (b_start_type b = bst_lazy) && (c_sock x =? INVALID_SOCKET)
       && (b_threshold b <=? c_msg_count x)
    then x <| c_bridge := Some (b <| b_lazy_reconnect := true |>) |>
    else x
  | None => x
  end.

Definition insert_append (c : addr) (mid : Z) (dir : mosquitto_msg_direction) (qos : Z)
    (retain : bool) (stored : addr) (id : str) (state : mosquitto_msg_state) : M unit :=
  assertM (negb (bool_decide (state = mosq_ms_invalid)));;
  whenM (bool_decide (state = mosq_ms_queued))
    (modify (fun d => d <| d_persistence_changes ::= Z.succ |>));;
  a ← malloc;
  upd_store stored (fun st => st <| s_ref_count ::= Z.succ |>);;
  now ← mosquitto_time;
  x ← get_ctx c;
  x ← unwrap (append_msg (ClientMsg a stored now mid qos retain dir state false) x);
  upd_ctx c (fun _ => x);;
  d ← get;
  whenM (negb (cf_allow_duplicate_messages (d_config d)) && bool_decide (dir = mosq_md_out) && negb retain)
    (upd_store stored (fun st => st <| s_dest_ids ::= (fun ids => ids ++ [id]) |>));;
  upd_ctx c lazy_threshold.

Definition mqtt3_db_message_insert (c : addr) (mid : Z) (dir : mosquitto_msg_direction) (qos : Z)
    (retain : bool) (stored : addr) : M Z :=
  x ← get_ctx c;
  match c_id x with
  | None => mret MOSQ_ERR_SUCCESS
  | Some id =>
    st ← get_store stored;
    d ← get;
    match insert_decision d x dir qos retain st id with
    | ins_return rc => mret rc
    | ins_dropped => drop_message c;; mret 2
    | ins_append state rc => insert_append c mid dir qos retain stored id state;; mret rc
    end
  end.

(** * Changing the state of messages *)

Fixpoint update_first (mid : Z) (dir : mosquitto_msg_direction) (state : mosquitto_msg_state)
    (now : Z) (l : list mosquitto_client_msg) : option (list mosquitto_client_msg) :=
  match l with
  | [] => None
  | m :: l =>
    if msg_is mid dir m then Some (m <| m_state := state |> <| m_timestamp := now |> :: l)
    else cons m <$> update_first mid dir state now l
  end.

Definition mqtt3_db_message_update (c : addr) (mid : Z) (dir : mosquitto_msg_direction)
    (state : mosquitto_msg_state) : M Z :=
  x ← get_ctx c;
  now ← mosquitto_time;
  match update_first mid dir state now (c_msgs x) with
  | Some l => set_msgs c l;; mret MOSQ_ERR_SUCCESS
  | None => mret 1
  end.

Fixpoint deref_all (l : list mosquitto_client_msg) : M unit :=
  match l with
  | [] => mret tt
  | m :: l => mosquitto__db_msg_store_deref (m_store m);; deref_all l
  end.

Definition mqtt3_db_messages_delete (c : addr) : M Z :=
  x ← get_ctx c;
  deref_all (c_msgs x);;
  upd_ctx c (fun x => x <| c_msgs := [] |> <| c_last_msg := None |> <| c_msg_count := 0 |>
                        <| c_msg_count12 := 0 |>);;
  mret MOSQ_ERR_SUCCESS.

Fixpoint store_find_loop (mid : Z) (l : list mosquitto_client_msg) : M (option addr) :=
  match l with
  | [] => mret None
  | m :: l =>
    st ← get_store (m_store m);
    if (s_source_mid st =? mid) && bool_decide (m_direction m = mosq_md_in) then mret (Some (m_store m))
    else store_find_loop mid l
  end.

(** [Some s] is the found message and success, [None] the result 1. *)
Definition mqtt3_db_message_store_find (c : addr) (mid : Z) : M (option addr) :=
  x ← get_ctx c;
  store_find_loop mid (c_msgs x).

(** ** Reconnection *)

(** The state an outgoing message is retried from. *)
Definition retry_state (m : mosquitto_client_msg) : mosquitto_msg_state :=
  if is_queued m then m_state m
  else if m_qos m =? 2 then
    if bool_decide (m_state m = mosq_ms_wait_for_pubcomp) then mosq_ms_resend_pubrel
    else mosq_ms_publish_qos2
  else publish_state (m_qos m) (m_state m).

(** The first loop; [prev] is the end of [before].  After a removal [msg] is the
    message that followed, and [prev = msg; msg = msg->next] passes over it. *)
Fixpoint reset_loop (c : addr) (before tail : list mosquitto_client_msg) : M unit :=
  match tail with
  | [] => mret tt
  | m :: rest =>
    upd_ctx c (fun x => x <| c_last_msg := Some (m_addr m) |> <| c_msg_count ::= Z.succ |>
                 <| c_msg_count12 ::= (fun n => if 0 <? m_qos m then n + 1 else n) |>);;
    if is_out m then
      let m := m <| m_state := retry_state m |> in
      set_msgs c (before ++ m :: rest);;
      reset_loop c (before ++ [m]) rest
    else if negb (m_qos m =? 2) then
      _message_remove c before rest m;;
      match rest with
      | [] => mret tt
      | n :: rest => reset_loop c (before ++ [n]) rest
      end
    else reset_loop c (before ++ [m]) rest
  end.

(** The second loop: what stands within the window is no longer queued. *)
Definition unqueue (m : mosquitto_client_msg) : mosquitto_client_msg :=
  if is_queued m then m <| m_state := publish_state (m_qos m) (m_state m) |> else m.

Fixpoint unqueue_loop (max_inflight count : Z) (l : list mosquitto_client_msg)
    : list mosquitto_client_msg :=
  match l with
  | [] => []
  | m :: l' =>
    if (max_inflight =? 0) || (count <? max_inflight)
    then unqueue m :: unqueue_loop max_inflight (count + 1) l'
    else l
  end.

Definition mqtt3_db_message_reconnect_reset (c : addr) : M Z :=
  upd_ctx c (fun x => x <| c_msg_count := 0 |> <| c_msg_count12 := 0 |>);;
  x ← get_ctx c;
  reset_loop c [] (c_msgs x);;
  d ← get;
  upd_ctx c (fun x => x <| c_msgs ::= unqueue_loop (d_max_inflight d) 0 |>);;
  mret MOSQ_ERR_SUCCESS.

(** ** Timeouts *)

Definition timeout_state (s : mosquitto_msg_state) : mosquitto_msg_state :=
  match s with
  | mosq_ms_wait_for_puback => mosq_ms_publish_qos1
  | mosq_ms_wait_for_pubrec => mosq_ms_publish_qos2
  | mosq_ms_wait_for_pubrel => mosq_ms_send_pubrec
  | mosq_ms_wait_for_pubcomp => mosq_ms_resend_pubrel
  | _ => mosq_ms_invalid
  end.

Definition timeout_msg (threshold now : Z) (m : mosquitto_client_msg) : mosquitto_client_msg :=
  if (m_timestamp m <? threshold) && negb (is_queued m) then
    let new_state := timeout_state (m_state m) in
    if bool_decide (new_state = mosq_ms_invalid) then m
    else m <| m_timestamp := now |> <| m_state := new_state |> <| m_dup := true |>
  else m.

Fixpoint timeout_contexts (threshold now : Z) (l : list addr) : M unit :=
  match l with
  | [] => mret tt
  | c :: l =>
    upd_ctx c (fun x => x <| c_msgs ::= map (timeout_msg threshold now) |>);;
    timeout_contexts threshold now l
  end.

Definition mqtt3_db_message_timeout_check (timeout : Z) : M Z :=
  now ← mosquitto_time;
  d ← get;
  timeout_contexts (now - timeout) now (d_contexts_by_sock d);;
  mret MOSQ_ERR_SUCCESS.

(** * Sending what is due *)

(** What the [switch] of [mqtt3_db_message_write] does for a message: send something
    and change the message, send it and remove it, or pass over it. *)
Inductive write_action :=
| wa_publish (next : mosquitto_msg_state)
| wa_publish_remove
| wa_command (send : addr -> Z -> M Z) (next : mosquitto_msg_state)
| wa_skip.

Definition write_action_of (s : mosquitto_msg_state) : write_action :=
  match s with
  | mosq_ms_publish_qos0 => wa_publish_remove
  | mosq_ms_publish_qos1 => wa_publish mosq_ms_wait_for_puback
  | mosq_ms_publish_qos2 => wa_publish mosq_ms_wait_for_pubrec
  | mosq_ms_send_pubrec => wa_command _mosquitto_send_pubrec mosq_ms_wait_for_pubrel
  | mosq_ms_resend_pubrel => wa_command _mosquitto_send_pubrel mosq_ms_wait_for_pubcomp
  | mosq_ms_resend_pubcomp => wa_command _mosquitto_send_pubcomp mosq_ms_wait_for_pubrel
  | _ => wa_skip
  end.

(** The loop does not advance when it moves a queued incoming message into the
    window, or meets one of another QoS that fits; [fuel] counts iterations, and
    a loop that would go on for ever faults. *)
Fixpoint write_msgs (fuel : nat) (c : addr) (before tail : list mosquitto_client_msg) (msg_count : Z)
    : M Z :=
  match fuel with
  | O => fault
  | S fuel =>
    match tail with
    | [] => mret MOSQ_ERR_SUCCESS
    | m :: rest =>
      let msg_count := if is_out m then msg_count else msg_count + 1 in
      if negb (is_queued m) then
        st ← get_store (m_store m);
        let publish := _mosquitto_send_publish c (m_mid m) (s_topic st) (s_payload st) (m_qos m)
                         (m_retain m) (m_dup m) in
        match write_action_of (m_state m) with
        | wa_publish_remove =>
          rc ← publish;
          if negb (rc =? 0) then mret rc else
          _message_remove c before rest m;;
          write_msgs fuel c before rest msg_count
        | wa_publish next =>
          rc ← publish;
          if negb (rc =? 0) then mret rc else
          now ← mosquitto_time;
          let m := m <| m_timestamp := now |> <| m_dup := true |> <| m_state := next |> in
          set_msgs c (before ++ m :: rest);;
          write_msgs fuel c (before ++ [m]) rest msg_count
        | wa_command send next =>
          rc ← send c (m_mid m);
          if negb (rc =? 0) then mret rc else
          let m := m <| m_state := next |> in
          set_msgs c (before ++ m :: rest);;
          write_msgs fuel c (before ++ [m]) rest msg_count
        | wa_skip => write_msgs fuel c (before ++ [m]) rest msg_count
        end
      else
        max_inflight ← gets d_max_inflight;
        if negb (is_out m) && ((max_inflight =? 0) || (msg_count <? max_inflight)) then
          let m := if m_qos m =? 2 then m <| m_state := mosq_ms_send_pubrec |> else m in
          set_msgs c (before ++ m :: rest);;
          write_msgs fuel c before (m :: rest) msg_count
        else write_msgs fuel c (before ++ [m]) rest msg_count
    end
  end.

Definition mqtt3_db_message_write (c : addr) : M Z :=
  x ← get_ctx c;
  if (c_sock x =? INVALID_SOCKET)
     || (bool_decide (c_state x = mosq_cs_connected) && bool_decide (c_id x = None))
  then mret MOSQ_ERR_INVAL
  else if negb (bool_decide (c_state x = mosq_cs_connected)) then mret MOSQ_ERR_SUCCESS
  else
    max_inflight ← gets d_max_inflight;
    write_msgs (2 * length (c_msgs x) + Z.to_nat max_inflight + 1) c [] (c_msgs x) 0.

(** * Limits, opening and closing *)

Definition mqtt3_db_limits_set (inflight queued : Z) : M unit :=
  modify (fun d => d <| d_max_inflight := inflight |> <| d_max_queued := queued |>).

(** The parts of [mqtt3_db_open] before a saved database is restored: an empty
    tree with the two roots "" and "$SYS". *)
Definition mqtt3_db_open_init : M unit :=
  modify (fun d => d <| d_last_db_id := 0 |> <| d_contexts_by_id := [] |>
                     <| d_contexts_by_sock := [] |> <| d_bridges := [] |> <| d_unpwd := [] |>);;
  a ← malloc;
  b ← malloc;
  modify (fun d => d <| d_subs := HNode a [] [] None HNil (HNode b (lit "$SYS") [] None HNil HNil) |>).

Fixpoint subhier_clean (h : _mosquitto_subhier) : M unit :=
  match h with
  | HNil => mret tt
  | HNode _ _ _ retained children next =>
    (match retained with Some s => mosquitto__db_msg_store_deref s;; mret tt | None => mret tt end);;
    subhier_clean children;;
    subhier_clean next
  end.

Definition mqtt3_db_close : M Z :=
  d ← get;
  subhier_clean (d_subs d);;
  modify (fun d => d <| d_subs := HNil |>);;
  mosquitto__db_msg_store_clean;;
  mret MOSQ_ERR_SUCCESS.

(** * The queue of a client *)

Definition qos12 (m : mosquitto_client_msg) : bool := 0 <? m_qos m.
Definition count12 (l : list mosquitto_client_msg) : Z := Z.of_nat (length (filter qos12 l)).

(** The pointers and counters of a context describe its list. *)
Record queue_wf (x : mosquitto) : Prop := QueueWf {
  qw_last : c_last_msg x = m_addr <$> last (c_msgs x);
  qw_nodup : NoDup (m_addr <$> c_msgs x);
  qw_count : c_msg_count x = Z.of_nat (length (c_msgs x));
  qw_count12 : c_msg_count12 x = count12 (c_msgs x) }.

Lemma count12_app l1 l2 : count12 (l1 ++ l2) = count12 l1 + count12 l2.
Proof. unfold count12. rewrite filter_app, length_app. lia. Qed.

Lemma count12_cons m l : count12 (m :: l) = zbool (qos12 m) + count12 l.
Proof.
  unfold count12. rewrite filter_cons. case_decide as H; cbn [length].
  - apply Is_true_true in H. rewrite H. cbn. lia.
  - apply Is_true_false in H. rewrite H. cbn. lia.
Qed.

Lemma count12_bound l : 0 <= count12 l <= Z.of_nat (length l).
Proof. unfold count12. pose proof (length_filter qos12 l). lia. Qed.

Lemma append_after_last a m l y :
  NoDup (m_addr <$> (l ++ [y])) -> m_addr y = a -> append_after a m (l ++ [y]) = Some (l ++ [y; m]).
Proof.
  intros Hnd <-. induction l as [|z l IH]; cbn [append_after app].
  - by rewrite decide_True.
  - cbn in Hnd. apply NoDup_cons in Hnd as [Hz Hnd]. rewrite decide_False.
    + by rewrite IH.
    + intros E. apply Hz. rewrite E, fmap_app. set_solver.
Qed.

(** Appending through [last_msg] puts the message at the end. *)
Lemma append_msg_wf m x :
  queue_wf x -> (m_addr m ∉ m_addr <$> c_msgs x) ->
  exists x', append_msg m x = Some x' /\ queue_wf x' /\ c_msgs x' = c_msgs x ++ [m]
    /\ x' = x <| c_msgs := c_msgs x ++ [m] |> <| c_last_msg := Some (m_addr m) |>
              <| c_msg_count ::= Z.succ |> <| c_msg_count12 ::= (fun n => if qos12 m then n + 1 else n) |>.
Proof.
  intros [Q1 Q2 Q3 Q4] Hm. unfold append_msg.
  assert ((match c_last_msg x with Some a => append_after a m (c_msgs x) | None => Some [m] end)
          = Some (c_msgs x ++ [m])) as ->.
  { rewrite Q1. destruct (c_msgs x) as [|y l _] using rev_ind; [done|].
    rewrite last_snoc. cbn [fmap option_fmap option_map].
    rewrite (append_after_last _ _ _ y) by done. by rewrite <- app_assoc. }
  eexists. split; [reflexivity|]. proj_simpl. split; [|by split].
  constructor; proj_simpl.
  - by rewrite last_snoc.
  - rewrite fmap_app. apply NoDup_app. split; [done|]. split; [|apply NoDup_singleton].
    intros a Ha ->%list_elem_of_singleton. done.
  - rewrite length_app. cbn. lia.
  - rewrite count12_app, count12_cons, Q4. fold (qos12 m). change (count12 []) with 0. destruct (qos12 m); cbn; lia.
Qed.

(** What [insert_append] leaves behind. *)
Definition inserted (c : addr) (s : addr) (id : str) (x : mosquitto) (st : mosquitto_msg_store)
    (m : mosquitto_client_msg) (d d' : mosquitto_db) : Prop :=
  exists x', d_contexts d' = <[c := x']> (d_contexts d) /\ queue_wf x'
  /\ c_msgs x' = c_msgs x ++ [m]
  /\ x' = x <| c_msgs := c_msgs x' |> <| c_last_msg := c_last_msg x' |> <| c_msg_count := c_msg_count x' |>
            <| c_msg_count12 := c_msg_count12 x' |> <| c_bridge := c_bridge x' |>
  /\ (c_bridge x = None -> c_bridge x' = None)
  /\ (exists ids, d_stores d' = <[s := st <| s_ref_count ::= Z.succ |> <| s_dest_ids := ids |>]> (d_stores d)
       /\ (ids = s_dest_ids st \/ ids = s_dest_ids st ++ [id]))
  /\ d' = d <| d_contexts := d_contexts d' |> <| d_stores := d_stores d' |> <| d_next := S (d_next d) |>
            <| d_persistence_changes := d_persistence_changes d' |>.

Lemma lazy_threshold_fields x :
  lazy_threshold x = x <| c_bridge := c_bridge (lazy_threshold x) |>
  /\ (c_bridge x = None -> c_bridge (lazy_threshold x) = None).
Proof.
  unfold lazy_threshold. destruct (c_bridge x) as [b|] eqn:E; [|split; [|done]; destruct x; cbn in *; by subst].
  destruct (_ && _ && _); (split; [|done]); destruct x; cbn in *; by subst.
Qed.

Lemma queue_wf_bridge x b : queue_wf x -> queue_wf (x <| c_bridge := b |>).
Proof. by intros [Q1 Q2 Q3 Q4]. Qed.

Lemma insert_append_run c x s st mid dir qos retain id state d :
  d_contexts d !! c = Some x -> d_stores d !! s = Some st -> queue_wf x ->
  (d_next d ∉ m_addr <$> c_msgs x) -> state <> mosq_ms_invalid ->
  wp (insert_append c mid dir qos retain s id state)
    (fun _ => inserted c s id x st (ClientMsg (d_next d) s (d_time d) mid qos retain dir state false) d) d.
Proof.
  intros Hx Hs Hq Hf Hst. unfold insert_append. wp_step.
  rewrite bool_decide_eq_false_2 by done. split; [done|].
  set (m := ClientMsg _ _ _ _ _ _ _ _ _).
  destruct (append_msg_wf m x Hq Hf) as (x1 & E1 & Q1 & M1 & F1).
  assert (forall n, 
    wp (a ← malloc;
        upd_store s (fun st => st <| s_ref_count ::= Z.succ |>);;
        now ← mosquitto_time;
        x ← get_ctx c;
        x ← unwrap (append_msg (ClientMsg a s now mid qos retain dir state false) x);
        upd_ctx c (fun _ => x);;
        d ← get;
        whenM (negb (cf_allow_duplicate_messages (d_config d)) && bool_decide (dir = mosq_md_out) && negb retain)
          (upd_store s (fun st => st <| s_dest_ids ::= (fun ids => ids ++ [id]) |>));;
        upd_ctx c lazy_threshold) (fun _ => inserted c s id x st m d)
      (d <| d_persistence_changes ::= n |>)) as Hmain.
  { intros n. wp_step. proj_simpl. wp_ptr. wp_ptr. fold m. rewrite E1.
    exists x1. split; [done|]. wp_step. proj_simpl. wp_ptr.
    destruct (lazy_threshold_fields x1) as [T1 T2]. remember (lazy_threshold x1) as x2 eqn:EX2.
    assert (c_msgs x2 = c_msgs x ++ [m]) as M2 by (rewrite T1; exact M1).
    assert (queue_wf x2) as Q2 by (rewrite T1; by apply queue_wf_bridge).
    assert (x2 = x <| c_msgs := c_msgs x2 |> <| c_last_msg := c_last_msg x2 |> <| c_msg_count := c_msg_count x2 |>
            <| c_msg_count12 := c_msg_count12 x2 |> <| c_bridge := c_bridge x2 |>) as X2.
    { rewrite T1, F1. destruct x. ctx_compute. reflexivity. }
    assert (c_bridge x = None -> c_bridge x2 = None) as B2.
    { intros HB. apply T2. rewrite F1. by destruct x. }
    destruct (negb _ && _ && _); cbn [whenM]; wp_step; proj_simpl.
    - wp_ptr. wp_ptr. rewrite <- EX2. exists x2. proj_simpl. split; [by rewrite !insert_insert_eq|]. split; [done|]. split; [done|].
      split; [done|]. split; [done|]. split.
      + exists (s_dest_ids st ++ [id]). split; [|by right]. by rewrite insert_insert_eq.
      + destruct d; db_compute; reflexivity.
    - wp_ptr. rewrite <- EX2. exists x2. proj_simpl. split; [by rewrite !insert_insert_eq|]. split; [done|]. split; [done|].
      split; [done|]. split; [done|]. split.
      + exists (s_dest_ids st). split; [|by left]. by destruct st.
      + destruct d; db_compute; reflexivity. }
  destruct (bool_decide (state = mosq_ms_queued)); cbn [whenM].
  - rewrite wp_modify. apply (Hmain Z.succ).
  - rewrite wp_ret. specialize (Hmain (fun n => n)).
    by assert (d <| d_persistence_changes ::= (fun n => n) |> = d) as E by (by destruct d); rewrite E in Hmain.
Qed.

(** ** Admission to a queue *)

(** The message is of interest to the client: it did not get it already (outgoing,
    not retained, duplicates off); if it is away, QoS 0 is only kept when so
    configured or for a lazy bridge. *)
Definition wanted (d : mosquitto_db) (x : mosquitto) (st : mosquitto_msg_store) (id : str)
    (dir : mosquitto_msg_direction) (qos : Z) (retain : bool) : Prop :=
  ~ (cf_allow_duplicate_messages (d_config d) = false /\ dir = mosq_md_out /\ retain = false
     /\ id ∈ s_dest_ids st)
  /\ (c_sock x = INVALID_SOCKET -> qos = 0 -> cf_queue_qos0_messages (d_config d) = true
      \/ exists b, c_bridge x = Some b /\ b_start_type b = bst_lazy).

(** There is place in the inflight window: QoS 0 needs none. *)
Definition window_open (d : mosquitto_db) (x : mosquitto) (qos : Z) : Prop :=
  qos = 0 \/ d_max_inflight d = 0 \/ count12 (c_msgs x) < d_max_inflight d.

(** There is place in the queue: behind the window, or for all messages of a
    client that is away. *)
Definition queue_open (d : mosquitto_db) (x : mosquitto) : Prop :=
  d_max_queued d = 0 \/
  count12 (c_msgs x) < d_max_queued d + (if c_sock x =? INVALID_SOCKET then 0 else d_max_inflight d).

Definition admission (d : mosquitto_db) (x : mosquitto) (st : mosquitto_msg_store) (id : str)
    (dir : mosquitto_msg_direction) (qos : Z) (retain : bool) (v : insert_verdict) : Prop :=
  match v with
  | ins_append state rc =>
    wanted d x st id dir qos retain /\
    ((c_sock x <> INVALID_SOCKET /\ window_open d x qos /\ rc = 0 /\
      (dir = mosq_md_out /\ state = publish_state qos mosq_ms_invalid
       \/ dir = mosq_md_in /\ qos = 2 /\ state = mosq_ms_wait_for_pubrel))
     \/ (c_sock x <> INVALID_SOCKET /\ ~ window_open d x qos /\ queue_open d x /\ state = mosq_ms_queued /\ rc = 2)
     \/ (c_sock x = INVALID_SOCKET /\ queue_open d x /\ state = mosq_ms_queued /\ rc = 0))
  | ins_dropped =>
    wanted d x st id dir qos retain /\ ~ queue_open d x /\ (c_sock x <> INVALID_SOCKET -> ~ window_open d x qos)
  | ins_return rc =>
    (~ wanted d x st id dir qos retain /\ (rc = 0 \/ rc = 2))
    \/ (wanted d x st id dir qos retain /\ c_sock x <> INVALID_SOCKET /\ window_open d x qos
        /\ dir = mosq_md_in /\ qos <> 2 /\ rc = 1)
  end.

Lemma insert_decision_admission d x st id dir qos retain :
  queue_wf x -> 0 <= d_max_queued d ->
  admission d x st id dir qos retain (insert_decision d x dir qos retain st id).
Proof.
  intros [_ _ _ Hc] Hmq. unfold insert_decision, already_sent, offline_refused. rewrite Hc.
  pose proof (count12_bound (c_msgs x)) as Hb. set (n := count12 (c_msgs x)) in *.
  destruct (negb (cf_allow_duplicate_messages (d_config d)) && bool_decide (dir = mosq_md_out)
            && negb retain && bool_decide (id ∈ s_dest_ids st)) eqn:Edup.
  { left. rewrite !andb_true_iff, !negb_true_iff, !bool_decide_eq_true in Edup. split; [|by left].
    unfold wanted. tauto. }
  destruct ((c_sock x =? INVALID_SOCKET) && (qos =? 0) && negb (cf_queue_qos0_messages (d_config d)) &&
    match c_bridge x with Some b => negb (bool_decide (b_start_type b = bst_lazy)) | None => true end) eqn:Eoff.
  { left. rewrite !andb_true_iff, negb_true_iff in Eoff. destruct Eoff as [[[E1 E2] E3] E4]. split; [|by right].
    intros [_ H]. destruct H as [H|(b & Hb1 & Hb2)]; [lia|lia|congruence|].
    rewrite Hb1, bool_decide_eq_true_2 in E4; done. }
  assert (wanted d x st id dir qos retain) as Hw.
  { split.
    - intros (H1 & H2 & H3 & H4). rewrite H1, H3, !bool_decide_eq_true_2 in Edup; done.
    - intros H1 H2. rewrite (proj2 (Z.eqb_eq _ _) H1), (proj2 (Z.eqb_eq _ _) H2) in Eoff.
      destruct (cf_queue_qos0_messages (d_config d)); [by left|right]. cbn in Eoff.
      destruct (c_bridge x) as [b|]; [|done]. exists b. split; [done|].
      apply negb_false_iff, bool_decide_eq_true_1 in Eoff. done. }
  unfold queue_open, window_open. fold n.
  destruct (Z.eqb_spec (c_sock x) INVALID_SOCKET) as [Es|Es]; cbn [negb].
  - destruct ((0 <? d_max_queued d) && (d_max_queued d <=? n)) eqn:Eq.
    + split; [done|]. unfold queue_open, window_open. fold n. rewrite (proj2 (Z.eqb_eq _ _) Es). split; [lia|]. done.
    + split; [done|]. right; right. unfold queue_open. fold n. rewrite (proj2 (Z.eqb_eq _ _) Es).
      split; [done|]. split; [lia|]. done.
  - destruct ((qos =? 0) || (d_max_inflight d =? 0) || (n <? d_max_inflight d)) eqn:Ei.
    + assert (window_open d x qos) as Hwo by (unfold window_open; fold n; lia).
      case_bool_decide as Hd.
      * split; [done|]. left. split; [done|]. split; [done|]. split; [done|]. by left.
      * destruct dir; [|done]. destruct (Z.eqb_spec qos 2).
        -- split; [done|]. left. split; [done|]. split; [done|]. split; [done|]. by right.
        -- right. split; [done|]. done.
    + assert (~ window_open d x qos) as Hwo by (unfold window_open; fold n; lia).
      destruct ((d_max_queued d =? 0) || (n - d_max_inflight d <? d_max_queued d)) eqn:Eq.
      * split; [done|]. right; left. unfold queue_open. fold n. rewrite (proj2 (Z.eqb_neq _ _) Es).
        split; [done|]. split; [done|]. split; [lia|]. done.
      * split; [done|]. unfold queue_open. fold n. rewrite (proj2 (Z.eqb_neq _ _) Es).
        split; [lia|]. done.
Qed.


(** ** Releasing stored messages *)

(** The state after [mosquitto__db_msg_store_deref] of [s], which was [st]. *)
Definition deref_state (s : addr) (st : mosquitto_msg_store) (d : mosquitto_db) : mosquitto_db :=
  if s_ref_count st =? 1 then
    d <| d_stores ::= delete s |> <| d_msg_store ::= filter (fun a => a <> s) |>
      <| d_msg_store_count ::= Z.pred |>
  else d <| d_stores ::= <[s := st <| s_ref_count ::= Z.pred |>]> |>.

Lemma wp_deref s st Q d :
  d_stores d !! s = Some st ->
  Q (if s_ref_count st =? 1 then None else Some s) (deref_state s st d) ->
  wp (mosquitto__db_msg_store_deref s) Q d.
Proof.
  intros Hs HQ. unfold mosquitto__db_msg_store_deref, deref_state in *. wp_step. exists st. split; [done|].
  wp_step. exists (st <| s_ref_count ::= Z.pred |>). proj_simpl. split; [by rewrite lookup_insert_eq|].
  assert ((Z.pred (s_ref_count st) =? 0) = (s_ref_count st =? 1)) as ->.
  { destruct (Z.eqb_spec (Z.pred (s_ref_count st)) 0), (Z.eqb_spec (s_ref_count st) 1); lia || done. }
  destruct (s_ref_count st =? 1); wp_step; [|done].
  unfold mosquitto__db_msg_store_remove. wp_step.
  exists (st <| s_ref_count ::= Z.pred |>). proj_simpl. split; [by rewrite lookup_insert_eq|]. wp_step.
  match goal with |- Q _ ?a => match type of HQ with Q _ ?b => assert (a = b) as ->; [|done] end end.
  destruct d; db_compute. f_equal. by rewrite delete_insert_eq.
Qed.

(** [_message_remove] of [m], whose store was [st]. *)
Lemma message_remove_run c x before rest m st d Q :
  d_contexts d !! c = Some x -> d_stores d !! m_store m = Some st ->
  Q tt ((deref_state (m_store m) st d) <| d_contexts ::= <[c := unlink_msg before rest m x]> |>) ->
  wp (_message_remove c before rest m) Q d.
Proof.
  intros Hx Hs HQ. unfold _message_remove. wp_step. eapply wp_deref; [done|]. wp_step.
  exists x. split; [|done]. unfold deref_state. by destruct (_ =? 1).
Qed.

Lemma count12_mid before rest m :
  count12 (before ++ m :: rest) = zbool (qos12 m) + count12 (before ++ rest).
Proof. rewrite !count12_app, count12_cons. lia. Qed.

Lemma unlink_msg_wf before rest m x :
  queue_wf x -> c_msgs x = before ++ m :: rest -> queue_wf (unlink_msg before rest m x).
Proof.
  intros [Q1 Q2 Q3 Q4] E. rewrite E in *. unfold unlink_msg. constructor; proj_simpl.
  - rewrite Q1. destruct rest as [|y rest]; [by rewrite app_nil_r|].
    rewrite !last_app. cbn. by destruct rest.
  - rewrite fmap_app, fmap_cons in Q2. rewrite fmap_app. apply NoDup_app in Q2 as (N1 & N2 & N3).
    apply NoDup_cons in N3 as [_ N3]. apply NoDup_app. split; [done|]. split; [|done].
    intros a Ha1 Ha2. apply (N2 a Ha1). by right.
  - rewrite Q3, !length_app. cbn. lia.
  - rewrite Q4, count12_mid. fold (qos12 m). destruct (qos12 m); cbn; lia.
Qed.

(** ** Deleting *)

(** The messages within the window that were queued, promoted; [i] messages stand
    before. *)
Fixpoint promote_window (max_inflight now i : Z) (l : list mosquitto_client_msg)
    : list mosquitto_client_msg :=
  match l with
  | [] => []
  | m :: l => (if is_queued m && (i + 1 <=? max_inflight) then promote now m else m)
              :: promote_window max_inflight now (i + 1) l
  end.

Lemma promote_window_beyond max now i l : max <= i -> promote_window max now i l = l.
Proof.
  revert i. induction l as [|m l IH]; intros i Hi; [done|]. cbn [promote_window].
  rewrite (proj2 (Z.leb_gt _ _)), andb_false_r by lia. by rewrite IH by lia.
Qed.

Lemma promote_fields now m :
  m_addr (promote now m) = m_addr m /\ m_store (promote now m) = m_store m
  /\ m_mid (promote now m) = m_mid m /\ m_qos (promote now m) = m_qos m
  /\ m_direction (promote now m) = m_direction m.
Proof. unfold promote. destruct (is_out _); [by repeat split|]. destruct (_ =? 2); by repeat split. Qed.

Lemma promote_if_fields (b : bool) now m :
  let m' := if b then promote now m else m in
  m_addr m' = m_addr m /\ m_store m' = m_store m /\ m_mid m' = m_mid m /\ m_qos m' = m_qos m
  /\ m_direction m' = m_direction m.
Proof. destruct b; [apply promote_fields|by repeat split]. Qed.

(** Changing a message in place keeps the queue well-formed. *)
Lemma set_msg_wf before rest m m' x :
  queue_wf x -> c_msgs x = before ++ m :: rest -> m_addr m' = m_addr m -> m_qos m' = m_qos m ->
  queue_wf (x <| c_msgs := before ++ m' :: rest |>).
Proof.
  intros [Q1 Q2 Q3 Q4] E Ea Eq. rewrite E in *. constructor; proj_simpl.
  - rewrite Q1, !last_app. cbn. destruct rest; cbn; by rewrite ?Ea.
  - rewrite fmap_app, fmap_cons, Ea. by rewrite fmap_app, fmap_cons in Q2.
  - rewrite Q3, !length_app. done.
  - rewrite Q4, !count12_mid. unfold qos12. by rewrite Eq.
Qed.

(** What [c]'s queue operations change: the messages, and what they refer to. *)
Definition same_but_queue (x x' : mosquitto) : Prop :=
  x' = x <| c_msgs := c_msgs x' |> <| c_last_msg := c_last_msg x' |> <| c_msg_count := c_msg_count x' |>
         <| c_msg_count12 := c_msg_count12 x' |>.

Lemma same_but_queue_refl x : same_but_queue x x.
Proof. destruct x; reflexivity. Qed.

Lemma same_but_queue_trans x y z : same_but_queue x y -> same_but_queue y z -> same_but_queue x z.
Proof. unfold same_but_queue. intros -> ->. destruct x; reflexivity. Qed.

Lemma same_but_queue_msgs x l : same_but_queue x (x <| c_msgs := l |>).
Proof. destruct x; reflexivity. Qed.

Lemma same_but_queue_unlink x before rest m : same_but_queue x (unlink_msg before rest m x).
Proof. unfold same_but_queue, unlink_msg. destruct x. ctx_compute. reflexivity. Qed.

(** No message of the rest matches: the loop only promotes. *)
Lemma delete_loop_none c mid dir x d tail before i deleted :
  d_contexts d !! c = Some x -> queue_wf x -> c_msgs x = before ++ tail ->
  Forall (fun m => msg_is mid dir m = false) tail ->
  wp (delete_loop c mid dir before tail i deleted) (fun rc d' =>
    rc = MOSQ_ERR_SUCCESS /\ exists x', d' = d <| d_contexts ::= <[c := x']> |> /\ queue_wf x'
    /\ same_but_queue x x'
    /\ c_msgs x' = before ++ promote_window (d_max_inflight d) (d_time d) i tail) d.
Proof.
  revert x d before i deleted. induction tail as [|m rest IH]; intros x d before i deleted Hx Hq Hm Hall;
    cbn [delete_loop]; wp_step.
  - split; [done|]. exists x. split; [by rewrite insert_ctx_id|].
    split; [done|]. split; [apply same_but_queue_refl|]. by rewrite Hm.
  - inversion Hall as [|? ? Hm0 Hall']; subst. unfold set_msgs. cbn [promote_window].
    set (m' := if is_queued m && (i + 1 <=? d_max_inflight d) then promote (d_time d) m else m).
    destruct (promote_if_fields (is_queued m && (i + 1 <=? d_max_inflight d)) (d_time d) m)
      as (F1 & F2 & F3 & F4 & F5). fold m' in F1, F2, F3, F4, F5.
    assert (msg_is mid dir m' = false) as -> by (rewrite <- Hm0; unfold msg_is; by rewrite F3, F5).
    wp_step. wp_ptr.
    set (x1 := x <| c_msgs := before ++ m' :: rest |>).
    assert (queue_wf x1) as Hq1 by (by eapply set_msg_wf).
    set (d1 := d <| d_contexts ::= _ |>).
    assert (d_contexts d1 !! c = Some x1) as Hx1 by apply lookup_insert_eq.
    destruct ((d_max_inflight d <? i + 1) && deleted) eqn:Estop; wp_step.
    + split; [done|]. exists x1. split; [done|]. split; [done|]. split; [apply same_but_queue_msgs|].
      rewrite promote_window_beyond by lia. done.
    + eapply wp_mono; [apply (IH x1 d1); [done|done|by rewrite <- app_assoc|done]|cbv beta].
      intros rc d' (-> & x' & -> & Q' & S' & M'). split; [done|]. exists x'. split.
      { unfold d1. by rewrite insert_ctx_twice. }
      split; [done|]. split; [by eapply same_but_queue_trans; [apply same_but_queue_msgs|]|].
      rewrite M', <- app_assoc. done.
Qed.

(** One message matches: it goes, and its reference with it. *)
Lemma delete_loop_one c mid dir x d st m0 pre post before i :
  d_contexts d !! c = Some x -> queue_wf x -> c_msgs x = before ++ pre ++ m0 :: post ->
  Forall (fun m => msg_is mid dir m = false) (pre ++ post) -> msg_is mid dir m0 = true ->
  d_stores d !! m_store m0 = Some st ->
  wp (delete_loop c mid dir before (pre ++ m0 :: post) i false) (fun rc d' =>
    rc = MOSQ_ERR_SUCCESS /\ exists x', d' = (deref_state (m_store m0) st d) <| d_contexts ::= <[c := x']> |>
    /\ queue_wf x' /\ same_but_queue x x'
    /\ c_msgs x' = before ++ promote_window (d_max_inflight d) (d_time d) i (pre ++ post)) d.
Proof.
  revert x d before i. induction pre as [|m rest IH]; intros x d before i Hx Hq Hm Hall Hm0 Hst;
    cbn [delete_loop app]; wp_step; unfold set_msgs.
  - set (m' := if is_queued m0 && (i + 1 <=? d_max_inflight d) then promote (d_time d) m0 else m0).
    destruct (promote_if_fields (is_queued m0 && (i + 1 <=? d_max_inflight d)) (d_time d) m0)
      as (F1 & F2 & F3 & F4 & F5). fold m' in F1, F2, F3, F4, F5.
    assert (msg_is mid dir m' = true) as -> by (rewrite <- Hm0; unfold msg_is; by rewrite F3, F5).
    wp_step. wp_ptr. set (x1 := x <| c_msgs := before ++ m' :: post |>).
    assert (queue_wf x1) as Hq1 by (by eapply set_msg_wf).
    set (d1 := d <| d_contexts ::= _ |>).
    assert (d_contexts d1 !! c = Some x1) as Hx1 by apply lookup_insert_eq.
    apply (message_remove_run c x1 before post m' st); [done|by rewrite F2|].
    set (x2 := unlink_msg before post m' x1).
    assert (queue_wf x2) as Hq2 by (by apply unlink_msg_wf).
    assert (same_but_queue x x2) as Hs2.
    { eapply same_but_queue_trans; [apply same_but_queue_msgs|apply same_but_queue_unlink]. }
    rewrite F2. assert (forall y, (deref_state (m_store m0) st d1) <| d_contexts ::= <[c := y]> |>
      = (deref_state (m_store m0) st d) <| d_contexts ::= <[c := y]> |>) as Ed.
    { intros y. unfold d1, deref_state. destruct (s_ref_count st =? 1); destruct d; db_compute;
        by rewrite insert_insert_eq. }
    rewrite Ed. clearbody x1. replace (i + 1 - 1) with i by lia.
    destruct (d_max_inflight d <? i) eqn:Ei; wp_step.
    + split; [done|]. exists x2. split; [done|]. split; [done|]. split; [done|].
      by rewrite promote_window_beyond by lia.
    + set (d2 := (deref_state (m_store m0) st d) <| d_contexts ::= <[c := x2]> |>).
      assert (d_contexts d2 !! c = Some x2) as Hx2 by apply lookup_insert_eq.
      assert (d_max_inflight d2 = d_max_inflight d /\ d_time d2 = d_time d) as [Em Et]
        by (unfold d2, deref_state; by destruct (_ =? 1)).
      eapply wp_mono; [apply (delete_loop_none c mid dir x2 d2); try done|cbv beta].
      rewrite Em, Et. intros rc d' (-> & x' & -> & Q' & S' & M'). split; [done|]. exists x'. split.
      { unfold d2, deref_state. destruct (s_ref_count st =? 1); destruct d; db_compute; by rewrite insert_insert_eq. }
      split; [done|]. split; [by eapply same_but_queue_trans|]. done.
  - cbn [app] in Hall. inversion Hall as [|? ? Hm1 Hall']; subst. cbn [promote_window].
    set (m' := if is_queued m && (i + 1 <=? d_max_inflight d) then promote (d_time d) m else m).
    destruct (promote_if_fields (is_queued m && (i + 1 <=? d_max_inflight d)) (d_time d) m)
      as (F1 & F2 & F3 & F4 & F5). fold m' in F1, F2, F3, F4, F5.
    assert (msg_is mid dir m' = false) as -> by (rewrite <- Hm1; unfold msg_is; by rewrite F3, F5).
    wp_step. wp_ptr. rewrite andb_false_r.
    set (x1 := x <| c_msgs := before ++ m' :: rest ++ m0 :: post |>).
    assert (queue_wf x1) as Hq1 by (by eapply set_msg_wf).
    set (d1 := d <| d_contexts ::= _ |>).
    assert (d_contexts d1 !! c = Some x1) as Hx1 by apply lookup_insert_eq.
    eapply wp_mono; [apply (IH x1 d1); [done|done|by rewrite <- app_assoc|done|done|done]|cbv beta].
    intros rc d' (-> & x' & -> & Q' & S' & M'). split; [done|]. exists x'. split.
    { unfold d1, deref_state. destruct (s_ref_count st =? 1); destruct d; db_compute; by rewrite insert_insert_eq. }
    split; [done|]. split; [by eapply same_but_queue_trans; [apply same_but_queue_msgs|]|].
    rewrite M', <- app_assoc. done.
Qed.

Definition msg_isnt (mid : Z) (dir : mosquitto_msg_direction) (m : mosquitto_client_msg) : bool :=
  negb (msg_is mid dir m).

Lemma filter_isnt_none mid dir l :
  Forall (fun m => msg_is mid dir m = false) l -> filter (msg_isnt mid dir) l = l.
Proof.
  induction 1 as [|m l H _ IH]; [done|]. rewrite filter_cons_True, IH; [done|].
  unfold msg_isnt. by rewrite H.
Qed.

(** A list with at most one match, split at it. *)
Lemma one_match mid dir l :
  (length (filter (msg_is mid dir) l) <= 1)%nat ->
  (Forall (fun m => msg_is mid dir m = false) l)
  \/ exists pre m post, l = pre ++ m :: post /\ msg_is mid dir m = true
       /\ Forall (fun m => msg_is mid dir m = false) (pre ++ post)
       /\ filter (msg_isnt mid dir) l = pre ++ post.
Proof.
  induction l as [|m l IH]; [by left|]. intros H. destruct (msg_is mid dir m) eqn:E.
  - rewrite filter_cons_True in H by by rewrite E. right. exists [], m, l. cbn [length] in H.
    assert (Forall (fun m => msg_is mid dir m = false) l) as Hl.
    { clear IH E. induction l as [|y l IH]; [done|]. rewrite filter_cons in H. case_decide as Hd; [cbn in H; lia|].
      constructor; [by apply Is_true_false|]. by apply IH. }
    split; [done|]. split; [done|]. split; [done|].
    rewrite filter_cons_False; [by apply filter_isnt_none|]. unfold msg_isnt. rewrite E. by intros [].
  - rewrite filter_cons_False in H by (rewrite E; by intros []).
    destruct (IH H) as [Hl|(pre & y & post & -> & Hy & Hl & Hf)]; [left; by constructor|].
    right. exists (m :: pre), y, post. split; [done|]. split; [done|]. split; [by constructor|].
    cbn [app]. rewrite filter_cons_True, Hf; [done|]. unfold msg_isnt. by rewrite E.
Qed.

(** C32: [mqtt3_db_message_delete] removes the acknowledged message (if there is one)
    from a client's queue and nothing else: the other messages keep their order,
    those that now stand within the inflight window stop being queued, pointers
    and counters of the queue stay exact, and exactly the reference of the
    removed message is given back. *)
Theorem message_delete_spec c x d mid dir :
  d_contexts d !! c = Some x -> queue_wf x ->
  (length (filter (msg_is mid dir) (c_msgs x)) <= 1)%nat ->
  Forall (fun m => is_Some (d_stores d !! m_store m)) (c_msgs x) ->
  wp (mqtt3_db_message_delete c mid dir) (fun rc d' =>
    rc = MOSQ_ERR_SUCCESS /\
    exists x', queue_wf x' /\ same_but_queue x x'
      /\ c_msgs x' = promote_window (d_max_inflight d) (d_time d) 0 (filter (msg_isnt mid dir) (c_msgs x))
      /\ match filter (msg_is mid dir) (c_msgs x) with
         | m :: _ => exists st, d_stores d !! m_store m = Some st
             /\ d' = (deref_state (m_store m) st d) <| d_contexts ::= <[c := x']> |>
         | [] => d' = d <| d_contexts ::= <[c := x']> |>
         end) d.
Proof.
  intros Hx Hq Hone Hst. unfold mqtt3_db_message_delete. wp_step. wp_ptr.
  destruct (one_match mid dir (c_msgs x) Hone) as [Hl|(pre & m & post & E & Hm & Hl & Hf)].
  - eapply wp_mono; [by apply (delete_loop_none c mid dir x d (c_msgs x) [])|cbv beta].
    intros rc d' (-> & x' & -> & Q & S & Ms). split; [done|]. exists x'. rewrite filter_isnt_none by done.
    split; [done|]. split; [done|]. split; [done|].
    assert (filter (msg_is mid dir) (c_msgs x) = []) as ->; [|done].
    clear -Hl. induction Hl as [|y l Hy _ IH]; [done|]. rewrite filter_cons_False; [done|rewrite Hy; by intros []].
  - rewrite Hf. assert (filter (msg_is mid dir) (c_msgs x) = [m]) as ->.
    { rewrite E, filter_app, filter_cons_True by by rewrite Hm. apply Forall_app in Hl as [H1 H2].
      assert (forall l, Forall (fun m => msg_is mid dir m = false) l -> filter (msg_is mid dir) l = []) as Hn.
      { clear. induction 1 as [|y l Hy _ IH]; [done|]. rewrite filter_cons_False; [done|rewrite Hy; by intros []]. }
      by rewrite !Hn. }
    assert (is_Some (d_stores d !! m_store m)) as [st Hs].
    { rewrite E in Hst. apply Forall_app in Hst as [_ H]. by inversion H. }
    rewrite E. eapply wp_mono; [by apply (delete_loop_one c mid dir x d st m pre post [])|cbv beta].
    intros rc d' (-> & x' & -> & Q & S & Ms). split; [done|]. exists x'.
    split; [done|]. split; [done|]. split; [done|]. by exists st.
Qed.

Definition sample_msg (a : addr) (mid qos : Z) (state : mosquitto_msg_state) : mosquitto_client_msg :=
  ClientMsg a 50%nat 0 mid qos false mosq_md_out state false.
Definition sample_queue : mosquitto :=
  context_calloc <| c_sock := 7 |> <| c_id := Some (lit "s") |>
    <| c_msgs := [sample_msg 11 1 1 mosq_ms_wait_for_puback; sample_msg 12 2 1 mosq_ms_queued] |>
    <| c_last_msg := Some 12%nat |> <| c_msg_count := 2 |> <| c_msg_count12 := 2 |>.
Definition sample_queue_db : mosquitto_db :=
  db_calloc <| d_contexts := {[1%nat := sample_queue]} |>
    <| d_stores := {[50%nat := Store 1 [] [] 2 (Some (lit "a")) [] 0 0 1 false]} |>
    <| d_msg_store := [50%nat] |> <| d_msg_store_count := 1 |> <| d_max_inflight := 1 |> <| d_max_queued := 100 |>
    <| d_next := 60%nat |>.

Lemma sample_queue_wf : queue_wf sample_queue.
Proof.
  split; [done| |done|done].
  change (m_addr <$> c_msgs sample_queue) with [11%nat; 12%nat]. by apply (bool_decide_unpack _); vm_compute.
Qed.

Lemma message_delete_spec_witness :
  wp (mqtt3_db_message_delete 1%nat 1 mosq_md_out) (fun rc d' =>
    exists x', d_contexts d' !! 1%nat = Some x' /\ c_msgs x' = [sample_msg 12 2 1 mosq_ms_publish_qos1])
    sample_queue_db.
Proof.
  eapply wp_mono; [apply (message_delete_spec 1%nat sample_queue)|cbv beta].
  - done.
  - apply sample_queue_wf.
  - apply Nat.leb_le. by vm_compute.
  - repeat constructor; eexists; reflexivity.
  - intros rc d' (_ & x' & _ & _ & M & st & _ & ->). exists x'. proj_simpl. split; [by apply lookup_insert_eq|].
    by rewrite M.
Defined.


(** ** Reference counts *)

(** How many of the messages refer to [s]. *)
Definition refs_to (s : addr) (l : list mosquitto_client_msg) : Z :=
  Z.of_nat (length (filter (fun m => m_store m = s) l)).

Lemma refs_to_app s l1 l2 : refs_to s (l1 ++ l2) = refs_to s l1 + refs_to s l2.
Proof. unfold refs_to. rewrite filter_app, length_app. lia. Qed.

Lemma refs_to_cons s m l : refs_to s (m :: l) = (if decide (m_store m = s) then 1 else 0) + refs_to s l.
Proof. unfold refs_to. rewrite filter_cons. case_decide; cbn [length]; lia. Qed.

Lemma refs_to_nonneg s l : 0 <= refs_to s l.
Proof. unfold refs_to. lia. Qed.

Lemma refs_to_mid s before m rest :
  refs_to s (before ++ m :: rest) = (if decide (m_store m = s) then 1 else 0) + refs_to s (before ++ rest).
Proof. rewrite !refs_to_app, refs_to_cons. lia. Qed.

(** The reference counts are exact: each stored message counts the messages of [l]
    that refer to it and [others s] references from elsewhere, and nothing refers
    to a freed one. *)
Definition balanced (others : addr -> Z) (l : list mosquitto_client_msg) (d : mosquitto_db) : Prop :=
  forall s, 0 <= others s /\
    match d_stores d !! s with
    | Some st => s_ref_count st = refs_to s l + others s
    | None => refs_to s l + others s = 0
    end.

Lemma balanced_stores others l d d' : d_stores d' = d_stores d -> balanced others l d -> balanced others l d'.
Proof. intros E H s. rewrite E. apply H. Qed.

Lemma balanced_refs others l l' d :
  (forall s, refs_to s l' = refs_to s l) -> balanced others l d -> balanced others l' d.
Proof. intros E H s. rewrite E. apply H. Qed.

Lemma balanced_live others l d m :
  balanced others l d -> m ∈ l ->
  exists st, d_stores d !! m_store m = Some st /\ s_ref_count st = refs_to (m_store m) l + others (m_store m).
Proof.
  intros H Hm. destruct (H (m_store m)) as [Ho Hs]. destruct (d_stores d !! m_store m) as [st|]; [by exists st|].
  apply list_elem_of_split in Hm as (l1 & l2 & ->). rewrite refs_to_mid in Hs.
  pose proof (refs_to_nonneg (m_store m) (l1 ++ l2)). rewrite decide_True in Hs by done. lia.
Qed.

(** Taking a message off the list and giving its reference back. *)
Lemma balanced_deref others before m rest d :
  balanced others (before ++ m :: rest) d ->
  exists st, d_stores d !! m_store m = Some st
    /\ balanced others (before ++ rest) (deref_state (m_store m) st d).
Proof.
  intros H. destruct (balanced_live others _ d m H) as (st & Hs & Hc); [set_solver|].
  exists st. split; [done|]. intros s. destruct (H s) as [Ho Hs']. split; [done|].
  pose proof (refs_to_nonneg (m_store m) (before ++ rest)) as Hn.
  rewrite refs_to_mid, decide_True in Hc by done. rewrite refs_to_mid in Hs'.
  unfold deref_state. destruct (Z.eqb_spec (s_ref_count st) 1) as [E|E]; proj_simpl;
    destruct (decide (m_store m = s)) as [<-|Hne].
  - rewrite lookup_delete_eq. destruct (H (m_store m)) as [Ho' _]. lia.
  - rewrite lookup_delete_ne by done. destruct (d_stores d !! s); lia.
  - rewrite lookup_insert_eq. proj_simpl. lia.
  - rewrite lookup_insert_ne by done. destruct (d_stores d !! s); lia.
Qed.

(** One more message and one more reference. *)
Lemma balanced_insert others l m st st' d d' :
  balanced others l d -> d_stores d !! m_store m = Some st -> s_ref_count st' = s_ref_count st + 1 ->
  d_stores d' = <[m_store m := st']> (d_stores d) -> balanced others (l ++ [m]) d'.
Proof.
  intros H Hs Hc E s. destruct (H s) as [Ho Hs']. split; [done|].
  rewrite E, refs_to_app, refs_to_cons. change (refs_to s []) with 0.
  destruct (decide (m_store m = s)) as [<-|Hne].
  - rewrite lookup_insert_eq. rewrite Hs in Hs'. lia.
  - rewrite lookup_insert_ne by done. destruct (d_stores d !! s); lia.
Qed.

(** ** What a queue sends *)

Definition store_of (d : mosquitto_db) (m : mosquitto_client_msg) : option mosquitto_msg_store :=
  d_stores d !! m_store m.

(** The bytes a message is due, stripped of the mount point [mp]. *)
Definition due_publish (mp : str) (st : mosquitto_msg_store) (m : mosquitto_client_msg) : list byte :=
  enc_publish (m_mid m) (drop (length mp) (default [] (s_topic st))) (s_payload st) (m_qos m)
    (m_retain m) (m_dup m).

Definition due_bytes (d : mosquitto_db) (mp : str) (m : mosquitto_client_msg) : list byte :=
  match write_action_of (m_state m), d_stores d !! m_store m with
  | (wa_publish _ | wa_publish_remove), Some st => due_publish mp st m
  | wa_command _ _, Some _ =>
    enc_packet (match m_state m with
                | mosq_ms_send_pubrec => PUBREC
                | mosq_ms_resend_pubrel => Z.lor PUBREL 2
                | _ => PUBCOMP
                end) (enc_uint16 (m_mid m))
  | _, _ => []
  end.

(** What becomes of it: QoS 0 is forgotten, the others await the next step. *)
Definition after_due (now : Z) (m : mosquitto_client_msg) : list mosquitto_client_msg :=
  match write_action_of (m_state m) with
  | wa_publish_remove => []
  | wa_publish next => [m <| m_timestamp := now |> <| m_dup := true |> <| m_state := next |>]
  | wa_command _ next => [m <| m_state := next |>]
  | wa_skip => [m]
  end.

(** A message that can be sent: not a queued incoming one, and small enough. *)
Definition sendable (d : mosquitto_db) (mp : option str) (m : mosquitto_client_msg) : Prop :=
  (is_queued m = true -> is_out m = true) /\
  (match write_action_of (m_state m) with
   | wa_publish _ | wa_publish_remove =>
     exists st t, d_stores d !! m_store m = Some st /\ s_topic st = Some t /\ strlen t < 2 ^ 16
       /\ 4 + strlen t + Z.of_nat (length (s_payload st)) < 2 ^ 28
       /\ (mp = None \/ strlen (default [] mp) < strlen t)
   | _ => True
   end).

(** A client in the middle of [mqtt3_db_message_write]. *)
Record writing (c : addr) (mp : option str) (others : addr -> Z)
    (before tail : list mosquitto_client_msg) (x : mosquitto) (d : mosquitto_db) : Prop := Writing {
  wg_ctx : d_contexts d !! c = Some x;
  wg_wf : queue_wf x;
  wg_list : c_msgs x = before ++ tail;
  wg_out : ctx_out_wf x;
  wg_listener : listener_ok d x;
  wg_bridge : c_bridge x = None;
  wg_sock : c_sock x <> INVALID_SOCKET;
  wg_mp : mount_point d x = mp;
  wg_ok : Forall write_ok (d_writes d);
  wg_bal : balanced others (before ++ tail) d;
  wg_send : Forall (sendable d mp) tail }.

(** From [d] to [d'] only [c] and the streams changed, and [bs] was sent. *)
Definition advanced (c : addr) (bs : list byte) (x : mosquitto) (d : mosquitto_db) (x' : mosquitto)
    (d' : mosquitto_db) : Prop :=
  d_contexts d' = <[c := x']> (d_contexts d) /\ stream d' x' = stream d x ++ bs /\ d_time d' = d_time d.

Lemma advanced_trans c bs1 bs2 x d x1 d1 x2 d2 :
  advanced c bs1 x d x1 d1 -> advanced c bs2 x1 d1 x2 d2 -> advanced c (bs1 ++ bs2) x d x2 d2.
Proof.
  intros (A1 & A2 & A3) (B1 & B2 & B3). split; [by rewrite B1, A1, insert_insert_eq|].
  split; [by rewrite B2, A2, app_assoc|congruence].
Qed.

Lemma advanced_then c bs x d x1 d1 x2 d2 :
  advanced c bs x d x1 d1 -> advanced c [] x1 d1 x2 d2 -> advanced c bs x d x2 d2.
Proof. intros A B. rewrite <- (app_nil_r bs). by eapply advanced_trans. Qed.

Lemma only_writes_state c d d' :
  only_writes c d d' -> d_stores d' = d_stores d /\ d_time d' = d_time d /\ d_listeners d' = d_listeners d
  /\ d_max_inflight d' = d_max_inflight d.
Proof. intros (x & x' & _ & _ & _ & _ & ->). by destruct d. Qed.

Lemma same_but_out_state x x' :
  same_but_out x x' -> c_msgs x' = c_msgs x /\ c_listener x' = c_listener x /\ c_bridge x' = c_bridge x
  /\ c_sock x' = c_sock x /\ (queue_wf x -> queue_wf x').
Proof.
  intros ->. split; [done|]. split; [done|]. split; [done|]. split; [done|]. by intros [Q1 Q2 Q3 Q4].
Qed.

Lemma sendable_stores d d' mp m : d_stores d' = d_stores d -> sendable d mp m -> sendable d' mp m.
Proof. unfold sendable. by intros ->. Qed.

(** A send that leaves the queue alone. *)
Lemma writing_sent c mp others before tail x d d0 bs rc d1 :
  writing c mp others before tail x d -> (d0 = d \/ exists p, d0 = count_published p d) ->
  queues c bs x d0 rc d1 ->
  rc = MOSQ_ERR_SUCCESS /\ exists x1, writing c mp others before tail x1 d1 /\ advanced c bs x d x1 d1
    /\ d_stores d1 = d_stores d.
Proof.
  intros [W1 W2 W3 W4 W5 W6 W7 W8 W9 W10 W11] Hd0 (O & (x1 & L1 & Q1 & S1) & _ & K).
  assert (d_contexts d0 = d_contexts d /\ d_stores d0 = d_stores d /\ d_time d0 = d_time d
    /\ d_listeners d0 = d_listeners d /\ d_sent d0 = d_sent d /\ d_writes d0 = d_writes d) as (E1 & E2 & E3 & E4 & E5 & E6)
    by (by destruct Hd0 as [->|[p ->]]).
  destruct (only_writes_state _ _ _ O) as (F1 & F2 & F3 & _).
  rewrite <- E1 in W1. pose proof (only_writes_ctx _ _ _ _ _ O W1 L1) as SB.
  destruct (same_but_out_state _ _ SB) as (G1 & G2 & G3 & G4 & G5). rewrite E6 in K. destruct (K W9) as [K1 K2].
  split; [by apply K2|]. exists x1. split; [|split; [|congruence]].
  - constructor; try congruence; auto.
    + unfold listener_ok in *. rewrite G2, F3, E4. done.
    + unfold mount_point in *. rewrite G2, F3, E4. done.
    + eapply balanced_stores; [|done]. congruence.
    + eapply Forall_impl; [done|]. intros m. apply sendable_stores. congruence.
  - split; [|split; [|congruence]].
    + destruct O as (y & y' & O1 & O2 & _). rewrite O2, E1. f_equal. rewrite O2, lookup_insert_eq in L1. congruence.
    + rewrite S1. unfold stream, socket_bytes. by rewrite E5.
Qed.

(** Passing over a message that was changed in place. *)
Lemma writing_keep c mp others before m m' rest x d :
  writing c mp others before (m :: rest) x d -> m_addr m' = m_addr m -> m_qos m' = m_qos m ->
  m_store m' = m_store m ->
  let x' := x <| c_msgs := before ++ m' :: rest |> in
  let d' := d <| d_contexts ::= <[c := x']> |> in
  writing c mp others (before ++ [m']) rest x' d' /\ advanced c [] x d x' d'.
Proof.
  intros [W1 W2 W3 W4 W5 W6 W7 W8 W9 W10 W11] Ea Eq Es x' d'. split.
  - inversion W11; subst. constructor; try done.
    + apply lookup_insert_eq.
    + by eapply set_msg_wf.
    + unfold x'. proj_simpl. by rewrite <- app_assoc.
    + rewrite <- app_assoc. eapply balanced_stores; [|eapply balanced_refs; [|exact W10]]; [done|].
      intros s. cbn [app]. by rewrite !refs_to_mid, Es.
  - split; [done|]. split; [by rewrite app_nil_r|done].
Qed.

(** The data of the stored messages others refer to survives a release. *)
Lemma deref_state_data s st d s' st' :
  d_stores d !! s = Some st -> d_stores (deref_state s st d) !! s' = Some st' ->
  exists st0, d_stores d !! s' = Some st0 /\ s_topic st' = s_topic st0 /\ s_payload st' = s_payload st0.
Proof.
  intros Hs. unfold deref_state. destruct (s_ref_count st =? 1); proj_simpl; destruct (decide (s = s')) as [<-|Hne].
  - by rewrite lookup_delete_eq.
  - rewrite lookup_delete_ne by done. eauto.
  - rewrite lookup_insert_eq. intros [= <-]. by exists st.
  - rewrite lookup_insert_ne by done. eauto.
Qed.

Lemma sendable_data d d' mp m :
  is_Some (d_stores d' !! m_store m) ->
  (forall st', d_stores d' !! m_store m = Some st' -> exists st0, d_stores d !! m_store m = Some st0
     /\ s_topic st' = s_topic st0 /\ s_payload st' = s_payload st0) ->
  (sendable d mp m -> sendable d' mp m) /\ (forall p, due_bytes d' p m = due_bytes d p m).
Proof.
  intros [st' Hst'] H. destruct (H st' Hst') as (st0 & H0 & Ht & Hp). split.
  - unfold sendable. rewrite H0, Hst'. intros [H1 H2]. split; [done|].
    destruct (write_action_of (m_state m)); try done;
      destruct H2 as (st & t & [= ->] & H2 & H3 & H4); exists st', t; rewrite Ht, Hp; done.
  - intros p. unfold due_bytes. rewrite H0, Hst'. destruct (write_action_of (m_state m)); try done;
      unfold due_publish; by rewrite Ht, Hp.
Qed.

(** Removing a message that was sent for good. *)
Lemma writing_remove c mp others before m rest x d :
  writing c mp others before (m :: rest) x d ->
  wp (_message_remove c before rest m) (fun _ d' => exists x',
    writing c mp others before rest x' d' /\ advanced c [] x d x' d'
    /\ (forall m' p, m' ∈ rest -> due_bytes d' p m' = due_bytes d p m')) d.
Proof.
  intros [W1 W2 W3 W4 W5 W6 W7 W8 W9 W10 W11].
  destruct (balanced_deref _ _ _ _ _ W10) as (st & Hst & Hbal).
  apply (message_remove_run c x before rest m st d); [done|done|].
  set (x' := unlink_msg before rest m x). set (d' := _ <| d_contexts ::= _ |>).
  assert (d_contexts d' = <[c := x']> (d_contexts d) /\ d_stores d' = d_stores (deref_state (m_store m) st d)
    /\ d_time d' = d_time d /\ d_sent d' = d_sent d /\ d_listeners d' = d_listeners d /\ d_writes d' = d_writes d)
    as (E1 & E2 & E3 & E4 & E5 & E6).
  { unfold d', deref_state. by destruct (s_ref_count st =? 1). }
  assert (c_listener x' = c_listener x /\ c_bridge x' = c_bridge x /\ c_sock x' = c_sock x
    /\ out_packets x' = out_packets x /\ c_msgs x' = before ++ rest) as (G1 & G2 & G3 & G4 & G5) by done.
  assert (queue_wf x') as G6 by by apply unlink_msg_wf.
  clearbody x' d'.
  assert (forall m', m' ∈ rest -> (sendable d mp m' -> sendable d' mp m')
    /\ (forall p, due_bytes d' p m' = due_bytes d p m')) as Hdata.
  { intros m' Hm'. apply sendable_data; rewrite E2.
    - destruct (balanced_live _ _ _ m' Hbal) as (st' & H & _); [set_solver|eauto].
    - intros st'. by apply deref_state_data. }
  exists x'. split; [|split].
  - inversion W11; subst. constructor; try congruence.
    + rewrite E1. apply lookup_insert_eq.
    + unfold ctx_out_wf. by rewrite G4.
    + unfold listener_ok in *. by rewrite G1, E5.
    + unfold mount_point in *. by rewrite G1, E5.
    + by eapply balanced_stores.
    + apply Forall_forall. intros m' Hm'. apply Hdata; [done|]. by eapply Forall_forall.
  - split; [done|]. split; [|done]. unfold stream, socket_bytes, pending. by rewrite E4, G3, G4, app_nil_r.
  - intros m' p Hm'. by apply Hdata.
Qed.

(** What a finished walk over [tail] leaves. *)
Definition written_out (c : addr) (mp : option str) (others : addr -> Z)
    (before tail : list mosquitto_client_msg) (x : mosquitto) (d : mosquitto_db) (rc : Z)
    (d' : mosquitto_db) : Prop :=
  rc = MOSQ_ERR_SUCCESS /\
  exists x', writing c mp others (before ++ concat (map (after_due (d_time d)) tail)) [] x' d'
    /\ advanced c (concat (map (due_bytes d (default [] mp)) tail)) x d x' d'.

Lemma written_out_step c mp others before m rest x d x1 d1 before' :
  before' = before ++ after_due (d_time d) m ->
  advanced c (due_bytes d (default [] mp) m) x d x1 d1 ->
  (forall m' p, m' ∈ rest -> due_bytes d1 p m' = due_bytes d p m') ->
  forall rc d', written_out c mp others before' rest x1 d1 rc d' -> written_out c mp others before (m :: rest) x d rc d'.
Proof.
  intros -> A Hdata rc d' (-> & x' & W & A'). split; [done|]. exists x'. cbn [map concat].
  destruct A as (A1 & A2 & A3). rewrite A3, <- app_assoc in W. split; [done|].
  eapply advanced_trans; [done|]. replace (map (due_bytes d _) rest) with (map (due_bytes d1 (default [] mp)) rest); [done|].
  apply map_ext_in. intros m' Hm'. apply Hdata. by apply list_elem_of_In.
Qed.

Lemma due_bytes_stores d d' p m : d_stores d' = d_stores d -> due_bytes d' p m = due_bytes d p m.
Proof. unfold due_bytes. by intros ->. Qed.

(** The command packets of the second half of the QoS 2 exchange. *)
Lemma send_command_queues c s x d send next mid st :
  d_contexts d !! c = Some x -> ctx_out_wf x -> write_action_of s = wa_command send next ->
  wp (send c mid) (queues c (due_bytes (d <| d_stores := {[0%nat := st]} |>) []
        (ClientMsg 0 0 0 mid 0 false mosq_md_out s false)) x d) d.
Proof.
  intros Hx Hwf Hs. unfold due_bytes. cbn [m_state m_store m_mid]. proj_simpl. rewrite lookup_singleton_eq.
  destruct s; try discriminate Hs; injection Hs as <- <-; cbn [write_action_of].
  - by apply (send_mid_sends c (Z.lor PUBREL 2)).
  - by apply (send_mid_sends c PUBCOMP).
  - by apply (send_mid_sends c PUBREC).
Qed.

Lemma send_due_command c mp others before m rest x d send next :
  writing c mp others before (m :: rest) x d -> write_action_of (m_state m) = wa_command send next ->
  wp (send c (m_mid m)) (queues c (due_bytes d (default [] mp) m) x d) d.
Proof.
  intros [W1 W2 W3 W4 _ _ _ _ _ W10 _] Hs.
  destruct (balanced_live _ _ _ m W10) as (st & Hst & _); [set_solver|].
  pose proof (send_command_queues c (m_state m) x d send next (m_mid m) st W1 W4 Hs) as H.
  unfold due_bytes in *. cbn [m_state m_store m_mid] in H. revert H. proj_simpl. rewrite lookup_singleton_eq, Hst, Hs.
  done.
Qed.

Lemma send_due_publish c mp others before m rest x d :
  writing c mp others before (m :: rest) x d ->
  (match write_action_of (m_state m) with wa_publish _ | wa_publish_remove => True | _ => False end) ->
  exists st, d_stores d !! m_store m = Some st /\
  wp (_mosquitto_send_publish c (m_mid m) (s_topic st) (s_payload st) (m_qos m) (m_retain m) (m_dup m))
    (fun rc d' => queues c (due_bytes d (default [] mp) m) x (count_published (s_payload st) d) rc d') d.
Proof.
  intros [W1 W2 W3 W4 W5 W6 W7 W8 W9 W10 W11] Hs. inversion W11 as [|? ? [_ Hsend] _]; subst.
  assert (exists st t, d_stores d !! m_store m = Some st /\ s_topic st = Some t /\ strlen t < 2 ^ 16
       /\ 4 + strlen t + Z.of_nat (length (s_payload st)) < 2 ^ 28
       /\ (mount_point d x = None \/ strlen (default [] (mount_point d x)) < strlen t)) as (st & t & H1 & H2 & H3 & H4 & H5)
    by (by destruct (write_action_of (m_state m))).
  exists st. split; [done|]. rewrite H2.
  eapply wp_mono; [by apply (send_publish_run c x d)|cbv beta zeta].
  intros rc d' [[? _]|[(_ & _ & Hq)|(_ & Hle & Hn & _)]]; [done| |by destruct H5; [|lia]].
  assert (due_bytes d (default [] (mount_point d x)) m = due_publish (default [] (mount_point d x)) st m) as ->.
  { unfold due_bytes. rewrite H1. by destruct (write_action_of (m_state m)). }
  unfold due_publish. rewrite H2. done.
Qed.

Lemma writing_nil c mp others before x d :
  writing c mp others before [] x d -> written_out c mp others before [] x d MOSQ_ERR_SUCCESS d.
Proof.
  intros W. split; [done|]. exists x. rewrite app_nil_r. split; [done|]. destruct W.
  split; [by rewrite insert_id|]. split; [by rewrite app_nil_r|done].
Qed.

Lemma writing_skip c mp others before m rest x d :
  writing c mp others before (m :: rest) x d -> writing c mp others (before ++ [m]) rest x d.
Proof.
  intros [W1 W2 W3 W4 W5 W6 W7 W8 W9 W10 W11]. inversion W11; subst.
  constructor; try done; by rewrite <- app_assoc.
Qed.

Lemma advanced_refl c x d : d_contexts d !! c = Some x -> advanced c [] x d x d.
Proof. intros H. split; [by rewrite insert_id|]. by rewrite app_nil_r. Qed.

Lemma write_msgs_run fuel c mp others tail before cnt x d :
  writing c mp others before tail x d -> (length tail < fuel)%nat ->
  wp (write_msgs fuel c before tail cnt) (written_out c mp others before tail x d) d.
Proof.
  revert tail before cnt x d. induction fuel as [|fuel IH]; intros tail before cnt x d W Hf; [lia|].
  destruct tail as [|m rest]; cbn [write_msgs]; [wp_step; by apply writing_nil|]. cbn [length] in Hf.
  set (cnt' := if is_out m then cnt else cnt + 1).
  assert (forall x1 d1, writing c mp others (before ++ [m]) rest x1 d1 -> advanced c [] x d x1 d1 ->
    d_stores d1 = d_stores d -> due_bytes d (default [] mp) m = [] -> after_due (d_time d) m = [m] ->
    wp (write_msgs fuel c (before ++ [m]) rest cnt') (written_out c mp others before (m :: rest) x d) d1) as Hskip.
  { intros x1 d1 W1 A1 E1 Hd Ha. eapply wp_mono; [apply (IH rest (before ++ [m]) cnt' x1 d1); [done|lia]|cbv beta].
    apply (written_out_step c mp others before m rest x d x1 d1); [by rewrite Ha|by rewrite Hd|].
    intros m' p _. by apply due_bytes_stores. }
  pose proof W as [W1 W2 W3 W4 W5 W6 W7 W8 W9 W10 W11]. pose proof (proj1 (proj1 (Forall_cons _ _ _) W11)) as [Hqo _].
  destruct (is_queued m) eqn:Eq; cbn [negb].
  - wp_step. rewrite (Hqo eq_refl). cbn [negb andb].
    assert (m_state m = mosq_ms_queued) as Est by by apply bool_decide_eq_true_1 in Eq.
    apply (Hskip x d); [by apply writing_skip|by apply advanced_refl|done| |];
      unfold due_bytes, after_due; by rewrite Est.
  - wp_step. destruct (balanced_live _ _ _ m W10) as (st0 & Hst0 & _); [set_solver|].
    exists st0. split; [done|].
    destruct (write_action_of (m_state m)) as [next| |send next|] eqn:Ea.
    + wp_step. destruct (send_due_publish _ _ _ _ _ _ _ _ W) as (st & Hst & Hp); [by rewrite Ea|].
      rewrite Hst0 in Hst. injection Hst as <-. eapply wp_mono; [exact Hp|cbv beta]. intros rc d1 Hq.
      destruct (writing_sent _ _ _ _ _ _ _ _ _ _ _ W (or_intror (ex_intro _ _ eq_refl)) Hq)
        as (-> & x1 & V1 & A1 & S1). wp_step. change (negb (MOSQ_ERR_SUCCESS =? 0)) with false. cbv iota. wp_step.
      set (m' := m <| m_timestamp := d_time d1 |> <| m_dup := true |> <| m_state := next |>).
      destruct (writing_keep c mp others before m m' rest x1 d1 V1) as [V2 A2]; [done|done|done|].
      unfold set_msgs. wp_step. exists x1. split; [by destruct V1|].
      eapply wp_mono; [apply (IH rest (before ++ [m']) cnt' _ _ V2); lia|cbv beta].
      eapply written_out_step; [|by apply (advanced_then _ _ _ _ _ _ _ _ A1 A2)|].
      * unfold after_due, m'. by rewrite Ea, (proj2 (proj2 A1)).
      * intros m1 p _. by apply due_bytes_stores.
    + wp_step. destruct (send_due_publish _ _ _ _ _ _ _ _ W) as (st & Hst & Hp); [by rewrite Ea|].
      rewrite Hst0 in Hst. injection Hst as <-. eapply wp_mono; [exact Hp|cbv beta]. intros rc d1 Hq.
      destruct (writing_sent _ _ _ _ _ _ _ _ _ _ _ W (or_intror (ex_intro _ _ eq_refl)) Hq)
        as (-> & x1 & V1 & A1 & S1). wp_step. change (negb (MOSQ_ERR_SUCCESS =? 0)) with false. cbv iota. wp_step.
      eapply wp_mono; [by apply (writing_remove _ _ _ _ _ _ _ _ V1)|cbv beta]. intros _ d2 (x2 & V2 & A2 & D2).
      eapply wp_mono; [apply (IH rest before cnt' _ _ V2); lia|cbv beta].
      eapply written_out_step; [|by apply (advanced_then _ _ _ _ _ _ _ _ A1 A2)|].
      * unfold after_due. by rewrite Ea, app_nil_r.
      * intros m1 p Hm1. rewrite D2 by done. by apply due_bytes_stores.
    + wp_step. eapply wp_mono; [by apply (send_due_command _ _ _ _ _ _ _ _ _ next W)|cbv beta]. intros rc d1 Hq.
      destruct (writing_sent _ _ _ _ _ _ _ _ _ _ _ W (or_introl eq_refl) Hq) as (-> & x1 & V1 & A1 & S1).
      wp_step. change (negb (MOSQ_ERR_SUCCESS =? 0)) with false. cbv iota. wp_step.
      set (m' := m <| m_state := next |>).
      destruct (writing_keep c mp others before m m' rest x1 d1 V1) as [V2 A2]; [done|done|done|].
      unfold set_msgs. wp_step. exists x1. split; [by destruct V1|].
      eapply wp_mono; [apply (IH rest (before ++ [m']) cnt' _ _ V2); lia|cbv beta].
      eapply written_out_step; [|by apply (advanced_then _ _ _ _ _ _ _ _ A1 A2)|].
      * unfold after_due. by rewrite Ea.
      * intros m1 p _. by apply due_bytes_stores.
    + apply (Hskip x d); [by apply writing_skip|by apply advanced_refl|done| |];
        unfold due_bytes, after_due; by rewrite Ea.
Qed.


Definition sample_write : mosquitto :=
  sample_queue <| c_state := mosq_cs_connected |>
    <| c_msgs := [sample_msg 11 0 0 mosq_ms_publish_qos0; sample_msg 12 2 1 mosq_ms_publish_qos1] |>
    <| c_msg_count12 := 1 |>.
Definition sample_write_db : mosquitto_db :=
  sample_queue_db <| d_contexts := {[1%nat := sample_write]} |> <| d_writes := [WOk 3; WAgain] |>.


(** ** Reconnection *)

(** Outgoing messages are retried; incoming QoS 2 ones stay as they are. *)
Definition retried (m : mosquitto_client_msg) : mosquitto_client_msg :=
  if is_out m then m <| m_state := retry_state m |> else m.

(** The pointer and the counters describe [l]. *)
Definition counted (l : list mosquitto_client_msg) (x : mosquitto) : Prop :=
  (l <> [] -> c_last_msg x = m_addr <$> last l) /\ c_msg_count x = Z.of_nat (length l)
  /\ c_msg_count12 x = count12 l.

Lemma counted_fields l l' x :
  m_addr <$> l' = m_addr <$> l -> m_qos <$> l' = m_qos <$> l -> counted l x -> counted l' x.
Proof.
  intros Ha Hq (H1 & H2 & H3).
  assert (length l' = length l) as Hl by (by rewrite <- (length_fmap m_addr l'), Ha, length_fmap).
  assert (forall k, count12 k = Z.of_nat (length (filter (fun q => 0 < q) (m_qos <$> k)))) as Hc.
  { induction k as [|m k IH]; [done|]. rewrite count12_cons, IH, fmap_cons, filter_cons. unfold qos12.
    case_decide; cbn [length]; [rewrite (proj2 (Z.ltb_lt _ _)) by done|rewrite (proj2 (Z.ltb_ge _ _)) by lia]; cbn; lia. }
  split; [|split; [by rewrite Hl|by rewrite Hc, Hq, <- Hc]].
  intros Hne. rewrite <- fmap_last, Ha, fmap_last. apply H1. intros ->. by destruct l'.
Qed.

Lemma reset_loop_run c before tail x d :
  d_contexts d !! c = Some x -> c_msgs x = before ++ tail -> counted before x ->
  Forall (fun m => is_out m = true \/ m_qos m = 2) tail ->
  wp (reset_loop c before tail) (fun _ d' => exists x', d' = d <| d_contexts ::= <[c := x']> |>
    /\ same_but_queue x x' /\ c_msgs x' = before ++ map retried tail
    /\ counted (before ++ tail) x' /\ (before ++ tail = [] -> c_last_msg x' = c_last_msg x)) d.
Proof.
  revert before x d. induction tail as [|m rest IH]; intros before x d Hx Hm Hr Hall; cbn [reset_loop]; wp_step.
  - exists x. split; [by rewrite insert_ctx_id|]. split; [apply same_but_queue_refl|].
    rewrite !app_nil_r in *. done.
  - wp_ptr. apply Forall_cons in Hall as [Hm0 Hall].
    set (x1 := x <| c_last_msg := _ |> <| c_msg_count ::= _ |> <| c_msg_count12 ::= _ |>).
    set (d1 := d <| d_contexts ::= _ |>).
    assert (d_contexts d1 !! c = Some x1) as Hx1 by apply lookup_insert_eq.
    assert (same_but_queue x x1) as Hs1 by (destruct x; reflexivity).
    assert (counted (before ++ [m]) x1) as Hr1.
    { destruct Hr as (_ & R1 & R2). unfold counted, x1. proj_simpl.
      rewrite last_snoc, count12_app, count12_cons, length_app. unfold qos12. change (count12 []) with 0.
      split; [done|]. split; [cbn; lia|]. destruct (0 <? m_qos m); cbn; lia. }
    assert (is_out m = true \/ is_out m = false /\ m_qos m = 2) as [Ho|[Ho Hq2]] by (destruct (is_out m); tauto); rewrite Ho.
    + unfold set_msgs. wp_step. exists x1. split; [done|].
      set (m' := m <| m_state := retry_state m |>).
      set (x2 := x1 <| c_msgs := before ++ m' :: rest |>).
      eapply wp_mono; [apply (IH (before ++ [m']) x2); [apply lookup_insert_eq|by rewrite <- app_assoc| |done]|cbv beta].
      { apply (counted_fields (before ++ [m])); [by rewrite !fmap_app|by rewrite !fmap_app|exact Hr1]. }
      intros _ d' (x' & -> & S & M & R & _). exists x'. split; [unfold d1; by rewrite !insert_ctx_twice|].
      split; [eapply same_but_queue_trans; [exact Hs1|]; eapply same_but_queue_trans; [apply same_but_queue_msgs|exact S]|].
      rewrite M. cbn [map]. unfold retried at 2. rewrite Ho, <- app_assoc. split; [done|]. split; [|by destruct before].
      rewrite <- app_assoc in R. revert R. apply counted_fields; by rewrite !fmap_app, !fmap_cons.
    + rewrite Hq2. cbn [negb Z.eqb Pos.eqb].
      eapply wp_mono; [apply (IH (before ++ [m]) x1); [done|by rewrite <- app_assoc|by apply Hr1|done]|cbv beta].
      intros _ d' (x' & -> & S & M & R & _). exists x'. split; [unfold d1; by rewrite !insert_ctx_twice|].
      split; [by eapply same_but_queue_trans|]. rewrite M. cbn [map]. unfold retried at 2. rewrite Ho, <- app_assoc.
      split; [done|]. split; [by rewrite <- app_assoc in R|by destruct before].
Qed.

Lemma unqueue_loop_fields max i l :
  m_addr <$> unqueue_loop max i l = m_addr <$> l /\ m_qos <$> unqueue_loop max i l = m_qos <$> l.
Proof.
  revert i. induction l as [|m l IH]; intros i; [done|]. cbn [unqueue_loop]. destruct (_ || _); [|done].
  destruct (IH (i + 1)) as [H1 H2]. rewrite !fmap_cons, H1, H2. unfold unqueue. by destruct (is_queued m).
Qed.

Lemma retried_fields l : m_addr <$> map retried l = m_addr <$> l /\ m_qos <$> map retried l = m_qos <$> l.
Proof.
  induction l as [|m l [H1 H2]]; [done|]. cbn [map]. rewrite !fmap_cons, H1, H2. unfold retried. by destruct (is_out m).
Qed.

(** When a client comes back, [mqtt3_db_message_reconnect_reset] keeps every
    message and the order, starts outgoing ones over (a QoS 2 exchange that had
    reached PUBREL resumes there), lets the first [max_inflight] leave the queued
    state, and leaves pointers and counters exact: provided that the incoming
    messages are the QoS 2 ones the broker itself stores. *)
Theorem reconnect_reset_spec c x d :
  d_contexts d !! c = Some x -> queue_wf x ->
  Forall (fun m => is_out m = true \/ m_qos m = 2) (c_msgs x) ->
  wp (mqtt3_db_message_reconnect_reset c) (fun rc d' =>
    rc = MOSQ_ERR_SUCCESS /\ exists x', d' = d <| d_contexts ::= <[c := x']> |>
      /\ same_but_queue x x' /\ queue_wf x'
      /\ c_msgs x' = unqueue_loop (d_max_inflight d) 0 (map retried (c_msgs x))) d.
Proof.
  intros Hx [Q1 Q2 Q3 Q4] Hall. unfold mqtt3_db_message_reconnect_reset. wp_step. wp_ptr. wp_ptr.
  set (x1 := x <| c_msg_count := 0 |> <| c_msg_count12 := 0 |>). set (d1 := d <| d_contexts ::= _ |>).
  assert (counted [] x1) as Hr by done.
  eapply wp_mono; [apply (reset_loop_run c [] (c_msgs x) x1 d1 (lookup_insert_eq _ _ _) eq_refl Hr Hall)|cbv beta].
  intros _ d2 (x2 & -> & S2 & M2 & R2 & L2). wp_step. cbn [app] in *.
  exists x2. proj_simpl. split; [by rewrite lookup_insert_eq|]. wp_step. split; [done|].
  set (x3 := x2 <| c_msgs ::= _ |>). exists x3. split; [unfold d1; by rewrite !insert_ctx_twice|].
  assert (same_but_queue x x1) as S1 by (destruct x; reflexivity).
  assert (same_but_queue x x3) as S3.
  { eapply same_but_queue_trans; [exact S1|]. eapply same_but_queue_trans; [exact S2|]. destruct x2; reflexivity. }
  split; [exact S3|].
  assert (c_msgs x3 = unqueue_loop (d_max_inflight d) 0 (map retried (c_msgs x))) as M3 by (unfold x3; proj_simpl; by rewrite M2).
  split; [|done]. set (l3 := unqueue_loop _ _ _) in M3.
  assert (m_addr <$> l3 = m_addr <$> c_msgs x /\ m_qos <$> l3 = m_qos <$> c_msgs x) as [Ea Eq].
  { unfold l3. destruct (unqueue_loop_fields (d_max_inflight d) 0 (map retried (c_msgs x))) as [-> ->].
    apply retried_fields. }
  destruct (counted_fields (c_msgs x) l3 x3 Ea Eq R2) as (R3 & R4 & R5).
  constructor; rewrite M3.
  - clearbody l3. destruct l3 as [|y k]; [|by apply R3].
    assert (c_msgs x = []) as E0 by (by destruct (c_msgs x)).
    change (c_last_msg x3) with (c_last_msg x2). rewrite L2 by done. change (c_last_msg x1) with (c_last_msg x).
    by rewrite Q1, E0.
  - by rewrite Ea.
  - done.
  - done.
Qed.

Lemma reconnect_reset_spec_witness :
  wp (mqtt3_db_message_reconnect_reset 1%nat) (fun _ d' => exists x', d_contexts d' !! 1%nat = Some x'
    /\ m_state <$> c_msgs x' = [mosq_ms_publish_qos1; mosq_ms_queued]) sample_queue_db.
Proof.
  eapply wp_mono; [apply (reconnect_reset_spec 1%nat sample_queue)|cbv beta].
  - done.
  - apply sample_queue_wf.
  - repeat constructor.
  - intros rc d' (_ & x' & -> & _ & _ & M). exists x'. split; [apply lookup_insert_eq|]. by rewrite M.
Defined.

(** An incoming QoS 2 message that waits in the queue is turned into an outgoing
    publication by the second loop, which does not look at the direction: the
    broker will send it to the client it came from. *)
Lemma reconnect_reset_turns_incoming a s t mid d :
  let m := ClientMsg a s t mid 2 false mosq_md_in mosq_ms_queued false in
  0 < d_max_inflight d ->
  unqueue_loop (d_max_inflight d) 0 (map retried [m]) = [m <| m_state := mosq_ms_publish_qos2 |>]
  /\ write_action_of mosq_ms_publish_qos2 = wa_publish mosq_ms_wait_for_pubrec.
Proof.
  intros m Hm. split; [|done]. change (map retried [m]) with [m]. cbn [unqueue_loop].
  rewrite (proj2 (Z.ltb_lt _ _)), orb_true_r by done. done.
Qed.

(** A message that is removed hides the next one from the loop: of two incoming
    QoS 1 messages the second survives and [last_msg] is left dangling. *)
Lemma reconnect_reset_dangles :
  let m a := ClientMsg a 50%nat 0 (Z.of_nat a) 1 false mosq_md_in mosq_ms_wait_for_pubrel false in
  let x := sample_queue <| c_msgs := [m 11%nat; m 12%nat] |> in
  wp (mqtt3_db_message_reconnect_reset 1%nat) (fun _ d' => exists x', d_contexts d' !! 1%nat = Some x'
    /\ c_msgs x' = [m 12%nat] /\ c_last_msg x' = Some 11%nat /\ c_msg_count x' = 0)
    (sample_queue_db <| d_contexts := {[1%nat := x]} |>).
Proof. rewrite wp_eq. vm_compute. eexists. repeat split. Qed.
