(* ===== verification/Security.v ===== *)
(** Access control and passwords: src/security_default.c and the dispatch to an
    authentication plugin of src/security.c.  Files are their contents; the
    digest and the base64 decoder are OpenSSL's and so parameters ([Crypto]). *)

From S2P Require Export Types Topic.
#[local] Open Scope Z_scope.

(** * Reading text files *)

Definition LF : byte := "010"%char.
Definition CR : byte := "013"%char.
Definition SPACE : byte := " "%char.
Definition is_eol (b : byte) : bool := bool_decide (b = LF) || bool_decide (b = CR).

(** One [fgets(buf, n + 1, f)]: up to [n] characters, up to and including a
    newline; with it the rest of the file. *)
Fixpoint fgets (n : nat) (contents : list byte) : list byte * list byte :=
  match n, contents with
  | O, _ | _, [] => ([], contents)
  | S n, b :: rest =>
    if decide (b = LF) then ([b], rest)
    else let '(line, rest) := fgets n rest in (b :: line, rest)
  end.

(** All of them, each seen as a C string; a file of [k] bytes has at most [k] lines. *)
Fixpoint fgets_all (fuel n : nat) (contents : list byte) : list str :=
  match fuel, contents with
  | O, _ | _, [] => []
  | S fuel, _ => let '(line, rest) := fgets n contents in cstr line :: fgets_all fuel n rest
  end.

Definition file_lines (n : nat) (contents : list byte) : list str :=
  fgets_all (length contents) n contents.

(** [strtok_r]: the next token and what is left; a token ends at one of [delim]. *)
Fixpoint skip_delim (delim : list byte) (s : str) : str :=
  match s with
  | c :: s' => if decide (c ∈ delim) then skip_delim delim s' else s
  | [] => []
  end.

Fixpoint span_token (delim : list byte) (s : str) : str * str :=
  match s with
  | [] => ([], [])
  | c :: s => if decide (c ∈ delim) then ([], s) else
              let '(t, r) := span_token delim s in (c :: t, r)
  end.

Definition strtok (delim : list byte) (s : str) : option (str * str) :=
  match skip_delim delim s with
  | [] => None
  | s => Some (span_token delim s)
  end.

(** [while(len > 0 && s[len-1] is '\n' or '\r') s[len-1] = '\0'] *)
Fixpoint strip_eol (s : str) : str :=
  match s with
  | [] => []
  | c :: s => match strip_eol s with
              | [] => if is_eol c then [] else [c]
              | s' => c :: s'
              end
  end.

(** The same loop without the test for the empty string reads [s[-1]]. *)
Definition strip_eol_unguarded (s : str) : option str :=
  match strip_eol s with [] => None | s => Some s end.

(** ** Reading back what was written *)

(** A complete line of at most [n] characters, as a C string. *)
Definition line_ok (n : nat) (line : list byte) : Prop :=
  exists body, line = body ++ [LF] /\ (LF ∉ body) /\ (NUL ∉ body) /\ (length line <= n)%nat.

Lemma fgets_line n line rest : line_ok n line -> fgets n (line ++ rest) = (line, rest).
Proof.
  intros (body & -> & Hl & _ & Hn). rewrite length_app in Hn. cbn in Hn. revert n Hn.
  induction body as [|b body IH]; intros n Hn; (destruct n as [|n]; [cbn in Hn; lia|]); cbn [app fgets].
  - by rewrite decide_True.
  - apply not_elem_of_cons in Hl as [Hb Hl]. rewrite decide_False by done. rewrite IH; [done|done|cbn in Hn; lia].
Qed.

Lemma line_ok_cstr n line : line_ok n line -> cstr line = line.
Proof. intros (body & -> & _ & Hn & _). apply cstr_no_nul. rewrite not_elem_of_app, not_elem_of_cons. by split; [|split; [|apply not_elem_of_nil]]. Qed.

Lemma line_ok_length n line : line_ok n line -> (0 < length line)%nat.
Proof. intros (body & -> & _). rewrite length_app. cbn. lia. Qed.

Lemma fgets_all_lines fuel n lines : Forall (line_ok n) lines -> (length lines <= fuel)%nat ->
  fgets_all fuel n (concat lines) = lines.
Proof.
  intros Hl. revert fuel. induction Hl as [|line lines H Hl IH]; intros fuel Hf; [by destruct fuel|].
  destruct fuel as [|fuel]; [cbn in Hf; lia|]. cbn [concat fgets_all].
  pose proof (line_ok_length _ _ H) as H0. destruct (line ++ concat lines) as [|b k] eqn:E; [destruct line; [cbn in H0; lia|done]|].
  rewrite <- E, (fgets_line n) by done. rewrite (line_ok_cstr n) by done. rewrite IH; [done|cbn in Hf; lia].
Qed.

Lemma file_lines_concat n lines : Forall (line_ok n) lines -> file_lines n (concat lines) = lines.
Proof.
  intros Hl. apply fgets_all_lines; [done|]. induction Hl as [|line lines H Hl IH]; [done|].
  pose proof (line_ok_length _ _ H). cbn [concat length]. rewrite length_app. lia.
Qed.

Lemma span_token_app delim t c rest : Forall (fun b => b ∉ delim) t -> c ∈ delim ->
  span_token delim (t ++ c :: rest) = (t, rest).
Proof.
  intros Ht Hc. induction Ht as [|b t Hb Ht IH]; cbn [app span_token]; [by rewrite decide_True|].
  rewrite decide_False by done. by rewrite IH.
Qed.

Lemma span_token_all delim t : Forall (fun b => b ∉ delim) t -> span_token delim t = (t, []).
Proof. induction 1 as [|b t Hb Ht IH]; cbn [span_token]; [done|]. rewrite decide_False by done. by rewrite IH. Qed.

(** The next field, before a delimiter or at the end. *)
Lemma strtok_app delim t c rest : t <> [] -> Forall (fun b => b ∉ delim) t -> c ∈ delim ->
  strtok delim (t ++ c :: rest) = Some (t, rest).
Proof.
  intros Hne Ht Hc. unfold strtok. destruct t as [|b t]; [done|]. cbn [app skip_delim].
  inversion Ht as [|? ? Hb Ht']; subst. rewrite decide_False by done.
  change (b :: t ++ c :: rest) with ((b :: t) ++ c :: rest). by rewrite span_token_app.
Qed.

Lemma strtok_all delim t : t <> [] -> Forall (fun b => b ∉ delim) t -> strtok delim t = Some (t, []).
Proof.
  intros Hne Ht. unfold strtok. destruct t as [|b t]; [done|]. cbn [skip_delim].
  inversion Ht as [|? ? Hb Ht']; subst. rewrite decide_False by done. by rewrite span_token_all.
Qed.

(** A token is not empty, and holds no delimiter. *)
Lemma strtok_nonempty delim s t rest : strtok delim s = Some (t, rest) -> t <> [].
Proof.
  unfold strtok. destruct (skip_delim delim s) as [|c k] eqn:E; [done|]. intros [= H].
  assert (c ∉ delim) as Hc.
  { clear H. revert k E. induction s as [|b s IH]; intros k; cbn [skip_delim]; [done|].
    destruct (decide (b ∈ delim)); [apply IH|by intros [= <- <-]]. }
  cbn [span_token] in H. rewrite decide_False in H by done. by destruct (span_token delim k); simplify_eq.
Qed.

Lemma strip_eol_none s : Forall (fun b => b <> LF /\ b <> CR) s -> strip_eol s = s.
Proof.
  induction 1 as [|b s [H1 H2] Hs IH]; [done|]. cbn [strip_eol]. rewrite IH. destruct s; [|done].
  unfold is_eol. by rewrite !bool_decide_eq_false_2.
Qed.

Lemma strip_eol_line s : Forall (fun b => b <> LF /\ b <> CR) s -> strip_eol (s ++ [LF]) = s.
Proof.
  induction 1 as [|b s [H1 H2] Hs IH]; [done|]. cbn [app strip_eol]. rewrite IH.
  destruct s; [|done]. unfold is_eol. by rewrite !bool_decide_eq_false_2.
Qed.

(** * Access control lists *)

Definition acl_user_is (user : option str) (u : _mosquitto_acl_user) : bool :=
  bool_decide (au_username u = user).

(** The rule goes to the end of the list of the first entry for [user]. *)
Fixpoint add_to_user (user : option str) (acl : _mosquitto_acl) (l : list _mosquitto_acl_user)
    : option (list _mosquitto_acl_user) :=
  match l with
  | [] => None
  | u :: l =>
    if acl_user_is user u then Some (AclUser (au_addr u) (au_username u) (au_acl u ++ [acl]) :: l)
    else cons u <$> add_to_user user acl l
  end.

Definition _add_acl (user : option str) (topic : str) (access : Z) : M Z :=
  d ← get;
  let acl := Acl topic access 0 0 in
  match add_to_user user acl (d_acl_list d) with
  | Some l => modify (fun d => d <| d_acl_list := l |>);; mret MOSQ_ERR_SUCCESS
  | None =>
    a ← malloc;
    modify (fun d => d <| d_acl_list ::= (fun l => l ++ [AclUser a user [acl]]) |>);;
    mret MOSQ_ERR_SUCCESS
  end.

(** [s = strstr(s, "%c")] repeated: how often "%c" occurs. *)
Fixpoint count_marks (c : byte) (s : str) : Z :=
  match s with
  | [] => 0
  | a :: s' =>
    match s' with
    | b :: s'' => if bool_decide (a = "%"%char) && bool_decide (b = c) then 1 + count_marks c s''
                  else count_marks c s'
    | [] => 0
    end
  end.

Definition _add_acl_pattern (topic : str) (access : Z) : M Z :=
  let acl := Acl topic access (count_marks "u"%char topic) (count_marks "c"%char topic) in
  modify (fun d => d <| d_acl_patterns ::= (fun l => l ++ [acl]) |>);;
  mret MOSQ_ERR_SUCCESS.

(** [for(i=0; i<tlen; i++)]: "%c" is replaced by the client id and "%u" by the user
    name, if there is one. *)
Fixpoint substitute (id : str) (username : option str) (topic : str) : str :=
  match topic with
  | [] => []
  | a :: rest =>
    match rest with
    | b :: rest' =>
      if bool_decide (a = "%"%char) && bool_decide (b = "c"%char) then id ++ substitute id username rest'
      else match username with
           | Some u =>
             if bool_decide (a = "%"%char) && bool_decide (b = "u"%char) then u ++ substitute id username rest'
             else a :: substitute id username rest
           | None => a :: substitute id username rest
           end
    | [] => [a]
    end
  end.

(** The size computed for the buffer the substituted pattern is written to. *)
Definition local_acl_len (id : str) (username : option str) (a : _mosquitto_acl) : Z :=
  match username with
  | Some u => strlen (a_topic a) + a_ccount a * (strlen id - 2) + a_ucount a * (strlen u - 2)
  | None => strlen (a_topic a) + a_ccount a * (strlen id - 2)
  end.

(** Does the rule with (substituted) topic [sub] allow the access?  [result] is the
    variable of the caller, which an error of the matcher leaves as it was. *)
Definition acl_rule (sub : str) (access : Z) (a : _mosquitto_acl) (topic : str) (result : option bool)
    : option (bool * option bool) :=
  let result := snd (mosquitto_topic_matches_sub sub topic result) in
  match result with
  | None => None
  | Some r => Some (r && negb (Z.land access (a_access a) =? 0), result)
  end.

(** The loop over the rules of the client's user: [inl] when access is granted. *)
Fixpoint acl_user_loop (l : list _mosquitto_acl) (topic : str) (access : Z) (result : option bool)
    : option (unit + option bool) :=
  match l with
  | [] => Some (inr result)
  | a :: l =>
    if bool_decide (cget topic 0 = DOLLAR) && negb (bool_decide (cget (a_topic a) 0 = DOLLAR))
    then acl_user_loop l topic access result
    else
      match acl_rule (a_topic a) access a topic result with
      | None => None
      | Some (true, _) => Some (inl tt)
      | Some (false, result) => acl_user_loop l topic access result
      end
  end.

(** The loop over the pattern rules. A buffer too small for the pattern faults. *)
Fixpoint acl_pattern_loop (l : list _mosquitto_acl) (id : str) (username : option str) (topic : str)
    (access : Z) (result : option bool) : option (unit + option bool) :=
  match l with
  | [] => Some (inr result)
  | a :: l =>
    if negb (a_ucount a =? 0) && bool_decide (username = None)
    then acl_pattern_loop l id username topic access result
    else
      let local_acl := substitute id username (a_topic a) in
      if negb (strlen local_acl =? local_acl_len id username a) then None else
      match acl_rule local_acl access a topic result with
      | None => None
      | Some (true, _) => Some (inl tt)
      | Some (false, result) => acl_pattern_loop l id username topic access result
      end
  end.

(** [context->acl_list->acl] *)
Definition acl_entry (d : mosquitto_db) (p : option addr) : option (list _mosquitto_acl) :=
  match p with
  | None => Some []
  | Some a => au_acl <$> List.find (fun u => bool_decide (au_addr u = a)) (d_acl_list d)
  end.

Definition mosquitto_acl_check_default (c : addr) (topic : option str) (access : Z) : M Z :=
  x ← get_ctx c;
  d ← get;
  match topic with
  | None => mret MOSQ_ERR_INVAL
  | Some topic =>
    if bool_decide (d_acl_list d = []) && bool_decide (d_acl_patterns d = []) then mret MOSQ_ERR_SUCCESS else
    if bool_decide (c_bridge x <> None) then mret MOSQ_ERR_SUCCESS else
    if bool_decide (c_acl_list x = None) && bool_decide (d_acl_patterns d = []) then mret MOSQ_ERR_ACL_DENIED else
    rules ← unwrap (acl_entry d (c_acl_list x));
    r ← unwrap (acl_user_loop rules topic access None);
    match r with
    | inl _ => mret MOSQ_ERR_SUCCESS
    | inr result =>
      id ← unwrap (c_id x);
      r ← unwrap (acl_pattern_loop (d_acl_patterns d) id (c_username x) topic access result);
      match r with
      | inl _ => mret MOSQ_ERR_SUCCESS
      | inr _ => mret MOSQ_ERR_ACL_DENIED
      end
    end
  end.

(** src/security.c *)
Definition mosquitto_acl_check (c : addr) (topic : option str) (access : Z) : M Z :=
  x ← get_ctx c;
  d ← get;
  match c_id x with
  | None => mret MOSQ_ERR_ACL_DENIED
  | Some id =>
    match d_auth_plugin d with
    | None => mosquitto_acl_check_default c topic access
    | Some p =>
      let username := match c_bridge x with Some b => b_local_username b | None => c_username x end in
      topic ← unwrap topic;
      mret (ap_acl_check p id username topic access)
    end
  end.

(** ** The ACL file *)

Definition drop_spaces (s : str) : str := skip_delim [SPACE] s.

Definition parse_access (s : str) : option Z :=
  if streq s (lit "read") then Some MOSQ_ACL_READ
  else if streq s (lit "write") then Some MOSQ_ACL_WRITE
  else if streq s (lit "readwrite") then Some (Z.lor MOSQ_ACL_READ MOSQ_ACL_WRITE)
  else None.

(** What a line says: nothing, a rule (of a user or a pattern), a new current user, or
    an error code. *)
Inductive acl_line :=
| al_none
| al_rule (pattern : bool) (access : Z) (topic : str)
| al_user (name : str)
| al_error (rc : Z).

Definition parse_acl_line (buf : str) : acl_line :=
  let buf := strip_eol buf in
  if bool_decide (cget buf 0 = HASH) then al_none else
  match strtok [SPACE] buf with
  | None => al_none
  | Some (token, rest) =>
    if streq token (lit "topic") || streq token (lit "pattern") then
      match strtok [SPACE] rest with
      | None => al_error MOSQ_ERR_INVAL
      | Some (access_s, rest) =>
        match strtok [] rest with
        | None => al_rule (negb (streq token (lit "topic"))) (Z.lor MOSQ_ACL_READ MOSQ_ACL_WRITE) access_s
        | Some (topic, _) =>
          match parse_access access_s with
          | Some access => al_rule (negb (streq token (lit "topic"))) access (drop_spaces topic)
          | None => al_error MOSQ_ERR_INVAL
          end
        end
      end
    else if streq token (lit "user") then
      match strtok [] rest with
      | Some (name, _) => al_user (drop_spaces name)
      | None => al_error 1
      end
    else al_none
  end.

Fixpoint aclfile_loop (lines : list str) (user : option str) : M Z :=
  match lines with
  | [] => mret MOSQ_ERR_SUCCESS
  | buf :: lines =>
    match parse_acl_line buf with
    | al_none => aclfile_loop lines user
    | al_rule pattern access topic =>
      rc ← (if pattern then _add_acl_pattern topic access else _add_acl user topic access);
      if negb (rc =? 0) then mret rc else aclfile_loop lines user
    | al_user name => aclfile_loop lines (Some name)
    | al_error rc => mret rc
    end
  end.

(** [None] is a file that cannot be opened. *)
Definition _aclfile_parse (file : option (list byte)) : M Z :=
  match file with
  | None => mret 1
  | Some contents => aclfile_loop (file_lines 1023 contents) None
  end.

Fixpoint clear_acl_lists (l : list addr) : M unit :=
  match l with
  | [] => mret tt
  | c :: l => upd_ctx c (fun x => x <| c_acl_list := None |>);; clear_acl_lists l
  end.

Definition _acl_cleanup : M Z :=
  d ← get;
  if bool_decide (d_acl_list d = []) then mret MOSQ_ERR_SUCCESS else
  clear_acl_lists (d_contexts_by_id d);;
  modify (fun d => d <| d_acl_list := [] |> <| d_acl_patterns := [] |>);;
  mret MOSQ_ERR_SUCCESS.

(** ** Password files *)

Inductive pw_line := pl_none | pl_entry (u : _mosquitto_unpwd) | pl_fault.

Definition COLON : byte := ":"%char.

Definition parse_pw_line (buf : str) : pw_line :=
  match strtok [COLON] buf with
  | None => pl_none
  | Some (username, rest) =>
    match strip_eol_unguarded username with
    | None => pl_fault
    | Some username =>
      match strtok [COLON] rest with
      | Some (password, _) => pl_entry (Unpwd username (Some (strip_eol password)) [])
      | None => pl_entry (Unpwd username None [])
      end
    end
  end.

Fixpoint pwfile_loop (lines : list str) (root : list _mosquitto_unpwd) : option (list _mosquitto_unpwd) :=
  match lines with
  | [] => Some root
  | buf :: lines =>
    match parse_pw_line buf with
    | pl_none => pwfile_loop lines root
    | pl_entry u => pwfile_loop lines (root ++ [u])
    | pl_fault => None
    end
  end.

(** [None] is undefined behaviour; otherwise the result and the table. *)
Definition _pwfile_parse (file : option (list byte)) (root : list _mosquitto_unpwd)
    : option (Z * list _mosquitto_unpwd) :=
  match file with
  | None => Some (1, root)
  | Some contents => pair MOSQ_ERR_SUCCESS <$> pwfile_loop (file_lines 255 contents) root
  end.

(** OpenSSL's part: the salted SHA-512 digest and the base64 decoder. *)
Class Crypto := {
  _pw_digest : str -> list byte -> res (list byte);
  _base64_decode : str -> option (list byte) }.

Section crypto.
Context `{Crypto}.

(** "$6$salt$hash": the fields a password is decoded to.  [strtok] cuts the string
    after its first token, so an entry that does not decode is left cut. *)
Definition decode_password (u : _mosquitto_unpwd) : bool * _mosquitto_unpwd :=
  match u_password u with
  | None => (true, u)
  | Some pw =>
    match strtok [DOLLAR] pw with
    | None => (false, u)
    | Some (t, rest) =>
      let cut := take (length pw - length (skip_delim [DOLLAR] pw)) pw ++ t in
      let failed := fun salt => (false, Unpwd (u_username u) (Some cut) salt) in
      if negb (streq t (lit "6")) then failed (u_salt u) else
      match strtok [DOLLAR] rest with
      | None => failed (u_salt u)
      | Some (t, rest) =>
        match _base64_decode t with
        | None => failed (u_salt u)
        | Some salt =>
          match strtok [DOLLAR] rest with
          | None => failed salt
          | Some (t, _) =>
            match _base64_decode t with
            | None => failed salt
            | Some password => (true, Unpwd (u_username u) (Some password) salt)
            end
          end
        end
      end
    end
  end.

(** The first entry that does not decode ends the loop. *)
Fixpoint decode_passwords (l : list _mosquitto_unpwd) : Z * list _mosquitto_unpwd :=
  match l with
  | [] => (MOSQ_ERR_SUCCESS, [])
  | u :: l =>
    match decode_password u with
    | (false, u) => (MOSQ_ERR_INVAL, u :: l)
    | (true, u) => let '(rc, l) := decode_passwords l in (rc, u :: l)
    end
  end.

Definition _unpwd_file_parse (file : option (list byte)) : M Z :=
  d ← get;
  r ← unwrap (_pwfile_parse file (d_unpwd d));
  let '(rc, root) := r in
  if negb (rc =? 0) then mret rc else
  let '(rc, root) := decode_passwords root in
  modify (fun d => d <| d_unpwd := root |>);;
  mret rc.

Definition is_hex (b : byte) : bool := bool_decide (b ∈ lit "0123456789abcdefABCDEF").

Definition psk_valid (u : _mosquitto_unpwd) : bool :=
  match u_password u with Some pw => forallb is_hex pw | None => false end.

Definition _psk_file_parse (file : option (list byte)) : M Z :=
  d ← get;
  r ← unwrap (_pwfile_parse file (d_psk_id d));
  let '(rc, root) := r in
  if negb (rc =? 0) then mret rc else
  modify (fun d => d <| d_psk_id := root |>);;
  mret (if forallb psk_valid root then MOSQ_ERR_SUCCESS else MOSQ_ERR_INVAL).

(** [mosquitto_security_init_default]: the files that are configured, each with its
    contents. *)
Definition mosquitto_security_init_default (password_file acl_file psk_file : option (option (list byte)))
    : M Z :=
  rc ← (match password_file with Some f => _unpwd_file_parse f | None => mret MOSQ_ERR_SUCCESS end);
  if negb (rc =? 0) then mret rc else
  rc ← (match acl_file with Some f => _aclfile_parse f | None => mret MOSQ_ERR_SUCCESS end);
  if negb (rc =? 0) then mret rc else
  match psk_file with Some f => _psk_file_parse f | None => mret MOSQ_ERR_SUCCESS end.

(** ** Checking a password *)

(** [memcmp] of the digest with the stored hash, of the same length. *)
Definition check_password (u : _mosquitto_unpwd) (password : option str) : Z :=
  match u_password u, password with
  | Some hash, Some password =>
    match _pw_digest password (u_salt u) with
    | ROk digest => if streq digest hash then MOSQ_ERR_SUCCESS else MOSQ_ERR_AUTH
    | RErr rc => rc
    end
  | Some _, None => MOSQ_ERR_AUTH
  | None, _ => MOSQ_ERR_SUCCESS
  end.

Definition mosquitto_unpwd_check_default (d : mosquitto_db) (username password : option str) : Z :=
  match d_unpwd d with
  | [] => MOSQ_ERR_SUCCESS
  | _ =>
    match username with
    | None => MOSQ_ERR_INVAL
    | Some username =>
      match List.find (fun u => streq (u_username u) username) (d_unpwd d) with
      | Some u => check_password u password
      | None => MOSQ_ERR_AUTH
      end
    end
  end.

Definition mosquitto_unpwd_check (d : mosquitto_db) (username password : option str) : Z :=
  match d_auth_plugin d with
  | None => mosquitto_unpwd_check_default d username password
  | Some p => ap_unpwd_check p username password
  end.

(** [strncpy(key, u->password, max_key_len)]: the key as it is copied; a NULL
    password faults. *)
Definition mosquitto_psk_key_get_default (d : mosquitto_db) (hint identity : option str)
    (max_key_len : nat) : option (res str) :=
  match hint, identity with
  | Some _, Some identity =>
    match d_psk_id d with
    | [] => Some (RErr MOSQ_ERR_AUTH)
    | l =>
      match List.find (fun u => streq (u_username u) identity) l with
      | Some u => ROk ∘ take max_key_len <$> u_password u
      | None => Some (RErr MOSQ_ERR_AUTH)
      end
    end
  | _, _ => Some (RErr MOSQ_ERR_INVAL)
  end.
End crypto.

Definition _unpwd_cleanup : M Z := modify (fun d => d <| d_unpwd := [] |>);; mret MOSQ_ERR_SUCCESS.
Definition _psk_cleanup : M Z := modify (fun d => d <| d_psk_id := [] |>);; mret MOSQ_ERR_SUCCESS.

Definition mosquitto_security_cleanup_default : M Z :=
  rc ← _acl_cleanup;
  if negb (rc =? 0) then mret rc else
  rc ← _unpwd_cleanup;
  if negb (rc =? 0) then mret rc else
  _psk_cleanup.

(** * Patterns *)

Definition username_len (username : option str) : Z :=
  match username with Some u => strlen u | None => 2 end.

(** The buffer for a substituted pattern has exactly the right size. *)
Lemma substitute_length id username topic :
  strlen (substitute id username topic)
  = strlen topic + count_marks "c"%char topic * (strlen id - 2)
    + count_marks "u"%char topic * (username_len username - 2).
Proof.
  assert (forall n topic, (length topic < n)%nat -> strlen (substitute id username topic)
    = strlen topic + count_marks "c"%char topic * (strlen id - 2)
      + count_marks "u"%char topic * (username_len username - 2)) as H; [|eapply H; apply Nat.lt_succ_diag_r].
  clear topic. induction n as [|n IH]; intros topic Hn; [lia|].
  destruct topic as [|a [|b rest]]; [done|done|]. cbn [substitute count_marks].
  assert (strlen (substitute id username (b :: rest)) = strlen (b :: rest)
    + count_marks "c"%char (b :: rest) * (strlen id - 2)
    + count_marks "u"%char (b :: rest) * (username_len username - 2)) as IHb by (apply IH; cbn in *; lia).
  assert (strlen (substitute id username rest) = strlen rest + count_marks "c"%char rest * (strlen id - 2)
    + count_marks "u"%char rest * (username_len username - 2)) as IHr by (apply IH; cbn in *; lia).
  cbn [substitute count_marks] in IHb. rewrite !strlen_cons in *.
  destruct (decide (a = "%"%char)) as [->|Ha].
  - rewrite (bool_decide_eq_true_2 ("%"%char = "%"%char)) by done. cbn [andb].
    destruct (decide (b = "c"%char)) as [->|Hc].
    + rewrite bool_decide_eq_true_2, (bool_decide_eq_false_2 ("c"%char = "u"%char)) by done.
      rewrite strlen_app, IHr.
      assert (forall k, count_marks k ("c"%char :: rest) = count_marks k rest) as Hk.
      { intros k. cbn [count_marks]. destruct rest; [done|]. by rewrite (bool_decide_eq_false_2 ("c"%char = "%"%char)). }
      pose proof (Hk "u"%char) as Hu. cbn [count_marks] in Hu. rewrite Hu. lia.
    + rewrite (bool_decide_eq_false_2 (b = "c"%char)) by done.
      destruct (decide (b = "u"%char)) as [->|Hu].
      * rewrite (bool_decide_eq_true_2 ("u"%char = "u"%char)) by done.
        assert (forall k, count_marks k ("u"%char :: rest) = count_marks k rest) as Hk.
        { intros k. cbn [count_marks]. destruct rest; [done|]. by rewrite (bool_decide_eq_false_2 ("u"%char = "%"%char)). }
        pose proof (Hk "c"%char) as Hkc. cbn [count_marks] in Hkc. rewrite Hkc.
        pose proof (Hk "u"%char) as Hku. cbn [count_marks] in Hku. rewrite Hkc, Hku in IHb.
        destruct username as [u|]; cbn [username_len] in *; [rewrite strlen_app, IHr; lia|].
        rewrite strlen_cons. lia.
      * rewrite (bool_decide_eq_false_2 (b = "u"%char)) by done.
        destruct username as [u|]; rewrite strlen_cons; lia.
  - rewrite (bool_decide_eq_false_2 (a = "%"%char)) by done. cbn [andb].
    destruct username as [u|]; rewrite strlen_cons; lia.
Qed.

(** As [_add_acl_pattern] makes them. *)
Definition pattern_wf (a : _mosquitto_acl) : Prop :=
  a_ucount a = count_marks "u"%char (a_topic a) /\ a_ccount a = count_marks "c"%char (a_topic a).

Lemma local_acl_len_exact id username a :
  pattern_wf a -> (username = None -> a_ucount a = 0) ->
  strlen (substitute id username (a_topic a)) = local_acl_len id username a.
Proof.
  intros [Hu Hc] Hn. rewrite substitute_length. unfold local_acl_len. rewrite Hu, Hc.
  destruct username as [u|]; cbn [username_len]; [done|]. lia.
Qed.

(** * The decision *)

(** A usable filter, and a topic name. *)
Definition filter_ok (sub : str) : Prop :=
  (NUL ∉ sub) /\ sub <> [] /\ mosquitto_sub_topic_check sub = MOSQ_ERR_SUCCESS.
Definition topic_ok (topic : str) : Prop :=
  topic <> [] /\ mosquitto_pub_topic_check topic = MOSQ_ERR_SUCCESS.

Definition grants (access : Z) (topic : str) (sub : str) (a : _mosquitto_acl) : bool :=
  bool_decide (starts_dollar sub = starts_dollar topic) && code_match (levels sub) (levels topic)
  && negb (Z.land access (a_access a) =? 0).

Lemma acl_rule_grants sub access a topic r :
  filter_ok sub -> topic_ok topic ->
  exists r', acl_rule sub access a topic r = Some (grants access topic sub a, r').
Proof.
  intros (H1 & H2 & H3) (H4 & H5). unfold acl_rule. rewrite topic_matches_sub_code by done.
  cbn [snd]. by eexists.
Qed.

Lemma starts_dollar_cget s : starts_dollar s = bool_decide (cget s 0 = DOLLAR).
Proof. by destruct s. Qed.

Lemma acl_user_loop_spec l topic access r :
  topic_ok topic -> Forall (fun a => filter_ok (a_topic a)) l ->
  exists r', acl_user_loop l topic access r
    = Some (if existsb (fun a => grants access topic (a_topic a) a) l then inl tt else inr r').
Proof.
  intros Ht Hl. revert r. induction Hl as [|a l Ha _ IH]; intros r; [by exists r|]. cbn [acl_user_loop existsb].
  destruct (bool_decide (cget topic 0 = DOLLAR) && negb (bool_decide (cget (a_topic a) 0 = DOLLAR))) eqn:E.
  - rewrite <- !starts_dollar_cget in E. unfold grants at 1.
    rewrite (bool_decide_eq_false_2 (starts_dollar (a_topic a) = starts_dollar topic)); [apply IH|].
    destruct (starts_dollar topic), (starts_dollar (a_topic a)); done.
  - destruct (acl_rule_grants (a_topic a) access a topic r Ha Ht) as [r' ->].
    destruct (grants access topic (a_topic a) a); cbn [orb]; [by exists r|apply IH].
Qed.

(** The pattern rules that apply to a client: those with "%u" need a user name. *)
Definition pattern_applies (username : option str) (a : _mosquitto_acl) : bool :=
  (a_ucount a =? 0) || bool_decide (username <> None).

Lemma acl_pattern_loop_spec l id username topic access r :
  topic_ok topic -> Forall pattern_wf l ->
  Forall (fun a => pattern_applies username a = true -> filter_ok (substitute id username (a_topic a))) l ->
  exists r', acl_pattern_loop l id username topic access r
    = Some (if existsb (fun a => pattern_applies username a
                         && grants access topic (substitute id username (a_topic a)) a) l
            then inl tt else inr r').
Proof.
  intros Ht Hp Hl. revert r. induction Hl as [|a l Ha _ IH]; intros r; [by exists r|].
  apply Forall_cons in Hp as [Hpa Hp]. cbn [acl_pattern_loop existsb].
  assert (negb (a_ucount a =? 0) && bool_decide (username = None) = negb (pattern_applies username a)) as ->.
  { unfold pattern_applies. destruct (a_ucount a =? 0), username; done. }
  destruct (pattern_applies username a) eqn:Eap; cbn [negb andb]; [|by apply IH].
  rewrite (proj2 (Z.eqb_eq _ _)).
  2: { apply local_acl_len_exact; [done|]. intros ->. unfold pattern_applies in Eap.
       rewrite (bool_decide_eq_false_2 (None <> None)) in Eap by (intros H; by apply H). lia. }
  cbn [negb]. destruct (acl_rule_grants (substitute id username (a_topic a)) access a topic r (Ha eq_refl) Ht) as [r' ->].
  destruct (grants access topic _ a); cbn [orb]; [by exists r|by apply IH].
Qed.

(** The rules that bear on a client: those of its user, and the patterns with its
    names filled in. *)
Definition client_rules (d : mosquitto_db) (x : mosquitto) (rules : list _mosquitto_acl) (id : str)
    : list (str * Z) :=
  map (fun a => (a_topic a, a_access a)) rules
  ++ map (fun a => (substitute id (c_username x) (a_topic a), a_access a))
       (List.filter (pattern_applies (c_username x)) (d_acl_patterns d)).

Lemma existsb_ext_map {A B} (f : A -> bool) (g : B -> bool) (h : A -> B) l :
  (forall a, f a = g (h a)) -> existsb f l = existsb g (map h l).
Proof. intros H. induction l as [|a l IH]; [done|]. cbn. by rewrite H, IH. Qed.

Lemma existsb_filter {A} (f g : A -> bool) l : existsb (fun a => f a && g a) l = existsb g (List.filter f l).
Proof. induction l as [|a l IH]; [done|]. cbn. destruct (f a); cbn; by rewrite IH. Qed.

Definition rule_grants (access : Z) (topic : str) (r : str * Z) : bool :=
  bool_decide (starts_dollar r.1 = starts_dollar topic) && code_match (levels r.1) (levels topic)
  && negb (Z.land access r.2 =? 0).

Lemma rule_grants_sound access topic sub bits :
  rule_grants access topic (sub, bits) = true -> filter_matches sub topic = true /\ Z.land access bits <> 0.
Proof.
  unfold rule_grants. intros [[H1 H2]%andb_true_iff H3]%andb_true_iff. cbn [fst snd] in *.
  split; [|lia]. unfold filter_matches. rewrite H1. cbn [andb]. by apply code_match_sound.
Qed.

Lemma rule_grants_complete access topic sub bits :
  ends_in_hash sub = false -> filter_matches sub topic = true -> Z.land access bits <> 0 ->
  rule_grants access topic (sub, bits) = true.
Proof.
  unfold filter_matches, ends_in_hash, rule_grants. cbn [fst snd].
  intros Hh%bool_decide_eq_false [H1 H2]%andb_true_iff H3. rewrite H1. cbn [andb].
  rewrite code_match_complete, H2 by (apply levels_nonempty || done).
  by rewrite (proj2 (Z.eqb_neq _ _)).
Qed.

(** Under rules, access is whether one of them grants it. *)
Lemma acl_rules_decide d x topic access id rules r :
  topic_ok topic -> Forall pattern_wf (d_acl_patterns d) ->
  Forall (fun r => filter_ok r.1) (client_rules d x rules id) ->
  exists r', acl_user_loop rules topic access r
             = Some (if existsb (rule_grants access topic) (map (fun a => (a_topic a, a_access a)) rules)
                     then inl tt else inr r')
  /\ forall r0, exists r'', acl_pattern_loop (d_acl_patterns d) id (c_username x) topic access r0
       = Some (if existsb (rule_grants access topic)
                 (map (fun a => (substitute id (c_username x) (a_topic a), a_access a))
                    (List.filter (pattern_applies (c_username x)) (d_acl_patterns d)))
               then inl tt else inr r'').
Proof.
  intros Ht Hp Hok. unfold client_rules in Hok. apply Forall_app in Hok as [H1 H2].
  destruct (acl_user_loop_spec rules topic access r Ht) as [r' E].
  { by rewrite List.Forall_map in H1. }
  exists r'. split.
  - rewrite E. f_equal. by rewrite <- (existsb_ext_map (fun a => grants access topic (a_topic a) a)).
  - intros r0. destruct (acl_pattern_loop_spec (d_acl_patterns d) id (c_username x) topic access r0 Ht Hp) as [r'' E'].
    { rewrite List.Forall_map in H2. rewrite List.Forall_forall in H2 |- *. intros a Ha Happ. apply (H2 a).
      by apply filter_In. }
    exists r''. rewrite E', existsb_filter. do 2 f_equal.
    by rewrite <- (existsb_ext_map (fun a => grants access topic (substitute id (c_username x) (a_topic a)) a)).
Qed.

Definition decided (d : mosquitto_db) (x : mosquitto) (topic : str) (access : Z) (id : str)
    (rules : list _mosquitto_acl) : Z :=
  if existsb (rule_grants access topic) (client_rules d x rules id)
  then MOSQ_ERR_SUCCESS else MOSQ_ERR_ACL_DENIED.

Lemma acl_walk_run d x topic access id rules :
  c_id x = Some id -> acl_entry d (c_acl_list x) = Some rules -> topic_ok topic ->
  Forall pattern_wf (d_acl_patterns d) -> Forall (fun r => filter_ok r.1) (client_rules d x rules id) ->
  wp (rules ← unwrap (acl_entry d (c_acl_list x));
      r ← unwrap (acl_user_loop rules topic access None);
      match r with
      | inl _ => mret MOSQ_ERR_SUCCESS
      | inr result =>
        id ← unwrap (c_id x);
        r ← unwrap (acl_pattern_loop (d_acl_patterns d) id (c_username x) topic access result);
        match r with
        | inl _ => mret MOSQ_ERR_SUCCESS
        | inr _ => mret MOSQ_ERR_ACL_DENIED
        end
      end) (fun rc d' => d' = d /\ rc = decided d x topic access id rules) d.
Proof.
  intros Hid Hrules Ht Hp Hok. wp_step. exists rules. split; [done|]. wp_step.
  destruct (acl_rules_decide d x topic access id rules None Ht Hp Hok) as (r1 & E1 & E2). rewrite E1.
  unfold decided, client_rules. rewrite existsb_app. eexists. split; [reflexivity|].
  destruct (existsb _ (map _ rules)); cbn [orb]; wp_step; [done|].
  exists id. split; [done|]. wp_step. destruct (E2 r1) as (r2 & ->). eexists. split; [reflexivity|].
  destruct (existsb _ _); by wp_step.
Qed.


Definition sample_acl_db : mosquitto_db :=
  db_calloc <| d_acl_list := [AclUser 5%nat (Some (lit "bob")) [Acl (lit "a/+") MOSQ_ACL_READ 0 0]] |>
    <| d_acl_patterns := [Acl (lit "p/%c") MOSQ_ACL_WRITE 0 1] |>
    <| d_contexts := {[1%nat := context_calloc <| c_id := Some (lit "me") |> <| c_acl_list := Some 5%nat |>]} |>.


(** A client id is put into a pattern as it is: a client that calls itself "+" is
    let into everybody's private topics. *)
Theorem acl_pattern_wildcard_id :
  let d := db_calloc <| d_acl_patterns := [Acl (lit "private/%c") MOSQ_ACL_READ 0 1] |>
    <| d_contexts := {[1%nat := context_calloc <| c_id := Some (lit "+") |>]} |> in
  wp (mosquitto_acl_check 1%nat (Some (lit "private/alice")) MOSQ_ACL_READ) (fun rc _ => rc = MOSQ_ERR_SUCCESS) d.
Proof. rewrite wp_eq. by vm_compute. Qed.

(** [_acl_cleanup] returns before it frees the patterns when no rule is tied to a
    user: they survive a reload. *)
Lemma acl_cleanup_keeps_patterns d :
  d_acl_list d = [] -> wp _acl_cleanup (fun rc d' => rc = MOSQ_ERR_SUCCESS /\ d' = d) d.
Proof. intros H. unfold _acl_cleanup. wp_step. rewrite bool_decide_eq_true_2 by done. by wp_step. Qed.

(** A blank line of a password file makes the parser read before the string. *)
Lemma pwfile_blank_line root : _pwfile_parse (Some [LF]) root = None.
Proof. by vm_compute. Qed.

(** * Passwords *)

Lemma find_first_split (f : _mosquitto_unpwd -> bool) l u :
  List.find f l = Some u <->
  exists before after, l = before ++ u :: after /\ f u = true /\ Forall (fun v => f v = false) before.
Proof.
  split.
  - induction l as [|v l IH]; [done|]. cbn [List.find]. destruct (f v) eqn:E.
    + intros [= <-]. by exists [], l.
    + intros H. destruct (IH H) as (before & after & -> & Hu & Hb). exists (v :: before), after.
      split; [done|]. split; [done|]. by constructor.
  - intros (before & after & -> & Hu & Hb). induction Hb as [|v before Hv _ IH]; cbn; [by rewrite Hu|by rewrite Hv].
Qed.

(** C34: [mosquitto_unpwd_check] without a plugin lets a client in exactly when no
    passwords are configured, or the first entry with its user name either has
    no password or the client's password, salted and digested, gives the stored
    hash; an unknown user, a missing name or a missing password are refused. *)
Theorem unpwd_check_spec `{Crypto} d username password :
  d_auth_plugin d = None -> (forall pw salt, exists h, _pw_digest pw salt = ROk h) ->
  mosquitto_unpwd_check d username password = MOSQ_ERR_SUCCESS <->
  d_unpwd d = [] \/
  exists before u after name, username = Some name /\ d_unpwd d = before ++ u :: after
    /\ Forall (fun v => u_username v <> name) before /\ u_username u = name
    /\ (u_password u = None \/
        exists hash pw, u_password u = Some hash /\ password = Some pw /\ _pw_digest pw (u_salt u) = ROk hash).
Proof.
  intros Hpl Hdig. unfold mosquitto_unpwd_check, mosquitto_unpwd_check_default. rewrite Hpl.
  destruct (d_unpwd d) as [|u0 us]; [split; [by left|done]|]. set (l := u0 :: us).
  assert (forall P, (l = [] \/ P) <-> P) as -> by (intros P; split; [by intros [?|?]|by right]).
  destruct username as [name|]; [|split; [done|]; by intros (? & ? & ? & ? & ? & _)].
  assert (forall u, check_password u password = MOSQ_ERR_SUCCESS <-> u_password u = None \/
    exists hash pw, u_password u = Some hash /\ password = Some pw /\ _pw_digest pw (u_salt u) = ROk hash) as Hcheck.
  { intros u. unfold check_password. destruct (u_password u) as [hash|]; [|by split; [left|]].
    destruct password as [pw|].
    - destruct (Hdig pw (u_salt u)) as [h Eh]. rewrite Eh. unfold streq. case_bool_decide as Ehh.
      + split; [|done]. intros _. right. subst h. by exists hash, pw.
      + split; [done|]. intros [?|(hash' & pw' & [= <-] & [= <-] & E)]; [done|]. congruence.
    - split; [done|]. by intros [?|(? & ? & _ & ? & _)]. }
  assert (forall before, Forall (fun v => streq (u_username v) name = false) before
            <-> Forall (fun v => u_username v <> name) before) as Hst.
  { intros before. apply Forall_proper; [|done]. intros v. unfold streq. apply bool_decide_eq_false. }
  destruct (List.find _ l) as [u|] eqn:Ef.
  - rewrite Hcheck. pose proof (proj1 (find_first_split _ _ _) Ef) as (before & after & El & Hu & Hb).
    apply bool_decide_eq_true_1 in Hu. apply Hst in Hb. split.
    + intros H'. by exists before, u, after, name.
    + intros (before' & u' & after' & name' & [= <-] & El' & Hb' & Hu' & H').
      assert (List.find (fun u => streq (u_username u) name) l = Some u') as Ef'.
      { apply find_first_split. exists before', after'. split; [done|].
        split; [by apply bool_decide_eq_true_2|by apply Hst]. }
      rewrite Ef in Ef'. by injection Ef' as ->.
  - split; [done|]. intros (before' & u' & after' & name' & [= <-] & El' & Hb' & Hu' & _).
    assert (List.find (fun u => streq (u_username u) name) l = Some u') as Ef'; [|congruence].
    apply find_first_split. exists before', after'. split; [done|].
    split; [by apply bool_decide_eq_true_2|by apply Hst].
Qed.

Lemma unpwd_check_spec_witness :
  let crypto := {| _pw_digest := fun pw salt => ROk (salt ++ pw); _base64_decode := Some |} in
  let d := db_calloc <| d_unpwd := [Unpwd (lit "bob") (Some (lit "saltpw")) (lit "salt")] |> in
  mosquitto_unpwd_check (H:=crypto) d (Some (lit "bob")) (Some (lit "pw")) = MOSQ_ERR_SUCCESS
  /\ mosquitto_unpwd_check (H:=crypto) d (Some (lit "bob")) (Some (lit "other")) <> MOSQ_ERR_SUCCESS.
Proof.
  intros crypto d. assert (forall pw salt, exists h, _pw_digest (Crypto:=crypto) pw salt = ROk h) as Hd by (intros; by eexists).
  split.
  - apply (unpwd_check_spec (H:=crypto) d); [done|done|]. right.
    exists [], (Unpwd (lit "bob") (Some (lit "saltpw")) (lit "salt")), [], (lit "bob").
    repeat split; [constructor|]. right. by exists (lit "saltpw"), (lit "pw").
  - intros E%(unpwd_check_spec (H:=crypto) d); [|done|done].
    destruct E as [?|(before & u & after & name & [= <-] & El & _ & _ & H)]; [done|].
    assert (u = Unpwd (lit "bob") (Some (lit "saltpw")) (lit "salt")) as ->.
    { destruct before as [|v [|? ?]]; [by injection El|done|done]. }
    destruct H as [?|(hash & pw & [= <-] & [= <-] & E)]; [done|]. by vm_compute in E.
Defined.
