(* ===== verification/Passwd.v ===== *)
(** The tool that keeps the password file: src/mosquitto_passwd.c, and that what it
    writes the broker understands.  A file is its contents; opening, copying and backing
    up files succeed or not as the arguments of [main] say; the prompts go to a terminal
    and are left out. *)

From S2P Require Export Security.

#[local] Open Scope Z_scope.

(** * The tool *)

(** OpenSSL's part: encoding, and the SHA-512 digest of some bytes ([None]: OpenSSL does
    not know it). *)
Class ToolCrypto := {
  base64_encode : list byte -> option str;
  sha512 : list byte -> option (list byte) }.

(** What [RAND_bytes] will give (nothing: not enough entropy), what will be typed, and
    what was written to the new file. *)
Record tool := Tool { tl_salts : list (list byte); tl_stdin : list byte; tl_out : list byte }.

#[global] Instance eta_tool : Eta tool := fun s => Tool (tl_salts s) (tl_stdin s) (tl_out s).

Section tool.
Context `{ToolCrypto}.

Abbreviation T := (ST tool).

(** [fprintf(fptr, "%s", s)] *)
Definition write_out (bs : list byte) : T unit := modify (fun s => s <| tl_out ::= (fun out => out ++ bs) |>).

Definition password_line (username : str) (salt64 hash64 : str) : list byte :=
  username ++ lit ":$6$" ++ salt64 ++ lit "$" ++ hash64 ++ [LF].

Definition output_new_password (username password : str) : T Z :=
  s ← get;
  match tl_salts s with
  | [] => mret 1
  | salt :: salts =>
    modify (fun s => s <| tl_salts := salts |>);;
    match base64_encode salt with
    | None => mret 1
    | Some salt64 =>
      match sha512 (password ++ salt) with
      | None => mret 1
      | Some hash =>
        match base64_encode hash with
        | None => mret 1
        | Some hash64 =>
          write_out (password_line username salt64 hash64);;
          mret 0
        end
      end
    end
  end.

Definition MAX_BUFFER_LEN : nat := 1024.

(** The lines that [fgets(buf, MAX_BUFFER_LEN, fptr)] gives. *)
Definition buffered_lines (contents : list byte) : list str := file_lines (pred MAX_BUFFER_LEN) contents.

(** [strcmp(username, token)] with a token that is NULL faults. *)
Definition token_is (username : str) (buf : str) : T bool :=
  t ← unwrap (strtok [COLON] buf);
  mret (streq username t.1).

Fixpoint delete_loop (lines : list str) (username : str) : T unit :=
  match lines with
  | [] => mret tt
  | buf :: lines =>
    mine ← token_is username buf;
    whenM (negb mine) (write_out buf);;
    delete_loop lines username
  end.

Definition delete_pwuser (contents : list byte) (username : str) : T Z :=
  delete_loop (buffered_lines contents) username;;
  mret 0.

Fixpoint update_loop (lines : list str) : T Z :=
  match lines with
  | [] => mret 0
  | buf :: lines =>
    match strtok [COLON] buf with
    | None => fault
    | Some (username, rest) =>
      match strtok [COLON] rest with
      | Some (password, _) =>
        rc ← output_new_password username (strip_eol password);
        if negb (rc =? 0) then mret rc else update_loop lines
      | None =>
        write_out username;;
        update_loop lines
      end
    end
  end.

Definition update_file (contents : list byte) : T Z := update_loop (buffered_lines contents).

(** [found] and [rc] as the loop leaves them. *)
Fixpoint user_loop (lines : list str) (username password : str) (found : bool) (rc : Z) : T (bool * Z) :=
  match lines with
  | [] => mret (found, rc)
  | buf :: lines =>
    mine ← token_is username buf;
    if mine : bool then
      rc ← output_new_password username password;
      user_loop lines username password true rc
    else
      write_out buf;;
      user_loop lines username password found rc
  end.

Definition update_pwuser (contents : list byte) (username password : str) : T Z :=
  '(found, rc) ← user_loop (buffered_lines contents) username password false 1;
  if found : bool then mret rc else output_new_password username password.

(** [None]: nothing could be read, or nothing is left without the end of the line. *)
Definition gets_quiet : T (option str) :=
  s ← get;
  match tl_stdin s with
  | [] => mret None
  | contents =>
    let '(line, rest) := fgets (pred MAX_BUFFER_LEN) contents in
    modify (fun s => s <| tl_stdin := rest |>);;
    line ← unwrap (strip_eol_unguarded (cstr line));
    mret (Some line)
  end.

(** The password, if it was typed twice. *)
Definition get_password : T (option str) :=
  pw1 ← gets_quiet;
  match pw1 with
  | None => mret None
  | Some pw1 =>
    pw2 ← gets_quiet;
    match pw2 with
    | None => mret None
    | Some pw2 => mret (if streq pw1 pw2 then Some pw1 else None)
    end
  end.

(** What the command line asks for. *)
Inductive action :=
| Create (file username : str)
| Delete (file username : str)
| UpdateFile (file : str)
| UpdateUser (file username : str) (password : option str).

(** An option that is not known is reported; with five arguments this does not end the program. *)
Definition parse_args (argv : list str) : option action :=
  match argv with
  | [_; option; file; username; password] =>
    Some (UpdateUser file username (if streq option (lit "-b") then Some password else None))
  | [_; option; file; username] =>
    if streq option (lit "-c") then Some (Create file username)
    else if streq option (lit "-D") then Some (Delete file username)
    else None
  | [_; option; file] =>
    Some (if streq option (lit "-U") then UpdateFile file else UpdateUser option file None)
  | _ => None
  end.

(** [main]: the exit status and the contents of the password file. [file] are its
    contents if it is there, [creatable] says whether it can be opened for writing. *)
Definition main (argv : list str) (creatable : bool) (file : option (list byte)) : T (Z * option (list byte)) :=
  match parse_args argv with
  | None => mret (1, file)
  | Some (Create _ username) =>
    password ← get_password;
    match password with
    | None => mret (1, file)
    | Some password =>
      if negb creatable then mret (1, file) else
      rc ← output_new_password username password;
      s ← get;
      mret (rc, Some (tl_out s))
    end
  | Some action =>
    match file with
    | None => mret (1, file)
    | Some contents =>
      rc ← (match action with
            | Delete _ username => delete_pwuser contents username
            | UpdateFile _ => update_file contents
            | UpdateUser _ username (Some password) => update_pwuser contents username password
            | UpdateUser _ username None =>
              password ← get_password;
              match password with
              | None => mret 1
              | Some password => update_pwuser contents username password
              end
            | Create _ _ => mret 0
            end);
      s ← get;
      mret (rc, Some (if rc =? 0 then tl_out s else contents))
    end
  end.
End tool.

(** * What the tool writes, the broker reads *)

(** An entry of the file. *)
Record pw_entry := PwEntry { pe_name : str; pe_salt : list byte; pe_hash : list byte }.

(** Characters of a field, and of a name. *)
Definition field_char (b : byte) : Prop := b ∉ [COLON; LF; CR; NUL].
Definition code_char (b : byte) : Prop := b ∉ [COLON; LF; CR; NUL; DOLLAR].

(** The longest name for which the broker's buffer takes the line. *)
Definition MAX_NAME : nat := 145.

Definition name_ok (name : str) : Prop := name <> [] /\ Forall field_char name /\ (length name <= MAX_NAME)%nat.

Definition entry_ok (e : pw_entry) : Prop :=
  name_ok (pe_name e) /\ length (pe_salt e) = 12%nat /\ length (pe_hash e) = 64%nat.

(** The user that the broker makes of it. *)
Definition user_of (e : pw_entry) : _mosquitto_unpwd := Unpwd (pe_name e) (Some (pe_hash e)) (pe_salt e).

Section files.
Context `{ToolCrypto, Crypto}.

(** Base64 without newlines, and the broker's decoder is its inverse. *)
Hypothesis base64_ok : forall bs, exists t, base64_encode bs = Some t /\ Forall code_char t
  /\ length t = (4 * ((length bs + 2) / 3))%nat /\ _base64_decode t = Some bs.

Definition b64 (bs : list byte) : str := default [] (base64_encode bs).

Lemma b64_ok bs : base64_encode bs = Some (b64 bs) /\ Forall code_char (b64 bs)
  /\ length (b64 bs) = (4 * ((length bs + 2) / 3))%nat /\ _base64_decode (b64 bs) = Some bs.
Proof. unfold b64. destruct (base64_ok bs) as (t & E & Ht). by rewrite E. Qed.

Lemma b64_nonempty bs : bs <> [] -> b64 bs <> [].
Proof.
  intros Hne E. destruct (b64_ok bs) as (_ & _ & Hl & _). rewrite E in Hl. destruct bs as [|b bs]; [done|]. cbn [length] in Hl.
  assert (1 <= (S (length bs) + 2) / 3)%nat by (apply Nat.div_le_lower_bound; lia). lia.
Qed.

Definition entry_line (e : pw_entry) : list byte := password_line (pe_name e) (b64 (pe_salt e)) (b64 (pe_hash e)).

Definition file_of (es : list pw_entry) : list byte := concat (map entry_line es).

(** The password field of the line. *)
Definition entry_code (e : pw_entry) : str := DOLLAR :: lit "6" ++ DOLLAR :: b64 (pe_salt e) ++ DOLLAR :: b64 (pe_hash e).

Lemma entry_line_eq e : entry_line e = pe_name e ++ COLON :: entry_code e ++ [LF].
Proof. unfold entry_line, password_line, entry_code. cbn. by rewrite <- !app_assoc. Qed.

Lemma code_field_char b : code_char b -> field_char b.
Proof. intros Hb Hin. apply Hb. revert Hin. rewrite !elem_of_cons. tauto. Qed.

Lemma entry_code_chars e : Forall field_char (entry_code e).
Proof.
  assert (field_char DOLLAR /\ field_char "6"%char) as [Hd H6] by (split; unfold field_char; by compute_done).
  assert (forall bs, Forall field_char (b64 bs)) as Hb by (intros bs; eapply Forall_impl; [apply b64_ok|exact code_field_char]).
  change (entry_code e) with (DOLLAR :: "6"%char :: DOLLAR :: b64 (pe_salt e) ++ DOLLAR :: b64 (pe_hash e)).
  do 3 (constructor; [done|]). apply Forall_app. split; [done|]. by constructor.
Qed.

Lemma entry_line_ok e : entry_ok e -> line_ok 255 (entry_line e).
Proof.
  intros ((Hne & Hn & Hl) & Hs & Hh). rewrite entry_line_eq.
  exists (pe_name e ++ COLON :: entry_code e). split; [by rewrite <- app_assoc|].
  assert (Forall (fun b => b <> LF /\ b <> NUL) (pe_name e ++ COLON :: entry_code e)) as Hc.
  { assert (forall b, field_char b -> b <> LF /\ b <> NUL) as Hf.
    { intros b Hb. split; intros ->; apply Hb; rewrite !elem_of_cons; tauto. }
    apply Forall_app. split; [by eapply Forall_impl|]. constructor; [done|]. eapply Forall_impl; [apply entry_code_chars|done]. }
  rewrite Forall_forall in Hc. split; [intros Hin; by destruct (Hc _ Hin)|]. split; [intros Hin; by destruct (Hc _ Hin)|].
  destruct (b64_ok (pe_salt e)) as (_ & _ & L1 & _), (b64_ok (pe_hash e)) as (_ & _ & L2 & _).
  rewrite Hs in L1. rewrite Hh in L2. change (4 * ((12 + 2) / 3))%nat with 16%nat in L1. change (4 * ((64 + 2) / 3))%nat with 88%nat in L2.
  rewrite !length_app. cbn [length]. rewrite length_app. unfold entry_code, MAX_NAME in *. cbn [length app lit].
  change (lit "6") with ["6"%char]. cbn [app length]. rewrite !length_app. cbn [length]. rewrite L1, L2. lia.
Qed.

Lemma name_no_eol name : Forall field_char name -> Forall (fun b => b <> LF /\ b <> CR) name.
Proof. intros Hn. eapply Forall_impl; [exact Hn|]. intros b Hb. split; intros ->; apply Hb; rewrite !elem_of_cons; tauto. Qed.

Lemma parse_entry e : entry_ok e -> parse_pw_line (entry_line e) = pl_entry (Unpwd (pe_name e) (Some (entry_code e)) []).
Proof.
  intros ((Hne & Hn & _) & _). unfold parse_pw_line. rewrite entry_line_eq.
  assert (forall l, Forall field_char l -> Forall (fun b => b ∉ [COLON]) l) as Hf.
  { intros l Hl. eapply Forall_impl; [exact Hl|]. intros b Hb ->%list_elem_of_singleton. apply Hb. rewrite !elem_of_cons. tauto. }
  rewrite (strtok_app [COLON] (pe_name e) COLON) by first [exact Hne|by apply Hf|by left].
  unfold strip_eol_unguarded. rewrite strip_eol_none by by apply name_no_eol.
  destruct (pe_name e) as [|b name] eqn:E; [done|].
  rewrite (strtok_all [COLON] (entry_code e ++ [LF])).
  - by rewrite strip_eol_line by apply name_no_eol, entry_code_chars.
  - done.
  - apply Forall_app. split; [apply Hf, entry_code_chars|]. constructor; [|constructor]. by intros ?%list_elem_of_singleton.
Qed.

Lemma decode_entry e : entry_ok e -> decode_password (Unpwd (pe_name e) (Some (entry_code e)) []) = (true, user_of e).
Proof.
  intros (_ & Hs & Hh). unfold decode_password. cbn [u_password u_username u_salt].
  assert (forall bs, Forall (fun b => b ∉ [DOLLAR]) (b64 bs)) as Hf.
  { intros bs. eapply Forall_impl; [apply b64_ok|]. intros b Hb ->%list_elem_of_singleton. apply Hb. rewrite !elem_of_cons. tauto. }
  assert (b64 (pe_salt e) <> [] /\ b64 (pe_hash e) <> []) as [N1 N2].
  { split; apply b64_nonempty; intros E; [rewrite E in Hs|rewrite E in Hh]; done. }
  assert (strtok [DOLLAR] (entry_code e) = Some (lit "6", b64 (pe_salt e) ++ DOLLAR :: b64 (pe_hash e))) as -> by done.
  change (negb (streq (lit "6") (lit "6"))) with false. cbv iota zeta.
  rewrite (strtok_app [DOLLAR] (b64 (pe_salt e)) DOLLAR) by first [done|by left].
  destruct (b64_ok (pe_salt e)) as (_ & _ & _ & ->). rewrite strtok_all by done.
  by destruct (b64_ok (pe_hash e)) as (_ & _ & _ & ->).
Qed.

(** The file as the broker parses it. *)
Lemma pwfile_entries es root : Forall entry_ok es ->
  pwfile_loop (map entry_line es) root = Some (root ++ map (fun e => Unpwd (pe_name e) (Some (entry_code e)) []) es).
Proof.
  intros He. revert root. induction He as [|e es He _ IH]; intros root; cbn [map pwfile_loop]; [by rewrite app_nil_r|].
  rewrite parse_entry by done. by rewrite IH, <- app_assoc.
Qed.

Lemma decode_entries es : Forall entry_ok es ->
  decode_passwords (map (fun e => Unpwd (pe_name e) (Some (entry_code e)) []) es) = (MOSQ_ERR_SUCCESS, map user_of es).
Proof. induction 1 as [|e es He _ IH]; cbn [map decode_passwords]; [done|]. by rewrite decode_entry, IH by done. Qed.

Lemma lines_of_file n es : (255 <= n)%nat -> Forall entry_ok es -> file_lines n (file_of es) = map entry_line es.
Proof.
  intros Hn He. apply file_lines_concat, Forall_map. eapply Forall_impl; [exact He|]. cbv beta.
  intros e (body & -> & H1 & H2 & H3)%entry_line_ok. exists body. by split_and!; [..|lia].
Qed.

Lemma broker_reads_file es d : Forall entry_ok es -> d_unpwd d = [] ->
  _unpwd_file_parse (Some (file_of es)) d = Some (MOSQ_ERR_SUCCESS, d <| d_unpwd := map user_of es |>).
Proof.
  intros He Hd.
  assert (wp (_unpwd_file_parse (Some (file_of es)))
    (fun rc d' => rc = MOSQ_ERR_SUCCESS /\ d' = d <| d_unpwd := map user_of es |>) d) as Hw.
  { unfold _unpwd_file_parse, _pwfile_parse. wp_step. rewrite lines_of_file by (done || lia).
    rewrite Hd, pwfile_entries by done. eexists. split; [reflexivity|]. cbn [app].
    change (negb (MOSQ_ERR_SUCCESS =? 0)) with false. cbv iota. rewrite decode_entries by done. by wp_step. }
  apply wp_some in Hw as (rc & d' & E & -> & ->). exact E.
Qed.
End files.

(** * What the tool does to a file of entries *)

Section entries.
Context `{ToolCrypto, Crypto}.

Hypothesis base64_ok : forall bs, exists t, base64_encode bs = Some t /\ Forall code_char t
  /\ length t = (4 * ((length bs + 2) / 3))%nat /\ _base64_decode t = Some bs.

(** SHA-512 gives 64 bytes, and the broker digests as the tool does. *)
Hypothesis sha512_ok : forall bs, exists h, sha512 bs = Some h /\ length h = 64%nat.
Hypothesis digest_ok : forall pw salt, _pw_digest pw salt = match sha512 (pw ++ salt) with Some h => ROk h | None => RErr 1 end.

Definition digest (bs : list byte) : list byte := default [] (sha512 bs).

Lemma digest_eq bs : sha512 bs = Some (digest bs) /\ length (digest bs) = 64%nat.
Proof. unfold digest. destruct (sha512_ok bs) as (h & E & Hh). by rewrite E. Qed.

(** The entry for a password. *)
Definition new_entry (name pw : str) (salt : list byte) : pw_entry := PwEntry name salt (digest (pw ++ salt)).

Definition salts_ok (n : nat) (s : tool) : Prop :=
  Forall (fun salt => length salt = 12%nat) (tl_salts s) /\ (n <= length (tl_salts s))%nat.

Lemma new_entry_ok name pw salt : name_ok name -> length salt = 12%nat -> entry_ok (new_entry name pw salt).
Proof. intros Hn Hs. split; [done|]. split; [done|]. apply digest_eq. Qed.

Lemma output_run name pw s : salts_ok 1 s ->
  exists salt salts, tl_salts s = salt :: salts /\ length salt = 12%nat
  /\ output_new_password name pw s
     = Some (0, s <| tl_salts := salts |> <| tl_out ::= (fun out => out ++ entry_line (new_entry name pw salt)) |>).
Proof.
  intros [Hs Hl]. destruct (tl_salts s) as [|salt salts] eqn:E; [cbn in Hl; lia|]. apply Forall_cons in Hs as [Hs _].
  exists salt, salts. split; [done|]. split; [done|].
  assert (wp (output_new_password name pw) (fun rc s' => rc = 0
    /\ s' = s <| tl_salts := salts |> <| tl_out ::= (fun out => out ++ entry_line (new_entry name pw salt)) |>) s) as Hw.
  { unfold output_new_password. wp_step. rewrite E. wp_step. destruct (b64_ok base64_ok salt) as (-> & _).
    destruct (digest_eq (pw ++ salt)) as [-> _]. destruct (b64_ok base64_ok (digest (pw ++ salt))) as (-> & _).
    unfold write_out. wp_step. done. }
  apply wp_some in Hw as (rc & s' & E' & -> & ->). exact E'.
Qed.

Lemma token_is_run name e s : entry_ok e -> token_is name (entry_line e) s = Some (streq name (pe_name e), s).
Proof.
  intros ((Hne & Hn & _) & _). unfold token_is. rewrite entry_line_eq.
  rewrite (strtok_app [COLON] (pe_name e) COLON); [done|done| |by left].
  eapply Forall_impl; [exact Hn|]. intros b Hb ->%list_elem_of_singleton. apply Hb. rewrite !elem_of_cons. tauto.
Qed.

Definition is_other (name : str) (e : pw_entry) : bool := negb (streq name (pe_name e)).

(** The entries for [name] are replaced by new ones for the password, or there is one at the end. *)
Record password_set (name pw : str) (es es' : list pw_entry) : Prop := PasswordSet {
  ps_ok : Forall entry_ok es';
  ps_others : List.filter (is_other name) es' = List.filter (is_other name) es;
  ps_new : Forall (fun e => pe_name e = name -> exists salt, e = new_entry name pw salt) es' }.

Lemma user_loop_run name pw es found rc s : name_ok name -> Forall entry_ok es -> salts_ok (length es) s ->
  (found = true -> rc = 0) ->
  exists es' found' rc' s', user_loop (map entry_line es) name pw found rc s = Some ((found', rc'), s')
    /\ tl_out s' = tl_out s ++ file_of es' /\ password_set name pw es es'
    /\ Forall (fun salt => length salt = 12%nat) (tl_salts s') /\ (length (tl_salts s) <= length (tl_salts s') + length es)%nat
    /\ (found' = true -> rc' = 0 /\ (found = true \/ exists e, e ∈ es' /\ pe_name e = name)).
Proof.
  intros Hn He. revert found rc s. induction He as [|e es He Hes IH]; intros found rc s Hs Hf; cbn [map user_loop].
  { exists [], found, rc, s. split; [done|]. split; [by rewrite app_nil_r|]. split; [by split|].
    split; [apply Hs|]. split; [cbn; lia|]. auto. }
  pose proof Hs as [Hs1 Hs2]. cbn [length] in Hs2.
  unfold mbind, st_bind at 1. rewrite token_is_run by done. destruct (streq name (pe_name e)) eqn:En.
  - assert (is_other name e = false /\ forall salt, is_other name (new_entry name pw salt) = false) as [O1 O2].
    { unfold is_other. split; [by rewrite En|]. intros salt. unfold streq. cbn [pe_name new_entry]. by rewrite bool_decide_eq_true_2. }
    apply bool_decide_eq_true_1 in En. destruct (output_run name pw s) as (salt & salts & E & Hsalt & Eo); [split; [done|lia]|].
    unfold st_bind at 1. rewrite Eo. set (s1 := _ <| tl_out ::= _ |>). rewrite E in Hs1, Hs2. apply Forall_cons in Hs1 as [_ Hs1].
    destruct (IH true 0 s1) as (es' & found' & rc' & s' & E' & Ho & [P1 P2 P3] & Hs' & Hl' & Hf'); [split; [done|cbn in *; lia]|done|].
    exists (new_entry name pw salt :: es'), found', rc', s'. split; [exact E'|].
    split; [rewrite Ho; unfold s1; proj_simpl; unfold file_of; cbn [map concat]; by rewrite app_assoc|].
    split; [split|].
    + constructor; [by apply new_entry_ok|done].
    + cbn [List.filter]. rewrite O1, O2. exact P2.
    + constructor; [by exists salt|done].
    + split; [done|]. split; [rewrite E; unfold s1 in Hl'; cbn in *; lia|]. intros Ef. destruct (Hf' Ef) as [? _]. split; [done|].
      right. exists (new_entry name pw salt). split; [by left|done].
  - unfold st_bind at 1, write_out at 1, modify at 1. set (s1 := _ <| tl_out ::= _ |>).
    destruct (IH found rc s1) as (es' & found' & rc' & s' & E' & Ho & [P1 P2 P3] & Hs' & Hl' & Hf'); [split; [done|cbn in *; lia]|done|].
    exists (e :: es'), found', rc', s'. split; [exact E'|].
    split; [rewrite Ho; unfold s1; proj_simpl; unfold file_of; cbn [map concat]; by rewrite app_assoc|].
    split; [split|].
    + by constructor.
    + assert (is_other name e = true) as O1 by (unfold is_other; by rewrite En). cbn [List.filter]. rewrite O1. f_equal. exact P2.
    + constructor; [intros E; by apply bool_decide_eq_false_1 in En|done].
    + split; [done|]. split; [unfold s1 in Hl'; cbn in *; lia|]. intros Ef. destruct (Hf' Ef) as [? [?|(e' & ? & ?)]]; split; [done| |done|]; [by left|].
      right. exists e'. split; [by right|done].
Qed.

Lemma update_pwuser_run name pw es s : name_ok name -> Forall entry_ok es -> salts_ok (S (length es)) s -> tl_out s = [] ->
  exists es' s', update_pwuser (file_of es) name pw s = Some (0, s') /\ tl_out s' = file_of es'
    /\ password_set name pw es es' /\ exists e, e ∈ es' /\ pe_name e = name.
Proof.
  intros Hn He [Hs Hl] Ho. unfold update_pwuser, buffered_lines. rewrite (lines_of_file base64_ok) by (try done; cbn; lia).
  destruct (user_loop_run name pw es false 1 s) as (es' & found & rc & s' & E & Eo & Hp & Hs' & Hl' & Hf); try done; [split; [done|lia]|].
  unfold mbind, st_bind. rewrite E. rewrite Ho in Eo. destruct found.
  - destruct (Hf eq_refl) as [-> [?|Hin]]; [done|]. by exists es', s'.
  - destruct (output_run name pw s') as (salt & salts & E' & Hsalt & Eout); [split; [done|lia]|]. rewrite Eout.
    exists (es' ++ [new_entry name pw salt]), (s' <| tl_salts := salts |> <| tl_out ::= (fun out => out ++ entry_line (new_entry name pw salt)) |>).
    split; [done|]. split; [proj_simpl; rewrite Eo; unfold file_of; rewrite map_app, concat_app; cbn; by rewrite app_nil_r|].
    destruct Hp as [P1 P2 P3]. split; [split|].
    + apply Forall_app. split; [done|]. apply Forall_singleton. by apply new_entry_ok.
    + rewrite List.filter_app, P2. cbn [List.filter]. unfold is_other at 2, streq. cbn [pe_name new_entry].
      rewrite bool_decide_eq_true_2 by done. by rewrite app_nil_r.
    + apply Forall_app. split; [done|]. apply Forall_singleton. by exists salt.
    + exists (new_entry name pw salt). split; [|done]. apply elem_of_app. right. by left.
Qed.

(** Deleting a user removes his entries and nothing else. *)
Lemma delete_pwuser_run name es s : Forall entry_ok es ->
  delete_pwuser (file_of es) name s
  = Some (0, s <| tl_out ::= (fun out => out ++ file_of (List.filter (is_other name) es)) |>).
Proof.
  intros He. unfold delete_pwuser, buffered_lines. rewrite (lines_of_file base64_ok) by (try done; cbn; lia).
  assert (forall a b out, delete_loop (map entry_line es) name (Tool a b out)
    = Some (tt, Tool a b (out ++ file_of (List.filter (is_other name) es)))) as Hloop.
  { induction He as [|e es He _ IH]; intros a b out; cbn [map delete_loop List.filter].
    - unfold file_of. cbn [map concat]. by rewrite app_nil_r.
    - unfold mbind, st_bind at 1. rewrite token_is_run by done. unfold is_other at 1.
      destruct (streq name (pe_name e)); cbn [negb whenM]; unfold st_bind at 1; [exact (IH a b out)|].
      unfold write_out, modify. change ((Tool a b out) <| tl_out ::= (fun out => out ++ entry_line e) |>) with (Tool a b (out ++ entry_line e)).
      rewrite IH. unfold file_of. cbn [map concat]. by rewrite app_assoc. }
  destruct s as [a b out]. unfold mbind, st_bind. by rewrite Hloop.
Qed.

(** Who is looked for among the others only. *)
Lemma find_others name other es : other <> name ->
  List.find (fun u => streq (u_username u) other) (map user_of es)
  = List.find (fun u => streq (u_username u) other) (map user_of (List.filter (is_other name) es)).
Proof.
  intros Hne. induction es as [|e es IH]; [done|]. cbn [map List.find List.filter].
  destruct (is_other name e) eqn:E; cbn [map List.find]; [by destruct (streq _ _)|].
  unfold is_other, streq in E. apply negb_false_iff, bool_decide_eq_true_1 in E. cbn [user_of u_username].
  unfold streq at 1. by rewrite bool_decide_eq_false_2 by congruence.
Qed.

Lemma check_entry_password e pw : check_password (user_of e) (Some pw) = MOSQ_ERR_SUCCESS <-> digest (pw ++ pe_salt e) = pe_hash e.
Proof.
  unfold check_password, user_of. cbn [u_password u_salt]. rewrite digest_ok. destruct (digest_eq (pw ++ pe_salt e)) as [-> _].
  unfold streq. case_bool_decide; by split.
Qed.

End entries.

(** * Base64, as an instance *)

Definition alphabet : str := lit "ABCDEFGHIJKLMNOPQRSTUVWXYZabcdefghijklmnopqrstuvwxyz0123456789+/".

Definition EQUALS : byte := "="%char.

Definition b64_char (i : Z) : byte := nth (Z.to_nat i) alphabet EQUALS.

Fixpoint position (b : byte) (l : list byte) : Z :=
  match l with
  | [] => 0
  | c :: l => if decide (b = c) then 0 else 1 + position b l
  end.

Lemma b64_char_ok i : 0 <= i < 64 ->
  position (b64_char i) alphabet = i /\ b64_char i <> EQUALS /\ code_char (b64_char i).
Proof.
  intros Hi.
  assert (forallb (fun n => bool_decide (position (b64_char (Z.of_nat n)) alphabet = Z.of_nat n /\ b64_char (Z.of_nat n) <> EQUALS
    /\ b64_char (Z.of_nat n) ∉ [COLON; LF; CR; NUL; DOLLAR])) (seq 0 64) = true) as H by (vm_compute; reflexivity).
  rewrite forallb_forall in H. specialize (H (Z.to_nat i)). rewrite Z2Nat.id in H by lia.
  apply bool_decide_eq_true_1 in H; [exact H|]. apply in_seq. lia.
Qed.

Fixpoint enc64 (bs : list byte) : str :=
  match bs with
  | a :: b :: c :: bs =>
    let '(x, y, z) := (Z_of_byte a, Z_of_byte b, Z_of_byte c) in
    b64_char (x / 4) :: b64_char (x mod 4 * 16 + y / 16) :: b64_char (y mod 16 * 4 + z / 64) :: b64_char (z mod 64) :: enc64 bs
  | [a; b] =>
    let '(x, y) := (Z_of_byte a, Z_of_byte b) in
    [b64_char (x / 4); b64_char (x mod 4 * 16 + y / 16); b64_char (y mod 16 * 4); EQUALS]
  | [a] => [b64_char (Z_of_byte a / 4); b64_char (Z_of_byte a mod 4 * 16); EQUALS; EQUALS]
  | [] => []
  end.

Fixpoint dec64 (s : str) : option (list byte) :=
  match s with
  | [] => Some []
  | p :: q :: r :: t :: s =>
    let v b := position b alphabet in
    let a := byte_of_Z (v p * 4 + v q / 16) in
    let b := byte_of_Z (v q mod 16 * 16 + v r / 4) in
    let c := byte_of_Z (v r mod 4 * 64 + v t) in
    if decide (r = EQUALS) then Some [a]
    else if decide (t = EQUALS) then Some [a; b]
    else (fun bs => a :: b :: c :: bs) <$> dec64 s
  | _ => None
  end.

Lemma enc64_ok bs : Forall code_char (enc64 bs) /\ length (enc64 bs) = (4 * ((length bs + 2) / 3))%nat
  /\ dec64 (enc64 bs) = Some bs.
Proof.
  assert (code_char EQUALS) as He by (unfold code_char; by compute_done).
  assert (forall z b, z = Z_of_byte b -> byte_of_Z z = b) as Hb by (intros z b ->; apply byte_of_Z_of_byte).
  remember (length bs) as n eqn:En. revert bs En. induction n as [n IH] using lt_wf_ind. intros bs ->.
  destruct bs as [|a [|b [|c bs]]]; [done|..].
  - cbn [enc64 dec64 length]. pose proof (Z_of_byte_range a) as Ha. set (x := Z_of_byte a) in *.
    destruct (b64_char_ok (x / 4)) as (V1 & N1 & C1); [Z.to_euclidean_division_equations; lia|].
    destruct (b64_char_ok (x mod 4 * 16)) as (V2 & N2 & C2); [Z.to_euclidean_division_equations; lia|].
    split; [by repeat constructor|]. split; [done|]. rewrite decide_True by done. rewrite V1, V2. do 2 f_equal.
    apply Hb. Z.to_euclidean_division_equations. lia.
  - cbn [enc64 dec64 length]. pose proof (Z_of_byte_range a) as Ha. pose proof (Z_of_byte_range b) as Hb'.
    set (x := Z_of_byte a) in *. set (y := Z_of_byte b) in *.
    destruct (b64_char_ok (x / 4)) as (V1 & N1 & C1); [Z.to_euclidean_division_equations; lia|].
    destruct (b64_char_ok (x mod 4 * 16 + y / 16)) as (V2 & N2 & C2); [Z.to_euclidean_division_equations; lia|].
    destruct (b64_char_ok (y mod 16 * 4)) as (V3 & N3 & C3); [Z.to_euclidean_division_equations; lia|].
    split; [by repeat constructor|]. split; [done|]. rewrite decide_False, decide_True by done. rewrite V1, V2, V3.
    do 2 f_equal; [|f_equal]; apply Hb; Z.to_euclidean_division_equations; lia.
  - cbn [enc64 dec64]. pose proof (Z_of_byte_range a) as Ha. pose proof (Z_of_byte_range b) as Hb'. pose proof (Z_of_byte_range c) as Hc.
    set (x := Z_of_byte a) in *. set (y := Z_of_byte b) in *. set (z := Z_of_byte c) in *.
    destruct (b64_char_ok (x / 4)) as (V1 & N1 & C1); [Z.to_euclidean_division_equations; lia|].
    destruct (b64_char_ok (x mod 4 * 16 + y / 16)) as (V2 & N2 & C2); [Z.to_euclidean_division_equations; lia|].
    destruct (b64_char_ok (y mod 16 * 4 + z / 64)) as (V3 & N3 & C3); [Z.to_euclidean_division_equations; lia|].
    destruct (b64_char_ok (z mod 64)) as (V4 & N4 & C4); [Z.to_euclidean_division_equations; lia|].
    destruct (IH (length bs)) with (bs := bs) as (F & L & D); [cbn; lia|done|].
    split; [by repeat constructor|]. split.
    + cbn [length]. rewrite L. replace (S (S (S (length bs))) + 2)%nat with (length bs + 2 + 1 * 3)%nat by lia.
      rewrite Nat.div_add by done. lia.
    + rewrite !decide_False by done. rewrite D, V1, V2, V3, V4. cbn. do 2 f_equal; [|f_equal; [|f_equal]]; apply Hb;
        Z.to_euclidean_division_equations; lia.
Qed.

(** * On concrete files *)

Definition pad64 (bs : list byte) : list byte := take 64 (bs ++ replicate 64 "0"%char).

#[local] Instance sample_tool_crypto : ToolCrypto :=
  {| base64_encode := fun bs => Some (enc64 bs); sha512 := fun bs => Some (pad64 bs) |}.
#[local] Instance sample_file_crypto : Crypto :=
  {| _pw_digest := fun pw salt => ROk (pad64 (pw ++ salt)); _base64_decode := dec64 |}.

Definition sample_salts : tool := Tool [lit "salt-number1"; lit "salt-number2"] [] [].

Definition sample_entries : list pw_entry :=
  [PwEntry (lit "alice") (lit "salt-number0") (pad64 (lit "secretsalt-number0"))].

Lemma sample_base64 bs : exists t, base64_encode bs = Some t /\ Forall code_char t
  /\ length t = (4 * ((length bs + 2) / 3))%nat /\ _base64_decode t = Some bs.
Proof. exists (enc64 bs). split; [done|apply enc64_ok]. Qed.

Lemma pad64_length bs : length (pad64 bs) = 64%nat.
Proof. unfold pad64. rewrite length_take, length_app, length_replicate. lia. Qed.


(** What a run leaves in the file. *)
Definition file_after (argv : list str) (contents : list byte) : option (list byte) :=
  match main argv true (Some contents) sample_salts with Some ((_, f), _) => f | None => None end.

(** The users that the broker finds in it. *)
Definition users_in (contents : list byte) : option (Z * list str) :=
  match _unpwd_file_parse (Some contents) db_calloc with
  | Some (rc, d) => Some (rc, map u_username (d_unpwd d))
  | None => None
  end.

(** A last line without a newline, as editors may leave it, and the line for a new user
    become one: the broker does not know the new user. *)
Lemma passwd_joins_lines :
  let old := removelast (file_of sample_entries) in
  users_in old = Some (MOSQ_ERR_SUCCESS, [lit "alice"])
  /\ (file_after [lit "mosquitto_passwd"; lit "-b"; lit "f"; lit "bob"; lit "pw"] old ≫= users_in)
     = Some (MOSQ_ERR_SUCCESS, [lit "alice"]).
Proof. by vm_compute. Qed.

(** A name with a colon is taken, and the broker refuses the whole file. *)
Lemma passwd_takes_colon :
  (file_after [lit "mosquitto_passwd"; lit "-b"; lit "f"; lit "a:b"; lit "pw"] (file_of sample_entries) ≫= users_in)
  = Some (MOSQ_ERR_INVAL, [lit "alice"; lit "a"]).
Proof. by vm_compute. Qed.

(** An empty password typed at the prompt makes the tool read before the buffer. *)
Lemma passwd_empty_prompt : get_password (Tool [] [LF] []) = None.
Proof. done. Qed.

(** Once the last user is deleted, the broker that loads the file lets anybody in. *)
Lemma passwd_last_user_deleted username password :
  file_after [lit "mosquitto_passwd"; lit "-D"; lit "f"; lit "alice"] (file_of sample_entries) = Some []
  /\ exists d, _unpwd_file_parse (Some []) db_calloc = Some (MOSQ_ERR_SUCCESS, d)
     /\ mosquitto_unpwd_check d username password = MOSQ_ERR_SUCCESS.
Proof. split; [by vm_compute|]. eexists. split; [by vm_compute|]. done. Qed.
