(* ===== verification/Subs.v ===== *)
(** The subscription tree: src/subs.c.  A topic is cut into tokens, each level of the
    tree is a chain of sibling nodes ([h_next]), and the path of tokens from a root
    leads to the node that keeps the subscribers and the retained message of that
    topic.  The functions that change the tree return the new one; a node's address
    is what a context's [c_subs] refers to. *)

From S2P Require Export Database Security.
#[local] Open Scope Z_scope.

(** * Tokens *)

Definition _sub_topic_append (topics : list str) (topic : str) : list str := topics ++ [topic].

(** [for(i=start; i<len+1; i++)]: [token] is what was passed since [start]. *)
Fixpoint tokenise_loop (rest token : str) (topics : list str) : list str :=
  match rest with
  | [] => _sub_topic_append topics token
  | c :: rest =>
    if decide (c = SLASH) then tokenise_loop rest [] (_sub_topic_append topics token)
    else tokenise_loop rest (token ++ [c]) topics
  end.

Definition _sub_topic_tokenise (subtopic : str) : list str :=
  let topics := if bool_decide (cget subtopic 0 = DOLLAR) then [] else _sub_topic_append [] [] in
  if bool_decide (cget subtopic 0 = SLASH)
  then tokenise_loop (drop 1 subtopic) [] (_sub_topic_append topics [])
  else tokenise_loop subtopic [] topics.

(** * Adding a subscription *)

(** The client has a leaf here already: only its QoS changes. *)
Fixpoint resubscribe (id : str) (qos : Z) (subs : list _mosquitto_subleaf)
    : M (option (list _mosquitto_subleaf)) :=
  match subs with
  | [] => mret None
  | leaf :: subs =>
    y ← get_ctx (lf_context leaf);
    if bool_decide (c_id y = Some id) then mret (Some (Leaf (lf_context leaf) qos :: subs))
    else r ← resubscribe id qos subs; mret (cons leaf <$> r)
  end.

(** [context->subs]: the first free slot, or one more. *)
Fixpoint fill_slot (a : addr) (l : list (option addr)) : list (option addr) :=
  match l with
  | [] => [Some a]
  | None :: l => Some a :: l
  | Some b :: l => Some b :: fill_slot a l
  end.

(** The end of [_sub_add], at the node [a] of the last token. *)
Definition add_leaf (context : option addr) (qos : Z) (a : addr) (subs : list _mosquitto_subleaf)
    : M (Z * list _mosquitto_subleaf) :=
  match context with
  | None => mret (MOSQ_ERR_SUCCESS, subs)
  | Some c =>
    x ← get_ctx c;
    match c_id x with
    | None => mret (MOSQ_ERR_SUCCESS, subs)
    | Some id =>
      r ← resubscribe id qos subs;
      match r with
      | Some subs => mret (if bool_decide (c_protocol x = mosq_p_mqtt31) then -1 else 0, subs)
      | None =>
        upd_ctx c (fun x => x <| c_subs ::= fill_slot a |>);;
        modify (fun d => d <| d_subscription_count ::= Z.succ |>);;
        mret (MOSQ_ERR_SUCCESS, subs ++ [Leaf c qos])
      end
    end
  end.

(** [while(branch)]: go on with the child of that topic, or with a new last one. *)
Fixpoint branch_add (topic : str) (add : _mosquitto_subhier -> M (Z * _mosquitto_subhier))
    (branch : _mosquitto_subhier) : M (Z * _mosquitto_subhier) :=
  match branch with
  | HNil => a ← malloc; add (HNode a topic [] None HNil HNil)
  | HNode a t subs retained children next =>
    if streq t topic then add branch
    else '(rc, next) ← branch_add topic add next; mret (rc, HNode a t subs retained children next)
  end.

Fixpoint _sub_add (context : option addr) (qos : Z) (tokens : list str) (subhier : _mosquitto_subhier)
    : M (Z * _mosquitto_subhier) :=
  match subhier with
  | HNil => fault
  | HNode a topic subs retained children next =>
    match tokens with
    | [] =>
      '(rc, subs) ← add_leaf context qos a subs;
      mret (rc, HNode a topic subs retained children next)
    | t :: tokens =>
      '(rc, children) ← branch_add t (_sub_add context qos tokens) children;
      mret (rc, HNode a topic subs retained children next)
    end
  end.

(** Replace the first node of a chain that has this topic. *)
Fixpoint on_root {A} (topic : str) (f : _mosquitto_subhier -> M (A * _mosquitto_subhier))
    (root : _mosquitto_subhier) : M (option (A * _mosquitto_subhier)) :=
  match root with
  | HNil => mret None
  | HNode a t subs retained children next =>
    if streq t topic then r ← f root; mret (Some r)
    else
      r ← on_root topic f next;
      mret (prod_map id (HNode a t subs retained children) <$> r)
  end.

Definition mqtt3_sub_add (context : addr) (sub : str) (qos : Z) : M Z :=
  let tokens := _sub_topic_tokenise sub in
  topic ← unwrap (head tokens);
  root ← gets d_subs;
  r ← on_root topic (_sub_add (Some context) qos tokens) root;
  '(rc, root) ←
    (match r with
     | Some r => mret r
     | None =>
       a ← malloc;
       _sub_add (Some context) qos tokens (HNode a topic [] None HNil root)
     end);
  modify (fun d => d <| d_subs := root |>);;
  mret (if rc =? -1 then MOSQ_ERR_SUCCESS else rc).

(** * Removing a subscription *)

Fixpoint unlink_leaf (c : addr) (subs : list _mosquitto_subleaf) : option (list _mosquitto_subleaf) :=
  match subs with
  | [] => None
  | leaf :: subs => if decide (lf_context leaf = c) then Some subs else cons leaf <$> unlink_leaf c subs
  end.

Fixpoint clear_slot (a : addr) (l : list (option addr)) : list (option addr) :=
  match l with
  | [] => []
  | p :: l => if decide (p = Some a) then None :: l else p :: clear_slot a l
  end.

(** The end of [_sub_remove], at the node [a] of the last token. *)
Definition remove_leaf (c : addr) (a : addr) (subs : list _mosquitto_subleaf)
    : M (list _mosquitto_subleaf) :=
  match unlink_leaf c subs with
  | None => mret subs
  | Some subs =>
    modify (fun d => d <| d_subscription_count ::= Z.pred |>);;
    upd_ctx c (fun x => x <| c_subs ::= clear_slot a |>);;
    mret subs
  end.

(** A child that is left with nothing is freed. *)
Definition prune (branch : _mosquitto_subhier) : _mosquitto_subhier :=
  match branch with
  | HNode _ _ [] None HNil next => next
  | _ => branch
  end.

Fixpoint branch_remove (topic : str) (remove : _mosquitto_subhier -> M _mosquitto_subhier)
    (branch : _mosquitto_subhier) : M _mosquitto_subhier :=
  match branch with
  | HNil => mret HNil
  | HNode a t subs retained children next =>
    if streq t topic then branch ← remove branch; mret (prune branch)
    else next ← branch_remove topic remove next; mret (HNode a t subs retained children next)
  end.

Fixpoint _sub_remove (c : addr) (tokens : list str) (subhier : _mosquitto_subhier)
    : M _mosquitto_subhier :=
  match subhier with
  | HNil => fault
  | HNode a topic subs retained children next =>
    match tokens with
    | [] =>
      subs ← remove_leaf c a subs;
      mret (HNode a topic subs retained children next)
    | t :: tokens =>
      children ← branch_remove t (_sub_remove c tokens) children;
      mret (HNode a topic subs retained children next)
    end
  end.

Definition mqtt3_sub_remove (context : addr) (sub : str) : M Z :=
  let tokens := _sub_topic_tokenise sub in
  topic ← unwrap (head tokens);
  root ← gets d_subs;
  r ← on_root topic (fun h => h ← _sub_remove context tokens h; mret (tt, h)) root;
  (match r with
   | Some (_, root) => modify (fun d => d <| d_subs := root |>)
   | None => mret tt
   end);;
  mret 0.

(** * Publishing *)

(** [if(retain && set_retain)]: the slot of the node becomes the message, or empty
    for an empty payload. *)
Definition set_retained (topic : str) (stored : addr) (retained : option addr) : M (option addr) :=
  whenM (negb (strneq topic (lit "$SYS") 4))
    (modify (fun d => d <| d_persistence_changes ::= Z.succ |>));;
  (match retained with
   | Some s =>
     mosquitto__db_msg_store_deref s;;
     modify (fun d => d <| d_retained_count ::= Z.pred |>)
   | None => mret tt
   end);;
  st ← get_store stored;
  if negb (s_payloadlen st =? 0) then
    upd_store stored (fun st => st <| s_ref_count ::= Z.succ |>);;
    modify (fun d => d <| d_retained_count ::= Z.succ |>);;
    mret (Some stored)
  else mret None.

Definition delivered_qos (d : mosquitto_db) (client_qos qos : Z) : Z :=
  if cf_upgrade_outgoing_qos (d_config d) then client_qos
  else if client_qos <? qos then client_qos else qos.

(** A bridge is not sent back what it published. *)
Definition is_echo (source_id : str) (x : mosquitto) : bool :=
  bool_decide (c_id x = None) || (c_is_bridge x && bool_decide (c_id x = Some source_id)).

(** [while(source_id && leaf)] *)
Fixpoint leaf_loop (source_id topic : str) (qos : Z) (retain : bool) (stored : addr)
    (subs : list _mosquitto_subleaf) (rc : Z) : M Z :=
  match subs with
  | [] => mret rc
  | leaf :: subs =>
    x ← get_ctx (lf_context leaf);
    if is_echo source_id x then leaf_loop source_id topic qos retain stored subs rc else
    rc2 ← mosquitto_acl_check (lf_context leaf) (Some topic) MOSQ_ACL_READ;
    if rc2 =? MOSQ_ERR_ACL_DENIED then leaf_loop source_id topic qos retain stored subs rc
    else if rc2 =? MOSQ_ERR_SUCCESS then
      msg_qos ← gets (fun d => delivered_qos d (lf_qos leaf) qos);
      mid ← (if negb (msg_qos =? 0) then _mosquitto_mid_generate (lf_context leaf) else mret 0);
      let client_retain := if c_is_bridge x then retain else false in
      r ← mqtt3_db_message_insert (lf_context leaf) mid mosq_md_out msg_qos client_retain stored;
      leaf_loop source_id topic qos retain stored subs (if r =? 1 then 1 else rc)
    else mret 1
  end.

Definition notify (source_id : option str) (topic : str) (qos : Z) (retain : bool) (stored : addr)
    (subs : list _mosquitto_subleaf) : M unit :=
  match source_id with
  | Some id => leaf_loop id topic qos retain stored subs 0;; mret tt
  | None => mret tt
  end.

(** The result is the new retained slot; the result of the code is not used. *)
Definition _subs_process (subs : list _mosquitto_subleaf) (retained : option addr)
    (source_id : option str) (topic : str) (qos : Z) (retain : bool) (stored : addr)
    (set_retain : bool) : M (option addr) :=
  retained ← (if retain && set_retain then set_retained topic stored retained else mret retained);
  notify source_id topic qos retain stored subs;;
  mret retained.

Definition is_nil (h : _mosquitto_subhier) : bool := match h with HNil => true | _ => false end.

Section search.
Variables (source_id : option str) (topic : str) (qos : Z) (retain : bool) (stored : addr).

(** [_sub_search] on the chain of children [branch]. *)
Fixpoint _sub_search (branch : _mosquitto_subhier) (tokens : list str) (set_retain : bool)
    : M _mosquitto_subhier :=
  match branch with
  | HNil => mret HNil
  | HNode a t subs retained children next =>
    let hash :=
      if streq t [HASH] && is_nil children then
        retained ← _subs_process subs retained source_id topic qos retain stored false;
        mret (retained, children)
      else mret (retained, children) in
    '(retained, children) ←
      (match tokens with
       | token :: tokens =>
         if streq t token || streq t [PLUS] then
           let sr := if streq t [PLUS] then false else set_retain in
           children ← _sub_search children tokens sr;
           if bool_decide (tokens = []) then
             retained ← _subs_process subs retained source_id topic qos retain stored sr;
             mret (retained, children)
           else mret (retained, children)
         else hash
       | [] => hash
       end);
    next ← _sub_search next tokens set_retain;
    mret (HNode a t subs retained children next)
  end.

(** [while(subhier)] of [mqtt3_db_messages_queue]: every root of that topic. *)
Fixpoint queue_roots (root : _mosquitto_subhier) (tokens : list str) : M _mosquitto_subhier :=
  match root with
  | HNil => mret HNil
  | HNode a t subs retained children next =>
    '(retained, children) ←
      (if bool_decide (head tokens = Some t) then
         h ← (if retain then '(_, h) ← _sub_add None 0 tokens root; mret h else mret root);
         match h with
         | HNil => fault
         | HNode _ _ _ retained children _ =>
           children ← _sub_search children tokens true;
           mret (retained, children)
         end
       else mret (retained, children));
    next ← queue_roots next tokens;
    mret (HNode a t subs retained children next)
  end.
End search.

(** The caller's pointer [*stored] afterwards is the result. *)
Definition mqtt3_db_messages_queue (source_id : option str) (topic : str) (qos : Z) (retain : bool)
    (stored : addr) : M (Z * option addr) :=
  let tokens := _sub_topic_tokenise topic in
  upd_store stored (fun st => st <| s_ref_count ::= Z.succ |>);;
  root ← gets d_subs;
  root ← queue_roots source_id topic qos retain stored root tokens;
  modify (fun d => d <| d_subs := root |>);;
  stored ← mosquitto__db_msg_store_deref stored;
  mret (0, stored).

(** * The subscriptions of a client that goes away *)

Fixpoint find_node (a : addr) (h : _mosquitto_subhier) : option (list _mosquitto_subleaf) :=
  match h with
  | HNil => None
  | HNode b _ subs _ children next =>
    if decide (b = a) then Some subs
    else match find_node a children with Some subs => Some subs | None => find_node a next end
  end.

(** [context->subs[i]->subs = subs] *)
Fixpoint set_node (a : addr) (l : list _mosquitto_subleaf) (h : _mosquitto_subhier) : _mosquitto_subhier :=
  match h with
  | HNil => HNil
  | HNode b t subs retained children next =>
    HNode b t (if decide (b = a) then l else subs) retained (set_node a l children) (set_node a l next)
  end.

(** A slot that refers to a node that was freed faults. *)
Fixpoint clean_loop (c : addr) (slots : list (option addr)) : M unit :=
  match slots with
  | [] => mret tt
  | None :: slots => clean_loop c slots
  | Some a :: slots =>
    root ← gets d_subs;
    subs ← unwrap (find_node a root);
    (match unlink_leaf c subs with
     | None => mret tt
     | Some subs =>
       modify (fun d => d <| d_subscription_count ::= Z.pred |> <| d_subs ::= set_node a subs |>)
     end);;
    clean_loop c slots
  end.

Definition mqtt3_subs_clean_session (c : addr) : M Z :=
  x ← get_ctx c;
  clean_loop c (c_subs x);;
  upd_ctx c (fun x => x <| c_subs := [] |>);;
  mret MOSQ_ERR_SUCCESS.

(** * Retained messages for a new subscription *)

Definition _retain_process (retained : addr) (c : addr) (sub_qos : Z) : M Z :=
  st ← get_store retained;
  rc ← mosquitto_acl_check c (s_topic st) MOSQ_ACL_READ;
  if rc =? MOSQ_ERR_ACL_DENIED then mret MOSQ_ERR_SUCCESS
  else if negb (rc =? MOSQ_ERR_SUCCESS) then mret rc
  else
    let qos := if sub_qos <? s_qos st then sub_qos else s_qos st in
    mid ← (if 0 <? qos then _mosquitto_mid_generate c else mret 0);
    mqtt3_db_message_insert c mid mosq_md_out qos true retained.

Definition process_slot (c : addr) (sub_qos : Z) (retained : option addr) : M unit :=
  match retained with
  | Some s => _retain_process s c sub_qos;; mret tt
  | None => mret tt
  end.

Section retain_search.
Variables (c : addr) (sub_qos : Z).

(** [_retain_search] on the chain of children [branch]; [flag] is the variable of
    the code, 0 at first. *)
Fixpoint _retain_search (branch : _mosquitto_subhier) (tokens : list str) (level flag : Z) : M Z :=
  match branch with
  | HNil => mret flag
  | HNode _ topic _ retained children next =>
    match tokens with
    | [] => fault
    | token :: tokens' =>
      flag ←
        (if streq token [HASH] && bool_decide (tokens' = []) then
           process_slot c sub_qos retained;;
           (if is_nil children then mret tt
            else _retain_search children tokens (level + 1) 0;; mret tt);;
           mret (-1)
         else if negb (streq topic [PLUS]) && (streq topic token || streq token [PLUS]) then
           (match tokens' with
            | token' :: _ =>
              r ← _retain_search children tokens' (level + 1) 0;
              if (r =? -1) || (is_nil next && streq token' [HASH] && (0 <? level))
              then process_slot c sub_qos retained
              else mret tt
            | [] => process_slot c sub_qos retained
            end);;
           mret flag
         else mret flag);
      _retain_search next tokens level flag
    end
  end.

Fixpoint retain_roots (root : _mosquitto_subhier) (tokens : list str) : M unit :=
  match root with
  | HNil => mret tt
  | HNode _ t _ _ children next =>
    if bool_decide (head tokens = Some t) then _retain_search children tokens 0 0;; mret tt
    else retain_roots next tokens
  end.
End retain_search.

Definition mqtt3_retain_queue (c : addr) (sub : str) (sub_qos : Z) : M Z :=
  root ← gets d_subs;
  retain_roots c sub_qos root (_sub_topic_tokenise sub);;
  mret MOSQ_ERR_SUCCESS.

(** * Tokens are levels *)

Lemma tokenise_loop_levels rest token topics :
  tokenise_loop rest token topics
  = topics ++ match levels rest with l :: ls => (token ++ l) :: ls | [] => [] end.
Proof.
  revert token topics. induction rest as [|c rest IH]; intros token topics; cbn.
  - by rewrite app_nil_r.
  - destruct (levels_cons rest) as (l & ls & E). case_decide.
    + rewrite IH, E. unfold _sub_topic_append. by rewrite <- app_assoc, app_nil_r.
    + rewrite IH, E. by rewrite <- app_assoc.
Qed.

Lemma cget_dollar s : bool_decide (cget s 0 = DOLLAR) = starts_dollar s.
Proof. by destruct s. Qed.

Lemma tokenise_run s :
  _sub_topic_tokenise s = (if starts_dollar s then [] else [[]]) ++ levels s.
Proof.
  unfold _sub_topic_tokenise. rewrite cget_dollar.
  case_bool_decide as Es; rewrite tokenise_loop_levels.
  - destruct s as [|c s]; [done|]. cbn [cget nth Z.to_nat] in Es. change (cget (c :: s) 0) with c in Es. subst c.
    cbn. destruct (levels_cons s) as (l & ls & E). rewrite drop_0, E. done.
  - destruct (levels_cons s) as (l & ls & ->). by destruct (starts_dollar s).
Qed.

(** [_sub_topic_tokenise] cuts a string at its slashes, one token for every level
    and the empty ones included, and puts an empty token in front unless the string
    starts with '$'. *)
Theorem tokenise_spec s :
  _sub_topic_tokenise s = (if starts_dollar s then [] else [[]]) ++ levels s.
Proof. apply tokenise_run. Qed.

(** * The nodes of a tree *)

(** What is done at each node of the tree, by its path, children first. *)
Fixpoint visit (f : list str -> list _mosquitto_subleaf -> option addr -> M (option addr))
    (h : _mosquitto_subhier) : M _mosquitto_subhier :=
  match h with
  | HNil => mret HNil
  | HNode a t subs retained children next =>
    children ← visit (fun p => f (t :: p)) children;
    retained ← f [t] subs retained;
    next ← visit f next;
    mret (HNode a t subs retained children next)
  end.

Lemma visit_ext f g h :
  (forall p subs r, p <> [] -> f p subs r ≈ g p subs r) -> visit f h ≈ visit g h.
Proof.
  revert f g. induction h as [|a t subs r children IHc next IHn]; intros f g H; cbn; [done|].
  rewrite (IHc _ (fun p => g (t :: p))) by (intros; by apply H). f_equiv. intros ch.
  rewrite H by done. f_equiv. intros r'. rewrite (IHn f g) by done. done.
Qed.

Lemma visit_nothing h : visit (fun _ _ r => mret r) h ≈ mret h.
Proof.
  induction h as [|a t subs r children IHc next IHn]; cbn; [done|].
  rewrite IHc, bind_ret_l, bind_ret_l, IHn. done.
Qed.

(** No node below a '#'. *)
Fixpoint hash_leaves (h : _mosquitto_subhier) : Prop :=
  match h with
  | HNil => True
  | HNode _ t _ _ children next => (t = [HASH] -> children = HNil) /\ hash_leaves children /\ hash_leaves next
  end.

Definition is_topic_tokens (tokens : list str) : Prop := ([HASH] ∉ tokens) /\ ([PLUS] ∉ tokens).

Section search_proof.
Context (source_id : option str) (topic : str) (qos : Z) (retain : bool) (stored : addr).

(** The work at one node, given whether its path is that of the topic itself. *)
Definition process_node (tokens : list str) (set_retain : bool) (p : list str)
    (subs : list _mosquitto_subleaf) (retained : option addr) : M (option addr) :=
  if level_match p tokens
  then _subs_process subs retained source_id topic qos retain stored (set_retain && bool_decide (p = tokens))
  else mret retained.

Lemma level_match_other t p token tokens :
  t <> [PLUS] -> t <> [HASH] -> t <> token -> level_match (t :: p) (token :: tokens) = false.
Proof.
  intros. cbn. by rewrite (bool_decide_eq_false_2 (t = [HASH])), (bool_decide_eq_false_2 (t = [PLUS])), (bool_decide_eq_false_2 (t = token)).
Qed.

Lemma level_match_same t p token tokens :
  t <> [HASH] -> t = [PLUS] \/ t = token ->
  level_match (t :: p) (token :: tokens) = level_match p tokens.
Proof.
  intros Hh Ht. cbn. rewrite (bool_decide_eq_false_2 (t = [HASH])) by done. cbn.
  destruct Ht as [-> | ->]; [by rewrite (bool_decide_eq_true_2 ([PLUS] = [PLUS]))|].
  by rewrite (bool_decide_eq_true_2 (token = token)), orb_true_r.
Qed.

Lemma level_match_nil t p : level_match (t :: p) [] = bool_decide (t = [HASH]) && bool_decide (p = []).
Proof. cbn. by destruct (_ && _). Qed.

Lemma process_node_if tokens sr p subs r b b' :
  level_match p tokens = b -> sr && bool_decide (p = tokens) = b' ->
  process_node tokens sr p subs r
  = if b then _subs_process subs r source_id topic qos retain stored b' else mret r.
Proof. by intros <- <-. Qed.

(** [_sub_search] processes exactly the nodes whose path matches. *)
Lemma sub_search_visit h tokens sr :
  hash_leaves h -> is_topic_tokens tokens ->
  _sub_search source_id topic qos retain stored h tokens sr ≈ visit (process_node tokens sr) h.
Proof.
  revert tokens sr. induction h as [|a t subs r children IHc next IHn]; intros tokens sr Hh Ht; [done|].
  destruct Hh as (Hhash & Hc & Hn). cbn [_sub_search visit].
  assert (forall m : M (option addr * _mosquitto_subhier),
    ('(retained, ch) ← m; next ← _sub_search source_id topic qos retain stored next tokens sr;
       mret (HNode a t subs retained ch next)) ≈
    ('(retained, ch) ← m; next ← visit (process_node tokens sr) next;
       mret (HNode a t subs retained ch next))) as ->.
  { intros m. f_equiv. intros [r' ch]. by rewrite IHn. }
  destruct (decide (t = [HASH])) as [->|NH].
  { (* '#' *)
    rewrite Hhash by done. cbn [visit is_nil]. rewrite bind_ret_l.
    rewrite (process_node_if tokens sr [[HASH]] subs r true false); [|by destruct tokens|].
    2: { rewrite bool_decide_eq_false_2; [apply andb_false_r|]. intros <-. destruct Ht as [Ht _]. apply Ht. by left. }
    change (streq [HASH] [HASH] && true) with true. cbv iota.
    destruct tokens as [|token tokens]; [by st_norm|].
    assert (streq [HASH] token || streq [HASH] [PLUS] = false) as ->.
    { unfold streq. rewrite !bool_decide_eq_false_2; [done|done|]. intros <-. destruct Ht as [Ht _]. apply Ht. by left. }
    by st_norm. }
  assert (streq t [HASH] = false) as -> by (unfold streq; by apply bool_decide_eq_false_2). cbn [andb].
  destruct tokens as [|token tokens].
  { rewrite (visit_ext (fun p => process_node [] sr (t :: p)) (fun _ _ r => mret r)).
    - rewrite visit_nothing. rewrite (process_node_if _ _ _ _ _ false _) by (rewrite ?level_match_nil, ?(bool_decide_eq_false_2 (t = _)); done). by st_norm.
    - intros p s' r' _. unfold process_node. by rewrite level_match_nil, (bool_decide_eq_false_2 (t = _)). }
  destruct (streq t token || streq t [PLUS]) eqn:Em.
  2: { unfold streq in Em. apply orb_false_iff in Em as [E1%bool_decide_eq_false E2%bool_decide_eq_false].
    rewrite (visit_ext (fun p => process_node (token :: tokens) sr (t :: p)) (fun _ _ r => mret r)).
    - rewrite visit_nothing. rewrite (process_node_if _ _ _ _ _ false _) by (rewrite ?level_match_other; done). by st_norm.
    - intros p s' r' _. unfold process_node. by rewrite level_match_other. }
  assert (t = [PLUS] \/ t = token) as Hm.
  { unfold streq in Em. apply orb_true_iff in Em as [E%bool_decide_eq_true|E%bool_decide_eq_true]; tauto. }
  assert (is_topic_tokens tokens) as Ht'.
  { destruct Ht as [H1 H2]. by apply not_elem_of_cons in H1 as [_ ?], H2 as [_ ?]. }
  assert (forall p, (if streq t [PLUS] then false else sr) && bool_decide (p = tokens)
                    = sr && bool_decide (t :: p = token :: tokens)) as Hsr.
  { intros p. unfold streq. case_bool_decide as Ep.
    - subst t. rewrite (bool_decide_eq_false_2 (_ :: _ = _)); [by destruct sr|].
      intros [= E _]. destruct Ht as [_ Ht]. apply Ht. subst token. by left.
    - destruct Hm as [Hm| ->]; [done|]. f_equal. apply bool_decide_ext. split; [by intros ->|by intros [= ->]]. }
  rewrite (IHc tokens _ Hc Ht').
  rewrite (visit_ext (fun p => process_node (token :: tokens) sr (t :: p))
    (process_node tokens (if streq t [PLUS] then false else sr))).
  2: { intros p s' r' _. unfold process_node. by rewrite level_match_same, Hsr. }
  st_norm. f_equiv. intros ch.
  rewrite (process_node_if _ _ [t] subs r (level_match [] tokens) (if streq t [PLUS] then false else sr && bool_decide ([] = tokens))).
  2: by rewrite level_match_same.
  2: { rewrite <- Hsr. by destruct (streq t [PLUS]). }
  case_bool_decide as Et.
  - subst tokens. change (level_match [] []) with true. cbv iota. rewrite bool_decide_eq_true_2, andb_true_r by done. by st_norm.
  - assert (level_match [] tokens = false) as -> by (by destruct tokens). by st_norm.
Qed.
End search_proof.

(** * What is sent to whom *)

(** Publishing does not touch the tree. *)
Lemma keeps_acl_check {B} (f : mosquitto_db -> B) c topic access : keeps f (mosquitto_acl_check c topic access).
Proof. unfold mosquitto_acl_check, mosquitto_acl_check_default. keeps_tac. Qed.

Lemma keeps_subs_insert c mid dir qos retain s : keeps d_subs (mqtt3_db_message_insert c mid dir qos retain s).
Proof. unfold mqtt3_db_message_insert, drop_message, insert_append. keeps_tac. Qed.

Lemma keeps_subs_mid c : keeps d_subs (_mosquitto_mid_generate c).
Proof. unfold _mosquitto_mid_generate. keeps_tac. Qed.
#[export] Hint Resolve keeps_acl_check keeps_subs_insert keeps_subs_mid : keeps.

Lemma keeps_leaf_loop source_id topic qos retain stored subs rc :
  keeps d_subs (leaf_loop source_id topic qos retain stored subs rc).
Proof. revert rc. induction subs as [|leaf subs IH]; intros rc; cbn; keeps_tac. Qed.
#[export] Hint Resolve keeps_leaf_loop : keeps.

Lemma keeps_notify source_id topic qos retain stored subs :
  keeps d_subs (notify source_id topic qos retain stored subs).
Proof. unfold notify. keeps_tac. Qed.
#[export] Hint Resolve keeps_notify : keeps.

(** The nodes below a chain with their paths, in the order [visit] takes them. *)
Fixpoint paths (h : _mosquitto_subhier) : list (list str * list _mosquitto_subleaf) :=
  match h with
  | HNil => []
  | HNode _ t subs _ children next =>
    (prod_map (cons t) id <$> paths children) ++ ([t], subs) :: paths next
  end.

Lemma visit_for_each (g : list str -> list _mosquitto_subleaf -> M unit) h :
  visit (fun p subs r => g p subs;; mret r) h ≈ (for_each (fun n => g n.1 n.2) (paths h);; mret h).
Proof.
  revert g. induction h as [|a t subs r children IHc next IHn]; intros g; [by st_norm|].
  cbn [visit paths]. rewrite (IHc (fun p => g (t :: p))), for_each_app, for_each_map.
  setoid_rewrite IHn. cbn [for_each]. by st_norm.
Qed.

(** The string of a path of tokens. *)
Fixpoint unlevels (ls : list str) : str :=
  match ls with
  | [] => []
  | [l] => l
  | l :: ls => l ++ SLASH :: unlevels ls
  end.

Definition filter_of (p : list str) : str :=
  match p with [] :: ls => unlevels ls | _ => unlevels p end.

Lemma unlevels_levels s : unlevels (levels s) = s.
Proof.
  induction s as [|c s IH]; [done|]. cbn. destruct (levels_cons s) as (l & ls & E). rewrite E in *.
  case_decide as Hc; [subst c; by rewrite <- IH|]. rewrite <- IH. by destruct ls.
Qed.

Lemma filter_of_tokenise s : filter_of (_sub_topic_tokenise s) = s.
Proof.
  rewrite tokenise_run. destruct s as [|c s]; [done|]. cbn [starts_dollar].
  case_bool_decide as E; [|apply unlevels_levels].
  assert (filter_of (levels (c :: s)) = unlevels (levels (c :: s))) as Hf.
  { cbn. rewrite decide_False by (by subst). destruct (levels_cons s) as (l & ls & Es). by rewrite Es. }
  rewrite app_nil_l, Hf. apply unlevels_levels.
Qed.

(** Matching on strings is matching on tokens, below the same root. *)
Lemma filter_matches_tokens sub topic :
  filter_matches sub topic
  = bool_decide (head (_sub_topic_tokenise sub) = head (_sub_topic_tokenise topic))
    && level_match (_sub_topic_tokenise sub) (_sub_topic_tokenise topic).
Proof.
  rewrite !tokenise_run. unfold filter_matches.
  assert (forall s, starts_dollar s = true -> exists l ls, levels s = (DOLLAR :: l) :: ls) as Hd.
  { intros [|c s] E; [done|]. apply bool_decide_eq_true in E as ->. cbn.
    destruct (levels_cons s) as (l & ls & Es). rewrite Es. eauto. }
  destruct (starts_dollar sub) eqn:Es, (starts_dollar topic) eqn:Et.
  - destruct (Hd _ Es) as (l & ls & ->), (Hd _ Et) as (k & ks & ->). cbn.
    destruct (decide (l = k)) as [->|N].
    + by rewrite (bool_decide_eq_true_2 (Some _ = Some _)).
    + rewrite (bool_decide_eq_false_2 (Some _ = _)) by congruence.
      rewrite (bool_decide_eq_false_2 (DOLLAR :: l = [HASH])), (bool_decide_eq_false_2 (DOLLAR :: l = [PLUS])),
        (bool_decide_eq_false_2 (DOLLAR :: l = DOLLAR :: k)); [done|congruence|done|done].
  - destruct (Hd _ Es) as (l & ls & ->). done.
  - destruct (Hd _ Et) as (l & ls & ->). done.
  - destruct (levels_cons sub) as (l & ls & ->), (levels_cons topic) as (k & ks & ->). done.
Qed.

(** ** Well-formed trees *)

Fixpoint chain_topics (h : _mosquitto_subhier) : list str :=
  match h with HNil => [] | HNode _ t _ _ _ next => t :: chain_topics next end.

(** Siblings have different topics, and each node with its path is [ok]. *)
Fixpoint chain_wf (ok : list str -> list _mosquitto_subleaf -> option addr -> Prop)
    (h : _mosquitto_subhier) : Prop :=
  match h with
  | HNil => True
  | HNode _ t subs r children next =>
    ok [t] subs r /\ (t ∉ chain_topics next)
    /\ chain_wf (fun p => ok (t :: p)) children /\ chain_wf ok next
  end.

(** Below the root [root] are the tokens of valid filters; its first child stands
    for no filter if the root is "". *)
Definition node_ok (root : str) (p : list str) (subs : list _mosquitto_subleaf) (r : option addr) : Prop :=
  head p = Some root /\
  (p = [[]] /\ subs = [] /\ r = None
   \/ exists sub, valid_filter_levels (levels sub) /\ p = _sub_topic_tokenise sub).

Fixpoint roots_wf (h : _mosquitto_subhier) : Prop :=
  match h with
  | HNil => True
  | HNode _ t subs r children next =>
    subs = [] /\ r = None /\ (t ∉ chain_topics next) /\ chain_wf (node_ok t) children /\ roots_wf next
  end.

Lemma valid_filter_hash a t b : ~ valid_filter_levels (a ++ [HASH] :: t :: b).
Proof.
  induction a as [|x a IH]; cbn.
  - intros [[H|[[_ H]|[_ H]]] _]; [done| apply H; by left | done].
  - tauto.
Qed.

Lemma node_ok_hash root q t subs r : ~ node_ok root (q ++ [[HASH]; t]) subs r.
Proof.
  intros [_ [(E & _)|(sub & Hv & E)]].
  - destruct q as [|x [|y q]]; done.
  - rewrite tokenise_run in E. destruct (starts_dollar sub).
    + rewrite app_nil_l in E. rewrite <- E in Hv. by apply valid_filter_hash in Hv.
    + destruct q as [|x q]; [done|]. cbn in E. injection E as -> E. rewrite <- E in Hv.
      by apply valid_filter_hash in Hv.
Qed.

Lemma chain_wf_hash ok h :
  (forall q t subs r, ~ ok (q ++ [[HASH]; t]) subs r) -> chain_wf ok h -> hash_leaves h.
Proof.
  revert ok. induction h as [|a t subs r children IHc next IHn]; intros ok Hok; [done|].
  intros (_ & _ & Hc & Hn). split; [|split].
  - intros ->. destruct children as [|b t' subs' r' ch nx]; [done|]. destruct Hc as [H _].
    by apply (Hok [] _ _ _) in H.
  - eapply IHc; [|exact Hc]. intros q t' s' r'. apply (Hok (t :: q)).
  - by eapply IHn.
Qed.

(** The subscriptions a tree holds: filters with their subscribers. *)
Fixpoint subscriptions (root : _mosquitto_subhier) : list (str * list _mosquitto_subleaf) :=
  match root with
  | HNil => []
  | HNode _ _ _ _ children next => (prod_map filter_of id <$> paths children) ++ subscriptions next
  end.

Lemma chain_wf_paths ok h p subs :
  chain_wf ok h -> (p, subs) ∈ paths h -> exists r, ok p subs r.
Proof.
  revert ok p. induction h as [|a t s r children IHc next IHn]; intros ok p; cbn; [set_solver|].
  intros (H & _ & Hc & Hn). rewrite elem_of_app, elem_of_cons, list_elem_of_fmap.
  intros [([q s'] & [= -> ->] & Hin)|[[= -> ->]|Hin]]; [|by exists r|eauto].
  by apply (IHc (fun p => ok (t :: p))).
Qed.

(** ** Publishing to the subscribers *)

Section queue_proof.
Context (source_id : option str) (topic : str) (qos : Z) (stored : addr).

Definition notify_matching (n : str * list _mosquitto_subleaf) : M unit :=
  if filter_matches n.1 topic then notify source_id topic qos false stored n.2 else mret tt.

Lemma process_node_plain tokens sr p subs r :
  process_node source_id topic qos false stored tokens sr p subs r
  ≈ ((if level_match p tokens then notify source_id topic qos false stored subs else mret tt);; mret r).
Proof.
  unfold process_node, _subs_process. destruct (level_match p tokens); cbn [andb]; by st_norm.
Qed.

Lemma visit_ext_eq f g h :
  (forall p subs r, f p subs r ≈ g p subs r) -> visit f h ≈ visit g h.
Proof. intros H. by apply visit_ext. Qed.

Lemma for_each_ext {S A} (f g : A -> ST S unit) l :
  (forall a, a ∈ l -> f a ≈ g a) -> for_each f l ≈ for_each g l.
Proof.
  induction l as [|a l IH]; cbn; intros H; [done|]. rewrite (H a) by (by left).
  f_equiv. intros ?. apply IH. intros b Hb. apply H. by right.
Qed.

(** Below a root, matching the tokens is matching the filter, if the roots agree. *)
Lemma notify_path root p subs r :
  node_ok root p subs r ->
  (if bool_decide (head (_sub_topic_tokenise topic) = Some root) && level_match p (_sub_topic_tokenise topic)
   then notify source_id topic qos false stored subs else mret tt)
  ≈ notify_matching (filter_of p, subs).
Proof.
  intros [Hr [(-> & -> & _)|(sub & _ & ->)]]; unfold notify_matching; cbn [fst snd].
  - assert (notify source_id topic qos false stored [] ≈ mret tt) as E.
    { unfold notify. destruct source_id; cbn; [by st_norm | done]. }
    by destruct (_ && _), (filter_matches _ _); rewrite ?E.
  - rewrite filter_of_tokenise, filter_matches_tokens, Hr.
    rewrite (bool_decide_ext (Some root = head _) (head (_sub_topic_tokenise topic) = Some root)) by (split; congruence).
    done.
Qed.

Lemma levels_chars s l c : l ∈ levels s -> c ∈ l -> c ∈ s.
Proof.
  revert l. induction s as [|a s IH]; intros l; cbn; [by intros ->%list_elem_of_singleton|].
  destruct (levels_cons s) as (k & ks & E). rewrite E in IH |- *.
  case_decide; rewrite !elem_of_cons; intros Hl Hc.
  - destruct Hl as [->|Hl]; [by apply not_elem_of_nil in Hc|]. right. apply (IH l); [|done]. by apply elem_of_cons.
  - destruct Hl as [->|Hl]; [|right; apply (IH l); [by apply elem_of_cons; right|done]].
    apply elem_of_cons in Hc as [->|Hc]; [by left|]. right. apply (IH k); [by left|done].
Qed.

Lemma topic_tokens : no_wildcard topic -> is_topic_tokens (_sub_topic_tokenise topic).
Proof.
  intros [Hp Hh].
  assert (forall c, (c ∉ topic) -> [c] ∉ _sub_topic_tokenise topic) as H.
  { intros c Hc. rewrite tokenise_run, elem_of_app. intros [Hin|Hin].
    - destruct (starts_dollar topic); [by apply not_elem_of_nil in Hin | by apply list_elem_of_singleton in Hin].
    - apply Hc. eapply levels_chars; [exact Hin|by left]. }
  split; by apply H.
Qed.

Lemma queue_roots_plain root :
  no_wildcard topic -> roots_wf root ->
  queue_roots source_id topic qos false stored root (_sub_topic_tokenise topic)
  ≈ (for_each notify_matching (subscriptions root);; mret root).
Proof.
  intros Htop. induction root as [|a t subs r children _ next IHn]; [by st_norm|].
  intros (_ & _ & _ & Hc & Hn). cbn [queue_roots subscriptions].
  rewrite for_each_app. st_norm.
  assert (forall m : M (option addr * _mosquitto_subhier),
    ('(retained, ch) ← m; next ← queue_roots source_id topic qos false stored next (_sub_topic_tokenise topic);
       mret (HNode a t subs retained ch next)) ≈
    ('(retained, ch) ← m; for_each notify_matching (subscriptions next);; mret (HNode a t subs retained ch next))) as ->.
  { intros m. f_equiv. intros [r' ch]. rewrite IHn by done. by st_norm. }
  rewrite for_each_map.
  rewrite (for_each_ext _ (fun n => if bool_decide (head (_sub_topic_tokenise topic) = Some t)
      && level_match n.1 (_sub_topic_tokenise topic) then notify source_id topic qos false stored n.2 else mret tt)).
  2: { intros [p s] (r' & Hok)%(chain_wf_paths (node_ok t)); [|done]. cbn. symmetry. by apply (notify_path t _ _ r'). }
  case_bool_decide as Et.
  - rewrite bind_ret_l; cbv beta iota.
    rewrite sub_search_visit; [|by eapply chain_wf_hash; [apply node_ok_hash|]|by apply topic_tokens].
    rewrite (visit_ext_eq _ _ _ (fun p s r' => process_node_plain _ true p s r')).
    rewrite (visit_for_each (fun p s => if level_match p _ then _ else _)). by st_norm.
  - cbn [andb]. assert (forall l, for_each (fun _ : list str * list _mosquitto_subleaf => mret tt) l ≈ (mret tt : M unit)) as ->.
    { intros l. induction l as [|x l IH]; [done|]. cbn. by rewrite bind_ret_l. }
    by st_norm.
Qed.
End queue_proof.

(** C18: [mqtt3_db_messages_queue] finds, by walking the tree, exactly the subscriptions
    that a comparison of every filter with the topic would find: publishing a message
    that is not to be retained is the same routine as going through the list of all
    subscriptions and offering the message to the subscribers of each filter that
    matches by the MQTT rules. *)
Theorem messages_queue_reference source_id topic qos stored d :
  roots_wf (d_subs d) -> no_wildcard topic ->
  mqtt3_db_messages_queue source_id topic qos false stored d
  = (upd_store stored (fun st => st <| s_ref_count ::= Z.succ |>);;
     for_each (fun '(sub, subscribers) =>
         if filter_matches sub topic then notify source_id topic qos false stored subscribers else mret tt)
       (subscriptions (d_subs d));;
     stored ← mosquitto__db_msg_store_deref stored;
     mret (0, stored)) d.
Proof.
  intros Hwf Ht. unfold mqtt3_db_messages_queue.
  assert (for_each (fun '(sub, subscribers) =>
         if filter_matches sub topic then notify source_id topic qos false stored subscribers else mret tt)
       (subscriptions (d_subs d)) ≈
     for_each (notify_matching source_id topic qos stored) (subscriptions (d_subs d))) as E.
  { apply for_each_ext. by intros [sub subs] _. }
  pose proof (queue_roots_plain source_id topic qos stored (d_subs d) Ht Hwf) as Hq.
  assert (keeps d_subs (upd_store stored (fun st => st <| s_ref_count ::= Z.succ |>))) as K1 by auto with keeps.
  assert (keeps d_subs (for_each (notify_matching source_id topic qos stored) (subscriptions (d_subs d)))) as K2.
  { apply keeps_for_each. intros n. unfold notify_matching. keeps_tac. }
  unfold mbind at 1, st_bind at 1. symmetry. unfold mbind at 1, st_bind at 1. specialize (K1 d).
  destruct (upd_store stored _ d) as [[[] d1]|]; [|done].
  unfold mbind, st_bind, gets, mret, st_ret. rewrite K1, (st_eq_at _ _ Hq), (st_eq_at _ _ E). specialize (K2 d1).
  unfold mbind, st_bind, mret, st_ret.
  destruct (for_each _ _ d1) as [[[] d2]|]; [|done]. rewrite K1 in K2. unfold modify.
  assert (d2 <| d_subs := d_subs d |> = d2) as -> by (rewrite <- K2; by destruct d2). done.
Qed.

(** * Looking up a filter *)

(** The node of a path below a chain: its subscribers and its retained message. *)
Fixpoint look (h : _mosquitto_subhier) (p : list str) : list _mosquitto_subleaf * option addr :=
  match h, p with
  | HNode _ t subs r children next, t' :: p' =>
    if decide (t = t') then match p' with [] => (subs, r) | _ => look children p' end
    else look next p
  | _, _ => ([], None)
  end.

Fixpoint root_chain (root : _mosquitto_subhier) (t : str) : option _mosquitto_subhier :=
  match root with
  | HNil => None
  | HNode _ t' _ _ children next => if decide (t' = t) then Some children else root_chain next t
  end.

Definition slot (root : _mosquitto_subhier) (sub : str) : list _mosquitto_subleaf * option addr :=
  let tokens := _sub_topic_tokenise sub in
  match head tokens ≫= root_chain root with
  | Some children => look children tokens
  | None => ([], None)
  end.

(** Who subscribed to a filter, and what is retained for a topic. *)
Definition subscribers (root : _mosquitto_subhier) (sub : str) : list _mosquitto_subleaf := (slot root sub).1.
Definition retained_for (root : _mosquitto_subhier) (topic : str) : option addr := (slot root topic).2.

Lemma look_nil p : look HNil p = ([], None).
Proof. done. Qed.

Lemma look_absent t h q : (t ∉ chain_topics h) -> look h (t :: q) = ([], None).
Proof.
  induction h as [|a t' s r ch IHc nx IHn]; [done|]. intros [N H]%not_elem_of_cons.
  cbn. rewrite decide_False by done. by apply IHn.
Qed.

Lemma chain_topics_skip a t' s r ch nx nx' t :
  t' <> t -> chain_topics nx' = chain_topics nx ++ (if decide (t ∈ chain_topics nx) then [] else [t]) ->
  chain_topics (HNode a t' s r ch nx')
  = chain_topics (HNode a t' s r ch nx) ++ (if decide (t ∈ chain_topics (HNode a t' s r ch nx)) then [] else [t]).
Proof.
  intros N E. cbn. rewrite E. f_equal. f_equal.
  destruct (decide (t ∈ chain_topics nx)) as [H|H].
  - by rewrite decide_True by (by right).
  - rewrite decide_False; [done|]. intros [?|?]%elem_of_cons; [by subst|done].
Qed.

Lemma chain_topics_fresh (t' t : str) l :
  t' <> t -> (t' ∉ l) -> t' ∉ l ++ (if decide (t ∈ l) then [] else [t]).
Proof.
  intros N H. rewrite elem_of_app. intros [?|Hin]; [done|].
  case_decide; [by apply not_elem_of_nil in Hin | by apply list_elem_of_singleton in Hin].
Qed.

Section add.
Context (context : option addr) (qos : Z).

Lemma chain_add_run tokens t ch ok (P : addr -> Z -> list _mosquitto_subleaf -> mosquitto_db -> Prop) d :
  (forall a k, wp (add_leaf context qos a (look ch (t :: tokens)).1) (fun r d' => P a r.1 r.2 d')
                 (d <| d_next := k |>)) ->
  wp (branch_add t (_sub_add context qos tokens) ch) (fun r d' => exists a subs,
      P a r.1 subs d'
      /\ (forall p, look r.2 p = if decide (p = t :: tokens) then (subs, (look ch p).2) else look ch p)
      /\ chain_topics r.2 = chain_topics ch ++ (if decide (t ∈ chain_topics ch) then [] else [t])
      /\ ((forall p, p <> [] -> p `prefix_of` t :: tokens -> ok p [] None) ->
          (forall s r, ok (t :: tokens) s r -> ok (t :: tokens) subs r) ->
          chain_wf ok ch -> chain_wf ok r.2)) d.
Proof.
  revert t ch ok d. induction tokens as [|t2 tokens IHt]; intros t ch ok d HP.
  - (* the last token *)
    revert ok d HP. induction ch as [|b t' s r children _ next IHn]; intros ok d HP.
    + cbn [branch_add]. unfold malloc. wp_step. cbn [_sub_add]. wp_step.
      eapply wp_mono; [apply (HP _ (S (d_next d)))|]. intros [rc subs] d' H. wp_step. cbn [fst snd] in *.
      exists (d_next d), subs. split; [done|]. split; [|split; [done|]].
      * intros [|t' p]; [by rewrite decide_False|]. cbn. destruct (decide (t = t')) as [<-|N].
        -- destruct p; [by rewrite decide_True | by rewrite decide_False].
        -- by rewrite decide_False by congruence.
      * intros Hok Hs _. split; [apply (Hs []), Hok; [done|by exists []]|]. split; [apply not_elem_of_nil|done].
    + cbn [branch_add]. unfold streq. destruct (decide (t' = t)) as [->|N].
      * rewrite bool_decide_eq_true_2 by done. cbn [_sub_add]. wp_step.
        specialize (HP b (d_next d)). replace (d <| d_next := d_next d |>) with d in HP by (by destruct d).
        cbn [look] in HP. rewrite decide_True in HP by done.
        eapply wp_mono; [apply HP|]. intros [rc subs] d' H. wp_step. cbn [fst snd] in *.
        exists b, subs. split; [done|]. split; [|split].
        -- intros [|t' p]; [by rewrite decide_False|]. cbn. destruct (decide (t = t')) as [<-|N].
           ++ destruct p; [by rewrite decide_True | by rewrite decide_False].
           ++ by rewrite decide_False by congruence.
        -- cbn. rewrite decide_True by left. by rewrite app_nil_r.
        -- intros _ Hs (H1 & H2 & H3 & H4). split; [by apply (Hs s)|done].
      * rewrite bool_decide_eq_false_2 by done. wp_step.
        eapply wp_mono; [apply (IHn ok)|].
        { intros a k. specialize (HP a k). cbn [look] in HP. by rewrite decide_False in HP. }
        intros [rc nx] d' (a & subs & H1 & H2 & H3 & H4). wp_step. cbn [fst snd] in *.
        exists a, subs. split; [done|]. split; [|split].
        -- intros [|t2 p]; [by rewrite decide_False|]. cbn. destruct (decide (t' = t2)) as [->|N2].
           ++ by rewrite decide_False by congruence.
           ++ apply H2.
        -- apply chain_topics_skip; done.
        -- intros K1 K2 (W1 & W2 & W3 & W4). split; [done|]. split; [|split; [done|by apply H4]].
           rewrite H3. by apply chain_topics_fresh.
  - revert ok d HP. induction ch as [|b t' s r children _ next IHn]; intros ok d HP.
    + cbn [branch_add]. unfold malloc. wp_step. cbn [_sub_add]. wp_step.
      eapply wp_mono; [apply (IHt t2 HNil (fun p => ok (t :: p))); intros a k; apply (HP a k)|].
      intros [rc ch] d' (a & subs & H1 & H2 & H3 & H4). wp_step. cbn [fst snd] in *.
      exists a, subs. split; [done|]. split; [|split; [done|]].
      * intros [|t' p]; [by rewrite decide_False|]. cbn. destruct (decide (t = t')) as [<-|N].
        -- destruct p as [|t3 p]; [by rewrite decide_False|]. rewrite H2. rewrite look_nil.
           by destruct (decide (t3 :: p = t2 :: tokens)) as [->|?]; [rewrite decide_True | rewrite decide_False by congruence].
        -- by rewrite decide_False by congruence.
      * intros Hok Hs _. split; [apply Hok; [done|by exists (t2 :: tokens)]|]. split; [apply not_elem_of_nil|]. split; [|done].
        apply H4; [|apply Hs|done]. intros p Hp [q Hq]. apply Hok; [done|]. exists q. by rewrite Hq.
    + cbn [branch_add]. unfold streq. destruct (decide (t' = t)) as [->|N].
      * rewrite bool_decide_eq_true_2 by done. cbn [_sub_add]. wp_step.
        cbn [look] in HP. rewrite decide_True in HP by done.
        eapply wp_mono; [apply (IHt t2 children (fun p => ok (t :: p))); exact HP|].
        intros [rc ch] d' (a & subs & H1 & H2 & H3 & H4). wp_step. cbn [fst snd] in *.
        exists a, subs. split; [done|]. split; [|split].
        -- intros [|t' p]; [by rewrite decide_False|]. cbn. destruct (decide (t = t')) as [<-|N].
           ++ destruct p as [|t3 p]; [by rewrite decide_False|]. rewrite H2.
              by destruct (decide (t3 :: p = t2 :: tokens)) as [->|?]; [rewrite decide_True | rewrite decide_False by congruence].
           ++ by rewrite decide_False by congruence.
        -- cbn. rewrite decide_True by left. by rewrite app_nil_r.
        -- intros Hok Hs (W1 & W2 & W3 & W4). split; [done|]. split; [done|]. split; [|done].
           apply H4; [|apply Hs|done]. intros p Hp [q Hq]. apply Hok; [done|]. exists q. by rewrite Hq.
      * rewrite bool_decide_eq_false_2 by done. wp_step.
        eapply wp_mono; [apply (IHn ok)|].
        { intros a k. specialize (HP a k). cbn [look] in HP. by rewrite decide_False in HP. }
        intros [rc nx] d' (a & subs & H1 & H2 & H3 & H4). wp_step. cbn [fst snd] in *.
        exists a, subs. split; [done|]. split; [|split].
        -- intros [|t3 p]; [by rewrite decide_False|]. cbn. destruct (decide (t' = t3)) as [->|N2].
           ++ by rewrite decide_False by congruence.
           ++ apply H2.
        -- apply chain_topics_skip; done.
        -- intros K1 K2 (W1 & W2 & W3 & W4). split; [done|]. split; [|split; [done|by apply H4]].
           rewrite H3. by apply chain_topics_fresh.
Qed.
End add.

(** ** The roots *)

Lemma on_root_run {A} t (f : _mosquitto_subhier -> M (A * _mosquitto_subhier)) root ch
    (R : A -> _mosquitto_subhier -> mosquitto_db -> Prop) d :
  root_chain root t = Some ch ->
  (forall a s r nx, wp (f (HNode a t s r ch nx))
     (fun o d' => exists ch', o.2 = HNode a t s r ch' nx /\ R o.1 ch' d') d) ->
  wp (on_root t f root) (fun o d' => exists x ch' root', o = Some (x, root') /\ R x ch' d'
    /\ (forall t', root_chain root' t' = if decide (t' = t) then Some ch' else root_chain root t')
    /\ chain_topics root' = chain_topics root
    /\ ((chain_wf (node_ok t) ch -> chain_wf (node_ok t) ch') -> roots_wf root -> roots_wf root')) d.
Proof.
  intros Hr Hf. induction root as [|a t' s r c IHc nx IHn]; [done|]. cbn [root_chain on_root] in *. unfold streq.
  destruct (decide (t' = t)) as [->|N].
  - injection Hr as ->. rewrite bool_decide_eq_true_2 by done. wp_step.
    eapply wp_mono; [apply Hf|]. intros [x h] d' (ch' & E & H). cbn [fst snd] in *. subst h. wp_step.
    exists x, ch', (HNode a t s r ch' nx). split; [done|]. split; [done|]. split; [|split; [done|]].
    + intros t'. cbn. destruct (decide (t = t')) as [<-|N]; [by rewrite decide_True|].
      by rewrite decide_False by congruence.
    + intros Hc (W1 & W2 & W3 & W4 & W5). do 3 (split; [done|]). split; [by apply Hc|done].
  - rewrite bool_decide_eq_false_2 by done. wp_step. eapply wp_mono; [by apply IHn|].
    intros o d' (x & ch' & root' & -> & H1 & H2 & H3 & H4). wp_step. cbn.
    exists x, ch', (HNode a t' s r c root'). split; [done|]. split; [done|]. split; [|split].
    + intros t2. cbn. rewrite H2. destruct (decide (t' = t2)) as [->|]; [by rewrite decide_False|done].
    + cbn. by rewrite H3.
    + intros Hc (W1 & W2 & W3 & W4 & W5). do 2 (split; [done|]). split; [by rewrite H3|]. split; [done|]. by apply H4.
Qed.

Lemma on_root_none {A} t (f : _mosquitto_subhier -> M (A * _mosquitto_subhier)) root Q d :
  root_chain root t = None -> Q None d -> wp (on_root t f root) Q d.
Proof.
  intros Hr HQ. revert Q HQ. induction root as [|a t' s r c IHc nx IHn]; intros Q HQ; [by cbn; wp_step|].
  cbn [root_chain on_root] in *. unfold streq. destruct (decide (t' = t)) as [->|N]; [done|].
  rewrite bool_decide_eq_false_2 by done. wp_step. apply IHn; [done|]. by wp_step.
Qed.

Lemma root_chain_none root t : root_chain root t = None -> t ∉ chain_topics root.
Proof.
  induction root as [|a t' s r c IHc nx IHn]; cbn; [intros _; apply not_elem_of_nil|].
  case_decide; [done|]. intros Hn. apply not_elem_of_cons. split; [congruence|by apply IHn].
Qed.

Lemma roots_wf_chain root t ch : roots_wf root -> root_chain root t = Some ch -> chain_wf (node_ok t) ch.
Proof.
  induction root as [|a t' s r c IHc nx IHn]; cbn; [done|]. intros (_ & _ & _ & H & Hn).
  case_decide; [by intros [= <-]; subst|by apply IHn].
Qed.

(** ** Tokens of filters *)

Lemma levels_no_slash s l : l ∈ levels s -> SLASH ∉ l.
Proof.
  revert l. induction s as [|c s IH]; intros l; cbn; [by intros ->%list_elem_of_singleton; apply not_elem_of_nil|].
  destruct (levels_cons s) as (k & ks & E). rewrite E in IH |- *.
  case_decide as Hc; rewrite elem_of_cons; intros [->|H].
  - apply not_elem_of_nil.
  - by apply IH.
  - apply not_elem_of_cons. split; [congruence|]. apply IH. by left.
  - apply IH. by right.
Qed.

Lemma levels_app l s : (SLASH ∉ l) -> levels (l ++ SLASH :: s) = l :: levels s.
Proof.
  induction l as [|c l IH]; intros H; [by cbn|].
  apply not_elem_of_cons in H as [N H]. cbn. rewrite decide_False by congruence. by rewrite IH.
Qed.

Lemma levels_single l : (SLASH ∉ l) -> levels l = [l].
Proof.
  induction l as [|c l IH]; [done|]. intros [N H]%not_elem_of_cons. cbn. rewrite decide_False by congruence. by rewrite IH.
Qed.

Lemma levels_unlevels q : q <> [] -> (forall l, l ∈ q -> SLASH ∉ l) -> levels (unlevels q) = q.
Proof.
  induction q as [|l q IH]; [done|]. intros _ H. destruct q as [|l2 q].
  - apply levels_single, H. by left.
  - change (unlevels (l :: l2 :: q)) with (l ++ SLASH :: unlevels (l2 :: q)).
    rewrite levels_app by (apply H; by left). rewrite IH; [done|done|]. intros k Hk. apply H. by right.
Qed.

Lemma starts_dollar_levels s : starts_dollar s = match levels s with l :: _ => starts_dollar l | [] => false end.
Proof.
  destruct s as [|c s]; [done|]. cbn. destruct (levels_cons s) as (l & ls & ->).
  case_decide as E; [by subst|done].
Qed.

Lemma valid_filter_prefix q r : valid_filter_levels (q ++ r) -> valid_filter_levels q.
Proof.
  induction q as [|f q IH]; [done|]. cbn. intros [H Hq]. split; [|by apply IH].
  destruct H as [?|[?|[? E]]]; [tauto|tauto|]. right; right. split; [done|]. by destruct q.
Qed.

(** The tokens on the way to a filter are tokens of filters themselves. *)
Lemma tokens_prefix_ok sub root p :
  valid_filter_levels (levels sub) -> head (_sub_topic_tokenise sub) = Some root ->
  p <> [] -> p `prefix_of` _sub_topic_tokenise sub -> node_ok root p [] None.
Proof.
  intros Hv Hr Hp [r E].
  assert (forall q, q <> [] -> q `prefix_of` levels sub ->
    exists s, valid_filter_levels (levels s) /\ levels s = q /\ starts_dollar s = starts_dollar sub) as Hq.
  { intros q Hq [k Ek]. exists (unlevels q).
    assert (levels (unlevels q) = q) as El.
    { apply levels_unlevels; [done|]. intros l Hl. apply (levels_no_slash sub). rewrite Ek. by apply elem_of_app; left. }
    rewrite !starts_dollar_levels, !El. split; [rewrite Ek in Hv; by apply valid_filter_prefix in Hv|].
    split; [done|]. rewrite Ek. by destruct q. }
  split.
  - rewrite E in Hr. by destruct p.
  - rewrite tokenise_run in E. destruct (starts_dollar sub) eqn:Es.
    + destruct (Hq p) as (s & Hs & El & Ed); [done|by exists r|]. right. exists s. split; [done|].
      by rewrite tokenise_run, Ed, El.
    + destruct p as [|x p]; [done|]. cbn in E. injection E as <- E. destruct p as [|y p]; [by left|].
      destruct (Hq (y :: p)) as (s & Hs & El & Ed); [done|by exists r|]. right. exists s. split; [done|].
      by rewrite tokenise_run, Ed, El.
Qed.

Lemma tokenise_inj s t : _sub_topic_tokenise s = _sub_topic_tokenise t -> s = t.
Proof. intros E. by rewrite <- (filter_of_tokenise s), E, filter_of_tokenise. Qed.

Lemma tokenise_head s : exists t ts, _sub_topic_tokenise s = t :: ts.
Proof. rewrite tokenise_run. destruct (levels_cons s) as (l & ls & ->). destruct (starts_dollar s); cbn; eauto. Qed.

Lemma node_ok_tokens root sub s r s' r' :
  node_ok root (_sub_topic_tokenise sub) s r -> node_ok root (_sub_topic_tokenise sub) s' r'.
Proof.
  intros [H1 [(E & _)|H2]]; (split; [done|]); [|by right].
  rewrite tokenise_run in E. destruct (levels_cons sub) as (l & ls & El). rewrite El in E.
  destruct (starts_dollar sub) eqn:Ed; [|done]. rewrite starts_dollar_levels, El in Ed. injection E as -> ->. done.
Qed.

(** ** Subscribing *)

Definition leaf_live (d : mosquitto_db) (leaf : _mosquitto_subleaf) : Prop :=
  is_Some (d_contexts d !! lf_context leaf).

Definition leaf_is (d : mosquitto_db) (id : str) (leaf : _mosquitto_subleaf) : bool :=
  bool_decide ((d_contexts d !! lf_context leaf) ≫= c_id = Some id).

(** The subscribers of a filter once the client [c], called [id], is one of them: a
    client is there once and its last request decides the QoS. *)
Fixpoint subscribed (d : mosquitto_db) (c : addr) (id : str) (qos : Z) (subs : list _mosquitto_subleaf)
    : list _mosquitto_subleaf :=
  match subs with
  | [] => [Leaf c qos]
  | leaf :: subs =>
    if leaf_is d id leaf then Leaf (lf_context leaf) qos :: subs else leaf :: subscribed d c id qos subs
  end.

Definition known (d : mosquitto_db) (id : str) (subs : list _mosquitto_subleaf) : bool :=
  existsb (leaf_is d id) subs.

Lemma resubscribe_run d c id qos subs :
  Forall (leaf_live d) subs ->
  wp (resubscribe id qos subs) (fun r d' => d' = d /\
    match r with
    | Some l => known d id subs = true /\ l = subscribed d c id qos subs
    | None => known d id subs = false /\ subs ++ [Leaf c qos] = subscribed d c id qos subs
    end) d.
Proof.
  induction subs as [|leaf subs IH]; intros Hl; cbn [resubscribe subscribed known existsb app].
  - by wp_step.
  - apply Forall_cons in Hl as [[y Hy] Hl]. wp_step. wp_ptr. unfold leaf_is. rewrite Hy. cbn [mbind option_bind].
    destruct (bool_decide (c_id y = Some id)); wp_step; [done|].
    eapply wp_mono; [by apply IH|]. intros [l|] d' [-> [H1 H2]]; wp_step; cbn; (split; [done|]); (split; [done|]); by rewrite <- H2.
Qed.

(** What [add_leaf] leaves behind. *)
Definition leaf_added (c : addr) (x : mosquitto) (id : str) (qos : Z) (subs : list _mosquitto_subleaf)
    (d : mosquitto_db) (a : addr) (subs' : list _mosquitto_subleaf) (d' : mosquitto_db) : Prop :=
  subs' = subscribed d c id qos subs /\
  exists k, d' = d <| d_next := k |>
    <| d_contexts ::= (fun m => if known d id subs then m else <[c := x <| c_subs ::= fill_slot a |>]> m) |>
    <| d_subscription_count ::= (fun n => if known d id subs then n else n + 1) |>.

Lemma add_leaf_run c x id qos a subs d k :
  d_contexts d !! c = Some x -> c_id x = Some id -> Forall (leaf_live d) subs ->
  wp (add_leaf (Some c) qos a subs) (fun r d' =>
    (r.1 = 0 \/ r.1 = -1) /\ leaf_added c x id qos subs d a r.2 d') (d <| d_next := k |>).
Proof.
  intros Hx Hid Hl. unfold add_leaf. wp_step. wp_ptr. rewrite Hid. wp_step.
  eapply wp_mono; [apply (resubscribe_run _ c id qos subs); exact Hl|].
  intros r d' [-> H].
  assert (known (d <| d_next := k |>) id subs = known d id subs) as K by done.
  assert (subscribed (d <| d_next := k |>) c id qos subs = subscribed d c id qos subs) as S.
  { clear. induction subs as [|l s IH]; cbn; [done|]. by rewrite IH. }
  rewrite K, S in H. destruct r as [l|]; destruct H as [H1 H2]; wp_step.
  - cbn [fst snd]. split; [case_bool_decide; auto|]. split; [done|]. exists k. rewrite H1.
    destruct d; db_compute; reflexivity.
  - wp_ptr. cbn [fst snd]. split; [by left|]. split; [done|]. exists k. rewrite H1.
    destruct d; db_compute; reflexivity.
Qed.

Lemma slot_update root root' sub t ch' v :
  head (_sub_topic_tokenise sub) = Some t ->
  (forall t', root_chain root' t' = if decide (t' = t) then Some ch' else root_chain root t') ->
  (forall p, look ch' p = if decide (p = _sub_topic_tokenise sub) then v
     else look (default HNil (root_chain root t)) p) ->
  forall f, slot root' f = if decide (f = sub) then v else slot root f.
Proof.
  intros Ht Hr Hl f. unfold slot. destruct (tokenise_head f) as (t2 & ts & Ef).
  assert (f = sub <-> t2 :: ts = _sub_topic_tokenise sub) as Heq.
  { rewrite <- Ef. split; [by intros ->|apply tokenise_inj]. }
  rewrite Ef. cbn [head mbind option_bind]. rewrite Hr. destruct (decide (t2 = t)) as [->|N].
  - rewrite Hl. destruct (decide (f = sub)) as [E|E], (decide (t :: ts = _sub_topic_tokenise sub)) as [E2|E2]; try tauto.
    by destruct (root_chain root t).
  - rewrite decide_False; [done|]. intros E%Heq. rewrite <- E in Ht. by injection Ht.
Qed.

Lemma sub_add_run c x id sub qos d :
  d_contexts d !! c = Some x -> c_id x = Some id -> roots_wf (d_subs d) ->
  valid_filter_levels (levels sub) -> Forall (leaf_live d) (subscribers (d_subs d) sub) ->
  wp (mqtt3_sub_add c sub qos) (fun rc d' => rc = MOSQ_ERR_SUCCESS
    /\ roots_wf (d_subs d')
    /\ subscribers (d_subs d') sub = subscribed d c id qos (subscribers (d_subs d) sub)
    /\ (forall f, f <> sub -> subscribers (d_subs d') f = subscribers (d_subs d) f)
    /\ (forall t, retained_for (d_subs d') t = retained_for (d_subs d) t)
    /\ let new := negb (known d id (subscribers (d_subs d) sub)) in
       exists a, d' = d <| d_next := d_next d' |> <| d_subs := d_subs d' |>
         <| d_subscription_count ::= (fun n => if new then n + 1 else n) |>
         <| d_contexts ::= (fun m => if new then <[c := x <| c_subs ::= fill_slot a |>]> m else m) |>) d.
Proof.
  intros Hx Hid Hwf Hv Hl. unfold mqtt3_sub_add.
  destruct (tokenise_head sub) as (t & ts & Et). rewrite Et. cbn [head]. wp_step.
  exists t. split; [done|]. wp_step.
  assert (forall p, p <> [] -> p `prefix_of` t :: ts -> node_ok t p [] None) as Hpre.
  { intros p. rewrite <- Et. apply (tokens_prefix_ok sub); [done|by rewrite Et]. }
  assert (forall s r s', node_ok t (t :: ts) s r -> node_ok t (t :: ts) s' r) as Hsame.
  { rewrite <- Et. intros s r s'. apply node_ok_tokens. }
  set (subs := subscribers (d_subs d) sub) in *.
  assert (forall root' s' a d', (forall f, slot root' f = if decide (f = sub) then (s', (slot (d_subs d) f).2) else slot (d_subs d) f) ->
    roots_wf root' -> leaf_added c x id qos subs d a s' d' ->
    let d2 := d' <| d_subs := root' |> in
    roots_wf (d_subs d2) /\ subscribers (d_subs d2) sub = subscribed d c id qos subs
    /\ (forall f, f <> sub -> subscribers (d_subs d2) f = subscribers (d_subs d) f)
    /\ (forall t, retained_for (d_subs d2) t = retained_for (d_subs d) t)
    /\ exists a, d2 = d <| d_next := d_next d2 |> <| d_subs := d_subs d2 |>
         <| d_subscription_count ::= (fun n => if negb (known d id subs) then n + 1 else n) |>
         <| d_contexts ::= (fun m => if negb (known d id subs) then <[c := x <| c_subs ::= fill_slot a |>]> m else m) |>)
    as Hend.
  { intros root' s' a d' Hs Hr [-> [k ->]]. cbn [d_subs]. unfold subscribers, retained_for. proj_simpl.
    split; [done|]. split; [by rewrite Hs, decide_True|]. split; [intros f Hf; by rewrite Hs, decide_False|].
    split; [intros f; rewrite Hs; by case_decide|]. exists a.
    destruct (known d id subs); destruct d; db_compute; reflexivity. }
  destruct (root_chain (d_subs d) t) as [ch|] eqn:Er.
  - assert (subs = (look ch (t :: ts)).1) as Esubs.
    { unfold subs, subscribers, slot. rewrite Et. cbn. by rewrite Er. }
    eapply wp_mono.
    { apply (on_root_run t _ _ ch (fun rc ch' d' => exists a s', (rc = 0 \/ rc = -1) /\ leaf_added c x id qos subs d a s' d'
        /\ (forall p, look ch' p = if decide (p = t :: ts) then (s', (look ch p).2) else look ch p)
        /\ (chain_wf (node_ok t) ch -> chain_wf (node_ok t) ch'))); [done|].
      intros a s r nx. cbn [_sub_add]. wp_step.
      eapply wp_mono; [apply (chain_add_run (Some c) qos ts t ch (node_ok t) (fun a rc s' d' => (rc = 0 \/ rc = -1) /\ leaf_added c x id qos subs d a s' d'))|].
      { intros b k. rewrite <- Esubs. by apply add_leaf_run. }
      intros [rc ch'] d' (b & s' & [H1 H2] & H3 & H4 & H5). wp_step. cbn [fst snd] in *.
      exists ch'. split; [done|]. exists b, s'. split; [done|]. split; [done|]. split; [done|].
      intros Hch. apply H5; [done| |done]. intros s0 r0. apply Hsame. }
    intros o d' (rc & ch' & root' & -> & (a & s' & H1 & H2 & H3 & H4) & H5 & H6 & H7). wp_step.
    split; [by destruct H1 as [-> | ->]|].
    apply (Hend root' s' a); [|by apply H7|done].
    intros f. rewrite (slot_update (d_subs d) root' sub t ch' (s', (look ch (t :: ts)).2)); [|by rewrite Et|done|].
    + case_decide; [|done]. subst f. unfold slot. rewrite Et. cbn. by rewrite Er.
    + intros p. rewrite Er, Et. cbn. rewrite H3. case_decide; [by subst|done].
  - apply on_root_none; [done|]. unfold malloc. wp_step. cbn [_sub_add]. wp_step.
    assert (subs = []) as Esubs. { unfold subs, subscribers, slot. rewrite Et. cbn. by rewrite Er. }
    eapply wp_mono; [apply (chain_add_run (Some c) qos ts t HNil (node_ok t) (fun a rc s' d' => (rc = 0 \/ rc = -1) /\ leaf_added c x id qos subs d a s' d'))|].
    { intros b k. rewrite Esubs in Hl |- *. by apply (add_leaf_run c x id qos b [] d k). }
    intros [rc ch'] d' (b & s' & [H1 H2] & H3 & H4 & H5). wp_step. cbn [fst snd] in *.
    split; [by destruct H1 as [-> | ->]|].
    apply (Hend _ s' b); [| |done].
    + intros f. rewrite (slot_update (d_subs d) _ sub t ch' (s', None)); [|by rewrite Et| |].
      * destruct (decide (f = sub)); [|done]. subst f. unfold slot. rewrite Et. cbn. by rewrite Er.
      * intros t'. cbn. destruct (decide (t = t')) as [<-|N]; [by rewrite decide_True|by rewrite decide_False by congruence].
      * intros p. rewrite Er, Et. cbn. rewrite H3. by destruct (decide _).
    + do 2 (split; [done|]). split; [by apply root_chain_none|]. split; [|done].
      apply H5; [done| |done]. intros s0 r0. apply Hsame.
Qed.

(** C36: [mqtt3_sub_add] records a subscription and nothing else.  The subscribers of
    that filter become the old ones with this client among them once, with the QoS
    asked for; those of every other filter and all retained messages stay as they are
    and the tree stays well-formed.  The subscription is counted, and noted with the
    client, exactly when it is a new one. *)
Theorem sub_add_spec c x id sub qos d :
  d_contexts d !! c = Some x -> c_id x = Some id -> roots_wf (d_subs d) ->
  valid_filter_levels (levels sub) -> Forall (leaf_live d) (subscribers (d_subs d) sub) ->
  wp (mqtt3_sub_add c sub qos) (fun rc d' => rc = MOSQ_ERR_SUCCESS
    /\ roots_wf (d_subs d')
    /\ subscribers (d_subs d') sub = subscribed d c id qos (subscribers (d_subs d) sub)
    /\ (forall f, f <> sub -> subscribers (d_subs d') f = subscribers (d_subs d) f)
    /\ (forall t, retained_for (d_subs d') t = retained_for (d_subs d) t)
    /\ let new := negb (known d id (subscribers (d_subs d) sub)) in
       exists a, d' = d <| d_next := d_next d' |> <| d_subs := d_subs d' |>
         <| d_subscription_count ::= (fun n => if new then n + 1 else n) |>
         <| d_contexts ::= (fun m => if new then <[c := x <| c_subs ::= fill_slot a |>]> m else m) |>) d.
Proof. by apply sub_add_run. Qed.

(** ** Unsubscribing *)

Lemma prune_spec ok a t s r ch nx :
  chain_wf ok (HNode a t s r ch nx) ->
  (forall p, look (prune (HNode a t s r ch nx)) p = look (HNode a t s r ch nx) p)
  /\ chain_topics (prune (HNode a t s r ch nx)) ⊆ t :: chain_topics nx
  /\ chain_wf ok (prune (HNode a t s r ch nx)).
Proof.
  intros Hwf. destruct s as [|l s], r as [r|], ch as [|b t' s' r' c' n']; try done.
  destruct Hwf as (_ & Hn & _ & Hw). cbn [prune]. split; [|split; [set_solver|done]].
  intros [|t' p]; [by destruct nx|]. cbn. destruct (decide (t = t')) as [<-|N]; [|done].
  rewrite look_absent by done. by destruct p.
Qed.

Lemma remove_leaf_run c x a subs d :
  d_contexts d !! c = Some x ->
  wp (remove_leaf c a subs) (fun subs' d' =>
    match unlink_leaf c subs with
    | None => subs' = subs /\ d' = d
    | Some l => subs' = l /\ d' = d <| d_subscription_count ::= Z.pred |>
                                    <| d_contexts ::= <[c := x <| c_subs ::= clear_slot a |>]> |>
    end) d.
Proof.
  intros Hx. unfold remove_leaf. destruct (unlink_leaf c subs); wp_step; [|done]. by wp_ptr.
Qed.

(** What [remove_leaf] at the node with subscribers [old] leaves behind. *)
Definition leaf_removed (c : addr) (x : mosquitto) (old : list _mosquitto_subleaf) (d d' : mosquitto_db) : Prop :=
  match unlink_leaf c old with
  | None => d' = d
  | Some _ => exists a, d' = d <| d_subscription_count ::= Z.pred |>
                              <| d_contexts ::= <[c := x <| c_subs ::= clear_slot a |>]> |>
  end.

(** The chain once [c] is no longer among the subscribers at [t :: tokens]: unused
    nodes on the way are gone, which changes no look-up. *)
Lemma chain_remove_run c x tokens t ch ok d :
  d_contexts d !! c = Some x -> chain_wf ok ch ->
  (forall s s' r, ok (t :: tokens) s r -> ok (t :: tokens) s' r) ->
  wp (branch_remove t (_sub_remove c tokens) ch) (fun ch' d' =>
    let old := (look ch (t :: tokens)).1 in
    (forall p, look ch' p = if decide (p = t :: tokens) then (default old (unlink_leaf c old), (look ch p).2)
                            else look ch p)
    /\ chain_topics ch' ⊆ chain_topics ch /\ chain_wf ok ch' /\ leaf_removed c x old d d') d.
Proof.
  intros Hx. revert t ch ok. induction tokens as [|t2 tokens IHt]; intros t ch ok.
  all: revert ok; induction ch as [|b t' s r children _ next IHn]; intros ok Hwf Hok.
  1, 3: cbn; wp_step; split; [intros p; case_decide; by subst|]; split; [done|]; by split.
  all: cbn [branch_remove]; unfold streq; destruct (decide (t' = t)) as [->|N].
  2, 4: rewrite bool_decide_eq_false_2 by done; wp_step; destruct Hwf as (W1 & W2 & W3 & W4);
    (eapply wp_mono; [by apply (IHn ok)|]); intros nx d' (H1 & H2 & H3 & H4); wp_step; cbn zeta;
    cbn [look]; rewrite (decide_False (P := t' = t)) by done; (split; [|split; [set_solver|split; [|done]]]);
    [ intros [|t3 p]; [by rewrite decide_False|]; cbn; destruct (decide (t' = t3)) as [->|];
      [by rewrite decide_False by congruence | apply H1]
    | split; [done|]; split; [set_solver|done] ].
  all: rewrite bool_decide_eq_true_2 by done; cbn [_sub_remove look]; rewrite decide_True by done; wp_step.
  - eapply wp_mono; [by apply remove_leaf_run|]. intros s' d' H. wp_step. cbn zeta. cbn [fst].
    assert (s' = default s (unlink_leaf c s) /\ leaf_removed c x s d d') as [-> Hd].
    { unfold leaf_removed. destruct (unlink_leaf c s); [|tauto]. destruct H as [-> ->]. split; [done|]. by exists b. }
    destruct (prune_spec ok b t (default s (unlink_leaf c s)) r children next) as (P1 & P2 & P3).
    { destruct Hwf as (W1 & W2 & W3 & W4). split; [by apply (Hok s)|done]. }
    split; [|done]. intros p. rewrite P1. destruct p as [|t3 p]; [by rewrite decide_False|]. cbn.
    destruct (decide (t = t3)) as [<-|N]; [|by rewrite decide_False by congruence].
    destruct p; [by rewrite decide_True | by rewrite decide_False].
  - destruct Hwf as (W1 & W2 & W3 & W4). eapply wp_mono; [by apply (IHt t2 children (fun p => ok (t :: p)))|].
    intros ch' d' (H1 & H2 & H3 & H4). wp_step. cbn zeta.
    destruct (prune_spec ok b t s r ch' next) as (P1 & P2 & P3); [done|].
    split; [|done]. intros p. rewrite P1. destruct p as [|t3 p]; [by rewrite decide_False|]. cbn [look].
    destruct (decide (t = t3)) as [<-|N]; [|by rewrite decide_False by congruence].
    destruct p as [|t4 p]; [by rewrite decide_False|]. rewrite H1.
    by destruct (decide (t4 :: p = t2 :: tokens)) as [->|?]; [rewrite decide_True | rewrite decide_False by congruence].
Qed.

(** C37: [mqtt3_sub_remove] undoes a subscription and nothing else: the client is taken
    off the subscribers of that filter (if it is one of them, which is also when the
    count goes down), those of every other filter and all retained messages are
    untouched, and the tree without the nodes that became useless is well-formed. *)
Theorem sub_remove_spec c x sub d :
  d_contexts d !! c = Some x -> roots_wf (d_subs d) ->
  wp (mqtt3_sub_remove c sub) (fun rc d' => rc = MOSQ_ERR_SUCCESS
    /\ roots_wf (d_subs d')
    /\ let old := subscribers (d_subs d) sub in
       subscribers (d_subs d') sub = default old (unlink_leaf c old)
    /\ (forall f, f <> sub -> subscribers (d_subs d') f = subscribers (d_subs d) f)
    /\ (forall t, retained_for (d_subs d') t = retained_for (d_subs d) t)
    /\ let found := bool_decide (c ∈ lf_context <$> old) in
       exists a, d' = d <| d_subs := d_subs d' |>
         <| d_subscription_count ::= (fun n => if found then n - 1 else n) |>
         <| d_contexts ::= (fun m => if found then <[c := x <| c_subs ::= clear_slot a |>]> m else m) |>) d.
Proof.
  intros Hx Hwf. unfold mqtt3_sub_remove.
  destruct (tokenise_head sub) as (t & ts & Et). rewrite Et. cbn [head]. wp_step.
  exists t. split; [done|]. wp_step. cbn zeta. set (old := subscribers (d_subs d) sub) in *.
  assert (forall l, is_Some (unlink_leaf c l) <-> c ∈ lf_context <$> l) as Hfound.
  { induction l as [|y l IH]; cbn.
    - split; [by intros [? ?]|by intros ?%not_elem_of_nil].
    - rewrite elem_of_cons. destruct (decide (lf_context y = c)) as [<-|N]; [split; [by left|by eexists]|].
      rewrite <- IH. destruct (unlink_leaf c l) as [l'|]; cbn; split.
      + intros _. right. by eexists.
      + intros _. by eexists.
      + by intros [? ?].
      + intros [?|[? ?]]; congruence. }
  assert (forall d', leaf_removed c x old d d' -> forall root', roots_wf root' ->
    (forall f, slot root' f = if decide (f = sub) then (default old (unlink_leaf c old), (slot (d_subs d) f).2) else slot (d_subs d) f) ->
    let d2 := d' <| d_subs := root' |> in
    roots_wf (d_subs d2) /\ subscribers (d_subs d2) sub = default old (unlink_leaf c old)
    /\ (forall f, f <> sub -> subscribers (d_subs d2) f = subscribers (d_subs d) f)
    /\ (forall t, retained_for (d_subs d2) t = retained_for (d_subs d) t)
    /\ exists a, d2 = d <| d_subs := d_subs d2 |>
         <| d_subscription_count ::= (fun n => if bool_decide (c ∈ lf_context <$> old) then n - 1 else n) |>
         <| d_contexts ::= (fun m => if bool_decide (c ∈ lf_context <$> old) then <[c := x <| c_subs ::= clear_slot a |>]> m else m) |>)
    as Hend.
  { intros d' Hd root' Hr Hs. unfold subscribers, retained_for. proj_simpl.
    split; [done|]. split; [by rewrite Hs, decide_True|]. split; [intros f Hf; by rewrite Hs, decide_False|].
    split; [intros f; rewrite Hs; by case_decide|]. specialize (Hfound old). unfold leaf_removed in Hd.
    destruct (unlink_leaf c old) as [l|].
    - destruct Hd as [a ->]. exists a. rewrite bool_decide_eq_true_2 by (by apply Hfound; eexists).
      destruct d; db_compute; reflexivity.
    - subst d'. exists 0%nat. rewrite bool_decide_eq_false_2; [by destruct d; db_compute|]. intros ?%Hfound. by destruct H. }
  destruct (root_chain (d_subs d) t) as [ch|] eqn:Er.
  - assert (old = (look ch (t :: ts)).1) as Eold. { unfold old, subscribers, slot. rewrite Et. cbn. by rewrite Er. }
    eapply wp_mono.
    { apply (on_root_run t _ _ ch (fun _ ch' d' => leaf_removed c x old d d' /\ chain_wf (node_ok t) ch'
        /\ (forall p, look ch' p = if decide (p = t :: ts) then (default old (unlink_leaf c old), (look ch p).2) else look ch p)));
      [done|].
      intros a s r nx. cbn [_sub_remove]. wp_step.
      eapply wp_mono; [apply (chain_remove_run c x ts t ch (node_ok t)); [done|by eapply roots_wf_chain|]|].
      { rewrite <- Et. intros s0 s1 r0. apply node_ok_tokens. }
      intros ch' d' (H1 & H2 & H3 & H4). wp_step. exists ch'. split; [done|]. rewrite Eold. done. }
    intros o d' ([] & ch' & root' & -> & (H1 & H2 & H3) & H5 & H6 & H7). wp_step.
    split; [done|]. apply Hend; [done|by apply H7|].
    intros f. rewrite (slot_update (d_subs d) root' sub t ch' (default old (unlink_leaf c old), (look ch (t :: ts)).2)); [|by rewrite Et|done|].
    + destruct (decide (f = sub)); [|done]. subst f. unfold slot. rewrite Et. cbn. by rewrite Er.
    + intros p. rewrite Er, Et. cbn. rewrite H3. destruct (decide (p = t :: ts)); [by subst|done].
  - apply on_root_none; [done|]. wp_step. split; [done|].
    assert (old = []) as Eold. { unfold old, subscribers, slot. rewrite Et. cbn. by rewrite Er. }
    split; [done|]. rewrite Eold. split; [done|]. split; [done|]. split; [done|].
    exists 0%nat. rewrite bool_decide_eq_false_2 by apply not_elem_of_nil. destruct d; db_compute; reflexivity.
Qed.

(** * Retained messages *)

Definition is_hash (tokens : list str) : bool := bool_decide (tokens = [[HASH]]).

Definition at_node (t : str) (r : option addr) : list (list str * addr) :=
  match r with Some s => [([t], s)] | None => [] end.

(** The retained messages that a subscription with these tokens is sent, each with the
    path of its node, in order. *)
Fixpoint hits (h : _mosquitto_subhier) (tokens : list str) (level : Z) : list (list str * addr) :=
  match h with
  | HNil => []
  | HNode _ topic _ r children next =>
    match tokens with
    | [] => []
    | token :: tokens' =>
      (if is_hash tokens then at_node topic r ++ (prod_map (cons topic) id <$> hits children tokens (level + 1))
       else if negb (streq topic [PLUS]) && (streq topic token || streq token [PLUS]) then
         (prod_map (cons topic) id <$> hits children tokens' (level + 1))
         ++ (if bool_decide (tokens' = []) || (is_hash tokens' && negb (is_nil children))
                || (is_nil next && bool_decide (head tokens' = Some [HASH]) && (0 <? level))
             then at_node topic r else [])
       else [])
      ++ hits next tokens level
    end
  end.

Section retain_proof.
Context (c : addr) (sub_qos : Z).

Definition send_hit (n : list str * addr) : M unit := _retain_process n.2 c sub_qos;; mret tt.

Lemma process_slot_hits t r : process_slot c sub_qos r ≈ for_each send_hit (at_node t r).
Proof. destruct r; cbn; [|done]. unfold send_hit. by st_norm. Qed.

Lemma for_each_hits t l : for_each send_hit (prod_map (cons t) id <$> l) ≈ for_each send_hit l.
Proof. rewrite for_each_map. done. Qed.

(** [_retain_search] processes the hits; its result tells whether there was a node and
    the tokens were "#". *)
Lemma retain_search_hits h tokens level flag :
  tokens <> [] ->
  _retain_search c sub_qos h tokens level flag
  ≈ (for_each send_hit (hits h tokens level);;
     mret (if negb (is_nil h) && is_hash tokens then -1 else flag)).
Proof.
  revert tokens level flag. induction h as [|a t s r ch IHc nx IHn]; intros tokens level flag Ht; [by cbn; st_norm|].
  destruct tokens as [|token tokens]; [done|]. cbn [_retain_search hits is_nil negb andb].
  assert (streq token [HASH] && bool_decide (tokens = []) = is_hash (token :: tokens)) as ->.
  { unfold streq, is_hash. rewrite <- bool_decide_and. apply bool_decide_ext. split; [by intros [-> ->]|by intros [= -> ->]]. }
  destruct (is_hash (token :: tokens)) eqn:Eh; cbv iota.
  - rewrite (process_slot_hits t r). repeat setoid_rewrite for_each_app. setoid_rewrite for_each_hits.
    assert ((if is_nil ch then mret tt else _retain_search c sub_qos ch (token :: tokens) (level + 1) 0;; mret tt)
      ≈ for_each send_hit (hits ch (token :: tokens) (level + 1))) as E.
    { destruct ch; [done|]. cbn [is_nil]. rewrite IHc by done. st_norm. apply bind_unit. }
    setoid_rewrite E. st_norm. do 2 (f_equiv; intros []). rewrite IHn by done. rewrite Eh. by destruct nx.
  - destruct (negb (streq t [PLUS]) && (streq t token || streq token [PLUS])); cbv iota.
    2: { st_norm. rewrite IHn by done. by rewrite Eh, andb_false_r. }
    repeat setoid_rewrite for_each_app. setoid_rewrite for_each_hits.
    destruct tokens as [|token' tokens].
    + rewrite bool_decide_eq_true_2 by done. cbn [orb]. rewrite (process_slot_hits t r). 
      assert (hits ch [] (level + 1) = []) as -> by (by destruct ch). cbn [for_each]. st_norm. f_equiv. intros [].
      rewrite IHn by done. by rewrite Eh, andb_false_r.
    + rewrite (IHc (token' :: tokens)) by done. rewrite (bool_decide_eq_false_2 (token' :: tokens = [])) by done.
      cbn [orb]. st_norm. f_equiv. intros [].
      assert (((if negb (is_nil ch) && is_hash (token' :: tokens) then -1 else 0) =? -1)
         = is_hash (token' :: tokens) && negb (is_nil ch)) as ->.
      { rewrite andb_comm. by destruct (_ && _). }
      assert (streq token' [HASH] = bool_decide (head (token' :: tokens) = Some [HASH])) as ->.
      { unfold streq. apply bool_decide_ext. cbn. split; [by intros ->|by intros [= ->]]. }
      destruct (_ || _); [rewrite (process_slot_hits t r)|]; cbn [for_each]; st_norm; [f_equiv; intros []|];
        rewrite (IHn (token :: token' :: tokens)) by done; by rewrite Eh, andb_false_r.
Qed.
End retain_proof.

(** The children of the node of a path. *)
Fixpoint below (h : _mosquitto_subhier) (p : list str) : _mosquitto_subhier :=
  match h, p with
  | HNode _ t _ _ children next, t' :: p' =>
    if decide (t = t') then match p' with [] => children | _ => below children p' end
    else below next p
  | _, _ => HNil
  end.

Lemma at_node_elem t r p s : (p, s) ∈ at_node t r <-> p = [t] /\ r = Some s.
Proof.
  destruct r as [s'|]; cbn; [rewrite list_elem_of_singleton|]; [|split; [by intros ?%not_elem_of_nil|by intros [_ ?]]].
  split; [by intros [= -> ->]|by intros [-> [= ->]]].
Qed.

Lemma cons_elem t p s (l : list (list str * addr)) :
  (p, s) ∈ prod_map (cons t) id <$> l <-> exists q, p = t :: q /\ (q, s) ∈ l.
Proof.
  rewrite list_elem_of_fmap. split.
  - intros ([q s'] & [= -> ->] & H). by exists q.
  - intros (q & -> & H). by exists (q, s).
Qed.

Lemma cons_fst t (l : list (list str * addr)) :
  (prod_map (cons t) (@id addr) <$> l).*1 = cons t <$> l.*1.
Proof. induction l as [|[p s] l IH]; [done|]. cbn. by rewrite <- IH. Qed.

Lemma hits_head h tokens level p s : (p, s) ∈ hits h tokens level -> exists t q, p = t :: q /\ t ∈ chain_topics h.
Proof.
  induction h as [|a t ss r ch IHc nx IHn]; cbn; [by intros ?%not_elem_of_nil|].
  destruct tokens as [|token tokens]; [by intros ?%not_elem_of_nil|].
  rewrite elem_of_app. intros [H|H].
  - exists t. assert (exists q, p = t :: q) as [q ->]; [|by exists q; split; [|left]].
    revert H. destruct (is_hash _); [|destruct (_ && _); [|by intros ?%not_elem_of_nil]].
    + rewrite elem_of_app, cons_elem, at_node_elem. intros [[-> _]|(q & -> & _)]; eauto.
    + rewrite elem_of_app, cons_elem. destruct (_ || _); rewrite ?at_node_elem;
        intros [(q & -> & _)|H]; eauto; [destruct H as [-> _]; eauto|by apply not_elem_of_nil in H].
  - destruct (IHn H) as (t' & q & -> & Hin). exists t', q. split; [done|by right].
Qed.

Lemma is_hash_true tokens : is_hash tokens = true <-> tokens = [[HASH]].
Proof. apply bool_decide_eq_true. Qed.

Lemma level_match_hash p : level_match [[HASH]] p = true.
Proof. done. Qed.

Lemma level_match_cons token tokens t p :
  is_hash (token :: tokens) = false ->
  level_match (token :: tokens) (t :: p) = (streq t token || streq token [PLUS]) && level_match tokens p.
Proof.
  intros H. cbn. assert (bool_decide (token = [HASH]) && bool_decide (tokens = []) = false) as ->.
  { rewrite <- bool_decide_and. apply bool_decide_eq_false. apply bool_decide_eq_false in H. intros [-> ->]. done. }
  unfold streq. rewrite orb_comm. f_equal. f_equal. apply bool_decide_ext. split; congruence.
Qed.

Lemma hits_sound ok h tokens level p s :
  chain_wf ok h -> valid_filter_levels tokens -> (p, s) ∈ hits h tokens level ->
  level_match tokens p = true /\ (look h p).2 = Some s.
Proof.
  revert ok tokens level p. induction h as [|a t ss r ch IHc nx IHn]; intros ok tokens level p Hwf Hv; cbn [hits].
  { by intros ?%not_elem_of_nil. }
  destruct Hwf as (W1 & W2 & W3 & W4).
  destruct tokens as [|token tokens]; [by intros ?%not_elem_of_nil|].
  assert (forall q, look (HNode a t ss r ch nx) (t :: q) = match q with [] => (ss, r) | _ => look ch q end) as Hlook.
  { intros q. cbn. by rewrite decide_True. }
  assert (forall tokens' level', valid_filter_levels tokens' -> forall q, (q, s) ∈ hits ch tokens' level' ->
     level_match tokens' q = true /\ (look (HNode a t ss r ch nx) (t :: q)).2 = Some s) as Hch.
  { intros tokens' level' Hv' q Hq. destruct (IHc _ _ _ _ W3 Hv' Hq) as [H1 H2]. split; [done|]. rewrite Hlook.
    apply hits_head in Hq as (t' & q' & -> & _). done. }
  rewrite elem_of_app. intros [H|H].
  2: { destruct (IHn _ _ _ _ W4 Hv H) as [H1 H2]. split; [done|].
       apply hits_head in H as (t' & q & -> & Hin). cbn [look]. rewrite decide_False; [done|]. by intros ->. }
  destruct (is_hash (token :: tokens)) eqn:Eh.
  - pose proof Eh as Et. apply is_hash_true in Et. injection Et as -> ->. split; [by apply level_match_hash|].
    apply elem_of_app in H as [[-> ->]%at_node_elem|(q & -> & Hq)%cons_elem]; [by rewrite Hlook|].
    by apply (Hch _ _ Hv) in Hq as [_ ?].
  - destruct (negb (streq t [PLUS]) && (streq t token || streq token [PLUS])) eqn:Em; [|by apply not_elem_of_nil in H].
    apply andb_true_iff in Em as [_ Em]. destruct Hv as [Hv1 Hv].
    apply elem_of_app in H as [(q & -> & Hq)%cons_elem|H].
    + rewrite level_match_cons, Em by done. by apply (Hch _ _ Hv) in Hq.
    + destruct (_ || _ && _) eqn:Ez in H; [|by apply not_elem_of_nil in H]. apply at_node_elem in H as [-> ->].
      rewrite level_match_cons, Em by done. split; [|by rewrite Hlook].
      destruct tokens as [|token' tokens]; [done|]. rewrite (bool_decide_eq_false_2 (_ :: _ = [])) in Ez by done. cbn [orb] in Ez.
      assert (token' = [HASH]) as ->.
      { apply orb_true_iff in Ez as [[E _]%andb_true_iff|[[_ E]%andb_true_iff _]%andb_true_iff].
        - apply is_hash_true in E. by injection E.
        - apply bool_decide_eq_true in E. by injection E. }
      destruct Hv as [[Hn|[[_ Hn]|[_ ->]]] _]; [done | by destruct Hn; left | done].
Qed.

Lemma hits_complete ok h tokens level p s :
  chain_wf ok h -> valid_filter_levels tokens -> level_match tokens p = true -> ([PLUS] ∉ p) ->
  (look h p).2 = Some s -> length tokens <> S (length p) \/ below h p <> HNil ->
  (p, s) ∈ hits h tokens level.
Proof.
  revert ok tokens level p. induction h as [|a t ss r ch IHc nx IHn]; intros ok tokens level p Hwf Hv Hm Hp Hl Hz; [done|].
  destruct Hwf as (W1 & W2 & W3 & W4). cbn [hits].
  destruct p as [|t' p]; [done|]. destruct tokens as [|token tokens]; [done|].
  cbn [look below] in Hl, Hz. apply elem_of_app.
  destruct (decide (t = t')) as [<-|N]; [left|right; by eapply (IHn ok)].
  apply not_elem_of_cons in Hp as [Hpt Hp].
  destruct (is_hash (token :: tokens)) eqn:Eh.
  - rewrite elem_of_app, cons_elem, at_node_elem. pose proof Eh as Et. apply is_hash_true in Et. injection Et as -> ->.
    destruct p as [|t2 p]; [left; by cbn in Hl; subst|right]. exists (t2 :: p). split; [done|].
    apply (IHc (fun p => ok (t :: p))); try done. by left.
  - rewrite level_match_cons in Hm by done. apply andb_true_iff in Hm as [Hm1 Hm]. rewrite Hm1. destruct Hv as [_ Hv].
    assert (streq t [PLUS] = false) as -> by (apply bool_decide_eq_false_2; congruence). cbn [negb andb].
    rewrite elem_of_app, cons_elem. destruct p as [|t2 p].
    + right. cbn in Hl. subst r. assert (tokens = [] \/ tokens = [[HASH]]) as [-> | ->].
      { destruct tokens as [|x tokens]; [by left|]. right. cbn in Hm.
        destruct (decide (x = [HASH] /\ tokens = [])) as [[-> ->]|Nx]; [done|].
        rewrite <- bool_decide_and in Hm. by rewrite bool_decide_eq_false_2 in Hm. }
      * rewrite bool_decide_eq_true_2 by done. by apply at_node_elem.
      * destruct ch as [|b]; [|assert (is_hash [[HASH]] = true) as -> by done; cbn [is_nil negb andb];
          rewrite orb_true_r; by apply at_node_elem].
        by destruct Hz as [Hz|Hz].
    + left. exists (t2 :: p). split; [done|].
      apply (IHc (fun p => ok (t :: p))); try done. cbn in Hz. destruct Hz as [Hz|?]; [left; cbn; lia|by right].
Qed.

Lemma hits_nodup ok h tokens level : chain_wf ok h -> NoDup (hits h tokens level).*1.
Proof.
  revert ok tokens level. induction h as [|a t ss r ch IHc nx IHn]; intros ok tokens level; cbn; [constructor|].
  intros (_ & W2 & W3 & W4). destruct tokens as [|token tokens]; [constructor|].
  rewrite fmap_app. apply NoDup_app. split; [|split; [|by eapply IHn]].
  - assert (forall l, NoDup l.*1 -> NoDup (prod_map (cons t) (@id addr) <$> l).*1) as Hc.
    { intros l H. rewrite cons_fst. by apply (NoDup_fmap_2 (cons t)). }
    assert (forall tokens' level', NoDup (hits ch tokens' level').*1) as Hch by (intros; by eapply IHc).
    assert (forall tokens' level' p, p ∈ (at_node t r).*1 -> p ∉ (prod_map (cons t) (@id addr) <$> hits ch tokens' level').*1) as Hdis.
    { intros tk lv p ([q s] & -> & [E _]%at_node_elem)%list_elem_of_fmap. cbn in *. subst q.
      intros ([q2 s2] & E2 & (q3 & -> & H)%cons_elem)%list_elem_of_fmap. cbn in E2. injection E2 as <-.
      apply hits_head in H as (? & ? & ? & _). done. }
    assert (NoDup (at_node t r).*1) as Hat by (destruct r; cbn; [apply NoDup_singleton|constructor]).
    destruct (is_hash _); [|destruct (_ && _); [|constructor]].
    + rewrite fmap_app. apply NoDup_app. split; [done|]. split; [intros p; apply Hdis|by apply Hc].
    + rewrite fmap_app. destruct (_ || _); [|rewrite app_nil_r; by apply Hc].
      apply NoDup_app. split; [by apply Hc|]. split; [|done]. intros p H1 H2. by apply (Hdis tokens (level + 1) p) in H2.
  - intros p ([p1 s1] & -> & H1)%list_elem_of_fmap ([p2 s2] & E & H2)%list_elem_of_fmap. cbn in *.
    subst p2. assert (exists q, p1 = t :: q) as [q ->].
    { revert H1. destruct (is_hash _); [|destruct (_ && _); [|by intros ?%not_elem_of_nil]].
      - rewrite elem_of_app, cons_elem, at_node_elem. intros [[-> _]|(q & -> & _)]; eauto.
      - rewrite elem_of_app, cons_elem. destruct (_ || _); rewrite ?at_node_elem;
          intros [(q & -> & _)|H]; eauto; [destruct H as [-> _]; eauto|by apply not_elem_of_nil in H]. }
    apply hits_head in H2 as (t' & q' & [= <- <-] & Hin). done.
Qed.

(** The retained messages a new subscription is sent, with their topics. *)
Definition to_send (root : _mosquitto_subhier) (sub : str) : list (str * addr) :=
  match head (_sub_topic_tokenise sub) ≫= root_chain root with
  | Some children => prod_map filter_of id <$> hits children (_sub_topic_tokenise sub) 0
  | None => []
  end.

Lemma retain_roots_hits c sub_qos sub root :
  retain_roots c sub_qos root (_sub_topic_tokenise sub)
  ≈ for_each (fun n => _retain_process n.2 c sub_qos;; mret tt) (to_send root sub).
Proof.
  unfold to_send. destruct (tokenise_head sub) as (t & ts & E). rewrite E. cbn [head mbind option_bind].
  induction root as [|a t' s r ch _ nx IHn]; [done|]. cbn [retain_roots root_chain].
  destruct (decide (t' = t)) as [->|N].
  - rewrite bool_decide_eq_true_2 by done. rewrite retain_search_hits by done. rewrite bind_assoc, for_each_map.
    setoid_rewrite bind_ret_l. apply bind_unit.
  - rewrite bool_decide_eq_false_2 by (cbn; congruence). apply IHn.
Qed.

Lemma valid_filter_tokens sub : valid_filter_levels (levels sub) -> valid_filter_levels (_sub_topic_tokenise sub).
Proof.
  intros H. rewrite tokenise_run. destruct (starts_dollar sub); [done|]. split; [|done].
  right; left. split; apply not_elem_of_nil.
Qed.

(** The node of a topic: where its retained message is. *)
Definition topic_node (root : _mosquitto_subhier) (topic : str) : _mosquitto_subhier :=
  match head (_sub_topic_tokenise topic) ≫= root_chain root with
  | Some children => below children (_sub_topic_tokenise topic)
  | None => HNil
  end.

Lemma look_retained_path ok p ch s :
  chain_wf ok ch -> (look ch p).2 = Some s -> exists ss, ok p ss (Some s).
Proof.
  revert ok p. induction ch as [|a t' ss r c IHc nx IHn]; intros ok p; [done|]. intros (W1 & W2 & W3 & W4) Hl.
  destruct p as [|t2 p]; [done|]. cbn in Hl. destruct (decide (t' = t2)) as [->|N]; [|by apply (IHn ok)].
  destruct p as [|t3 p]; [cbn in Hl; subst; by exists ss|]. by apply (IHc (fun p => ok (t2 :: p))).
Qed.

Lemma retained_tokens t ch p s :
  chain_wf (node_ok t) ch -> (look ch p).2 = Some s -> exists f, p = _sub_topic_tokenise f /\ head p = Some t.
Proof.
  intros Hch Hl. destruct (look_retained_path _ _ _ _ Hch Hl) as (ss & Hr & [(_ & _ & E)|(f & _ & ->)]); [done|].
  by exists f.
Qed.

Lemma to_send_sound root sub topic s :
  roots_wf root -> valid_filter_levels (levels sub) -> (topic, s) ∈ to_send root sub ->
  filter_matches sub topic = true /\ retained_for root topic = Some s.
Proof.
  intros Hwf Hv. unfold to_send. destruct (tokenise_head sub) as (t & ts & E).
  assert (head (_sub_topic_tokenise sub) = Some t) as Eh by (by rewrite E). rewrite Eh. cbn [mbind option_bind].
  destruct (root_chain root t) as [ch|] eqn:Er; [|by intros ?%not_elem_of_nil].
  intros ([p s'] & [= -> ->] & Hin)%list_elem_of_fmap. cbn in *.
  pose proof (roots_wf_chain _ _ _ Hwf Er) as Hch.
  destruct (hits_sound _ _ _ _ _ _ Hch (valid_filter_tokens _ Hv) Hin) as [Hm Hl].
  destruct (retained_tokens _ _ _ _ Hch Hl) as (f & -> & Hr).
  rewrite filter_of_tokenise. split.
  - rewrite filter_matches_tokens, Eh, Hr, Hm, bool_decide_eq_true_2; done.
  - unfold retained_for, slot. rewrite Hr. cbn [mbind option_bind]. by rewrite Er.
Qed.

Lemma to_send_complete root sub topic s :
  roots_wf root -> valid_filter_levels (levels sub) -> no_wildcard topic ->
  filter_matches sub topic = true -> retained_for root topic = Some s ->
  length (levels sub) <> S (length (levels topic)) \/ topic_node root topic <> HNil ->
  (topic, s) ∈ to_send root sub.
Proof.
  intros Hwf Hv Hno Hm Hr Hz. rewrite filter_matches_tokens in Hm. apply andb_true_iff in Hm as [He Hm].
  apply bool_decide_eq_true in He. unfold to_send, retained_for, slot, topic_node in *. rewrite He.
  destruct (head (_sub_topic_tokenise topic)) as [t|] eqn:Et; [|done]. cbn [mbind option_bind] in *.
  destruct (root_chain root t) as [ch|] eqn:Er; [|done].
  apply list_elem_of_fmap. exists (_sub_topic_tokenise topic, s). split; [cbn; by rewrite filter_of_tokenise|].
  eapply hits_complete; [by eapply roots_wf_chain|by apply valid_filter_tokens|done| |done|].
  - by apply topic_tokens in Hno as [_ ?].
  - destruct Hz as [Hz|Hz]; [left|by right]. rewrite !tokenise_run, !length_app.
    assert (starts_dollar sub = starts_dollar topic) as ->; [|destruct (starts_dollar topic); cbn; lia].
    rewrite (starts_dollar_levels sub), (starts_dollar_levels topic). clear -He Et.
    rewrite tokenise_run in He, Et. destruct (levels_cons sub) as (l & ls & El), (levels_cons topic) as (k & ks & Ek).
    rewrite (starts_dollar_levels sub), El in He. rewrite (starts_dollar_levels topic), Ek in Et.
    rewrite El, Ek. destruct (starts_dollar l) eqn:E1, (starts_dollar k) eqn:E2; cbn in *; by simplify_eq.
Qed.

(** C38: [mqtt3_retain_queue] offers a new subscriber retained messages one after the
    other, and they are the right ones: each topic at most once, only topics that the
    filter matches and with the message retained for them, and every such topic is
    among them, but for one case: where a final '#' stands for no level at all, only a
    topic that has subtopics in the tree is sure to be found. *)
Theorem retain_queue_spec c sub sub_qos d :
  roots_wf (d_subs d) -> valid_filter_levels (levels sub) ->
  mqtt3_retain_queue c sub sub_qos d
  = (for_each (fun n => _retain_process n.2 c sub_qos;; mret tt) (to_send (d_subs d) sub);; mret MOSQ_ERR_SUCCESS) d
  /\ NoDup (to_send (d_subs d) sub).*1
  /\ (forall topic s, (topic, s) ∈ to_send (d_subs d) sub ->
        filter_matches sub topic = true /\ retained_for (d_subs d) topic = Some s)
  /\ (forall topic s, no_wildcard topic -> filter_matches sub topic = true ->
        retained_for (d_subs d) topic = Some s ->
        length (levels sub) <> S (length (levels topic)) \/ topic_node (d_subs d) topic <> HNil ->
        (topic, s) ∈ to_send (d_subs d) sub).
Proof.
  intros Hwf Hv. split; [|split; [|split]].
  - unfold mqtt3_retain_queue. unfold mbind at 1, st_bind at 1, gets.
    assert (forall root, (retain_roots c sub_qos root (_sub_topic_tokenise sub);; mret MOSQ_ERR_SUCCESS)
      ≈ (for_each (fun n => _retain_process n.2 c sub_qos;; mret tt) (to_send root sub);; mret MOSQ_ERR_SUCCESS)) as E.
    { intros root. by rewrite retain_roots_hits. }
    apply (st_eq_at _ _ (E (d_subs d))).
  - assert (NoDup (to_send (d_subs d) sub).*1) as H; [|exact H].
    unfold to_send. destruct (_ ≫= _) as [ch|] eqn:Er; [|constructor].
    assert (exists t, root_chain (d_subs d) t = Some ch) as [t Et].
    { destruct (head _) as [t|]; [|done]. by exists t. }
    pose proof (roots_wf_chain _ _ _ Hwf Et) as Hch.
    rewrite <- list_fmap_compose.
    assert ((fst ∘ prod_map filter_of id <$> hits ch (_sub_topic_tokenise sub) 0)
      = filter_of <$> (hits ch (_sub_topic_tokenise sub) 0).*1) as ->.
    { rewrite <- list_fmap_compose. by apply list_fmap_ext. }
    pose proof (hits_nodup _ _ (_sub_topic_tokenise sub) 0 Hch) as Hnd.
    apply NoDup_fmap_2_strong; [|done].
    assert (forall p, p ∈ (hits ch (_sub_topic_tokenise sub) 0).*1 -> exists f, p = _sub_topic_tokenise f) as Hp.
    { intros p ([q s] & -> & Hin)%list_elem_of_fmap. cbn.
      destruct (hits_sound _ _ _ _ _ _ Hch (valid_filter_tokens _ Hv) Hin) as [_ Hl].
      destruct (retained_tokens _ _ _ _ Hch Hl) as (f & -> & _). by exists f. }
    intros p q (f & ->)%Hp (g & ->)%Hp. rewrite !filter_of_tokenise. by intros ->.
  - intros topic s. by apply to_send_sound.
  - intros topic s. by apply to_send_complete.
Qed.

(** * Examples *)

#[export] Instance no_wildcard_dec s : Decision (no_wildcard s).
Proof. unfold no_wildcard. apply _. Defined.

#[export] Instance valid_filter_levels_dec fs : Decision (valid_filter_levels fs).
Proof. induction fs as [|f fs IH]; cbn; apply _. Defined.

Lemma node_ok_iff root p subs r :
  node_ok root p subs r <->
  head p = Some root /\ (p = [[]] /\ subs = [] /\ r = None
    \/ valid_filter_levels (levels (filter_of p)) /\ p = _sub_topic_tokenise (filter_of p)).
Proof.
  unfold node_ok. split; intros [H [H1|H2]]; (split; [done|]); [by left|right|by left|right].
  - destruct H2 as (f & Hv & ->). by rewrite filter_of_tokenise.
  - eexists. exact H2.
Qed.

#[export] Instance subleaf_eq_dec : EqDecision _mosquitto_subleaf.
Proof. solve_decision. Defined.

#[export] Instance node_ok_dec root p subs r : Decision (node_ok root p subs r).
Proof.
  refine (cast_if (decide (head p = Some root /\ (p = [[]] /\ subs = [] /\ r = None
    \/ valid_filter_levels (levels (filter_of p)) /\ p = _sub_topic_tokenise (filter_of p))))); by rewrite node_ok_iff.
Defined.

#[export] Instance chain_wf_dec ok h : (forall p s r, Decision (ok p s r)) -> Decision (chain_wf ok h).
Proof.
  revert ok. induction h as [|a t subs r ch IHc nx IHn]; intros ok Hd; cbn; [apply _|].
  specialize (IHc (fun p => ok (t :: p)) (fun p => Hd (t :: p))). specialize (IHn ok Hd). apply _.
Defined.

#[export] Instance roots_wf_dec h : Decision (roots_wf h).
Proof. induction h; cbn; apply _. Defined.

(** A broker with two clients: "c1" subscribed to "a/+" and "c2" to "#"; "a" and "b" have
    retained messages. *)
Definition sample_client (id : str) (subs : list (option addr)) : mosquitto :=
  context_calloc <| c_id := Some id |> <| c_sock := 5 |> <| c_state := mosq_cs_connected |> <| c_subs := subs |>.

Definition sample_store (db_id : Z) (topic : str) (refs : Z) : mosquitto_msg_store :=
  Store db_id (lit "c3") [] refs (Some topic) (lit "hello") 0 0 1 true.

Definition sample_tree : _mosquitto_subhier :=
  HNode 10 [] [] None
    (HNode 12 [] [] None
      (HNode 13 (lit "a") [] (Some 7%nat) (HNode 14 (lit "+") [Leaf 1 1] None HNil HNil)
      (HNode 15 [HASH] [Leaf 2 0] None HNil
      (HNode 16 (lit "b") [] (Some 8%nat) HNil HNil))) HNil)
    (HNode 11 (lit "$SYS") [] None HNil HNil).

Definition sample_broker : mosquitto_db :=
  db_calloc
    <| d_contexts := <[1%nat := sample_client (lit "c1") [Some 14%nat]]>
                       (<[2%nat := sample_client (lit "c2") [Some 15%nat]]> ∅) |>
    <| d_stores := <[7%nat := sample_store 1 (lit "a") 1]> (<[8%nat := sample_store 2 (lit "b") 1]>
                       (<[9%nat := sample_store 3 (lit "a/x") 0]> ∅)) |>
    <| d_msg_store := [9; 8; 7]%nat |> <| d_msg_store_count := 3 |> <| d_retained_count := 2 |>
    <| d_next := 20%nat |> <| d_subs := sample_tree |> <| d_subscription_count := 2 |>
    <| d_max_inflight := 20 |> <| d_max_queued := 100 |>.

Ltac by_compute := apply (bool_decide_unpack _); vm_compute; exact I.

Lemma messages_queue_reference_witness :
  roots_wf (d_subs sample_broker) /\ no_wildcard (lit "a/x") /\
  subscriptions (d_subs sample_broker)
  = [(lit "a/+", [Leaf 1 1]); (lit "a", []); (lit "#", [Leaf 2 0]); (lit "b", []); ([], [])] /\
  mqtt3_db_messages_queue (Some (lit "c3")) (lit "a/x") 1 false 9 sample_broker
  = (upd_store 9 (fun st => st <| s_ref_count ::= Z.succ |>);;
     for_each (fun '(sub, subscribers) =>
         if filter_matches sub (lit "a/x") then notify (Some (lit "c3")) (lit "a/x") 1 false 9 subscribers else mret tt)
       (subscriptions (d_subs sample_broker));;
     stored ← mosquitto__db_msg_store_deref 9;
     mret (0, stored)) sample_broker.
Proof.
  assert (roots_wf (d_subs sample_broker)) as H1 by by_compute.
  assert (no_wildcard (lit "a/x")) as H2 by by_compute.
  split; [exact H1|]. split; [exact H2|]. split; [vm_compute; reflexivity|].
  apply (messages_queue_reference (Some (lit "c3")) (lit "a/x") 1 9 sample_broker H1 H2).
Defined.

Lemma sub_add_spec_witness :
  valid_filter_levels (levels (lit "a/+")) /\
  wp (mqtt3_sub_add 2 (lit "a/+") 2) (fun rc d' => rc = MOSQ_ERR_SUCCESS /\
    subscribers (d_subs d') (lit "a/+") = [Leaf 1 1; Leaf 2 2]) sample_broker.
Proof.
  assert (valid_filter_levels (levels (lit "a/+"))) as H by by_compute.
  split; [exact H|].
  refine (wp_mono _ _ _ _ (sub_add_spec 2 (sample_client (lit "c2") [Some 15%nat]) (lit "c2") (lit "a/+") 2
    sample_broker eq_refl eq_refl ltac:(by_compute) H _) _).
  - constructor; [eexists; reflexivity | constructor].
  - intros rc d' (Hrc & _ & Hs & _). split; [exact Hrc|]. rewrite Hs. vm_compute. reflexivity.
Defined.

Lemma sub_remove_spec_witness :
  wp (mqtt3_sub_remove 1 (lit "a/+")) (fun rc d' => rc = MOSQ_ERR_SUCCESS /\
    subscribers (d_subs d') (lit "a/+") = []) sample_broker.
Proof.
  refine (wp_mono _ _ _ _ (sub_remove_spec 1 (sample_client (lit "c1") [Some 14%nat]) (lit "a/+")
    sample_broker eq_refl ltac:(by_compute)) _).
  intros rc d' (Hrc & _ & Hs & _). split; [exact Hrc|]. rewrite Hs. vm_compute. reflexivity.
Defined.

Lemma retain_queue_spec_witness :
  valid_filter_levels (levels (lit "#")) /\
  to_send (d_subs sample_broker) (lit "#") = [(lit "a", 7%nat); (lit "b", 8%nat)] /\
  NoDup (to_send (d_subs sample_broker) (lit "#")).*1.
Proof.
  assert (valid_filter_levels (levels (lit "#"))) as H by by_compute.
  split; [exact H|]. split; [vm_compute; reflexivity|].
  exact (proj1 (proj2 (retain_queue_spec 2 (lit "#") 0 sample_broker ltac:(by_compute) H))).
Defined.

(** The case left open does occur: with "b" retained too, a subscription to "a/#" is
    not sent the message retained for "a" if "a" has no subtopics. *)
Lemma retain_search_misses :
  let tree := HNode 10 [] [] None (HNode 12 [] [] None
      (HNode 13 (lit "a") [] (Some 7%nat) HNil HNil) HNil) HNil in
  let tree2 := HNode 10 [] [] None (HNode 12 [] [] None
      (HNode 13 (lit "a") [] (Some 7%nat) HNil
      (HNode 16 (lit "b") [] (Some 8%nat) HNil HNil)) HNil) HNil in
  to_send tree (lit "a/#") = [(lit "a", 7%nat)] /\ to_send tree2 (lit "a/#") = []
  /\ filter_matches (lit "a/#") (lit "a") = true /\ retained_for tree2 (lit "a") = Some 7%nat.
Proof. by vm_compute. Qed.
