(* ===== verification/Queue.v ===== *)
(** Publishing from the broker itself and from a client's own queue: the two
    functions of src/database.c that call the subscription tree. *)

From S2P Require Export Subs.
#[local] Open Scope Z_scope.

(** A NULL topic is [None]; [context] is [None] when the broker publishes. *)
Definition mqtt3_db_messages_easy_queue (context : option addr) (topic : option str) (qos : Z)
    (payload : list byte) (retain : bool) : M Z :=
  match topic with
  | None => mret MOSQ_ERR_INVAL
  | Some topic =>
    source_id ←
      (match context with
       | Some c => x ← get_ctx c; mret (default [] (c_id x))
       | None => mret []
       end);
    stored ← mqtt3_db_message_store (Some source_id) 0 (Some topic) qos payload retain 0;
    '(rc, _) ← mqtt3_db_messages_queue (Some source_id) topic qos retain stored;
    mret rc
  end.

(** The message at address [a] with what stands before and after it. *)
Fixpoint split_msg (a : addr) (l : list mosquitto_client_msg)
    : option (list mosquitto_client_msg * mosquitto_client_msg * list mosquitto_client_msg) :=
  match l with
  | [] => None
  | m :: l =>
    if decide (m_addr m = a) then Some ([], m, l)
    else '(before, n, rest) ← split_msg a l; Some (m :: before, n, rest)
  end.

(** [if(tail->state == mosq_ms_queued && msg_index <= max_inflight)] *)
Definition release_promote (c : addr) (m : mosquitto_client_msg) (msg_index : Z)
    : M mosquitto_client_msg :=
  d ← get;
  if is_queued m && (msg_index <=? d_max_inflight d) then
    whenM (negb (is_out m) && (m_qos m =? 2)) (_mosquitto_send_pubrec c (m_mid m);; mret tt);;
    mret (promote (d_time d) m)
  else mret m.

(** The loop of [mqtt3_db_message_release].  Publishing may append to the very list
    that is walked (the client may subscribe to what it published), so the list is
    read again at the pointer [tail]; [fuel] counts the messages removed. *)
Fixpoint release_loop (fuel : nat) (c : addr) (mid : Z) (dir : mosquitto_msg_direction) :=
  fix walk (before tail : list mosquitto_client_msg) (msg_index : Z) (deleted : bool) : M Z :=
    match tail with
    | [] => mret (if deleted then MOSQ_ERR_SUCCESS else 1)
    | m :: rest =>
      let msg_index := msg_index + 1 in
      max_inflight ← gets d_max_inflight;
      m ← release_promote c m msg_index;
      set_msgs c (before ++ m :: rest);;
      if msg_is mid dir m then
        match fuel with
        | O => fault
        | S fuel =>
          st ← get_store (m_store m);
          rc ←
            (match s_topic st with
             | None => mret 0
             | Some topic =>
               '(rc, stored) ← mqtt3_db_messages_queue (Some (s_source_id st)) topic (s_qos st)
                                 (m_retain m) (m_store m);
               unwrap stored;;
               mret rc
             end);
          if negb (rc =? 0) then mret 1 else
          x ← get_ctx c;
          '(before, m, rest) ← unwrap (split_msg (m_addr m) (c_msgs x));
          _message_remove c before rest m;;
          if max_inflight <? msg_index then mret MOSQ_ERR_SUCCESS
          else release_loop fuel c mid dir before rest msg_index true
        end
      else if (max_inflight <? msg_index) && deleted then mret MOSQ_ERR_SUCCESS
      else walk (before ++ [m]) rest msg_index deleted
    end.

Definition mqtt3_db_message_release (c : addr) (mid : Z) (dir : mosquitto_msg_direction) : M Z :=
  x ← get_ctx c;
  release_loop (S (length (c_msgs x))) c mid dir [] (c_msgs x) 0 false.
