(* ===== verification/Context.v ===== *)
(** The life of a client's context: src/context.c, [do_disconnect] and the expiry of
    persistent clients of src/loop.c, and [mosquitto_security_apply_default].

    A context is in [d_contexts] from [mqtt3_context_init] until it is freed; the
    tables [d_contexts_by_sock] and [d_contexts_by_id] and the list [d_ll_for_free]
    hold its address.  Deleting from a table what is not in it faults. *)

From S2P Require Export Queue.
#[local] Open Scope Z_scope.

(** [HASH_DELETE(hh_id, db->contexts_by_id, context)] *)
Definition delete_by_id (c : addr) : M unit :=
  d ← get;
  assertM (bool_decide (c ∈ d_contexts_by_id d));;
  modify (fun d => d <| d_contexts_by_id ::= filter (fun a => a <> c) |>).

(** [HASH_FIND(hh_id, ...)] *)
Fixpoint find_by_id (l : list addr) (id : str) : M (option addr) :=
  match l with
  | [] => mret None
  | a :: l =>
    x ← get_ctx a;
    if bool_decide (c_id x = Some id) then mret (Some a) else find_by_id l id
  end.

(** What [mqtt3_context_init] sets; the rest is zero. *)
Definition fresh_context (sock now : Z) (address : option str) : mosquitto :=
  context_calloc <| c_state := mosq_cs_new |> <| c_sock := sock |>
    <| c_last_msg_in := now |> <| c_last_msg_out := now |> <| c_keepalive := 60 |>
    <| c_clean_session := true |> <| c_in_packet ::= _mosquitto_packet_cleanup |>
    <| c_address := address |>.

(** [peer] is what [_mosquitto_socket_get_address] finds; the result is [None] for a
    NULL context. *)
Definition mqtt3_context_init (sock : Z) (peer : option str) : M (option addr) :=
  if (0 <=? sock) && bool_decide (peer = None) then mret None else
  c ← malloc;
  now ← mosquitto_time;
  let x := fresh_context sock now (if 0 <=? sock then peer else None) in
  modify (fun d => d <| d_contexts ::= <[c := x]> |>);;
  whenM (0 <=? sock) (modify (fun d => d <| d_contexts_by_sock ::= (fun l => l ++ [c]) |>));;
  mret (Some c).

Definition forget_names (b : _mqtt3_bridge) : _mqtt3_bridge :=
  b <| b_local_clientid := None |> <| b_remote_username := None |> <| b_remote_password := None |>
    <| b_local_username := None |> <| b_local_password := None |>.

(** The part under [if(context->bridge)]. *)
Definition cleanup_bridge (c : addr) : M unit :=
  x ← get_ctx c;
  match c_bridge x with
  | None => mret tt
  | Some b =>
    modify (fun d => d <| d_bridges ::= map (fun p => if decide (p = Some c) then None else p) |>);;
    upd_ctx c (fun x => x <| c_bridge := Some (forget_names b) |>)
  end.

Definition mqtt3_context_cleanup (c : addr) (do_free : bool) : M unit :=
  upd_ctx c (fun x => x <| c_username := None |> <| c_password := None |>);;
  cleanup_bridge c;;
  _mosquitto_socket_close c;;
  x ← get_ctx c;
  let all := do_free || c_clean_session x in
  whenM all (mqtt3_subs_clean_session c;; mqtt3_db_messages_delete c;; mret tt);;
  upd_ctx c (fun x => x <| c_address := None |>);;
  x ← get_ctx c;
  whenM (bool_decide (c_id x <> None)) (delete_by_id c;; upd_ctx c (fun x => x <| c_id := None |>));;
  upd_ctx c (fun x => x <| c_in_packet ::= _mosquitto_packet_cleanup |>
                        <| c_current_out_packet := None |> <| c_out_packet := [] |>
                        <| c_will := None |>);;
  whenM all
    (x ← get_ctx c;
     deref_all (c_msgs x);;
     upd_ctx c (fun x => x <| c_msgs := [] |> <| c_last_msg := None |>));;
  whenM do_free (modify (fun d => d <| d_contexts ::= delete c |>)).

(** The first part of [mqtt3_context_disconnect]: an unexpected disconnect publishes
    the will. *)
Definition send_will (c : addr) : M unit :=
  x ← get_ctx c;
  match c_will x with
  | None => mret tt
  | Some w =>
    if bool_decide (c_state x = mosq_cs_disconnecting) then mret tt else
    rc ← mosquitto_acl_check c (Some (msg_topic w)) MOSQ_ACL_WRITE;
    if rc =? MOSQ_ERR_SUCCESS then
      mqtt3_db_messages_easy_queue (Some c) (Some (msg_topic w)) (msg_qos w) (msg_payload w)
        (msg_retain w);;
      mret tt
    else mret tt
  end.

Definition mqtt3_context_disconnect (c : addr) : M unit :=
  send_will c;;
  now ← mosquitto_time;
  upd_ctx c (fun x => x <| c_will := None |> <| c_disconnect_t := now |>);;
  _mosquitto_socket_close c;;
  mret tt.

(** A context that is put on the list twice makes the list a cycle: a fault. *)
Definition mosquitto__add_context_to_disused (c : addr) : M unit :=
  d ← get;
  assertM (bool_decide ((c : addr) ∉ d_ll_for_free d));;
  modify (fun d => d <| d_ll_for_free ::= cons c |>).

Definition mosquitto__free_disused_contexts : M unit :=
  d ← get;
  for_each (fun c => mqtt3_context_cleanup c true) (d_ll_for_free d);;
  modify (fun d => d <| d_ll_for_free := [] |>).

(** * src/loop.c *)

Definition do_disconnect (c : addr) : M unit :=
  x ← get_ctx c;
  if bool_decide (c_state x = mosq_cs_disconnected) then mret tt else
  mqtt3_context_disconnect c;;
  x ← get_ctx c;
  whenM (c_clean_session x && bool_decide (c_bridge x = None))
    (mosquitto__add_context_to_disused c;;
     x ← get_ctx c;
     whenM (bool_decide (c_id x <> None))
       (delete_by_id c;; upd_ctx c (fun x => x <| c_id := None |>)));;
  upd_ctx c (fun x => x <| c_state := mosq_cs_disconnected |>).

(** One context of the loop that expires persistent clients. *)
Definition expire_context (c : addr) : M unit :=
  x ← get_ctx c;
  now ← mosquitto_time;
  expiration ← gets (fun d => cf_persistent_client_expiration (d_config d));
  if (c_sock x =? INVALID_SOCKET) && negb (c_clean_session x)
     && (c_disconnect_t x + expiration <? now)
  then
    upd_ctx c (fun x => x <| c_clean_session := true |> <| c_state := mosq_cs_expiring |>);;
    do_disconnect c
  else mret tt.

(** The block of [mosquitto_main_loop] under [persistent_client_expiration]; the
    result is the time of the next check. *)
Definition expire_persistent_clients (expiration_check_time : Z) : M Z :=
  now ← mosquitto_time;
  d ← get;
  if (0 <? cf_persistent_client_expiration (d_config d)) && (expiration_check_time <? now) then
    for_each expire_context (d_contexts_by_id d);;
    mret (now + 3600)
  else mret expiration_check_time.

(** * [mosquitto_security_apply_default] *)

(** The first ACL user of that name. *)
Definition find_acl_user (l : list _mosquitto_acl_user) (username : option str) : option addr :=
  au_addr <$> List.find (acl_user_is username) l.

Section apply.
Context `{Crypto}.

Definition apply_security (c : addr) : M unit :=
  x ← get_ctx c;
  d ← get;
  if (negb (cf_allow_anonymous (d_config d)) && bool_decide (c_username x = None))
     || negb (mosquitto_unpwd_check_default d (c_username x) (c_password x) =? MOSQ_ERR_SUCCESS)
  then
    upd_ctx c (fun x => x <| c_state := mosq_cs_disconnecting |>);;
    do_disconnect c
  else
    match find_acl_user (d_acl_list d) (c_username x) with
    | Some u => upd_ctx c (fun x => x <| c_acl_list := Some u |>)
    | None => mret tt
    end.

Definition mosquitto_security_apply_default : M Z :=
  d ← get;
  for_each apply_security (d_contexts_by_id d);;
  mret MOSQ_ERR_SUCCESS.
End apply.
