(* ===== verification/Handle.v ===== *)
(** The handlers of control packets other than CONNECT: src/read_handle.c,
    lib/read_handle_shared.c and the rest of src/read_handle_server.c.  A handler
    reads [context->in_packet]; its result other than 0 makes the loop disconnect
    the client. *)

From S2P Require Export Context.
#[local] Open Scope Z_scope.

(** [if(read(...)) return e;] *)
Notation "x ←! m 'orelse' e ; k" := (m ≫= fun r => match r with ROk x => k | RErr _ => e end)
  (at level 20, m at level 100, e at level 100, k at level 200, only parsing) : stdpp_scope.

(** [rc = read(...); if(rc) return rc;] *)
Notation "x ←? m ; k" := (m ≫= fun r => match r with ROk x => k | RErr rc => mret rc end)
  (at level 20, m at level 100, k at level 200, only parsing) : stdpp_scope.

(** The low nibble of the command byte of the packet that is handled. *)
Definition header_flags (x : mosquitto) : Z := Z.land (p_command (c_in_packet x)) 0x0F.

(** * lib/read_handle_shared.c *)

Definition _mosquitto_handle_pingreq (c : addr) : M Z := _mosquitto_send_pingresp c.

Definition _mosquitto_handle_pingresp (c : addr) : M Z :=
  upd_ctx c (fun x => x <| c_ping_t := 0 |>);;
  mret MOSQ_ERR_SUCCESS.

Definition _mosquitto_handle_pubackcomp (c : addr) : M Z :=
  mid ←? on_in_packet c _mosquitto_read_uint16;
  if negb (mid =? 0) then
    rc ← mqtt3_db_message_delete c mid mosq_md_out;
    mret rc
  else mret MOSQ_ERR_SUCCESS.

Definition _mosquitto_handle_pubrec (c : addr) : M Z :=
  mid ←? on_in_packet c _mosquitto_read_uint16;
  rc ← mqtt3_db_message_update c mid mosq_md_out mosq_ms_wait_for_pubcomp;
  if negb (rc =? 0) then mret rc else
  _mosquitto_send_pubrel c mid.

(** A PUBREL is answered even when its message is not found. *)
Definition _mosquitto_handle_pubrel (c : addr) : M Z :=
  x ← get_ctx c;
  if bool_decide (c_protocol x = mosq_p_mqtt311) && negb (header_flags x =? 2)
  then mret MOSQ_ERR_PROTOCOL else
  mid ←? on_in_packet c _mosquitto_read_uint16;
  mqtt3_db_message_release c mid mosq_md_in;;
  _mosquitto_send_pubcomp c mid.

(** The loop that reads the granted QoS of each topic; [fuel] counts bytes. *)
Fixpoint read_codes (fuel : nat) (c : addr) : M Z :=
  x ← get_ctx c;
  if p_pos (c_in_packet x) <? p_remaining_length (c_in_packet x) then
    match fuel with
    | O => fault
    | S fuel =>
      qos ←? on_in_packet c _mosquitto_read_byte;
      read_codes fuel c
    end
  else mret MOSQ_ERR_SUCCESS.

Definition _mosquitto_handle_suback (c : addr) : M Z :=
  mid ←? on_in_packet c _mosquitto_read_uint16;
  x ← get_ctx c;
  read_codes (Z.to_nat (p_remaining_length (c_in_packet x))) c.

Definition _mosquitto_handle_unsuback (c : addr) : M Z :=
  mid ←? on_in_packet c _mosquitto_read_uint16;
  mret MOSQ_ERR_SUCCESS.

(** * PUBLISH *)

(** The topic of a message that came over a bridge, in the local name space. *)
Definition map_local (t : _mqtt3_bridge_topic) (topic : str) : str :=
  let topic :=
    match bt_remote_prefix t with
    | Some p => if strneq p topic (length p) then drop (length p) topic else topic
    | None => topic
    end in
  match bt_local_prefix t with
  | Some p => p ++ topic
  | None => topic
  end.

(** [inl rc] is an error of the matcher, [None] a read of the uninitialised [match]. *)
Fixpoint bridge_remap_in (ts : list _mqtt3_bridge_topic) (topic : str) (result : option bool)
    : option (Z + str) :=
  match ts with
  | [] => Some (inr topic)
  | t :: ts =>
    if (bool_decide (bt_direction t = bd_both) || bool_decide (bt_direction t = bd_in))
       && (bool_decide (bt_remote_prefix t <> None) || bool_decide (bt_local_prefix t <> None))
    then
      let '(rc, result) := mosquitto_topic_matches_sub (bt_remote_topic t) topic result in
      if negb (rc =? 0) then Some (inl rc) else
      match result with
      | None => None
      | Some true => Some (inr (map_local t topic))
      | Some false => bridge_remap_in ts topic result
      end
    else bridge_remap_in ts topic result
  end.

Definition remap_in (x : mosquitto) (topic : str) : option (Z + str) :=
  match c_bridge x with
  | Some b =>
    if negb (bool_decide (b_topics b = [])) && b_topic_remapping b
    then bridge_remap_in (b_topics b) topic None
    else Some (inr topic)
  | None => Some (inr topic)
  end.

(** The mount point of the listener before a topic. *)
Definition mounted (l : option _mqtt3_listener) (topic : str) : str :=
  default [] (l ≫= l_mount_point) ++ topic.

(** [process_bad_message]: a message that is refused is acknowledged all the same. *)
Definition bad_message (c : addr) (qos mid : Z) : M Z :=
  if qos =? 0 then mret MOSQ_ERR_SUCCESS
  else if qos =? 1 then _mosquitto_send_puback c mid
  else if qos =? 2 then
    found ← mqtt3_db_message_store_find c mid;
    res ←
      (match found with
       | Some _ => mret 0
       | None =>
         x ← get_ctx c;
         stored ← mqtt3_db_message_store (c_id x) mid None qos [] false 0;
         mqtt3_db_message_insert c mid mosq_md_in qos false stored
       end);
    if res =? 0 then _mosquitto_send_pubrec c mid else mret res
  else mret 1.

(** The part from [mqtt3_db_message_store_find] on, for a message that is accepted:
    QoS 0 and 1 are published at once, QoS 2 is kept until its PUBREL. *)
Definition accept_message (c : addr) (topic : str) (payload : list byte) (qos mid : Z) (retain : bool)
    : M Z :=
  found ← (if 0 <? qos then mqtt3_db_message_store_find c mid else mret None);
  x ← get_ctx c;
  stored ←
    (match found with
     | Some s => mret s
     | None => mqtt3_db_message_store (c_id x) mid (Some topic) qos payload retain 0
     end);
  let dup := bool_decide (found <> None) in
  if qos =? 0 then
    '(rc, _) ← mqtt3_db_messages_queue (c_id x) topic qos retain stored;
    mret (if negb (rc =? 0) then 1 else 0)
  else if qos =? 1 then
    '(rc, _) ← mqtt3_db_messages_queue (c_id x) topic qos retain stored;
    rc2 ← _mosquitto_send_puback c mid;
    mret (if negb (rc =? 0) || negb (rc2 =? 0) then 1 else 0)
  else
    res ← (if dup then mret 0 else mqtt3_db_message_insert c mid mosq_md_in qos retain stored);
    if res =? 0 then
      rc ← _mosquitto_send_pubrec c mid;
      mret (if negb (rc =? 0) then 1 else 0)
    else mret (if res =? 1 then 1 else 0).

(** The payload is what is left of the packet: [RErr 0] is the way to
    [process_bad_message], [RErr 1] an error. *)
Definition read_message (c : addr) : M (res (list byte)) :=
  x ← get_ctx c;
  d ← get;
  let payloadlen := u32 (p_remaining_length (c_in_packet x) - p_pos (c_in_packet x)) in
  let limit := cf_message_size_limit (d_config d) in
  modify (fun d => d <| d_pub_bytes_received ::= (fun n => u64 (n + payloadlen)) |>);;
  if payloadlen =? 0 then mret (ROk [])
  else if negb (limit =? 0) && (limit <? payloadlen) then mret (RErr 0)
  else
    payload ←! on_in_packet c (_mosquitto_read_bytes payloadlen) orelse mret (RErr 1);
    mret (ROk payload).

Definition mqtt3_handle_publish (c : addr) : M Z :=
  x ← get_ctx c;
  let header := p_command (c_in_packet x) in
  let qos := Z.shiftr (Z.land header 0x06) 1 in
  let retain := negb (Z.land header 0x01 =? 0) in
  if qos =? 3 then mret 1 else
  topic ←! on_in_packet c _mosquitto_read_string orelse mret 1;
  if strlen topic =? 0 then mret 1 else
  target ← unwrap (remap_in x topic);
  match target with
  | inl rc => mret rc
  | inr topic =>
    if negb (mosquitto_pub_topic_check topic =? MOSQ_ERR_SUCCESS) then mret 1 else
    mid ←! (if 0 <? qos then on_in_packet c _mosquitto_read_uint16 else mret (ROk 0)) orelse mret 1;
    l ← get_listener (c_listener x);
    let topic := mounted l topic in
    r ← read_message c;
    match r with
    | RErr rc => if rc =? 0 then bad_message c qos mid else mret rc
    | ROk payload =>
      rc ← mosquitto_acl_check c (Some topic) MOSQ_ACL_WRITE;
      if rc =? MOSQ_ERR_ACL_DENIED then bad_message c qos mid
      else if negb (rc =? MOSQ_ERR_SUCCESS) then mret rc
      else accept_message c topic payload qos mid retain
    end
  end.

(** * SUBSCRIBE, UNSUBSCRIBE and DISCONNECT *)

(** The loop over the topics of a SUBSCRIBE: the granted QoS of each and the result;
    [fuel] counts bytes. *)
Fixpoint subscribe_loop (fuel : nat) (c : addr) (payload : list byte) (rc : Z)
    : M (res (list byte * Z)) :=
  x ← get_ctx c;
  if p_pos (c_in_packet x) <? p_remaining_length (c_in_packet x) then
    match fuel with
    | O => fault
    | S fuel =>
      sub ←! on_in_packet c _mosquitto_read_string orelse mret (RErr 1);
      if strlen sub =? 0 then mret (RErr 1) else
      if negb (mosquitto_sub_topic_check sub =? 0) then mret (RErr 1) else
      qos ←! on_in_packet c _mosquitto_read_byte orelse mret (RErr 1);
      if 2 <? qos then mret (RErr 1) else
      l ← get_listener (c_listener x);
      let sub := mounted l sub in
      rc ←
        (if negb (qos =? 0x80) then
           rc2 ← mqtt3_sub_add c sub qos;
           if rc2 =? MOSQ_ERR_SUCCESS then
             r ← mqtt3_retain_queue c sub qos;
             mret (if negb (r =? 0) then 1 else rc)
           else mret (if rc2 =? -1 then rc else rc2)
         else mret rc);
      subscribe_loop fuel c (payload ++ [byte_of_Z qos]) rc
    end
  else mret (ROk (payload, rc)).

Definition mqtt3_handle_subscribe (c : addr) : M Z :=
  x ← get_ctx c;
  if bool_decide (c_protocol x = mosq_p_mqtt311) && negb (header_flags x =? 2)
  then mret MOSQ_ERR_PROTOCOL else
  mid ←! on_in_packet c _mosquitto_read_uint16 orelse mret 1;
  r ←? subscribe_loop (Z.to_nat (p_remaining_length (c_in_packet x))) c [] 0;
  let '(payload, rc) := r in
  if bool_decide (c_protocol x = mosq_p_mqtt311) && bool_decide (payload = [])
  then mret MOSQ_ERR_PROTOCOL else
  rc2 ← _mosquitto_send_suback c mid payload;
  modify (fun d => d <| d_persistence_changes ::= Z.succ |>);;
  mret (if negb (rc2 =? 0) then 1 else rc).

Fixpoint unsubscribe_loop (fuel : nat) (c : addr) : M Z :=
  x ← get_ctx c;
  if p_pos (c_in_packet x) <? p_remaining_length (c_in_packet x) then
    match fuel with
    | O => fault
    | S fuel =>
      sub ←! on_in_packet c _mosquitto_read_string orelse mret 1;
      if strlen sub =? 0 then mret 1 else
      if negb (mosquitto_sub_topic_check sub =? 0) then mret 1 else
      mqtt3_sub_remove c sub;;
      unsubscribe_loop fuel c
    end
  else mret 0.

Definition mqtt3_handle_unsubscribe (c : addr) : M Z :=
  x ← get_ctx c;
  if bool_decide (c_protocol x = mosq_p_mqtt311) && negb (header_flags x =? 2)
  then mret MOSQ_ERR_PROTOCOL else
  mid ←! on_in_packet c _mosquitto_read_uint16 orelse mret 1;
  rc ← unsubscribe_loop (Z.to_nat (p_remaining_length (c_in_packet x))) c;
  if negb (rc =? 0) then mret rc else
  modify (fun d => d <| d_persistence_changes ::= Z.succ |>);;
  _mosquitto_send_command_with_mid c UNSUBACK mid false.

Definition mqtt3_handle_disconnect (c : addr) : M Z :=
  x ← get_ctx c;
  if negb (p_remaining_length (c_in_packet x) =? 0) then mret MOSQ_ERR_PROTOCOL else
  if bool_decide (c_protocol x = mosq_p_mqtt311) && negb (header_flags x =? 0) then
    do_disconnect c;;
    mret MOSQ_ERR_PROTOCOL
  else
    upd_ctx c (fun x => x <| c_state := mosq_cs_disconnecting |>);;
    do_disconnect c;;
    mret MOSQ_ERR_SUCCESS.

(** * CONNACK, for a bridge *)

(** The topic a bridge announces its state on. *)
Definition notification_topic (b : _mqtt3_bridge) : M str :=
  match b_notification_topic b with
  | Some t => mret t
  | None =>
    id ← unwrap (b_remote_clientid b);
    mret (lit "$SYS/broker/connection/" ++ id ++ lit "/state")
  end.

(** Both brokers are told that the bridge is up; [false] is an error of the first. *)
Definition announce_bridge (c : addr) (b : _mqtt3_bridge) : M bool :=
  topic ← notification_topic b;
  mid ← _mosquitto_mid_generate c;
  rc ← _mosquitto_send_real_publish c mid topic (lit "1") 1 true false;
  if negb (rc =? 0) then mret false else
  mqtt3_db_messages_easy_queue (Some c) (Some topic) 1 (lit "1") true;;
  mret true.

Fixpoint subscribe_bridge (c : addr) (attempt_unsubscribe : bool) (ts : list _mqtt3_bridge_topic)
    : M bool :=
  match ts with
  | [] => mret true
  | t :: ts =>
    rc ←
      (if bool_decide (bt_direction t = bd_in) || bool_decide (bt_direction t = bd_both)
       then _mosquitto_send_subscribe c (bt_remote_topic t) (bt_qos t)
       else if attempt_unsubscribe then _mosquitto_send_unsubscribe c (bt_remote_topic t)
       else mret 0);
    if negb (rc =? 0) then mret false else subscribe_bridge c attempt_unsubscribe ts
  end.

Definition accepted_bridge (c : addr) : M bool :=
  x ← get_ctx c;
  match c_bridge x with
  | None => mret true
  | Some b =>
    ok ← (if b_notifications b then announce_bridge c b else mret true);
    if (ok : bool) then subscribe_bridge c (b_attempt_unsubscribe b) (b_topics b) else mret false
  end.

Definition mqtt3_handle_connack (c : addr) : M Z :=
  reserved ←! on_in_packet c _mosquitto_read_byte orelse mret 1;
  rc ←! on_in_packet c _mosquitto_read_byte orelse mret 1;
  if rc =? CONNACK_ACCEPTED then
    ok ← accepted_bridge c;
    if negb ok then mret 1 else
    upd_ctx c (fun x => x <| c_state := mosq_cs_connected |>);;
    mret MOSQ_ERR_SUCCESS
  else if rc =? CONNACK_REFUSED_PROTOCOL_VERSION then
    upd_ctx c (fun x => x <| c_bridge ::= fmap (fun b => b <| b_try_private_accepted := false |>) |>);;
    mret 1
  else mret 1.
