(* ===== verification/Connect.v ===== *)
(** CONNECT and the dispatch of control packets: [mqtt3_handle_connect] of
    src/read_handle_server.c, part by part in the order of the code, and
    [mqtt3_packet_handle] of src/read_handle.c. *)

From S2P Require Export Handle.
#[local] Open Scope Z_scope.

(** [if(...) { rc = ...; goto handle_connect_error; }]: the rest is skipped. *)
Notation "x ←r m ; k" := (m ≫= fun r => match r with ROk x => k | RErr rc => mret (RErr rc) end)
  (at level 20, m at level 100, k at level 200, only parsing) : stdpp_scope.

(** What comes from libraries: a random UUID as text, and the common name of the
    certificate the peer of a TLS connection showed ([None]: there is none). *)
Class Environment := {
  uuid_text : mosquitto_db -> str;
  peer_common_name : addr -> option str }.

(** The refusals that are told to the client. *)
Definition refuse {A} (c : addr) (code rc : Z) : M (res A) :=
  _mosquitto_send_connack c 0 code;;
  mret (RErr rc).

(** [if(read(...)) { rc = 1; goto handle_connect_error; }] *)
Definition read_or_1 {A} (c : addr) (m : ST packet (res A)) : M (res A) :=
  a ←! on_in_packet c m orelse mret (RErr 1);
  mret (ROk a).

(** ** Protocol name and version *)

Definition read_protocol (c : addr) : M (res Z) :=
  protocol_name ←r read_or_1 c _mosquitto_read_string;
  protocol_version ←r read_or_1 c _mosquitto_read_byte;
  x ← get_ctx c;
  if streq protocol_name PROTOCOL_NAME_v31 then
    if negb (Z.land protocol_version 0x7F =? MQTT_PROTOCOL_V31)
    then refuse c CONNACK_REFUSED_PROTOCOL_VERSION MOSQ_ERR_PROTOCOL else
    upd_ctx c (fun x => x <| c_protocol := mosq_p_mqtt31 |>);;
    mret (ROk protocol_version)
  else if streq protocol_name PROTOCOL_NAME_v311 then
    if negb (Z.land protocol_version 0x7F =? MQTT_PROTOCOL_V311)
    then refuse c CONNACK_REFUSED_PROTOCOL_VERSION MOSQ_ERR_PROTOCOL else
    if negb (header_flags x =? 0) then mret (RErr MOSQ_ERR_PROTOCOL) else
    upd_ctx c (fun x => x <| c_protocol := mosq_p_mqtt311 |>);;
    mret (ROk protocol_version)
  else mret (RErr MOSQ_ERR_PROTOCOL).

(** ** Flags, keepalive and client identifier *)

Record connect_flag_bits := Flags {
  fl_clean_session : bool;
  fl_will : bool;
  fl_will_qos : Z;
  fl_will_retain : bool;
  fl_password : bool;
  fl_username : bool }.

Definition parse_flags (byte : Z) : connect_flag_bits :=
  Flags (negb (Z.land byte 0x02 =? 0)) (negb (Z.land byte 0x04 =? 0))
    (Z.shiftr (Z.land byte 0x18) 3) (negb (Z.land byte 0x20 =? 0))
    (negb (Z.land byte 0x40 =? 0)) (negb (Z.land byte 0x80 =? 0)).

Section connect.
Context `{Crypto, Environment}.

Definition client_id_gen (d : mosquitto_db) : str :=
  default [] (cf_auto_id_prefix (d_config d)) ++ uuid_text d.

Definition read_client_id (c : addr) (fl : connect_flag_bits) : M (res str) :=
  keepalive ←r read_or_1 c _mosquitto_read_uint16;
  upd_ctx c (fun x => x <| c_keepalive := keepalive |>);;
  client_id ←r read_or_1 c _mosquitto_read_string;
  x ← get_ctx c;
  d ← get;
  client_id ←r
    (if strlen client_id =? 0 then
       if bool_decide (c_protocol x = mosq_p_mqtt31)
          || negb (fl_clean_session fl) || negb (cf_allow_zero_length_clientid (d_config d))
       then refuse c CONNACK_REFUSED_IDENTIFIER_REJECTED MOSQ_ERR_PROTOCOL
       else mret (ROk (client_id_gen d))
     else mret (ROk client_id));
  match cf_clientid_prefixes (d_config d) with
  | Some p => if strneq p client_id (length p) then mret (ROk client_id)
              else refuse c CONNACK_REFUSED_NOT_AUTHORIZED 1
  | None => mret (ROk client_id)
  end.

(** ** The will *)

Definition read_will (c : addr) (fl : connect_flag_bits) : M (res (option mosquitto_message)) :=
  if fl_will fl then
    will_topic ←r read_or_1 c _mosquitto_read_string;
    if strlen will_topic =? 0 then mret (RErr 1) else
    if negb (mosquitto_pub_topic_check will_topic =? 0) then mret (RErr 1) else
    will_payloadlen ←r read_or_1 c _mosquitto_read_uint16;
    will_payload ←r
      (if 0 <? will_payloadlen then read_or_1 c (_mosquitto_read_bytes will_payloadlen)
       else mret (ROk []));
    mret (ROk (Some (Message will_topic will_payload (fl_will_qos fl) (fl_will_retain fl))))
  else
    x ← get_ctx c;
    if bool_decide (c_protocol x = mosq_p_mqtt311)
       && (negb (fl_will_qos fl =? 0) || fl_will_retain fl)
    then mret (RErr MOSQ_ERR_PROTOCOL)
    else mret (ROk None).

(** ** User name and password *)

(** [username_flag] as the code leaves it is [username <> None]. *)
Definition read_credentials (c : addr) (fl : connect_flag_bits)
    : M (res (option str * option str)) :=
  x ← get_ctx c;
  let v311 := bool_decide (c_protocol x = mosq_p_mqtt311) in
  if fl_username fl then
    r ← on_in_packet c _mosquitto_read_string;
    match r with
    | ROk username =>
      if fl_password fl then
        r ← on_in_packet c _mosquitto_read_string;
        match r with
        | ROk password => mret (ROk (Some username, Some password))
        | RErr _ => if v311 then mret (RErr MOSQ_ERR_PROTOCOL) else mret (ROk (Some username, None))
        end
      else mret (ROk (Some username, None))
    | RErr _ => if v311 then mret (RErr MOSQ_ERR_PROTOCOL) else mret (ROk (None, None))
    end
  else if v311 && fl_password fl then mret (RErr MOSQ_ERR_PROTOCOL)
  else mret (ROk (None, None)).

(** [use_identity_as_username]: the name comes from TLS. *)
Definition identify_peer (c : addr) (l : _mqtt3_listener) : M (res unit) :=
  x ← get_ctx c;
  if negb (c_ssl x) then refuse c CONNACK_REFUSED_BAD_USERNAME_PASSWORD 1 else
  if l_psk_hint l then
    if bool_decide (c_username x = None) then refuse c CONNACK_REFUSED_BAD_USERNAME_PASSWORD 1
    else mret (ROk tt)
  else
    match peer_common_name c with
    | None => refuse c CONNACK_REFUSED_BAD_USERNAME_PASSWORD 1
    | Some name => upd_ctx c (fun x => x <| c_username := Some name |>);; mret (ROk tt)
    end.

Definition check_credentials (c : addr) (username password : option str) : M (res unit) :=
  d ← get;
  match username with
  | Some _ =>
    let rc := mosquitto_unpwd_check d username password in
    if rc =? MOSQ_ERR_SUCCESS then
      upd_ctx c (fun x => x <| c_username := username |> <| c_password := password |>);;
      mret (ROk tt)
    else
      whenM (rc =? MOSQ_ERR_AUTH)
        (_mosquitto_send_connack c 0 CONNACK_REFUSED_NOT_AUTHORIZED;; mret tt);;
      mqtt3_context_disconnect c;;
      mret (RErr 1)
  | None =>
    if cf_allow_anonymous (d_config d) then mret (ROk tt)
    else refuse c CONNACK_REFUSED_NOT_AUTHORIZED 1
  end.

Definition authenticate (c : addr) (username password : option str) : M (res unit) :=
  x ← get_ctx c;
  listener ← get_listener (c_listener x);
  match listener with
  | Some l => if l_ssl_ctx l && l_use_identity_as_username l then identify_peer c l
              else check_credentials c username password
  | None => check_credentials c username password
  end.

(** [use_username_as_clientid] *)
Definition final_client_id (c : addr) (client_id : str) : M (res str) :=
  x ← get_ctx c;
  listener ← get_listener (c_listener x);
  if match listener with Some l => l_use_username_as_clientid l | None => false end then
    match c_username x with
    | Some username => mret (ROk username)
    | None => refuse c CONNACK_REFUSED_NOT_AUTHORIZED 1
    end
  else mret (ROk client_id).

(** ** Taking over the session of an earlier connection *)

Definition retarget (from to : addr) (leaf : _mosquitto_subleaf) : _mosquitto_subleaf :=
  if decide (lf_context leaf = from) then Leaf to (lf_qos leaf) else leaf.

(** [for(i=0; i<context->sub_count; i++)]: the leaves now belong to [c]. *)
Definition retarget_slot (found c : addr) (slot : option addr) : M unit :=
  match slot with
  | None => mret tt
  | Some a =>
    root ← gets d_subs;
    subs ← unwrap (find_node a root);
    modify (fun d => d <| d_subs ::= set_node a (map (retarget found c) subs) |>)
  end.

(** Both sessions are persistent: messages and subscriptions move to [c]. *)
Definition inherit_session (c found : addr) : M unit :=
  f ← get_ctx found;
  whenM (negb (bool_decide (c_msgs f = [])))
    (upd_ctx c (fun x => x <| c_msgs := c_msgs f |>);;
     upd_ctx found (fun x => x <| c_msgs := [] |>);;
     mqtt3_db_message_reconnect_reset c;;
     mret tt);;
  f ← get_ctx found;
  upd_ctx c (fun x => x <| c_subs := c_subs f |>);;
  upd_ctx found (fun x => x <| c_subs := [] |>);;
  x ← get_ctx c;
  for_each (retarget_slot found c) (c_subs x).

(** [if(found_context)]; the result is the session-present flag of the CONNACK. *)
Definition take_over (c : addr) (client_id : str) (clean_session : bool) : M Z :=
  d ← get;
  found ← find_by_id (d_contexts_by_id d) client_id;
  match found with
  | None => mret 0
  | Some found =>
    x ← get_ctx c;
    upd_ctx c (fun x => x <| c_clean_session := clean_session |>);;
    f ← get_ctx found;
    whenM (negb clean_session && negb (c_clean_session f)) (inherit_session c found);;
    upd_ctx found (fun x => x <| c_clean_session := true |> <| c_state := mosq_cs_disconnecting |>);;
    do_disconnect found;;
    mret (if bool_decide (c_protocol x = mosq_p_mqtt311) && negb clean_session then 1 else 0)
  end.

(** ** Completing the connection *)

Definition associate_acl (c : addr) : M unit :=
  d ← get;
  upd_ctx c (fun x =>
    match d_acl_list d with
    | [] => x <| c_acl_list := None |>
    | l => match find_acl_user l (c_username x) with
           | Some u => x <| c_acl_list := Some u |>
           | None => x
           end
    end).

(** The loop that removes queued messages the client may not read; [last_msg] and
    the counters are not touched. *)
Fixpoint purge_loop (c : addr) (before tail : list mosquitto_client_msg) : M unit :=
  match tail with
  | [] => mret tt
  | m :: rest =>
    if is_out m then
      st ← get_store (m_store m);
      rc ← mosquitto_acl_check c (s_topic st) MOSQ_ACL_READ;
      if negb (rc =? MOSQ_ERR_SUCCESS) then
        mosquitto__db_msg_store_deref (m_store m);;
        set_msgs c (before ++ rest);;
        purge_loop c before rest
      else purge_loop c (before ++ [m]) rest
    else purge_loop c (before ++ [m]) rest
  end.

Definition accept_connection (c : addr) (client_id : str) (fl : connect_flag_bits)
    (protocol_version : Z) (will : option mosquitto_message) (connect_ack : Z) : M Z :=
  associate_acl c;;
  whenM (bool_decide (will <> None)) (upd_ctx c (fun x => x <| c_will := will |>));;
  upd_ctx c (fun x => x <| c_id := Some client_id |> <| c_clean_session := fl_clean_session fl |>
    <| c_ping_t := 0 |> <| c_is_dropping := false |>
    <| c_is_bridge ::= (fun b => if Z.land protocol_version 0x80 =? 0x80 then true else b) |>);;
  x ← get_ctx c;
  purge_loop c [] (c_msgs x);;
  modify (fun d => d <| d_contexts_by_id ::= (fun l => l ++ [c]) |>);;
  whenM (negb (fl_clean_session fl)) (modify (fun d => d <| d_persistence_changes ::= Z.succ |>));;
  upd_ctx c (fun x => x <| c_state := mosq_cs_connected |>);;
  _mosquitto_send_connack c connect_ack CONNACK_ACCEPTED.

(** Everything up to the search for an earlier connection: what is refused is
    refused here. *)
Definition read_connect (c : addr)
    : M (res (str * connect_flag_bits * Z * option mosquitto_message)) :=
  x ← get_ctx c;
  if negb (bool_decide (c_state x = mosq_cs_new)) then mret (RErr MOSQ_ERR_PROTOCOL) else
  protocol_version ←r read_protocol c;
  byte ←r read_or_1 c _mosquitto_read_byte;
  let fl := parse_flags byte in
  if fl_will_qos fl =? 3 then mret (RErr MOSQ_ERR_PROTOCOL) else
  client_id ←r read_client_id c fl;
  will ←r read_will c fl;
  credentials ←r read_credentials c fl;
  ok ←r authenticate c credentials.1 credentials.2;
  client_id ←r final_client_id c client_id;
  mret (ROk (client_id, fl, protocol_version, will)).

Definition mqtt3_handle_connect (c : addr) : M Z :=
  modify (fun d => d <| d_connection_count ::= Z.succ |>);;
  r ←? read_connect c;
  let '(client_id, fl, protocol_version, will) := r in
  connect_ack ← take_over c client_id (fl_clean_session fl);
  accept_connection c client_id fl protocol_version will connect_ack.

(** * [mqtt3_packet_handle] *)

Definition mqtt3_packet_handle (c : addr) : M Z :=
  x ← get_ctx c;
  let command := Z.land (p_command (c_in_packet x)) 0xF0 in
  if command =? PINGREQ then _mosquitto_handle_pingreq c
  else if command =? PINGRESP then _mosquitto_handle_pingresp c
  else if (command =? PUBACK) || (command =? PUBCOMP) then _mosquitto_handle_pubackcomp c
  else if command =? PUBLISH then mqtt3_handle_publish c
  else if command =? PUBREC then _mosquitto_handle_pubrec c
  else if command =? PUBREL then _mosquitto_handle_pubrel c
  else if command =? CONNECT then mqtt3_handle_connect c
  else if command =? DISCONNECT then mqtt3_handle_disconnect c
  else if command =? SUBSCRIBE then mqtt3_handle_subscribe c
  else if command =? UNSUBSCRIBE then mqtt3_handle_unsubscribe c
  else if command =? CONNACK then mqtt3_handle_connack c
  else if command =? SUBACK then _mosquitto_handle_suback c
  else if command =? UNSUBACK then _mosquitto_handle_unsuback c
  else mret MOSQ_ERR_PROTOCOL.

(** [_mosquitto_packet_read] with the broker's handlers. *)
Definition packet_read (c : addr) : M Z := _mosquitto_packet_read mqtt3_packet_handle c.
End connect.
