(* ===== verification/Bridge.v ===== *)
(** Bridges to other brokers: src/bridge.c, with the setting of wills of
    lib/will_mosq.c.  The names of the machine and the connecting socket come from
    the system. *)

From S2P Require Export Connect.
#[local] Open Scope Z_scope.

Definition MQTT_MAX_PAYLOAD : Z := 268435455.

(** What the system answers: [gethostname] ([None] is a failure), the result and the
    socket of [_mosquitto_socket_connect] and of [_mosquitto_try_connect], and whether
    [errno] is [ENOTCONN] after a failed write. *)
Class Network := {
  host_name : option str;
  socket_connect : mosquitto_db -> addr -> Z * Z;
  try_connect : mosquitto_db -> addr -> Z;
  errno_enotconn : mosquitto_db -> bool }.

(** * lib/will_mosq.c *)

Definition _mosquitto_will_set (c : addr) (topic : option str) (payload : list byte) (qos : Z)
    (retain : bool) : M Z :=
  match topic with
  | None => mret MOSQ_ERR_INVAL
  | Some topic =>
    if MQTT_MAX_PAYLOAD <? Z.of_nat (length payload) then mret MOSQ_ERR_PAYLOAD_SIZE else
    if negb (mosquitto_pub_topic_check topic =? 0) then mret MOSQ_ERR_INVAL else
    upd_ctx c (fun x => x <| c_will := Some (Message topic payload qos retain) |>);;
    mret MOSQ_ERR_SUCCESS
  end.

Definition _mosquitto_will_clear (c : addr) : M Z :=
  upd_ctx c (fun x => x <| c_will := None |>);;
  mret MOSQ_ERR_SUCCESS.

(** * src/bridge.c *)

Definition mqtt3_bridge_packet_cleanup (c : addr) : M unit :=
  upd_ctx c (fun x => x <| c_current_out_packet := None |> <| c_out_packet := [] |>
                        <| c_in_packet ::= _mosquitto_packet_cleanup |>).

(** The local subscriptions of a bridge, on the topics it sends. *)
Fixpoint bridge_subscriptions (c : addr) (ts : list _mqtt3_bridge_topic) : M Z :=
  match ts with
  | [] => mret 0
  | t :: ts =>
    if bool_decide (bt_direction t = bd_out) || bool_decide (bt_direction t = bd_both) then
      rc ← mqtt3_sub_add c (bt_local_topic t) (bt_qos t);
      if negb (rc =? 0) then mret 1 else bridge_subscriptions c ts
    else bridge_subscriptions c ts
  end.

(** The state of the bridge is published here, and will be there.  With a topic of the
    configuration the code publishes "1" before it is connected, without one "0". *)
Definition bridge_notify (c : addr) (b : _mqtt3_bridge) : M Z :=
  if negb (b_notifications b) then mret 0 else
  topic ← notification_topic b;
  let payload := if bool_decide (b_notification_topic b <> None) then lit "1" else lit "0" in
  mqtt3_db_messages_easy_queue (Some c) (Some topic) 1 payload true;;
  _mosquitto_will_set c (Some topic) (lit "0") 1 true.

(** What is reset before connecting. *)
Definition bridge_context (b : _mqtt3_bridge) (now : Z) (x : mosquitto) : mosquitto :=
  x <| c_state := mosq_cs_new |> <| c_sock := INVALID_SOCKET |>
    <| c_last_msg_in := now |> <| c_last_msg_out := now |> <| c_keepalive := b_keepalive b |>
    <| c_clean_session := b_clean_session b |>
    <| c_in_packet ::= (fun p => p <| p_payload := [] |>) |> <| c_ping_t := 0 |>
    <| c_bridge := Some (b <| b_lazy_reconnect := false |>) |>.

Section bridge.
Context `{Network}.

(** From [_mosquitto_socket_connect] on. *)
Definition bridge_open (c : addr) : M Z :=
  d ← get;
  let '(rc, sock) := socket_connect d c in
  if 0 <? rc then mret rc else
  upd_ctx c (fun x => x <| c_sock := sock |>);;
  modify (fun d => d <| d_contexts_by_sock ::= (fun l => l ++ [c]) |>);;
  whenM (rc =? MOSQ_ERR_CONN_PENDING)
    (upd_ctx c (fun x => x <| c_state := mosq_cs_connect_pending |>));;
  x ← get_ctx c;
  rc ← _mosquitto_send_connect c (c_keepalive x) (c_clean_session x);
  d ← get;
  if rc =? MOSQ_ERR_SUCCESS then mret MOSQ_ERR_SUCCESS
  else if (rc =? MOSQ_ERR_ERRNO) && errno_enotconn d then mret MOSQ_ERR_SUCCESS
  else
    (if rc =? MOSQ_ERR_TLS then mret rc else _mosquitto_socket_close c;; mret rc).

Definition mqtt3_bridge_connect (c : addr) : M Z :=
  x ← get_ctx c;
  match c_bridge x with
  | None => mret MOSQ_ERR_INVAL
  | Some b =>
    now ← mosquitto_time;
    upd_ctx c (bridge_context b now);;
    mqtt3_bridge_packet_cleanup c;;
    mqtt3_db_message_reconnect_reset c;;
    whenM (b_clean_session b) (mqtt3_db_messages_delete c;; mret tt);;
    mqtt3_subs_clean_session c;;
    rc ← bridge_subscriptions c (b_topics b);
    if negb (rc =? 0) then mret 1 else
    rc ← bridge_notify c b;
    if negb (rc =? MOSQ_ERR_SUCCESS) then mret rc else
    bridge_open c
  end.

(** The identifiers of a bridge: those of its configuration, or made of the name of
    the machine; [None] when that cannot be found. *)
Definition bridge_ids (b : _mqtt3_bridge) : option _mqtt3_bridge :=
  remote ← match b_remote_clientid b with
           | Some id => Some id
           | None => (fun h => h ++ lit "." ++ b_name b) <$> host_name
           end;
  let b := b <| b_remote_clientid := Some remote |> in
  Some (match b_local_clientid b with
        | Some _ => b
        | None => b <| b_local_clientid := Some (lit "local." ++ remote) |>
        end).

Definition mqtt3_bridge_new (b : _mqtt3_bridge) : M Z :=
  match bridge_ids b with
  | None => mret 1
  | Some b =>
    local_id ← unwrap (b_local_clientid b);
    d ← get;
    found ← find_by_id (d_contexts_by_id d) local_id;
    new_context ←
      (match found with
       | Some c => mret c
       | None =>
         r ← mqtt3_context_init (-1) None;
         c ← unwrap r;
         upd_ctx c (fun x => x <| c_id := Some local_id |>);;
         modify (fun d => d <| d_contexts_by_id ::= (fun l => l ++ [c]) |>);;
         mret c
       end);
    upd_ctx new_context (fun x =>
      x <| c_bridge := Some (b <| b_try_private_accepted := true |>) |> <| c_is_bridge := true |>
        <| c_username := b_remote_username b |> <| c_password := b_remote_password b |>
        <| c_protocol := b_protocol_version b |>);;
    modify (fun d => d <| d_bridges ::= (fun l => l ++ [Some new_context]) |>);;
    mqtt3_bridge_connect new_context
  end.
End bridge.
