(* ===== verification/Conf.v ===== *)
(** Reading the configuration: src/conf.c. A file is its contents, a directory the names in
    it; the answers of the system are the class [Files]. The messages that go to the log are
    left out. [config] is struct mqtt3_config with the two limits that are file-scope
    variables of src/database.c; what the core of the broker reads of it are the records
    of Types.v, which are parts of the ones here. *)

From S2P Require Export Bridge.

#[local] Open Scope Z_scope.

(** * Data (src/mosquitto_broker.h) *)

Inductive mosquitto_protocol := mp_mqtt | mp_mqttsn | mp_websockets.

#[global] Instance mosquitto_protocol_eq_dec : EqDecision mosquitto_protocol.
Proof. solve_decision. Defined.

(** [struct _mqtt3_listener]: [cl_core] holds what Types.v has of it. *)
Record conf_listener := ConfListener {
  cl_core : _mqtt3_listener;
  cl_host : option str;
  cl_protocol : mosquitto_protocol;
  cl_cafile : option str;
  cl_capath : option str;
  cl_certfile : option str;
  cl_keyfile : option str;
  cl_ciphers : option str;
  cl_psk_hint : option str;
  cl_require_certificate : bool;
  cl_crlfile : option str;
  cl_tls_version : option str }.

#[global] Instance eta_conf_listener : Eta conf_listener := fun l =>
  ConfListener (cl_core l) (cl_host l) (cl_protocol l) (cl_cafile l) (cl_capath l) (cl_certfile l)
    (cl_keyfile l) (cl_ciphers l) (cl_psk_hint l) (cl_require_certificate l) (cl_crlfile l)
    (cl_tls_version l).

(** [struct bridge_address]: the address is a copy of its own, or still points into the
    buffer that the line was read to; then nothing was assigned to the port. *)
Inductive bridge_address :=
| Address (address : str) (port : Z)
| InBuffer (token : str).

(** [struct _mqtt3_bridge]: [cb_core] holds what Types.v has of it. *)
Record conf_bridge := ConfBridge {
  cb_core : _mqtt3_bridge;
  cb_addresses : list bridge_address;
  cb_tls_cafile : option str;
  cb_tls_capath : option str;
  cb_tls_certfile : option str;
  cb_tls_keyfile : option str;
  cb_tls_insecure : bool;
  cb_tls_version : option str;
  cb_tls_psk_identity : option str;
  cb_tls_psk : option str }.

#[global] Instance eta_conf_bridge : Eta conf_bridge := fun b =>
  ConfBridge (cb_core b) (cb_addresses b) (cb_tls_cafile b) (cb_tls_capath b) (cb_tls_certfile b)
    (cb_tls_keyfile b) (cb_tls_insecure b) (cb_tls_version b) (cb_tls_psk_identity b) (cb_tls_psk b).

(** [struct mqtt3_config] and, last, [max_inflight] and [max_queued] of src/database.c.
    [g_log_fptr] says whether the log file is open. *)
Record config := MakeConfig {
  g_core : mqtt3_config;
  g_config_file : option str;
  g_acl_file : option str;
  g_auto_id_prefix_len : Z;
  g_autosave_interval : Z;
  g_autosave_on_changes : bool;
  g_daemon : bool;
  g_default_listener : conf_listener;
  g_listeners : list conf_listener;
  g_log_dest : Z;
  g_log_facility : Z;
  g_log_type : Z;
  g_log_timestamp : bool;
  g_log_file : option str;
  g_log_fptr : bool;
  g_password_file : option str;
  g_persistence_location : option str;
  g_persistence_file : option str;
  g_persistence_filepath : option str;
  g_pid_file : option str;
  g_psk_file : option str;
  g_sys_interval : Z;
  g_user : option str;
  g_verbose : bool;
  g_bridges : list conf_bridge;
  g_auth_plugin : option str;
  g_auth_options : list (str * str);
  g_max_inflight : Z;
  g_max_queued : Z }.

#[global] Instance eta_config : Eta config := fun g =>
  MakeConfig (g_core g) (g_config_file g) (g_acl_file g) (g_auto_id_prefix_len g) (g_autosave_interval g)
    (g_autosave_on_changes g) (g_daemon g) (g_default_listener g) (g_listeners g) (g_log_dest g)
    (g_log_facility g) (g_log_type g) (g_log_timestamp g) (g_log_file g) (g_log_fptr g)
    (g_password_file g) (g_persistence_location g) (g_persistence_file g) (g_persistence_filepath g)
    (g_pid_file g) (g_psk_file g) (g_sys_interval g) (g_user g) (g_verbose g) (g_bridges g)
    (g_auth_plugin g) (g_auth_options g) (g_max_inflight g) (g_max_queued g).

(** All-zero structures, as [memset] leaves them; the two limits have their initial values. *)
Definition listener_zero : conf_listener :=
  ConfListener (Listener 0 0 None 0 false false false false []) None mp_mqtt None None None None None
    None false None None.

Definition bridge_zero : conf_bridge :=
  ConfBridge
    (Bridge [] 0 0 false false false false 0 [] false None None None None None None false None
       bst_automatic 0 0 0 false false mosq_p_invalid 0 0)
    [] None None None None false None None None.

Definition config_zero : config :=
  MakeConfig config_calloc None None 0 0 false false listener_zero [] 0 0 0 false None false None None None
    None None None 0 None false [] None [] 20 100.

(** [struct config_recurse] *)
Record config_recurse := Recurse {
  cr_log_dest : Z;
  cr_log_dest_set : bool;
  cr_log_type : Z;
  cr_log_type_set : bool;
  cr_max_inflight_messages : Z;
  cr_max_queued_messages : Z }.

#[global] Instance eta_recurse : Eta config_recurse := fun c =>
  Recurse (cr_log_dest c) (cr_log_dest_set c) (cr_log_type c) (cr_log_type_set c)
    (cr_max_inflight_messages c) (cr_max_queued_messages c).

(** The variables of [_config_read_file_core]: [*config], [*cr], and what [cur_listener]
    ([None] is the default listener) and [cur_bridge] ([None] is NULL) point to. *)
Record reader := Reader {
  rd_config : config;
  rd_cr : config_recurse;
  rd_listener : option nat;
  rd_bridge : option nat }.

#[global] Instance eta_reader : Eta reader := fun r =>
  Reader (rd_config r) (rd_cr r) (rd_listener r) (rd_bridge r).

Abbreviation R := (ST reader).

(** What the system answers: the contents of a file and the names in a directory ([None]:
    it cannot be opened), whether a host name resolves, and what is left in memory
    behind the end of a line of a file, the line given by its number. *)
Class Files := {
  file_contents : str -> option (list byte);
  opendir : str -> option (list str);
  resolves : str -> bool;
  leftover : str -> nat -> str }.

Definition MQTT3_LOG_NONE : Z := 0.
Definition MQTT3_LOG_SYSLOG : Z := 1.
Definition MQTT3_LOG_FILE : Z := 2.
Definition MQTT3_LOG_STDOUT : Z := 4.
Definition MQTT3_LOG_STDERR : Z := 8.
Definition MQTT3_LOG_TOPIC : Z := 16.
Definition MOSQ_LOG_NONE : Z := 0.
Definition MOSQ_LOG_INFO : Z := 1.
Definition MOSQ_LOG_NOTICE : Z := 2.
Definition MOSQ_LOG_WARNING : Z := 4.
Definition MOSQ_LOG_ERR : Z := 8.
Definition MOSQ_LOG_DEBUG : Z := 16.
Definition MOSQ_LOG_SUBSCRIBE : Z := 32.
Definition MOSQ_LOG_UNSUBSCRIBE : Z := 64.
Definition INT_MAX : Z := 2147483647.
(** syslog(3) *)
Definition LOG_DAEMON : Z := 24.
Definition LOG_LOCAL0 : Z := 128.

(** * Fields of nested records *)

Record lens (S A : Type) := Lens { lget : S -> A; lset : A -> S -> S }.
Arguments Lens {S A} lget lset.
Arguments lget {S A} l s.
Arguments lset {S A} l a s.

Definition fld {S A} (p : S -> A) `{!Upd p} : lens S A := Lens p (fun a => upd p (fun _ => a)).
Definition inside {S A B} (l1 : lens S A) (l2 : lens A B) : lens S B :=
  Lens (fun s => lget l2 (lget l1 s)) (fun b s => lset l1 (lset l2 b (lget l1 s)) s).
Infix "▹" := inside (at level 40, left associativity).

(** What a pointer leads to ([None]: it dangles), and storing there. *)
Record target (X : Type) := Target { t_get : reader -> option X; t_set : X -> reader -> reader }.
Arguments Target {X} t_get t_set.
Arguments t_get {X} t r.
Arguments t_set {X} t x r.

Definition the_config : target config := Target (fun r => Some (rd_config r)) (fun g r => r <| rd_config := g |>).

(** [cur_listener]: [realloc] of [config->listeners] leaves earlier pointers into it dangling,
    and it is called for each listener, so only the last one can be reached. *)
Definition the_listener : target conf_listener :=
  Target
    (fun r =>
     match rd_listener r with
     | None => Some (g_default_listener (rd_config r))
     | Some i => if (S i =? length (g_listeners (rd_config r)))%nat then g_listeners (rd_config r) !! i else None
     end)
    (fun l r =>
     match rd_listener r with
     | None => r <| rd_config ::= (fun g => g <| g_default_listener := l |>) |>
     | Some i => r <| rd_config ::= (fun g => g <| g_listeners ::= <[i := l]> |>) |>
     end).

(** [cur_bridge], likewise. *)
Definition the_bridge : target conf_bridge :=
  Target
    (fun r =>
     match rd_bridge r with
     | None => None
     | Some i => if (S i =? length (g_bridges (rd_config r)))%nat then g_bridges (rd_config r) !! i else None
     end)
    (fun b r =>
     match rd_bridge r with
     | None => r
     | Some i => r <| rd_config ::= (fun g => g <| g_bridges ::= <[i := b]> |>) |>
     end).

Definition load {X} (t : target X) : R X := r ← get; unwrap (t_get t r).
Definition update {X} (t : target X) (f : X -> X) : R unit := x ← load t; modify (t_set t (f x)).
Definition read_field {X A} (t : target X) (l : lens X A) : R A := x ← load t; mret (lget l x).
Definition write_field {X A} (t : target X) (l : lens X A) (a : A) : R unit := update t (lset l a).

Definition set_config (f : config -> config) : R unit := update the_config f.

(** * Values *)

Definition is_space (b : byte) : bool := bool_decide (b ∈ [SPACE; "009"%char; LF; "011"%char; "012"%char; CR]).

Definition digit (b : byte) : option Z :=
  let z := Z_of_byte b - 48 in if (0 <=? z) && (z <=? 9) then Some z else None.

Fixpoint digits (acc : Z) (s : str) : Z :=
  match s with
  | [] => acc
  | b :: s => match digit b with Some d => digits (10 * acc + d) s | None => acc end
  end.

Fixpoint skip_space (s : str) : str :=
  match s with
  | b :: s' => if is_space b then skip_space s' else s
  | [] => []
  end.

(** [strtol] saturates at a 64-bit [long], [atoi] is its conversion to [int]. *)
Definition clamp_long (z : Z) : Z := Z.max (- 2 ^ 63) (Z.min z (2 ^ 63 - 1)).
Definition s32 (z : Z) : Z := (z + 2 ^ 31) mod 2 ^ 32 - 2 ^ 31.

Definition atoi (s : str) : Z :=
  let s := skip_space s in
  s32 (clamp_long (match s with
                   | "-"%char :: s => - digits 0 s
                   | "+"%char :: s => digits 0 s
                   | s => digits 0 s
                   end)).

Definition skip_blanks (s : str) : str := skip_delim [SPACE; "009"%char] s.

(** Each takes what is left of the line. A value that is no boolean leaves the variable as it was. *)
Definition _conf_parse_bool {X} (t : target X) (value : lens X bool) (rest : str) : R Z :=
  match strtok [SPACE] rest with
  | Some (token, _) =>
    (if streq token (lit "false") || streq token (lit "0") then write_field t value false
     else if streq token (lit "true") || streq token (lit "1") then write_field t value true
     else mret tt);;
    mret MOSQ_ERR_SUCCESS
  | None => mret MOSQ_ERR_INVAL
  end.

Definition _conf_parse_int {X} (t : target X) (value : lens X Z) (rest : str) : R Z :=
  match strtok [SPACE] rest with
  | Some (token, _) => write_field t value (atoi token);; mret MOSQ_ERR_SUCCESS
  | None => mret MOSQ_ERR_INVAL
  end.

Definition _conf_parse_string {X} (t : target X) (value : lens X (option str)) (rest : str) : R Z :=
  match strtok [] rest with
  | Some (token, _) =>
    old ← read_field t value;
    match old with
    | Some _ => mret MOSQ_ERR_INVAL
    | None => write_field t value (Some (skip_blanks token));; mret MOSQ_ERR_SUCCESS
    end
  | None => mret MOSQ_ERR_INVAL
  end.

(** [if(f(...)) return MOSQ_ERR_INVAL;] and what follows. *)
Definition or_inval (m : R Z) (k : R Z) : R Z :=
  rc ← m;
  if negb (rc =? MOSQ_ERR_SUCCESS) then mret MOSQ_ERR_INVAL else k.

Definition done_ok : R Z := mret MOSQ_ERR_SUCCESS.

(** [tmp_int]: an integer that goes to no field. *)
Definition parse_tmp_int (rest : str) (k : Z -> R Z) : R Z :=
  match strtok [SPACE] rest with
  | Some (token, _) => k (atoi token)
  | None => mret MOSQ_ERR_INVAL
  end.

(** * Options

    A line is its first word, what is left after it, whether it ends in a blank, and the
    text behind its end ([None]: there the buffer ends). *)
Record conf_line := ConfLine {
  w_token : str;
  w_rest : str;
  w_blank_end : bool;
  w_behind : option str }.

(** [&token[strlen(token)+1]], with what is left after [token]. *)
Definition text_after (w : conf_line) (rest : str) : option str :=
  match rest with
  | [] => if w_blank_end w then Some [] else w_behind w
  | _ => Some rest
  end.

(** A word that is two double quotes. *)
Definition EMPTY_WORD : str := ["034"%char; "034"%char].

(** [strcasecmp] *)
Definition tolower (b : byte) : byte :=
  let z := Z_of_byte b in if (65 <=? z) && (z <=? 90) then byte_of_Z (z + 32) else b.
Definition strcaseeq (a b : str) : bool := streq (map tolower a) (map tolower b).

Section options.
Context `{Files}.
(** [reload], and what an [include_dir] does with a file ([None] where it is ignored). *)
Variable reload : bool.
Variable include : option (str -> R Z).

(** [if(reload) continue;] *)
Definition not_on_reload (h : conf_line -> R Z) (w : conf_line) : R Z := if reload then done_ok else h w.

(** The option of a bridge, which must have been named before. *)
Definition for_bridge (h : conf_line -> R Z) : conf_line -> R Z :=
  not_on_reload (fun w =>
    p ← gets rd_bridge;
    match p with
    | None => mret MOSQ_ERR_INVAL
    | Some _ => h w
    end).

Definition bool_option {X} (t : target X) (l : lens X bool) (w : conf_line) : R Z :=
  or_inval (_conf_parse_bool t l (w_rest w)) done_ok.

Definition string_option {X} (t : target X) (l : lens X (option str)) (w : conf_line) : R Z :=
  or_inval (_conf_parse_string t l (w_rest w)) done_ok.

(** On a reload the old value is dropped first. *)
Definition file_option (l : lens config (option str)) (w : conf_line) : R Z :=
  whenM reload (write_field the_config l None);;
  string_option the_config l w.

Definition gcore {A} (p : mqtt3_config -> A) `{!Upd p} : lens config A := fld g_core ▹ fld p.
Definition lcore {A} (p : _mqtt3_listener -> A) `{!Upd p} : lens conf_listener A := fld cl_core ▹ fld p.
Definition bcore {A} (p : _mqtt3_bridge -> A) `{!Upd p} : lens conf_bridge A := fld cb_core ▹ fld p.

(** ** The broker *)

Definition opt_acl_file := file_option (fld g_acl_file).
Definition opt_allow_anonymous := bool_option the_config (gcore cf_allow_anonymous).
Definition opt_allow_duplicate_messages := bool_option the_config (gcore cf_allow_duplicate_messages).
Definition opt_allow_zero_length_clientid := bool_option the_config (gcore cf_allow_zero_length_clientid).

Definition opt_auth_opt (w : conf_line) : R Z :=
  if strlen (w_token w) <? 12 then mret MOSQ_ERR_INVAL else
  let key := drop 9 (w_token w) in
  value ← unwrap (text_after w (w_rest w));
  match skip_blanks value with
  | [] => mret MOSQ_ERR_INVAL
  | value =>
    set_config (fun g => g <| g_auth_options ::= (fun l => l ++ [(key, value)]) |>);;
    mret MOSQ_ERR_SUCCESS
  end.

Definition opt_auth_plugin := not_on_reload (string_option the_config (fld g_auth_plugin)).

Definition opt_auto_id_prefix (w : conf_line) : R Z :=
  or_inval (_conf_parse_string the_config (gcore cf_auto_id_prefix) (w_rest w))
    (p ← read_field the_config (gcore cf_auto_id_prefix);
     write_field the_config (fld g_auto_id_prefix_len) (match p with Some p => strlen p | None => 0 end);;
     done_ok).

Definition opt_autosave_interval (w : conf_line) : R Z :=
  or_inval (_conf_parse_int the_config (fld g_autosave_interval) (w_rest w))
    (n ← read_field the_config (fld g_autosave_interval);
     whenM (n <? 0) (write_field the_config (fld g_autosave_interval) 0);;
     done_ok).

Definition opt_autosave_on_changes := bool_option the_config (fld g_autosave_on_changes).

Definition _conf_attempt_resolve (host : str) : Z :=
  if resolves host then MOSQ_ERR_SUCCESS else MOSQ_ERR_INVAL.

Definition opt_bind_address := not_on_reload (fun w =>
  or_inval (_conf_parse_string the_config (fld g_default_listener ▹ fld cl_host) (w_rest w))
    (host ← read_field the_config (fld g_default_listener ▹ fld cl_host);
     host ← unwrap host;
     or_inval (mret (_conf_attempt_resolve host)) done_ok)).

Definition opt_clientid_prefixes := file_option (gcore cf_clientid_prefixes).
Definition opt_connection_messages := bool_option the_config (gcore cf_connection_messages).

(** Only the main file includes others. [opendir(NULL)] faults. *)
Fixpoint include_files (read : str -> R Z) (dir : str) (names : list str) : R Z :=
  match names with
  | [] => mret MOSQ_ERR_SUCCESS
  | name :: names =>
    if (5 <? strlen name) && streq (drop (length name - 5) name) (lit ".conf") then
      rc ← read (dir ++ lit "/" ++ name);
      if negb (rc =? 0) then mret rc else include_files read dir names
    else include_files read dir names
  end.

Definition opt_include_dir (w : conf_line) : R Z :=
  match include with
  | None => done_ok
  | Some read =>
    token ← unwrap (strtok [SPACE] (w_rest w));
    match opendir token.1 with
    | None => mret 1
    | Some names => include_files read token.1 names
    end
  end.

Definition set_cr (f : config_recurse -> config_recurse) : R unit := modify (fun r => r <| rd_cr ::= f |>).

(** [cr->log_dest |= d] *)
Definition log_dest_word (d : Z) : R unit := set_cr (fun c => c <| cr_log_dest ::= Z.lor d |>).

Definition opt_log_dest (w : conf_line) : R Z :=
  match strtok [SPACE] (w_rest w) with
  | None => mret MOSQ_ERR_INVAL
  | Some (token, rest) =>
    set_cr (fun c => c <| cr_log_dest_set := true |>);;
    if streq token (lit "none") then set_cr (fun c => c <| cr_log_dest := MQTT3_LOG_NONE |>);; done_ok
    else if streq token (lit "syslog") then log_dest_word MQTT3_LOG_SYSLOG;; done_ok
    else if streq token (lit "stdout") then log_dest_word MQTT3_LOG_STDOUT;; done_ok
    else if streq token (lit "stderr") then log_dest_word MQTT3_LOG_STDERR;; done_ok
    else if streq token (lit "topic") then log_dest_word MQTT3_LOG_TOPIC;; done_ok
    else if streq token (lit "file") then
      log_dest_word MQTT3_LOG_FILE;;
      g ← gets rd_config;
      if g_log_fptr g || bool_decide (g_log_file g <> None) then mret MOSQ_ERR_INVAL else
      name ← unwrap (text_after w rest);
      match skip_blanks name with
      | [] => mret MOSQ_ERR_INVAL
      | name => set_config (fun g => g <| g_log_file := Some name |>);; done_ok
      end
    else mret MOSQ_ERR_INVAL
  end.

Definition opt_log_facility (w : conf_line) : R Z :=
  parse_tmp_int (w_rest w) (fun n =>
    if (0 <=? n) && (n <=? 7)
    then set_config (fun g => g <| g_log_facility := LOG_LOCAL0 + 8 * n |>);; done_ok
    else mret MOSQ_ERR_INVAL).

Definition opt_log_timestamp := bool_option the_config (fld g_log_timestamp).

(** [cr->log_type |= t] *)
Definition log_type_word (t : Z) : R Z := set_cr (fun c => c <| cr_log_type ::= Z.lor t |>);; done_ok.

Definition opt_log_type (w : conf_line) : R Z :=
  match strtok [SPACE] (w_rest w) with
  | None => done_ok
  | Some (token, _) =>
    set_cr (fun c => c <| cr_log_type_set := true |>);;
    if streq token (lit "none") then set_cr (fun c => c <| cr_log_type := MOSQ_LOG_NONE |>);; done_ok
    else if streq token (lit "information") then log_type_word MOSQ_LOG_INFO
    else if streq token (lit "notice") then log_type_word MOSQ_LOG_NOTICE
    else if streq token (lit "warning") then log_type_word MOSQ_LOG_WARNING
    else if streq token (lit "error") then log_type_word MOSQ_LOG_ERR
    else if streq token (lit "debug") then log_type_word MOSQ_LOG_DEBUG
    else if streq token (lit "subscribe") then log_type_word MOSQ_LOG_SUBSCRIBE
    else if streq token (lit "unsubscribe") then log_type_word MOSQ_LOG_UNSUBSCRIBE
    else if streq token (lit "all") then set_cr (fun c => c <| cr_log_type := INT_MAX |>);; done_ok
    else mret MOSQ_ERR_INVAL
  end.

Definition opt_max_inflight_messages (w : conf_line) : R Z :=
  match strtok [SPACE] (w_rest w) with
  | None => done_ok
  | Some (token, _) => set_cr (fun c => c <| cr_max_inflight_messages := Z.max 0 (atoi token) |>);; done_ok
  end.

Definition opt_max_queued_messages (w : conf_line) : R Z :=
  match strtok [SPACE] (w_rest w) with
  | None => done_ok
  | Some (token, _) => set_cr (fun c => c <| cr_max_queued_messages := Z.max 0 (atoi token) |>);; done_ok
  end.

(** The field is a [uint32_t] that is written as an [int]. *)
Definition opt_message_size_limit (w : conf_line) : R Z :=
  match strtok [SPACE] (w_rest w) with
  | None => mret MOSQ_ERR_INVAL
  | Some (token, _) =>
    let limit := u32 (atoi token) in
    write_field the_config (gcore cf_message_size_limit) limit;;
    if MQTT_MAX_PAYLOAD <? limit then mret MOSQ_ERR_INVAL else done_ok
  end.

Definition opt_password_file := file_option (fld g_password_file).
Definition opt_persistence := bool_option the_config (gcore cf_persistence).
Definition opt_persistence_file := string_option the_config (fld g_persistence_file).
Definition opt_persistence_location := string_option the_config (fld g_persistence_location).

(** Seconds per unit of the duration. *)
Definition expiration_mult (unit : byte) : option Z :=
  if decide (unit = "h"%char) then Some 3600
  else if decide (unit = "d"%char) then Some 86400
  else if decide (unit = "w"%char) then Some (86400 * 7)
  else if decide (unit = "m"%char) then Some (86400 * 30)
  else if decide (unit = "y"%char) then Some (86400 * 365)
  else None.

Definition opt_persistent_client_expiration (w : conf_line) : R Z :=
  match strtok [SPACE] (w_rest w) with
  | None => done_ok
  | Some (token, _) =>
    match expiration_mult (cget token (strlen token - 1)) with
    | None => mret MOSQ_ERR_INVAL
    | Some mult =>
      let n := atoi (take (length token - 1) token) * mult in
      write_field the_config (gcore cf_persistent_client_expiration) n;;
      if n <=? 0 then mret MOSQ_ERR_INVAL else done_ok
    end
  end.

Definition opt_pid_file := not_on_reload (string_option the_config (fld g_pid_file)).
Definition opt_psk_file := file_option (fld g_psk_file).
Definition opt_queue_qos0_messages := bool_option the_config (gcore cf_queue_qos0_messages).

Definition opt_retry_interval (w : conf_line) : R Z :=
  or_inval (_conf_parse_int the_config (gcore cf_retry_interval) (w_rest w))
    (n ← read_field the_config (gcore cf_retry_interval);
     if (n <? 1) || (3600 <? n) then mret MOSQ_ERR_INVAL else done_ok).

(** No longer needed: only a warning. *)
Definition opt_store_clean_interval (w : conf_line) : R Z := done_ok.

Definition opt_sys_interval (w : conf_line) : R Z :=
  or_inval (_conf_parse_int the_config (fld g_sys_interval) (w_rest w))
    (n ← read_field the_config (fld g_sys_interval);
     if (n <? 0) || (65535 <? n) then mret MOSQ_ERR_INVAL else done_ok).

Definition opt_upgrade_outgoing_qos := bool_option the_config (gcore cf_upgrade_outgoing_qos).
Definition opt_user := not_on_reload (string_option the_config (fld g_user)).

(** An option of another broker, or of a part that is not compiled: only a warning. *)
Definition opt_unsupported (w : conf_line) : R Z := done_ok.

(** ** Listeners *)

Definition opt_port := not_on_reload (fun w =>
  parse_tmp_int (w_rest w) (fun port =>
    if (port <? 1) || (65535 <? port) then mret MOSQ_ERR_INVAL else
    write_field the_config (fld g_default_listener ▹ lcore l_port) port;;
    done_ok)).

Definition opt_listener := not_on_reload (fun w =>
  match strtok [SPACE] (w_rest w) with
  | None => mret MOSQ_ERR_INVAL
  | Some (token, rest) =>
    r ← get;
    let n := length (g_listeners (rd_config r)) in
    (* the new entry is not written to yet *)
    set_config (fun g => g <| g_listeners ::= (fun l => l ++ [listener_zero]) |>);;
    let port := atoi token in
    if (port <? 1) || (65535 <? port) then mret MOSQ_ERR_INVAL else
    modify (fun r => r <| rd_listener := Some n |>);;
    update the_listener (fun l =>
      l <| cl_protocol := mp_mqtt |> <| cl_core ::= (fun c => c <| l_port := port |>) |>
        <| cl_host := fst <$> strtok [SPACE] rest |>);;
    done_ok
  end).

(** The certificate of a listener that has a hint for pre-shared keys is refused. *)
Definition without_psk_hint (h : conf_line -> R Z) (w : conf_line) : R Z :=
  hint ← read_field the_listener (fld cl_psk_hint);
  match hint with
  | Some _ => mret MOSQ_ERR_INVAL
  | None => h w
  end.

Definition opt_cafile := not_on_reload (without_psk_hint (string_option the_listener (fld cl_cafile))).
Definition opt_capath := not_on_reload (string_option the_listener (fld cl_capath)).
Definition opt_certfile := not_on_reload (without_psk_hint (string_option the_listener (fld cl_certfile))).
Definition opt_ciphers := not_on_reload (string_option the_listener (fld cl_ciphers)).
Definition opt_crlfile := not_on_reload (string_option the_listener (fld cl_crlfile)).
Definition opt_keyfile := not_on_reload (string_option the_listener (fld cl_keyfile)).
Definition opt_psk_hint := not_on_reload (string_option the_listener (fld cl_psk_hint)).
Definition opt_require_certificate := not_on_reload (bool_option the_listener (fld cl_require_certificate)).
Definition opt_tls_version := not_on_reload (string_option the_listener (fld cl_tls_version)).
Definition opt_use_identity_as_username :=
  not_on_reload (bool_option the_listener (lcore l_use_identity_as_username)).
Definition opt_use_username_as_clientid :=
  not_on_reload (bool_option the_listener (lcore l_use_username_as_clientid)).

Definition opt_max_connections := not_on_reload (fun w =>
  match strtok [SPACE] (w_rest w) with
  | None => done_ok
  | Some (token, _) =>
    let n := atoi token in
    write_field the_listener (lcore l_max_connections) (if n <? 0 then -1 else n);;
    done_ok
  end).

Definition opt_mount_point := not_on_reload (fun w =>
  g ← gets rd_config;
  if bool_decide (g_listeners g = []) then mret MOSQ_ERR_INVAL else
  or_inval (_conf_parse_string the_listener (lcore l_mount_point) (w_rest w))
    (mount ← read_field the_listener (lcore l_mount_point);
     mount ← unwrap mount;
     if negb (mosquitto_pub_topic_check mount =? MOSQ_ERR_SUCCESS) then mret MOSQ_ERR_INVAL else done_ok)).

(** Not skipped on a reload. *)
Definition opt_protocol (w : conf_line) : R Z :=
  match strtok [SPACE] (w_rest w) with
  | None => done_ok
  | Some (token, _) =>
    if streq token (lit "mqtt") then write_field the_listener (fld cl_protocol) mp_mqtt;; done_ok
    else mret MOSQ_ERR_INVAL
  end.

(** ** Bridges *)

Definition new_bridge (name : str) : conf_bridge :=
  bridge_zero <| cb_core ::= (fun b =>
    b <| b_name := name |> <| b_keepalive := 60 |> <| b_notifications := true |>
      <| b_start_type := bst_automatic |> <| b_idle_timeout := 60 |> <| b_restart_timeout := 30 |>
      <| b_threshold := 10 |> <| b_try_private := true |> <| b_attempt_unsubscribe := true |>
      <| b_protocol_version := mosq_p_mqtt31 |>) |>.

Definition opt_connection := not_on_reload (fun w =>
  match strtok [SPACE] (w_rest w) with
  | None => mret MOSQ_ERR_INVAL
  | Some (token, _) =>
    r ← get;
    let n := length (g_bridges (rd_config r)) in
    set_config (fun g => g <| g_bridges ::= (fun l => l ++ [new_bridge token]) |>);;
    modify (fun r => r <| rd_bridge := Some n |>);;
    done_ok
  end).

(** The words of a line. *)
Fixpoint words (fuel : nat) (rest : str) : list str :=
  match fuel with
  | O => []
  | S fuel => match strtok [SPACE] rest with
              | Some (token, rest) => token :: words fuel rest
              | None => []
              end
  end.

(** The address and the port of each word, in turn; [None]: a port is not valid, the
    addresses behind it are left as they are. *)
Fixpoint split_addresses (tokens : list str) : list bridge_address * Z :=
  match tokens with
  | [] => ([], MOSQ_ERR_SUCCESS)
  | token :: tokens =>
    match strtok [COLON] token with
    | None => let '(l, rc) := split_addresses tokens in (InBuffer token :: l, rc)
    | Some (address, rest) =>
      let port := match strtok [COLON] rest with Some (p, _) => atoi p | None => 1883 end in
      if (port <? 1) || (65535 <? port)
      then (map InBuffer (token :: tokens), MOSQ_ERR_INVAL)
      else let '(l, rc) := split_addresses tokens in (Address address port :: l, rc)
    end
  end.

Definition opt_address := for_bridge (fun w =>
  old ← read_field the_bridge (fld cb_addresses);
  match old with
  | _ :: _ => mret MOSQ_ERR_INVAL
  | [] =>
    let tokens := words (length (w_rest w)) (w_rest w) in
    let '(addresses, rc) := split_addresses tokens in
    write_field the_bridge (fld cb_addresses) addresses;;
    write_field the_bridge (bcore b_address_count) (Z.of_nat (length addresses));;
    if negb (rc =? MOSQ_ERR_SUCCESS) then mret rc
    else if bool_decide (addresses = []) then mret MOSQ_ERR_INVAL else done_ok
  end).

(** One word that may be given once. *)
Definition word_option (l : lens conf_bridge (option str)) (w : conf_line) : R Z :=
  match strtok [SPACE] (w_rest w) with
  | None => mret MOSQ_ERR_INVAL
  | Some (token, _) =>
    old ← read_field the_bridge l;
    match old with
    | Some _ => mret MOSQ_ERR_INVAL
    | None => write_field the_bridge l (Some token);; done_ok
    end
  end.

(** The same, but nothing takes the value back. *)
Definition local_option (l : lens conf_bridge (option str)) (w : conf_line) : R Z :=
  match strtok [SPACE] (w_rest w) with
  | None => write_field the_bridge l None;; done_ok
  | Some _ => word_option l w
  end.

(** Certificates and pre-shared keys exclude each other. *)
Definition no_psk (h : conf_line -> R Z) (w : conf_line) : R Z :=
  b ← load the_bridge;
  if bool_decide (cb_tls_psk_identity b <> None) || bool_decide (cb_tls_psk b <> None)
  then mret MOSQ_ERR_INVAL else h w.

Definition no_certificate (h : conf_line -> R Z) (w : conf_line) : R Z :=
  b ← load the_bridge;
  if bool_decide (cb_tls_cafile b <> None) || bool_decide (cb_tls_capath b <> None)
     || bool_decide (cb_tls_certfile b <> None) || bool_decide (cb_tls_keyfile b <> None)
  then mret MOSQ_ERR_INVAL else h w.

Definition opt_bridge_cafile := for_bridge (no_psk (word_option (fld cb_tls_cafile))).
Definition opt_bridge_capath := for_bridge (no_psk (word_option (fld cb_tls_capath))).
Definition opt_bridge_certfile := for_bridge (no_psk (word_option (fld cb_tls_certfile))).
Definition opt_bridge_keyfile := for_bridge (no_psk (word_option (fld cb_tls_keyfile))).
Definition opt_bridge_identity := for_bridge (no_certificate (word_option (fld cb_tls_psk_identity))).
Definition opt_bridge_psk := for_bridge (no_certificate (word_option (fld cb_tls_psk))).
Definition opt_bridge_tls_version := for_bridge (word_option (fld cb_tls_version)).
Definition opt_bridge_insecure := for_bridge (bool_option the_bridge (fld cb_tls_insecure)).
Definition opt_bridge_attempt_unsubscribe := for_bridge (bool_option the_bridge (bcore b_attempt_unsubscribe)).
Definition opt_cleansession := for_bridge (bool_option the_bridge (bcore b_clean_session)).
Definition opt_notifications := for_bridge (bool_option the_bridge (bcore b_notifications)).
Definition opt_round_robin := for_bridge (bool_option the_bridge (bcore b_round_robin)).
Definition opt_try_private := for_bridge (bool_option the_bridge (bcore b_try_private)).
Definition opt_notification_topic := for_bridge (string_option the_bridge (bcore b_notification_topic)).
Definition opt_clientid := for_bridge (word_option (bcore b_remote_clientid)).
Definition opt_password := for_bridge (word_option (bcore b_remote_password)).
Definition opt_username := for_bridge (word_option (bcore b_remote_username)).
Definition opt_local_clientid := for_bridge (local_option (bcore b_local_clientid)).
Definition opt_local_password := for_bridge (local_option (bcore b_local_password)).
Definition opt_local_username := for_bridge (local_option (bcore b_local_username)).

Definition opt_bridge_protocol_version := for_bridge (fun w =>
  match strtok [SPACE] (w_rest w) with
  | None => mret MOSQ_ERR_INVAL
  | Some (token, _) =>
    if streq token (lit "mqttv31") then write_field the_bridge (bcore b_protocol_version) mosq_p_mqtt31;; done_ok
    else if streq token (lit "mqttv311") then write_field the_bridge (bcore b_protocol_version) mosq_p_mqtt311;; done_ok
    else mret MOSQ_ERR_INVAL
  end).

(** An integer that is raised to the least value allowed. *)
Definition at_least (least : Z) (l : lens conf_bridge Z) (w : conf_line) : R Z :=
  or_inval (_conf_parse_int the_bridge l (w_rest w))
    (n ← read_field the_bridge l;
     whenM (n <? least) (write_field the_bridge l least);;
     done_ok).

Definition opt_idle_timeout := for_bridge (at_least 1 (bcore b_idle_timeout)).
Definition opt_keepalive_interval := for_bridge (at_least 5 (bcore b_keepalive)).
Definition opt_restart_timeout := for_bridge (at_least 1 (bcore b_restart_timeout)).
Definition opt_threshold := for_bridge (at_least 1 (bcore b_threshold)).

Definition opt_start_type := for_bridge (fun w =>
  match strtok [SPACE] (w_rest w) with
  | None => mret MOSQ_ERR_INVAL
  | Some (token, _) =>
    if streq token (lit "automatic") then write_field the_bridge (bcore b_start_type) bst_automatic;; done_ok
    else if streq token (lit "lazy") then write_field the_bridge (bcore b_start_type) bst_lazy;; done_ok
    else if streq token (lit "manual") then mret MOSQ_ERR_INVAL
    else if streq token (lit "once") then write_field the_bridge (bcore b_start_type) bst_once;; done_ok
    else mret MOSQ_ERR_INVAL
  end).

(** *** topic *)

(** [cur_topic], the last topic of the bridge. *)
Definition last_topic : R _mqtt3_bridge_topic :=
  b ← load the_bridge;
  unwrap (last (b_topics (cb_core b))).

Definition upd_last {A} (f : A -> A) (l : list A) : list A := alter f (pred (length l)) l.

Definition upd_topic (f : _mqtt3_bridge_topic -> _mqtt3_bridge_topic) : R unit :=
  update the_bridge (fun b => b <| cb_core ::= (fun c => c <| b_topics ::= upd_last f |>) |>).

Definition parse_direction (token : str) : option mqtt3_bridge_direction :=
  if strcaseeq token (lit "out") then Some bd_out
  else if strcaseeq token (lit "in") then Some bd_in
  else if strcaseeq token (lit "both") then Some bd_both
  else None.

(** A prefix, [Some None] for the empty one; [None] if it is not valid. *)
Definition parse_prefix (token : str) : option (option str) :=
  if streq token EMPTY_WORD then Some None
  else if negb (mosquitto_pub_topic_check token =? MOSQ_ERR_SUCCESS) then None
  else Some (Some token).

(** What follows the name of the topic: a direction, QoS and two prefixes, each optional. *)
Definition topic_prefixes (rest : str) : R Z :=
  match strtok [SPACE] rest with
  | None => done_ok
  | Some (token, rest) =>
    write_field the_bridge (bcore b_topic_remapping) true;;
    match parse_prefix token with
    | None => mret MOSQ_ERR_INVAL
    | Some local =>
      upd_topic (fun t => t <| bt_local_prefix := local |>);;
      match strtok [SPACE] rest with
      | None => done_ok
      | Some (token, _) =>
        match parse_prefix token with
        | None => mret MOSQ_ERR_INVAL
        | Some remote => upd_topic (fun t => t <| bt_remote_prefix := remote |>);; done_ok
        end
      end
    end
  end.

Definition topic_words (rest : str) : R Z :=
  match strtok [SPACE] rest with
  | None => done_ok
  | Some (token, rest) =>
    match parse_direction token with
    | None => mret MOSQ_ERR_INVAL
    | Some direction =>
      upd_topic (fun t => t <| bt_direction := direction |>);;
      match strtok [SPACE] rest with
      | None => done_ok
      | Some (token, rest) =>
        let qos := atoi token in
        upd_topic (fun t => t <| bt_qos := qos |>);;
        if (qos <? 0) || (2 <? qos) then mret MOSQ_ERR_INVAL else topic_prefixes rest
      end
    end
  end.

(** A prefix and the topic, which are not both missing. *)
Definition join_topic (prefix topic : option str) : str := default [] prefix ++ default [] topic.

Definition topic_join : R Z :=
  t ← last_topic;
  if bool_decide (bt_topic t = None)
     && (bool_decide (bt_local_prefix t = None) || bool_decide (bt_remote_prefix t = None))
  then mret MOSQ_ERR_INVAL
  else
    upd_topic (fun t => t <| bt_local_topic := join_topic (bt_local_prefix t) (bt_topic t) |>
                          <| bt_remote_topic := join_topic (bt_remote_prefix t) (bt_topic t) |>);;
    done_ok.

(** Until [topic_join] the two topics of the new entry are not initialised, nor are they read. *)
Definition opt_topic := for_bridge (fun w =>
  match strtok [SPACE] (w_rest w) with
  | None => mret MOSQ_ERR_INVAL
  | Some (token, rest) =>
    let topic := if streq token EMPTY_WORD then None else Some token in
    update the_bridge (fun b => b <| cb_core ::= (fun c =>
      c <| b_topics ::= (fun l => l ++ [BridgeTopic topic 0 bd_out None None [] []]) |>) |>);;
    rc ← topic_words rest;
    if negb (rc =? MOSQ_ERR_SUCCESS) then mret rc else topic_join
  end).

(** ** All options

    In the order of the tests; the first that matches the word is taken. *)
Record conf_option := Opt { o_is : str -> bool; o_run : conf_line -> R Z }.

Definition opt (name : string) (run : conf_line -> R Z) : conf_option := Opt (fun token => streq token (lit name)) run.
Arguments opt name%_string run.

Definition opt2 (name name' : string) (run : conf_line -> R Z) : conf_option :=
  Opt (fun token => streq token (lit name) || streq token (lit name')) run.
Arguments opt2 (name name')%_string run.

Definition options : list conf_option := [
  opt "acl_file" opt_acl_file;
  opt2 "address" "addresses" opt_address;
  opt "allow_anonymous" opt_allow_anonymous;
  opt "allow_duplicate_messages" opt_allow_duplicate_messages;
  opt "allow_zero_length_clientid" opt_allow_zero_length_clientid;
  Opt (fun token => strneq token (lit "auth_opt_") 9) opt_auth_opt;
  opt "auth_plugin" opt_auth_plugin;
  opt "auto_id_prefix" opt_auto_id_prefix;
  opt "autosave_interval" opt_autosave_interval;
  opt "autosave_on_changes" opt_autosave_on_changes;
  opt "bind_address" opt_bind_address;
  opt "bridge_attempt_unsubscribe" opt_bridge_attempt_unsubscribe;
  opt "bridge_cafile" opt_bridge_cafile;
  opt "bridge_capath" opt_bridge_capath;
  opt "bridge_certfile" opt_bridge_certfile;
  opt "bridge_identity" opt_bridge_identity;
  opt "bridge_insecure" opt_bridge_insecure;
  opt "bridge_keyfile" opt_bridge_keyfile;
  opt "bridge_protocol_version" opt_bridge_protocol_version;
  opt "bridge_psk" opt_bridge_psk;
  opt "bridge_tls_version" opt_bridge_tls_version;
  opt "cafile" opt_cafile;
  opt "capath" opt_capath;
  opt "certfile" opt_certfile;
  opt "ciphers" opt_ciphers;
  opt2 "clientid" "remote_clientid" opt_clientid;
  opt "cleansession" opt_cleansession;
  opt "clientid_prefixes" opt_clientid_prefixes;
  opt "connection" opt_connection;
  opt "connection_messages" opt_connection_messages;
  opt "crlfile" opt_crlfile;
  opt "http_dir" opt_unsupported;
  opt "idle_timeout" opt_idle_timeout;
  opt "include_dir" opt_include_dir;
  opt "keepalive_interval" opt_keepalive_interval;
  opt "keyfile" opt_keyfile;
  opt "listener" opt_listener;
  opt "local_clientid" opt_local_clientid;
  opt "local_password" opt_local_password;
  opt "local_username" opt_local_username;
  opt "log_dest" opt_log_dest;
  opt "log_facility" opt_log_facility;
  opt "log_timestamp" opt_log_timestamp;
  opt "log_type" opt_log_type;
  opt "max_connections" opt_max_connections;
  opt "max_inflight_messages" opt_max_inflight_messages;
  opt "max_queued_messages" opt_max_queued_messages;
  opt "message_size_limit" opt_message_size_limit;
  opt "mount_point" opt_mount_point;
  opt "notifications" opt_notifications;
  opt "notification_topic" opt_notification_topic;
  opt2 "password" "remote_password" opt_password;
  opt "password_file" opt_password_file;
  opt2 "persistence" "retained_persistence" opt_persistence;
  opt "persistence_file" opt_persistence_file;
  opt "persistence_location" opt_persistence_location;
  opt "persistent_client_expiration" opt_persistent_client_expiration;
  opt "pid_file" opt_pid_file;
  opt "port" opt_port;
  opt "protocol" opt_protocol;
  opt "psk_file" opt_psk_file;
  opt "psk_hint" opt_psk_hint;
  opt "queue_qos0_messages" opt_queue_qos0_messages;
  opt "require_certificate" opt_require_certificate;
  opt "restart_timeout" opt_restart_timeout;
  opt "retry_interval" opt_retry_interval;
  opt "round_robin" opt_round_robin;
  opt "start_type" opt_start_type;
  opt "store_clean_interval" opt_store_clean_interval;
  opt "sys_interval" opt_sys_interval;
  opt "threshold" opt_threshold;
  opt "tls_version" opt_tls_version;
  opt "topic" opt_topic;
  opt "try_private" opt_try_private;
  opt "upgrade_outgoing_qos" opt_upgrade_outgoing_qos;
  opt "use_identity_as_username" opt_use_identity_as_username;
  opt "user" opt_user;
  opt "use_username_as_clientid" opt_use_username_as_clientid;
  opt2 "username" "remote_username" opt_username;
  opt "websockets_log_level" opt_unsupported;
  opt2 "trace_level" "ffdc_output" opt_unsupported;
  opt2 "max_log_entries" "trace_output" opt_unsupported].

Definition run_option (w : conf_line) : R Z :=
  match List.find (fun o => o_is o (w_token w)) options with
  | Some o => o_run o w
  | None => mret MOSQ_ERR_INVAL
  end.
End options.

Arguments run_option {_} reload include w.

(** * Files *)

Definition CONF_LINE : nat := 1023.

(** The line without its end, in words; [None]: there are none. The test of its last
    character reads [buf[-1]] when the line begins with a NUL. *)
Definition split_line (behind : str) (buf : str) : option (option conf_line) :=
  if bool_decide (cget buf 0 = HASH) || is_eol (cget buf 0) then Some None else
  match strip_eol_unguarded buf with
  | None => None
  | Some line =>
    Some (match strtok [SPACE] line with
          | None => None
          | Some (token, rest) =>
            Some (ConfLine token rest (bool_decide (last line = Some SPACE))
              (if (length line <? length buf)%nat then Some []
               else if (length buf =? CONF_LINE)%nat then None else Some behind))
          end)
  end.

Section reading.
Context `{Files}.
Variable reload : bool.

(** The lines from number [lineno] on. *)
Fixpoint read_lines (include : option (str -> R Z)) (file : str) (lineno : nat) (lines : list str) : R Z :=
  match lines with
  | [] => mret MOSQ_ERR_SUCCESS
  | buf :: lines =>
    w ← unwrap (split_line (leftover file lineno) buf);
    rc ← (match w with Some w => run_option reload include w | None => mret MOSQ_ERR_SUCCESS end);
    if negb (rc =? MOSQ_ERR_SUCCESS) then mret rc else read_lines include file (S lineno) lines
  end.

(** Each file starts at the default listener and outside any bridge; the pointers of the
    file that includes it are its own. *)
Definition _config_read_file_core (include : option (str -> R Z)) (file : str) (contents : list byte) : R Z :=
  r0 ← get;
  modify (fun r => r <| rd_listener := None |> <| rd_bridge := None |>);;
  rc ← read_lines include file 1 (file_lines CONF_LINE contents);
  modify (fun r => r <| rd_listener := rd_listener r0 |> <| rd_bridge := rd_bridge r0 |>);;
  mret rc.

Definition read_file_with (include : option (str -> R Z)) (file : str) : R Z :=
  match file_contents file with
  | None => mret 1
  | Some contents => _config_read_file_core include file contents
  end.

(** [level] is 0 for the main file; files that are included include none. *)
Definition _config_read_file (level : nat) : str -> R Z :=
  match level with
  | O => read_file_with (Some (read_file_with None))
  | S _ => read_file_with None
  end.
End reading.

(** * Defaults *)

Definition _config_init_reload (g : config) : config :=
  g <| g_acl_file := None |>
    <| g_core ::= (fun c =>
         Config true false true None None true (cf_message_size_limit c) false false 20 false 0) |>
    <| g_auto_id_prefix_len := 0 |> <| g_autosave_interval := 1800 |> <| g_autosave_on_changes := false |>
    <| g_log_fptr := false |> <| g_log_file := None |> <| g_log_facility := LOG_DAEMON |>
    <| g_log_dest := MQTT3_LOG_STDERR |>
    <| g_log_type := if g_verbose g then INT_MAX
                     else Z.lor MOSQ_LOG_ERR (Z.lor MOSQ_LOG_WARNING (Z.lor MOSQ_LOG_NOTICE MOSQ_LOG_INFO)) |>
    <| g_log_timestamp := true |> <| g_password_file := None |> <| g_persistence_location := None |>
    <| g_persistence_file := None |> <| g_psk_file := None |> <| g_sys_interval := 10 |>
    <| g_auth_options := [] |>.

Definition mqtt3_config_init : config :=
  (_config_init_reload config_zero)
    <| g_default_listener ::= (fun l => l <| cl_core ::= (fun c => c <| l_max_connections := -1 |>) |>) |>.

(** * The configuration *)

Abbreviation C := (ST config).

Definition recurse_defaults : config_recurse := Recurse MQTT3_LOG_NONE false MOSQ_LOG_NONE false 20 100.

(** A bridge that can be used; its name is never NULL. *)
Definition bridge_complete (b : conf_bridge) : bool :=
  bool_decide (cb_addresses b <> []) && bool_decide (b_topics (cb_core b) <> [])
  && Bool.eqb (bool_decide (cb_tls_psk b = None)) (bool_decide (cb_tls_psk_identity b = None)).

Definition join_path (location : option str) (file : str) : str :=
  match location with Some location => location ++ file | None => file end.

Definition set_persistence (g : config) : config :=
  if cf_persistence (g_core g) then
    let file := default (lit "mosquitto.db") (g_persistence_file g) in
    g <| g_persistence_file := Some file |>
      <| g_persistence_filepath := Some (join_path (g_persistence_location g) file) |>
  else g.

Definition default_user (g : config) : config :=
  match g_user g with Some _ => g | None => g <| g_user := Some (lit "mosquitto") |> end.

Definition set_logging (cr : config_recurse) (g : config) : config :=
  let g := if cr_log_dest_set cr then g <| g_log_dest := cr_log_dest cr |> else g in
  if g_verbose g then g <| g_log_type := INT_MAX |>
  else if cr_log_type_set cr then g <| g_log_type := cr_log_type cr |> else g.

Section config.
Context `{Files}.

(** Run the reader of files on the configuration. *)
Definition with_reader (m : R Z) : C (Z * config_recurse) := fun g =>
  match m (Reader g recurse_defaults None None) with
  | Some (rc, r) => Some ((rc, rd_cr r), rd_config r)
  | None => None
  end.

(** What follows the reading of the file. *)
Definition finish_read (cr : config_recurse) : C Z :=
  modify (fun g => default_user (set_persistence g));;
  modify (fun g => g <| g_max_inflight := cr_max_inflight_messages cr |>
                     <| g_max_queued := cr_max_queued_messages cr |>);;
  g ← get;
  if negb (forallb bridge_complete (g_bridges g)) then mret MOSQ_ERR_INVAL else
  modify (set_logging cr);;
  mret MOSQ_ERR_SUCCESS.

Definition mqtt3_config_read (reload : bool) : C Z :=
  g ← get;
  match g_config_file g with
  | None => mret 0
  | Some file =>
    modify (fun g => if reload then _config_init_reload g else g);;
    '(rc, cr) ← with_reader (_config_read_file reload 0 file);
    if negb (rc =? 0) then mret rc else finish_read cr
  end.

Fixpoint config_args (argv : list str) : C Z :=
  match argv with
  | [] => mret MOSQ_ERR_SUCCESS
  | arg :: argv =>
    if streq arg (lit "-c") || streq arg (lit "--config-file") then
      match argv with
      | file :: argv =>
        modify (fun g => g <| g_config_file := Some file |>);;
        rc ← mqtt3_config_read false;
        if negb (rc =? 0) then mret MOSQ_ERR_INVAL else config_args argv
      | [] => mret MOSQ_ERR_INVAL
      end
    else if streq arg (lit "-d") || streq arg (lit "--daemon") then
      modify (fun g => g <| g_daemon := true |>);; config_args argv
    else if streq arg (lit "-h") || streq arg (lit "--help") then mret MOSQ_ERR_INVAL
    else if streq arg (lit "-p") || streq arg (lit "--port") then
      match argv with
      | port :: argv =>
        let port := atoi port in
        if (port <? 1) || (65535 <? port) then mret MOSQ_ERR_INVAL else
        modify (fun g => g <| g_default_listener ::= lset (lcore l_port) port |>);;
        config_args argv
      | [] => mret MOSQ_ERR_INVAL
      end
    else if streq arg (lit "-v") || streq arg (lit "--verbose") then
      modify (fun g => g <| g_verbose := true |>);; config_args argv
    else mret MOSQ_ERR_INVAL
  end.

(** The default listener was asked for, or there is no other. *)
Definition default_listener_used (g : config) : bool :=
  let l := g_default_listener g in let c := cl_core l in
  bool_decide (g_listeners g = [])
  || bool_decide (cl_cafile l <> None) || bool_decide (cl_capath l <> None)
  || bool_decide (cl_certfile l <> None) || bool_decide (cl_keyfile l <> None)
  || bool_decide (cl_ciphers l <> None) || bool_decide (cl_psk_hint l <> None)
  || cl_require_certificate l || bool_decide (cl_crlfile l <> None) || l_use_identity_as_username c
  || l_use_username_as_clientid c || bool_decide (cl_host l <> None) || negb (l_port c =? 0)
  || negb (l_max_connections c =? -1) || bool_decide (l_mount_point c <> None)
  || bool_decide (cl_protocol l <> mp_mqtt).

(** The copy of it that joins the listeners. *)
Definition default_listener_copy (l : conf_listener) : conf_listener :=
  l <| cl_core ::= (fun c =>
    c <| l_port := if l_port c =? 0 then 1883 else l_port c |>
      <| l_client_count := 0 |> <| l_socks := [] |> <| l_ssl_ctx := false |>) |>.

(** The arguments without the name of the program. *)
Definition mqtt3_config_parse_args (argv : list str) : C Z :=
  rc ← config_args argv;
  if negb (rc =? 0) then mret rc else
  modify (fun g =>
    if default_listener_used g
    then g <| g_listeners ::= (fun l => l ++ [default_listener_copy (g_default_listener g)]) |> else g);;
  modify default_user;;
  modify (fun g => if g_verbose g then g <| g_log_type := INT_MAX |> else g);;
  mret MOSQ_ERR_SUCCESS.

(** Freeing an address that points into the buffer of a line faults. What else is freed
    is not reset. *)
Definition mqtt3_config_cleanup : C unit :=
  g ← get;
  for_each (fun b => for_each (fun a =>
    match a with Address _ _ => mret tt | InBuffer _ => fault end) (cb_addresses b)) (g_bridges g);;
  modify (fun g => g <| g_auth_options := [] |> <| g_log_fptr := false |> <| g_log_file := None |>).
End config.

(** A system of some files and directories, on which every name resolves. *)
Definition lookup_str {A} (name : str) (l : list (str * A)) : option A :=
  snd <$> List.find (fun p => streq p.1 name) l.

Definition files_of (files : list (str * str)) (dirs : list (str * list str)) (behind : str) : Files := {|
  file_contents file := lookup_str file files;
  opendir dir := lookup_str dir dirs;
  resolves _ := true;
  leftover _ _ := behind |}.

(** The lines of a file. *)
Definition text (lines : list string) : str := concat (map (fun l => lit l ++ [LF]) lines).
