(* ===== verification/ConfRules.v ===== *)
(** What the reader of the configuration guarantees: the values that an accepted
    configuration has ([conf_ok]), that reading does not fault but where it is named, and
    what a reload leaves alone. *)

From S2P Require Export Conf.

#[local] Open Scope Z_scope.

(** * Rules *)

(** ** Pointers *)

Section targets.
Context {X : Type} (t : target X).

Lemma wlp_load Q r : wlp (load t) Q r <-> forall x, t_get t r = Some x -> Q x r.
Proof. unfold load. by rewrite wlp_bind, wlp_get, wlp_unwrap. Qed.

Lemma wlp_update f Q r : wlp (update t f) Q r <-> forall x, t_get t r = Some x -> Q tt (t_set t (f x) r).
Proof. unfold update. rewrite wlp_bind, wlp_load. by setoid_rewrite wlp_modify. Qed.

Lemma wlp_read_field {A} (l : lens X A) Q r :
  wlp (read_field t l) Q r <-> forall x, t_get t r = Some x -> Q (lget l x) r.
Proof. unfold read_field. rewrite wlp_bind, wlp_load. by setoid_rewrite wlp_ret. Qed.

Lemma wlp_write_field {A} (l : lens X A) a Q r :
  wlp (write_field t l a) Q r <-> forall x, t_get t r = Some x -> Q tt (t_set t (lset l a x) r).
Proof. apply wlp_update. Qed.

Lemma wp_load Q r : wp (load t) Q r <-> exists x, t_get t r = Some x /\ Q x r.
Proof. unfold load. by wp_step. Qed.

Lemma wp_update f Q r : wp (update t f) Q r <-> exists x, t_get t r = Some x /\ Q tt (t_set t (f x) r).
Proof. unfold update. rewrite wp_bind, wp_load. by setoid_rewrite wp_modify. Qed.

Lemma wp_read_field {A} (l : lens X A) Q r :
  wp (read_field t l) Q r <-> exists x, t_get t r = Some x /\ Q (lget l x) r.
Proof. unfold read_field. rewrite wp_bind, wp_load. by setoid_rewrite wp_ret. Qed.

Lemma wp_write_field {A} (l : lens X A) a Q r :
  wp (write_field t l a) Q r <-> exists x, t_get t r = Some x /\ Q tt (t_set t (lset l a x) r).
Proof. apply wp_update. Qed.
End targets.

Lemma wlp_set_config f Q r : wlp (set_config f) Q r <-> Q tt (r <| rd_config ::= f |>).
Proof.
  unfold set_config. rewrite wlp_update. cbn. split; [intros H; by apply H|]. by intros ? x [= <-].
Qed.

Lemma wlp_set_cr f Q r : wlp (set_cr f) Q r <-> Q tt (r <| rd_cr ::= f |>).
Proof. apply wlp_modify. Qed.

Lemma wp_set_config f Q r : wp (set_config f) Q r <-> Q tt (r <| rd_config ::= f |>).
Proof.
  unfold set_config. rewrite wp_update. cbn. split; [by intros (? & [= <-] & ?)|]. intros H. by eexists.
Qed.

Lemma wlp_with_reader m Q g :
  wlp m (fun rc r => Q (rc, rd_cr r) (rd_config r)) (Reader g recurse_defaults None None) -> wlp (with_reader m) Q g.
Proof. unfold wlp, with_reader. by destruct (m _) as [[rc r]|]. Qed.

#[global] Hint Rewrite @wlp_load
  @wlp_update @wlp_read_field @wlp_write_field wlp_set_config wlp_set_cr : wlp.
#[global] Hint Rewrite @wp_load @wp_update @wp_read_field @wp_write_field wp_set_config : wp.
#[local] Opaque wlp.

#[local] Arguments Nat.eqb : simpl never.

(** A store through a pointer is what is read through it next. *)
Class Lawful {X} (t : target X) : Prop := {
  get_set x y r : t_get t r = Some x -> t_get t (t_set t y r) = Some y;
  set_set x y z r : t_get t r = Some x -> t_set t z (t_set t y r) = t_set t z r }.

#[global] Instance config_lawful : Lawful the_config.
Proof. split; done. Qed.

Lemma lookup_last_insert {A} (l : list A) i x y : l !! i = Some x -> <[i := y]> l !! i = Some y.
Proof. intros H. apply list_lookup_insert_eq. eauto using lookup_lt_Some. Qed.

#[global] Instance listener_lawful : Lawful the_listener.
Proof.
  split; intros x y; [|intros z]; intros r; cbn; destruct (rd_listener r) as [i|] eqn:E; upd_simpl; rewrite ?E; try done.
  - rewrite length_insert. case_match; [|done]. apply lookup_last_insert.
  - intros _. by rewrite list_insert_insert_eq.
Qed.

#[global] Instance bridge_lawful : Lawful the_bridge.
Proof.
  split; intros x y; [|intros z]; intros r; cbn; destruct (rd_bridge r) as [i|] eqn:E; upd_simpl; rewrite ?E; try done.
  - rewrite length_insert. case_match; [|done]. apply lookup_last_insert.
  - intros _. by rewrite list_insert_insert_eq.
Qed.

(** * Accepted values *)

Record listener_ok (l : conf_listener) : Prop := {
  lo_port : 0 <= l_port (cl_core l) <= 65535;
  lo_max_connections : -1 <= l_max_connections (cl_core l);
  lo_mount_point m : l_mount_point (cl_core l) = Some m -> mosquitto_pub_topic_check m = MOSQ_ERR_SUCCESS;
  lo_protocol : cl_protocol l = mp_mqtt }.

(** The two topics of an entry are its topic behind its two prefixes. *)
Record topic_entry_ok (t : _mqtt3_bridge_topic) : Prop := {
  te_qos : 0 <= bt_qos t <= 2;
  te_topic : bt_topic t <> None \/ (bt_local_prefix t <> None /\ bt_remote_prefix t <> None);
  te_prefix p : bt_local_prefix t = Some p \/ bt_remote_prefix t = Some p ->
    mosquitto_pub_topic_check p = MOSQ_ERR_SUCCESS;
  te_local : bt_local_topic t = default [] (bt_local_prefix t) ++ default [] (bt_topic t);
  te_remote : bt_remote_topic t = default [] (bt_remote_prefix t) ++ default [] (bt_topic t) }.

(** Only a word of colons is left without a port. *)
Definition address_ok (a : bridge_address) : Prop :=
  match a with
  | Address address port => address <> [] /\ 1 <= port <= 65535
  | InBuffer token => strtok [COLON] token = None
  end.

Definition has_psk (b : conf_bridge) : Prop := cb_tls_psk b <> None \/ cb_tls_psk_identity b <> None.
Definition has_certificate (b : conf_bridge) : Prop :=
  cb_tls_cafile b <> None \/ cb_tls_capath b <> None \/ cb_tls_certfile b <> None \/ cb_tls_keyfile b <> None.

Record bridge_ok (b : conf_bridge) : Prop := {
  bo_name : b_name (cb_core b) <> [];
  bo_keepalive : 5 <= b_keepalive (cb_core b);
  bo_idle_timeout : 1 <= b_idle_timeout (cb_core b);
  bo_restart_timeout : 1 <= b_restart_timeout (cb_core b);
  bo_threshold : 1 <= b_threshold (cb_core b);
  bo_count : b_address_count (cb_core b) = Z.of_nat (length (cb_addresses b));
  bo_addresses : Forall address_ok (cb_addresses b);
  bo_topics : Forall topic_entry_ok (b_topics (cb_core b));
  bo_start_type : b_start_type (cb_core b) <> bst_manual;
  bo_protocol : b_protocol_version (cb_core b) = mosq_p_mqtt31 \/ b_protocol_version (cb_core b) = mosq_p_mqtt311;
  bo_tls : ~ (has_certificate b /\ has_psk b) }.

Record config_ok (g : config) : Prop := {
  co_message_size : 0 <= cf_message_size_limit (g_core g) <= MQTT_MAX_PAYLOAD;
  co_retry : 1 <= cf_retry_interval (g_core g) <= 3600;
  co_expiration : 0 <= cf_persistent_client_expiration (g_core g);
  co_sys : 0 <= g_sys_interval g <= 65535;
  co_autosave : 0 <= g_autosave_interval g;
  co_auto_id : g_auto_id_prefix_len g = match cf_auto_id_prefix (g_core g) with Some p => strlen p | None => 0 end;
  co_auth_options : Forall (fun o => o.1 <> [] /\ o.2 <> []) (g_auth_options g);
  co_default_listener : listener_ok (g_default_listener g);
  co_listeners : Forall (fun l => listener_ok l /\ 1 <= l_port (cl_core l)) (g_listeners g);
  co_bridges : Forall bridge_ok (g_bridges g) }.

Record reader_ok (r : reader) : Prop := {
  ro_config : config_ok (rd_config r);
  ro_inflight : 0 <= cr_max_inflight_messages (rd_cr r);
  ro_queued : 0 <= cr_max_queued_messages (rd_cr r) }.

(** ** Stores that keep the values valid *)

Definition preserves {X} (t : target X) (f : X -> X) : Prop :=
  forall r x, reader_ok r -> t_get t r = Some x -> reader_ok (t_set t (f x) r).

Create HintDb conf.

Lemma reader_ok_config r g : reader_ok r -> config_ok g -> reader_ok (r <| rd_config := g |>).
Proof. intros [] Hg. by split. Qed.

Lemma preserves_config f : (forall g, config_ok g -> config_ok (f g)) -> preserves the_config f.
Proof. intros Hf r x Hr [= <-]. apply reader_ok_config; [done|]. apply Hf, Hr. Qed.

Lemma ok_listener r l : reader_ok r -> t_get the_listener r = Some l -> listener_ok l.
Proof.
  intros [Hg _ _]. cbn. destruct (rd_listener r) as [i|]; [|intros [= <-]; apply Hg].
  case_match; [|done]. intros Hl. pose proof (co_listeners _ Hg) as F. rewrite Forall_lookup in F.
  by destruct (F _ _ Hl).
Qed.

Lemma ok_bridge r b : reader_ok r -> t_get the_bridge r = Some b -> bridge_ok b.
Proof.
  intros [Hg _ _]. cbn. destruct (rd_bridge r) as [i|]; [|done].
  case_match; [|done]. intros Hl. pose proof (co_bridges _ Hg) as F. rewrite Forall_lookup in F. eauto.
Qed.

Lemma ok_set_listener r l l' : reader_ok r -> t_get the_listener r = Some l ->
  listener_ok l' -> l_port (cl_core l') = l_port (cl_core l) -> reader_ok (t_set the_listener l' r).
Proof.
  intros Hr Hl Hl' Hp. pose proof Hr as [Hg _ _]. cbn in *. destruct (rd_listener r) as [i|].
  - case_match; [|done]. apply (reader_ok_config r (_ (rd_config r))); [done|].
    destruct Hg as [? ? ? ? ? ? ? ? F ?]. upd_simpl. split; try done. cbn. apply Forall_insert; [done|].
    rewrite Forall_lookup in F. destruct (F _ _ Hl). rewrite Hp. done.
  - apply (reader_ok_config r (_ (rd_config r))); [done|]. destruct Hg. by split.
Qed.

Lemma preserves_listener f : (forall l, listener_ok l -> listener_ok (f l) /\ l_port (cl_core (f l)) = l_port (cl_core l)) ->
  preserves the_listener f.
Proof.
  intros Hf r l Hr Hl. destruct (Hf l) as [Hok Hp]; [by eapply ok_listener|]. by eapply ok_set_listener.
Qed.

Lemma ok_set_bridge r b b' : reader_ok r -> t_get the_bridge r = Some b -> bridge_ok b' ->
  reader_ok (t_set the_bridge b' r).
Proof.
  intros Hr Hb Hb'. pose proof Hr as [Hg _ _]. cbn in *. destruct (rd_bridge r) as [i|]; [|done].
  apply (reader_ok_config r (_ (rd_config r))); [done|]. destruct Hg. split; try done. cbn. by apply Forall_insert.
Qed.

Lemma preserves_bridge f : (forall b, bridge_ok b -> bridge_ok (f b)) -> preserves the_bridge f.
Proof. intros Hf r b Hr Hb. eapply ok_set_bridge; [done..|]. apply Hf. by eapply ok_bridge. Qed.

(** A store to a field that no condition speaks about. *)
Ltac free_field :=
  first [ apply preserves_config; intros ? []; by split
        | apply preserves_listener; intros ? []; by split; [split|]
        | apply preserves_bridge; intros ? []; by split ].

(** ** Options *)

(** When the option is accepted, the values are valid again. *)
Definition ok_after (m : R Z) : Prop :=
  forall r, reader_ok r -> wlp m (fun rc r' => rc = MOSQ_ERR_SUCCESS -> reader_ok r') r.

Lemma ok_after_or_inval m k r : wlp m (fun rc r' => rc = MOSQ_ERR_SUCCESS -> wlp k (fun rc r' => rc = MOSQ_ERR_SUCCESS -> reader_ok r') r') r ->
  wlp (or_inval m k) (fun rc r' => rc = MOSQ_ERR_SUCCESS -> reader_ok r') r.
Proof.
  intros H. unfold or_inval. rewrite wlp_bind. eapply wlp_mono; [exact H|]. intros rc r' Hk. cbv beta.
  destruct (Z.eqb_spec rc MOSQ_ERR_SUCCESS) as [->|?]; cbn [negb]; [by apply Hk|]. by rewrite wlp_ret.
Qed.

Lemma ok_done : ok_after done_ok.
Proof. intros r Hr. unfold done_ok. by rewrite wlp_ret. Qed.

Lemma ok_not_on_reload reload h w : ok_after (h w) -> ok_after (not_on_reload reload h w).
Proof. intros H. unfold not_on_reload. destruct reload; [apply ok_done|done]. Qed.

Lemma ok_for_bridge reload h w : ok_after (h w) -> ok_after (for_bridge reload h w).
Proof.
  intros H. apply ok_not_on_reload. intros r Hr. rewrite wlp_bind, wlp_gets.
  destruct (rd_bridge r); [by apply H|]. by rewrite wlp_ret.
Qed.

Lemma ok_bool {X} (t : target X) l w : (forall b, preserves t (lset l b)) -> ok_after (bool_option t l w).
Proof.
  intros Hp r Hr. apply ok_after_or_inval. unfold _conf_parse_bool.
  destruct (strtok _ _) as [[token rest]|]; [|by rewrite wlp_ret].
  rewrite wlp_bind. destruct (_ || _); [|destruct (_ || _)].
  - rewrite wlp_write_field. intros x Hx. rewrite wlp_ret. intros _. apply ok_done. by apply Hp.
  - rewrite wlp_write_field. intros x Hx. rewrite wlp_ret. intros _. apply ok_done. by apply Hp.
  - rewrite !wlp_ret. intros _. by apply ok_done.
Qed.

Lemma wlp_parse_string {X} (t : target X) l rest Q r :
  (forall rc, rc <> MOSQ_ERR_SUCCESS -> Q rc r) ->
  (forall s x, t_get t r = Some x -> lget l x = None -> Q MOSQ_ERR_SUCCESS (t_set t (lset l (Some s) x) r)) ->
  wlp (_conf_parse_string t l rest) Q r.
Proof.
  intros He Hs. unfold _conf_parse_string. destruct (strtok _ _) as [[token ?]|]; [|rewrite wlp_ret; by apply He].
  rewrite wlp_bind, wlp_read_field. intros x Hx. destruct (lget l x) eqn:E; [rewrite wlp_ret; by apply He|].
  rewrite wlp_bind, wlp_write_field. intros x' Hx'. rewrite wlp_ret. simplify_eq. eauto.
Qed.

Lemma ok_string {X} (t : target X) l w : (forall s, preserves t (lset l (Some s))) -> ok_after (string_option t l w).
Proof.
  intros Hp r Hr. apply ok_after_or_inval. apply wlp_parse_string; [done|].
  intros s x Hx _ _. apply ok_done. by apply Hp.
Qed.

Lemma ok_file reload l w : (forall s, preserves the_config (lset l s)) -> ok_after (file_option reload l w).
Proof.
  intros Hp r Hr. unfold file_option. rewrite wlp_bind, wlp_whenM.
  assert (forall r, reader_ok r -> wlp (string_option the_config l w) (fun rc r' => rc = MOSQ_ERR_SUCCESS -> reader_ok r') r) as Hs
    by (intros; by apply ok_string).
  destruct reload; [|by apply Hs]. rewrite wlp_write_field. intros x Hx. apply Hs. by apply Hp.
Qed.

#[export] Hint Resolve ok_done : conf.
#[export] Hint Extern 1 (ok_after (not_on_reload _ _ _)) => apply ok_not_on_reload : conf.
#[export] Hint Extern 1 (ok_after (for_bridge _ _ _)) => apply ok_for_bridge : conf.
#[export] Hint Extern 1 (ok_after (bool_option _ _ _)) => apply ok_bool; intros ?; free_field : conf.
#[export] Hint Extern 1 (ok_after (string_option _ _ _)) => apply ok_string; intros ?; free_field : conf.
#[export] Hint Extern 1 (ok_after (file_option _ _ _)) => apply ok_file; intros ?; free_field : conf.

(** Follow an option; what is left are the states in which it is accepted. *)
Ltac ok_step :=
  match goal with
  | |- wlp (or_inval _ _) _ _ => apply ok_after_or_inval
  | |- wlp (_conf_parse_string _ _ _) _ _ => apply wlp_parse_string; [by intros ? ? ?|]
  | |- wlp (_conf_parse_int _ _ _) _ _ => unfold _conf_parse_int
  | |- wlp (parse_tmp_int _ _) _ _ => unfold parse_tmp_int
  | |- wlp done_ok _ _ => unfold done_ok
  | |- wlp (log_type_word _) _ _ => unfold log_type_word
  | |- wlp (log_dest_word _) _ _ => unfold log_dest_word
  | |- wlp (match ?x with _ => _ end) _ _ => destruct x eqn:?
  | |- (if ?b then _ else _) => destruct b eqn:?
  | |- MOSQ_ERR_INVAL = MOSQ_ERR_SUCCESS -> _ => done
  | |- forall _, _ => intros ?
  | |- _ => progress (autorewrite with wlp; cbv beta)
  end.
Ltac ok_tac := unfold ok_after; repeat ok_step.

(** What is read back is what was stored, and a second store replaces the first. *)
Ltac read_back :=
  repeat match goal with
  | H : t_get ?t ?r = Some ?x, H' : t_get ?t (t_set ?t ?y ?r) = Some ?z |- _ =>
    rewrite (get_set (t := t) x y r H) in H'; apply (inj Some) in H'; subst z
  | H : t_get ?t ?r = Some ?x |- context [t_set ?t ?z (t_set ?t ?y ?r)] =>
    rewrite (set_set (t := t) x y z r H)
  end.

(** A store to a field that stays valid. *)
Ltac config_field :=
  match goal with
  | Hr : reader_ok ?r, H : t_get the_config ?r = Some ?g |- reader_ok (t_set the_config _ ?r) =>
    let Hg := fresh in
    injection H as <-; apply reader_ok_config; [exact Hr|]; pose proof (ro_config _ Hr) as Hg;
    destruct Hg; split; cbn in *; try done
  end.

(** A store to the current listener that stays valid. *)
Ltac listener_field :=
  match goal with
  | Hr : reader_ok ?r, H : t_get the_listener ?r = Some ?l |- reader_ok (t_set the_listener _ ?r) =>
    let Hl := fresh in
    pose proof (ok_listener _ _ Hr H) as Hl; apply (ok_set_listener r l); [exact Hr|exact H| |reflexivity];
    destruct Hl; split; cbn in *; try done
  end.

(** A store to the current bridge that stays valid. *)
Ltac bridge_field :=
  match goal with
  | Hr : reader_ok ?r, H : t_get the_bridge ?r = Some ?b |- reader_ok (t_set the_bridge _ ?r) =>
    let Hb := fresh in
    pose proof (ok_bridge _ _ Hr H) as Hb; apply (ok_set_bridge r b); [exact Hr|exact H|];
    destruct Hb; split; cbn in *; try done
  end.

(** Stores to the variables for the log and the limits. *)
Ltac cr_store :=
  match goal with
  | H : reader_ok ?r |- reader_ok _ =>
    let Hg := fresh in
    destruct H as [Hg ? ?]; split; cbn; [first [exact Hg | destruct Hg; by split]|lia..]
  end.

Section ok_options.
Context `{Files} (reload : bool) (w : conf_line).

Lemma ok_auth_opt : ok_after (opt_auth_opt w).
Proof.
  unfold opt_auth_opt. ok_tac. apply reader_ok_config; [done|]. pose proof (ro_config r) as Hg. destruct Hg; [done|]. split; try done.
  cbn. apply Forall_app. split; [done|]. apply Forall_singleton. cbn. split; [|done].
  unfold strlen in *. intros E. apply (f_equal length) in E. rewrite length_drop in E. cbn in E. lia.
Qed.

Lemma ok_auto_id_prefix : ok_after (opt_auto_id_prefix w).
Proof. unfold opt_auto_id_prefix. ok_tac; read_back; config_field. Qed.

Lemma ok_autosave_interval : ok_after (opt_autosave_interval w).
Proof. unfold opt_autosave_interval. ok_tac; read_back; config_field; lia. Qed.

Lemma ok_bind_address : ok_after (opt_bind_address reload w).
Proof. apply ok_not_on_reload. ok_tac; read_back; config_field. destruct co_default_listener0. by split. Qed.

Lemma ok_include_files read dir names : (forall file, ok_after (read file)) -> ok_after (include_files read dir names).
Proof.
  intros Hread. induction names as [|name names IH]; cbn [include_files]; [apply ok_done|].
  case_match; [|done]. intros r Hr. rewrite wlp_bind. eapply wlp_mono; [by apply Hread|].
  intros rc r' Hok. cbv beta. destruct (Z.eqb_spec rc 0) as [->|]; cbn [negb]; [apply IH; by apply Hok|]. by rewrite wlp_ret.
Qed.

Lemma ok_include_dir include : (forall read, include = Some read -> forall file, ok_after (read file)) ->
  ok_after (opt_include_dir include w).
Proof.
  intros Hread. unfold opt_include_dir. destruct include as [read|]; [|apply ok_done].
  intros r Hr. rewrite wlp_bind, wlp_unwrap. intros token _. case_match; [|by rewrite wlp_ret].
  apply ok_include_files; [by apply Hread|done].
Qed.

Lemma ok_log_dest : ok_after (opt_log_dest w).
Proof.
  unfold opt_log_dest. ok_tac; cr_store.
Qed.

Lemma ok_log_type : ok_after (opt_log_type w).
Proof. unfold opt_log_type. ok_tac; cr_store. Qed.

Lemma ok_log_facility : ok_after (opt_log_facility w).
Proof. unfold opt_log_facility. ok_tac; cr_store. Qed.

Lemma ok_max_inflight : ok_after (opt_max_inflight_messages w).
Proof. unfold opt_max_inflight_messages. ok_tac; cr_store. Qed.

Lemma ok_max_queued : ok_after (opt_max_queued_messages w).
Proof. unfold opt_max_queued_messages. ok_tac; cr_store. Qed.

Lemma ok_message_size_limit : ok_after (opt_message_size_limit w).
Proof.
  unfold opt_message_size_limit. ok_tac. config_field. unfold u32, wrap in *.
  pose proof (Z.mod_pos_bound (atoi l) (2 ^ 32)). lia.
Qed.

Lemma ok_expiration : ok_after (opt_persistent_client_expiration w).
Proof. unfold opt_persistent_client_expiration. ok_tac; [|done]. config_field. lia. Qed.

Lemma ok_retry_interval : ok_after (opt_retry_interval w).
Proof. unfold opt_retry_interval. ok_tac. read_back. config_field. lia. Qed.

Lemma ok_sys_interval : ok_after (opt_sys_interval w).
Proof. unfold opt_sys_interval. ok_tac. read_back. config_field. lia. Qed.

Lemma ok_port : ok_after (opt_port reload w).
Proof. apply ok_not_on_reload. ok_tac. config_field. destruct co_default_listener0. split; try done. cbn. lia. Qed.

(** *** Listeners *)

(** The listener that was just added. *)
Lemma get_new_listener r l :
  t_get the_listener (r <| rd_config ::= (fun g => g <| g_listeners ::= (fun k => k ++ [l]) |>) |>
                        <| rd_listener := Some (length (g_listeners (rd_config r))) |>) = Some l.
Proof.
  cbn. rewrite length_app, Nat.add_1_r, Nat.eqb_refl. by rewrite lookup_app_r, Nat.sub_diag.
Qed.

Lemma set_new_listener r l l' :
  t_set the_listener l' (r <| rd_config ::= (fun g => g <| g_listeners ::= (fun k => k ++ [l]) |>) |>
                        <| rd_listener := Some (length (g_listeners (rd_config r))) |>)
  = r <| rd_config ::= (fun g => g <| g_listeners ::= (fun k => k ++ [l']) |>) |>
      <| rd_listener := Some (length (g_listeners (rd_config r))) |>.
Proof. cbn. upd_simpl. by rewrite insert_app_r_alt, Nat.sub_diag by done. Qed.

Lemma ok_opt_listener : ok_after (opt_listener reload w).
Proof.
  apply ok_not_on_reload. ok_tac. rewrite get_new_listener in H1. apply (inj Some) in H1. subst x.
  rewrite set_new_listener. destruct H0 as [Hg ? ?]. split; [|done..]. destruct Hg. split; try done.
  cbn. apply Forall_app. split; [done|]. apply Forall_singleton. split; [split|]; cbn; try done; lia.
Qed.

Lemma ok_without_psk_hint h : (ok_after (h w)) -> ok_after (without_psk_hint h w).
Proof. intros Hh. unfold without_psk_hint. ok_tac. by apply Hh. Qed.

Lemma ok_max_connections : ok_after (opt_max_connections reload w).
Proof. apply ok_not_on_reload. ok_tac; [|done]. listener_field. destruct (Z.ltb_spec (atoi l) 0); lia. Qed.

Lemma ok_mount_point : ok_after (opt_mount_point reload w).
Proof.
  apply ok_not_on_reload. ok_tac. read_back. listener_field. intros m [= <-].
  cbn in *. simplify_eq. by apply Z.eqb_eq, negb_false_iff.
Qed.

Lemma ok_protocol : ok_after (opt_protocol w).
Proof. unfold opt_protocol. ok_tac; [|done]. listener_field. Qed.

(** *** Bridges *)

Lemma ok_connection : ok_after (opt_connection reload w).
Proof.
  apply ok_not_on_reload. ok_tac. destruct H0 as [Hg ? ?]. split; [|done..]. destruct Hg. split; try done.
  cbn. apply Forall_app. split; [done|]. apply Forall_singleton. split; cbn; try done; try lia; auto.
  - by eapply strtok_nonempty.
  - intros [[?|[?|[?|?]]] _]; done.
Qed.

Lemma split_addresses_ok tokens : (split_addresses tokens).2 = MOSQ_ERR_SUCCESS ->
  Forall address_ok (split_addresses tokens).1.
Proof.
  induction tokens as [|token tokens IH]; [constructor|]. cbn [split_addresses].
  destruct (strtok [COLON] token) as [[address rest]|] eqn:E.
  - case_match; [done|]. destruct (split_addresses tokens) as [l rc]. cbn in *. intros ->. constructor; [|by apply IH].
    split; [by eapply strtok_nonempty|lia].
  - destruct (split_addresses tokens) as [l rc]. cbn in *. intros ->. constructor; [done|by apply IH].
Qed.

Lemma ok_address : ok_after (opt_address reload w).
Proof.
  apply ok_for_bridge. ok_tac; unfold MOSQ_ERR_SUCCESS in *; [lia|]. read_back.
  pose proof (split_addresses_ok (words (length (w_rest w)) (w_rest w))) as Ha.
  rewrite Heqp in Ha. bridge_field. apply Ha. unfold MOSQ_ERR_SUCCESS. cbn. lia.
Qed.

Lemma wlp_word_option l Q r :
  (forall rc, rc <> MOSQ_ERR_SUCCESS -> Q rc r) ->
  (forall s b, t_get the_bridge r = Some b -> Q MOSQ_ERR_SUCCESS (t_set the_bridge (lset l (Some s) b) r)) ->
  wlp (word_option l w) Q r.
Proof.
  intros He Hs. unfold word_option. ok_tac; first [by apply He | by apply Hs].
Qed.

Lemma ok_word_option l : (forall s, preserves the_bridge (lset l (Some s))) -> ok_after (word_option l w).
Proof. intros Hp r Hr. apply wlp_word_option; [done|]. intros s b Hb _. by apply Hp. Qed.

Lemma ok_local_option l : (forall s, preserves the_bridge (lset l s)) -> ok_after (local_option l w).
Proof.
  intros Hp r Hr. unfold local_option. destruct (strtok _ _); [by apply ok_word_option|].
  ok_tac. by apply Hp.
Qed.

Lemma ok_no_psk l : (forall s b, bridge_ok b -> ~ has_psk b -> bridge_ok (lset l (Some s) b)) ->
  ok_after (no_psk (word_option l) w).
Proof.
  intros Hp. unfold no_psk. ok_tac. apply wlp_word_option; [done|]. intros s b Hb _. simplify_eq.
  rewrite orb_false_iff, !bool_decide_eq_false in Heqb.
  eapply ok_set_bridge; [done..|]. apply Hp; [by eapply ok_bridge|]. unfold has_psk. tauto.
Qed.

Lemma ok_no_certificate l : (forall s b, bridge_ok b -> ~ has_certificate b -> bridge_ok (lset l (Some s) b)) ->
  ok_after (no_certificate (word_option l) w).
Proof.
  intros Hp. unfold no_certificate. ok_tac. apply wlp_word_option; [done|]. intros s b Hb _. simplify_eq.
  rewrite !orb_false_iff, !bool_decide_eq_false in Heqb.
  eapply ok_set_bridge; [done..|]. apply Hp; [by eapply ok_bridge|]. unfold has_certificate. tauto.
Qed.

Lemma ok_at_least least l :
  (forall r n b, reader_ok r -> t_get the_bridge r = Some b -> least <= n -> reader_ok (t_set the_bridge (lset l n b) r)) ->
  (forall n b, lget l (lset l n b) = n) -> (forall n m b, lset l n (lset l m b) = lset l n b) ->
  ok_after (at_least least l w).
Proof. intros Hp Hg Hs. unfold at_least. ok_tac; read_back; rewrite ?Hg, ?Hs in *; apply Hp; by try lia. Qed.

Lemma ok_bridge_protocol_version : ok_after (opt_bridge_protocol_version reload w).
Proof. apply ok_for_bridge. ok_tac; bridge_field; auto. Qed.

Lemma ok_start_type : ok_after (opt_start_type reload w).
Proof. apply ok_for_bridge. ok_tac; bridge_field. Qed.

(** *** topic *)

Definition with_topics (ts : list _mqtt3_bridge_topic) (b : conf_bridge) : conf_bridge :=
  b <| cb_core ::= (fun c => c <| b_topics := ts |>) |>.

(** While a topic is read: the values are valid but for the last entry, which is in [P]. *)
Definition topic_pending (P : _mqtt3_bridge_topic -> Prop) (r : reader) : Prop :=
  exists b ts t, t_get the_bridge r = Some b /\ b_topics (cb_core b) = ts ++ [t] /\ P t
    /\ reader_ok (t_set the_bridge (with_topics ts b) r).

Lemma upd_last_app {A} (f : A -> A) l x : upd_last f (l ++ [x]) = l ++ [f x].
Proof.
  unfold upd_last. rewrite length_app, Nat.add_1_r. cbn [pred].
  apply list_eq. intros i. destruct (decide (i = length l)) as [->|Hi].
  - by rewrite list_lookup_alter_eq, !lookup_app_r, Nat.sub_diag by lia.
  - rewrite list_lookup_alter_ne by done. destruct (decide (i < length l)%nat); [by rewrite !lookup_app_l by done|].
    rewrite !lookup_ge_None_2; [done|rewrite length_app; cbn; lia..].
Qed.

Lemma wlp_upd_topic (P P' : _mqtt3_bridge_topic -> Prop) f (Q : unit -> reader -> Prop) r :
  topic_pending P r -> (forall t, P t -> P' (f t)) -> (forall r', topic_pending P' r' -> Q tt r') ->
  wlp (upd_topic f) Q r.
Proof.
  intros (b & ts & t & Hb & Et & HP & Hr) Hf HQ. unfold upd_topic. rewrite wlp_update. intros x Hx. simplify_eq.
  apply HQ. eexists _, ts, (f t). split_and!; [by eapply get_set| |by apply Hf|by erewrite set_set].
  cbn. rewrite Et. apply upd_last_app.
Qed.

Lemma wlp_remapping P (Q : unit -> reader -> Prop) r :
  topic_pending P r -> (forall r', topic_pending P r' -> Q tt r') ->
  wlp (write_field the_bridge (bcore b_topic_remapping) true) Q r.
Proof.
  intros (b & ts & t & Hb & Et & HP & Hr) HQ. rewrite wlp_write_field. intros x Hx. simplify_eq.
  apply HQ. eexists _, ts, t. split_and!; [by eapply get_set|done..|]. erewrite set_set by done.
  assert (bridge_ok (with_topics ts b)) as Hok by (eapply (ok_bridge _ _ Hr), get_set; exact Hb).
  rewrite <- (set_set (t := the_bridge) b (with_topics ts b)) by done.
  eapply ok_set_bridge; [exact Hr|by eapply get_set|]. destruct Hok. by split.
Qed.

(** An entry whose prefixes are valid, and whose QoS is as well. *)
Definition prefixes_ok (t : _mqtt3_bridge_topic) : Prop := forall p,
  bt_local_prefix t = Some p \/ bt_remote_prefix t = Some p -> mosquitto_pub_topic_check p = MOSQ_ERR_SUCCESS.
Definition entry_ok (t : _mqtt3_bridge_topic) : Prop := 0 <= bt_qos t <= 2 /\ prefixes_ok t.

Lemma parse_prefix_ok token o p : parse_prefix token = Some o -> o = Some p -> mosquitto_pub_topic_check p = MOSQ_ERR_SUCCESS.
Proof.
  unfold parse_prefix. case_match; [by intros [= <-]|]. case_match eqn:E; [done|]. intros [= <-] [= <-].
  by apply negb_false_iff, Z.eqb_eq in E.
Qed.

(** Topics are read so that the last entry is valid but for what is joined at the end. *)
Definition words_ok (m : R Z) (r : reader) : Prop :=
  wlp m (fun rc r' => rc = MOSQ_ERR_SUCCESS -> topic_pending entry_ok r') r.

Lemma prefixes_words_ok rest r : topic_pending entry_ok r -> words_ok (topic_prefixes rest) r.
Proof.
  intros Hr. unfold words_ok, topic_prefixes. ok_step; [|by ok_step; autorewrite with wlp].
  ok_step. rewrite wlp_bind. apply (wlp_remapping entry_ok); [done|]. intros r1 Hr1.
  ok_step; [|by autorewrite with wlp]. rewrite wlp_bind. apply (wlp_upd_topic entry_ok entry_ok); [done| |].
  { intros t [Hq Hp]. split; [done|]. intros p' [E|E]; [cbn in E; by eapply parse_prefix_ok|apply Hp; by right]. }
  intros r2 Hr2. ok_step; [|by ok_step; autorewrite with wlp]. ok_step. ok_step; [|by autorewrite with wlp].
  rewrite wlp_bind. apply (wlp_upd_topic entry_ok entry_ok); [done| |].
  { intros t [Hq Hp]. split; [done|]. intros p' [E|E]; [apply Hp; by left|cbn in E; by eapply parse_prefix_ok]. }
  intros r3 Hr3. unfold done_ok. by autorewrite with wlp.
Qed.

Lemma topic_words_ok rest r : topic_pending entry_ok r -> words_ok (topic_words rest) r.
Proof.
  intros Hr. unfold words_ok, topic_words. ok_step; [|by ok_step; autorewrite with wlp].
  ok_step. ok_step; [|by autorewrite with wlp]. rewrite wlp_bind.
  apply (wlp_upd_topic entry_ok entry_ok); [done|by intros t []|]. intros r1 Hr1.
  ok_step; [|by ok_step; autorewrite with wlp]. ok_step. cbv zeta. rewrite wlp_bind.
  set (n := atoi _). apply (wlp_upd_topic entry_ok (fun t => bt_qos t = n /\ prefixes_ok t)); [done|by intros t []|].
  intros r2 Hr2. destruct (_ || _) eqn:E; [by autorewrite with wlp|]. apply prefixes_words_ok.
  destruct Hr2 as (b & ts & t & ? & ? & [Hq Hp] & ?). exists b, ts, t. split_and!; try done. split; [lia|done].
Qed.

Lemma topic_join_ok r : topic_pending entry_ok r ->
  wlp topic_join (fun rc r' => rc = MOSQ_ERR_SUCCESS -> reader_ok r') r.
Proof.
  intros (b & ts & t & Hb & Et & [Hq Hp] & Hr). unfold topic_join, last_topic, upd_topic.
  ok_tac. simplify_eq. rewrite Et, last_snoc in *. simplify_eq.
  rewrite <- (set_set (t := the_bridge) b (with_topics ts b)) by done.
  assert (bridge_ok (with_topics ts b)) as Hok by (eapply (ok_bridge _ _ Hr), get_set; exact Hb).
  eapply ok_set_bridge; [exact Hr|by eapply get_set|]. destruct Hok. split; try done.
  cbn. rewrite Et, upd_last_app. apply Forall_app. split; [done|]. apply Forall_singleton. split; try done.
  rewrite andb_false_iff, orb_false_iff, !bool_decide_eq_false in Heqb0. cbn. tauto.
Qed.

Lemma ok_topic : ok_after (opt_topic reload w).
Proof.
  apply ok_for_bridge. intros r Hr. ok_step; [|by autorewrite with wlp]. ok_step. cbv zeta.
  set (topic := if streq _ _ then _ else _). rewrite wlp_bind, wlp_update. intros b Hb. rewrite wlp_bind.
  eapply wlp_mono; [apply topic_words_ok|].
  - eexists _, (b_topics (cb_core b)), _. split_and!; [by eapply get_set|reflexivity|split; cbn; [lia|by intros ? []]|].
    erewrite set_set by done. eapply ok_set_bridge; [done..|]. destruct (ok_bridge _ _ Hr Hb). by split.
  - intros rc r' Hpend. cbv beta. destruct (Z.eqb_spec rc MOSQ_ERR_SUCCESS) as [->|]; cbn [negb]; [|by rewrite wlp_ret].
    by apply topic_join_ok, Hpend.
Qed.

End ok_options.

Ltac option_head h :=
  lazymatch h with ?f _ => option_head f | _ => h end.

(** An option whose lemma is known, or which stores to a field without conditions. *)
Ltac ok_option :=
  cbn [o_run opt opt2];
  first
    [ solve [ auto with conf ]
    | lazymatch goal with
      | |- ok_after (?h _) => let f := option_head h in unfold f; solve [ auto with conf ]
      end ].

#[export] Hint Resolve ok_auth_opt ok_auto_id_prefix ok_autosave_interval ok_bind_address ok_include_dir
  ok_log_dest ok_log_type ok_log_facility ok_max_inflight ok_max_queued ok_message_size_limit ok_expiration
  ok_retry_interval ok_sys_interval ok_port ok_opt_listener ok_without_psk_hint ok_max_connections
  ok_mount_point ok_protocol ok_connection ok_address ok_bridge_protocol_version ok_start_type ok_topic : conf.
#[export] Hint Extern 1 (ok_after (word_option _ _)) => apply ok_word_option; intros ?; free_field : conf.
#[export] Hint Extern 1 (ok_after (local_option _ _)) => apply ok_local_option; intros ?; free_field : conf.
#[export] Hint Extern 1 (ok_after (no_psk _ _)) =>
  apply ok_no_psk; intros ? ? [] ?; split; try done; cbn; unfold has_psk in *; tauto : conf.
#[export] Hint Extern 1 (ok_after (no_certificate _ _)) =>
  apply ok_no_certificate; intros ? ? [] ?; split; try done; cbn; unfold has_certificate in *; tauto : conf.
#[export] Hint Extern 1 (ok_after (at_least _ _ _)) =>
  apply ok_at_least; [intros; bridge_field|done|done] : conf.

Section ok_reading.
Context `{Files} (reload : bool).

Lemma options_ok include w : (forall read, include = Some read -> forall file, ok_after (read file)) ->
  Forall (fun o => ok_after (o_run o w)) (options reload include).
Proof. intros Hread. unfold options. repeat (constructor; [ok_option|]). constructor. Qed.

Lemma run_option_ok include w : (forall read, include = Some read -> forall file, ok_after (read file)) ->
  ok_after (run_option reload include w).
Proof.
  intros Hread. unfold run_option. destruct (List.find _ _) as [o|] eqn:E; [|intros r Hr; by rewrite wlp_ret].
  apply List.find_some in E as [Hin _]. apply list_elem_of_In in Hin.
  pose proof (options_ok include w Hread) as F. rewrite Forall_forall in F. by apply F.
Qed.

Lemma read_lines_ok include file lineno lines :
  (forall read, include = Some read -> forall file, ok_after (read file)) ->
  ok_after (read_lines reload include file lineno lines).
Proof.
  intros Hread. revert lineno. induction lines as [|buf lines IH]; intros lineno; cbn [read_lines]; [apply ok_done|].
  intros r Hr. rewrite wlp_bind, wlp_unwrap. intros w _. rewrite wlp_bind. eapply wlp_mono.
  { destruct w as [w|]; [by apply run_option_ok|by apply ok_done]. }
  intros rc r' Hok. cbv beta. destruct (Z.eqb_spec rc MOSQ_ERR_SUCCESS) as [->|]; cbn [negb]; [by apply IH, Hok|].
  by rewrite wlp_ret.
Qed.

Lemma reader_ok_pointers r p q : reader_ok r -> reader_ok (r <| rd_listener := p |> <| rd_bridge := q |>).
Proof. intros []. by split. Qed.

Lemma read_file_with_ok include file :
  (forall read, include = Some read -> forall file, ok_after (read file)) -> ok_after (read_file_with reload include file).
Proof.
  intros Hread r Hr. unfold read_file_with. destruct (file_contents file) as [contents|]; [|by rewrite wlp_ret].
  unfold _config_read_file_core. rewrite !wlp_bind, wlp_get, wlp_bind, wlp_modify, wlp_bind.
  eapply wlp_mono; [apply read_lines_ok; [exact Hread|by apply reader_ok_pointers]|].
  intros rc r' Hok. cbv beta. rewrite wlp_bind, wlp_modify, wlp_ret. intros Hrc. apply reader_ok_pointers. by apply Hok.
Qed.

Lemma config_read_file_ok level file : ok_after (_config_read_file reload level file).
Proof.
  destruct level; cbn [_config_read_file]; apply read_file_with_ok; [|done].
  intros read [= <-] f. by apply read_file_with_ok.
Qed.
End ok_reading.

(** * The configuration that is used *)

Record usable_bridge (b : conf_bridge) : Prop := {
  ub_ok : bridge_ok b;
  ub_addresses : cb_addresses b <> [];
  ub_topics : b_topics (cb_core b) <> [];
  ub_psk : cb_tls_psk b = None <-> cb_tls_psk_identity b = None }.

(** What holds after the arguments or the file were read. *)
Record conf_ok (g : config) : Prop := {
  ko_values : config_ok g;
  ko_bridges : Forall usable_bridge (g_bridges g);
  ko_persistence : cf_persistence (g_core g) = true -> exists file, g_persistence_file g = Some file
    /\ g_persistence_filepath g = Some (default [] (g_persistence_location g) ++ file);
  ko_limits : 0 <= g_max_inflight g /\ 0 <= g_max_queued g }.

Section conf_ok.
Context `{Files}.

Lemma init_conf_ok : conf_ok mqtt3_config_init.
Proof. split; [split|..]; cbn; try done; try lia. Qed.

Lemma config_ok_reload g : config_ok g -> config_ok (_config_init_reload g).
Proof. intros []. split; try done; cbn; lia. Qed.

Lemma config_ok_persistence g : config_ok g -> config_ok (set_persistence g).
Proof. intros Hg. unfold set_persistence. case_match; [|done]. destruct Hg. by split. Qed.

Lemma config_ok_user g : config_ok g -> config_ok (default_user g).
Proof. intros Hg. unfold default_user. case_match; [done|]. destruct Hg. by split. Qed.

Lemma bridge_complete_spec b : bridge_ok b -> bridge_complete b = true -> usable_bridge b.
Proof.
  intros Hb. unfold bridge_complete. rewrite !andb_true_iff, !bool_decide_eq_true.
  intros [[Ha Ht] E]. split; try done. by destruct (cb_tls_psk b), (cb_tls_psk_identity b).
Qed.

Lemma set_logging_ok cr g : conf_ok g -> conf_ok (set_logging cr g).
Proof.
  intros [Hg ? ? ?]. unfold set_logging. repeat case_match; (split; [destruct Hg; by split|done..]).
Qed.

Lemma set_logging_user cr g : g_user (set_logging cr g) = g_user g.
Proof. unfold set_logging. repeat case_match; done. Qed.

Lemma default_user_some g : g_user (default_user g) <> None.
Proof. unfold default_user. destruct (g_user g) eqn:E; [by rewrite E|done]. Qed.

Lemma finish_read_ok cr g : config_ok g -> 0 <= cr_max_inflight_messages cr -> 0 <= cr_max_queued_messages cr ->
  wlp (finish_read cr) (fun rc g' => rc = 0 -> conf_ok g' /\ g_user g' <> None) g.
Proof.
  intros Hg Hi Hq. unfold finish_read. autorewrite with wlp. cbv beta. case_match eqn:E; [by rewrite wlp_ret|].
  autorewrite with wlp. intros _. rewrite set_logging_user. split; [|apply default_user_some].
  apply set_logging_ok. apply negb_false_iff in E.
  assert (config_ok (default_user (set_persistence g))) as Hok by by apply config_ok_user, config_ok_persistence.
  split; [destruct Hok; by split| | |done].
  - apply Forall_forall. intros b Hb. apply bridge_complete_spec.
    + pose proof (co_bridges _ Hok) as F. rewrite Forall_forall in F. by apply F.
    + rewrite List.forallb_forall in E. by apply E, list_elem_of_In.
  - clear. unfold default_user, set_persistence. cbn. case_match; cbn; case_match; cbn; intros Hp; try congruence; try done.
    all: eexists; (split; [reflexivity|]); unfold join_path; by destruct (g_persistence_location g).
Qed.

(** At the start or on a reload. *)
Lemma config_read_ok reload g : config_ok g ->
  wlp (mqtt3_config_read reload) (fun rc g' => rc = 0 -> g_config_file g <> None -> conf_ok g' /\ g_user g' <> None) g.
Proof.
  intros Hg. unfold mqtt3_config_read. rewrite wlp_bind, wlp_get. destruct (g_config_file g) as [file|]; [|by rewrite wlp_ret].
  rewrite wlp_bind, wlp_modify, wlp_bind. apply wlp_with_reader. eapply wlp_mono.
  - apply config_read_file_ok. split; [|done..]. cbn. destruct reload; [by apply config_ok_reload|done].
  - intros rc r Hr. cbv beta iota. destruct (Z.eqb_spec rc 0) as [->|]; cbn [negb]; [|by rewrite wlp_ret].
    destruct (Hr eq_refl). eapply wlp_mono; [by apply finish_read_ok|]. intros rc g' Hok E _. by apply Hok.
Qed.

(** A change that the conditions say nothing about. *)
Ltac other_field := match goal with H : conf_ok _ |- conf_ok _ => destruct H as [[] ? ? ?]; by split; [split|..] end.

Lemma config_args_ok argv g : conf_ok g ->
  wlp (config_args argv) (fun rc g' => rc = MOSQ_ERR_SUCCESS -> conf_ok g') g.
Proof.
  revert g. induction (well_founded_ltof _ (@length str) argv) as [argv _ IH]. unfold ltof in IH.
  intros g Hg. destruct argv as [|arg argv]; cbn [config_args]; [by rewrite wlp_ret|].
  assert (forall g, conf_ok g -> wlp (config_args argv) (fun rc g' => rc = MOSQ_ERR_SUCCESS -> conf_ok g') g) as IH1
    by (intros; apply IH; [cbn; lia|done]).
  case_match; [|case_match; [|case_match; [|case_match; [|case_match]]]].
  - destruct argv as [|file argv]; [by rewrite wlp_ret|]. rewrite wlp_bind, wlp_modify, wlp_bind.
    eapply wlp_mono; [apply config_read_ok; destruct Hg as [[] _ _ _]; by split|]. intros rc g' Hok. cbv beta.
    destruct (Z.eqb_spec rc 0) as [->|]; cbn [negb]; [|by rewrite wlp_ret]. apply IH; [cbn; lia|by apply Hok].
  - rewrite wlp_bind, wlp_modify. apply IH1. other_field.
  - by rewrite wlp_ret.
  - destruct argv as [|port argv]; [by rewrite wlp_ret|]. cbv zeta. case_match; [by rewrite wlp_ret|].
    rewrite wlp_bind, wlp_modify. apply IH; [cbn; lia|]. destruct Hg as [[? ? ? ? ? ? ? [] ? ?] ? ? ?].
    split; try done. split; try done. split; try done. cbn. lia.
  - rewrite wlp_bind, wlp_modify. apply IH1. other_field.
  - by rewrite wlp_ret.
Qed.

Lemma default_listener_copy_ok l : listener_ok l ->
  listener_ok (default_listener_copy l) /\ 1 <= l_port (cl_core (default_listener_copy l)).
Proof.
  intros []. unfold default_listener_copy. split; [split|]; cbn; try done; destruct (Z.eqb_spec (l_port (cl_core l)) 0); lia.
Qed.

(** A broker that starts listens somewhere, as some user, and its settings are valid. *)
Record start_ok (g : config) : Prop := {
  so_conf : conf_ok g;
  so_listeners : g_listeners g <> [];
  so_user : g_user g <> None }.

Lemma default_user_ok g : conf_ok g -> conf_ok (default_user g).
Proof. intros Hg. unfold default_user. destruct (g_user g); [done|]. other_field. Qed.

Lemma default_user_listeners g : g_listeners (default_user g) = g_listeners g.
Proof. unfold default_user. by destruct (g_user g). Qed.

(** C10: Whatever the arguments and the files say: if the broker starts, the values of its
    configuration are in their ranges, ports and quality-of-service levels included, each bridge has a
    name, an address and a topic, prefixes hold no wildcards and the topics of a bridge are made of
    them, no bridge has both certificates and a pre-shared key, the database has a path if
    persistence is on, and there is a listener and a user. *)
Theorem start_configuration_valid argv g :
  mqtt3_config_parse_args argv mqtt3_config_init = Some (MOSQ_ERR_SUCCESS, g) -> start_ok g.
Proof.
  assert (wlp (mqtt3_config_parse_args argv) (fun rc g => rc = MOSQ_ERR_SUCCESS -> start_ok g) mqtt3_config_init) as Hw.
  { unfold mqtt3_config_parse_args. rewrite wlp_bind. eapply wlp_mono; [apply config_args_ok, init_conf_ok|].
    intros rc g1 Hok. cbv beta. destruct (Z.eqb_spec rc 0) as [->|]; cbn [negb]; [|by rewrite wlp_ret].
    autorewrite with wlp. intros _. specialize (Hok eq_refl). set (g2 := if default_listener_used g1 then _ else _).
    assert (conf_ok g2 /\ g_listeners g2 <> []) as [Hg2 Hne].
    { subst g2. destruct (default_listener_used g1) eqn:E.
      - split; [|intros [_ ?]%app_nil; done]. destruct Hok as [[] ? ? ?]. split; [split|..]; try done. cbn.
        apply Forall_app. split; [done|]. apply Forall_singleton. by apply default_listener_copy_ok.
      - split; [done|]. intros E'. unfold default_listener_used in E. by rewrite E' in E. }
    pose proof (default_user_ok _ Hg2) as Hg3. pose proof (default_user_some g2) as Hu. pose proof (default_user_listeners g2) as Hl.
    destruct (g_verbose (default_user g2)); (split; [|by cbn; rewrite Hl|done]); [other_field|done]. }
  intros E. eapply wlp_some in Hw; [|exact E]. by apply Hw.
Qed.
End conf_ok.

(** * Examples *)

Definition sample_text : str := text [
  "# a broker with a bridge"; "port 1884"; "allow_anonymous false"; "persistence true"; "persistence_location /var/";
  "listener 1885 localhost"; "max_connections 7"; "mount_point a/";
  "connection b1"; "address host1:1883 host2"; "topic t/# both 2 l/ r/"; "keepalive_interval 3"]%string.

Definition sample_files : Files := files_of [(lit "m.conf", sample_text)] [] [].

Lemma start_configuration_valid_witness : exists g,
  @mqtt3_config_parse_args sample_files [lit "-c"; lit "m.conf"] mqtt3_config_init = Some (MOSQ_ERR_SUCCESS, g) /\ start_ok g.
Proof.
  eexists. split; [vm_compute; reflexivity|].
  apply (@start_configuration_valid sample_files [lit "-c"; lit "m.conf"]). vm_compute. reflexivity.
Defined.
