(* ===== verification/ConfSafe.v ===== *)
(** Reading the configuration is defined: which lines make the reader of src/conf.c leave
    its buffers or follow dangling pointers, and that no other text does. *)

From S2P Require Export ConfRules.

#[local] Open Scope Z_scope.

(** * What makes reading fault *)

(** A line: it does not begin with a NUL; if it ends neither with a newline nor inside of the buffer
    nothing is sought behind it; [include_dir] names a directory. In a file that is
    included it opens no listener and no connection: the including file may be using one. *)
Definition words_safe (nested : bool) (w : conf_line) : bool :=
  bool_decide (w_behind w <> None)
  && (negb (streq (w_token w) (lit "include_dir")) || bool_decide (strtok [SPACE] (w_rest w) <> None))
  && (negb nested || negb (streq (w_token w) (lit "listener") || streq (w_token w) (lit "connection"))).

Definition line_safe (nested : bool) (buf : str) : bool :=
  match split_line [] buf with
  | None => false
  | Some None => true
  | Some (Some w) => words_safe nested w
  end.

Definition text_safe (nested : bool) (contents : list byte) : bool :=
  forallb (line_safe nested) (file_lines CONF_LINE contents).

Definition file_safe `{Files} (nested : bool) (file : str) : bool :=
  match file_contents file with Some contents => text_safe nested contents | None => true end.

(** * The pointers of the reader

    [shape r]: what the two pointers are, and how long what they point into is. *)
Record shape := Shape { sh_listener : option nat; sh_bridge : option nat; sh_listeners : nat; sh_bridges : nat }.

Definition shape_of (r : reader) : shape :=
  Shape (rd_listener r) (rd_bridge r) (length (g_listeners (rd_config r))) (length (g_bridges (rd_config r))).

(** A pointer is NULL, the default listener or to the last entry. *)
Definition shape_ok (s : shape) : Prop :=
  (forall i, sh_listener s = Some i -> S i = sh_listeners s) /\ (forall i, sh_bridge s = Some i -> S i = sh_bridges s).

#[local] Arguments Nat.eqb : simpl never.

Lemma shape_get_listener r : shape_ok (shape_of r) -> exists l, t_get the_listener r = Some l.
Proof.
  intros [Hl _]. cbn in *. destruct (rd_listener r) as [i|]; [|by eexists]. specialize (Hl i eq_refl).
  rewrite (proj2 (Nat.eqb_eq _ _) Hl). apply lookup_lt_is_Some_2. lia.
Qed.

Lemma shape_get_bridge r : shape_ok (shape_of r) -> rd_bridge r <> None -> exists b, t_get the_bridge r = Some b.
Proof.
  intros [_ Hb] Hne. cbn in *. destruct (rd_bridge r) as [i|]; [|done]. specialize (Hb i eq_refl).
  rewrite (proj2 (Nat.eqb_eq _ _) Hb). apply lookup_lt_is_Some_2. lia.
Qed.

Lemma shape_set_listener l r : shape_of (t_set the_listener l r) = shape_of r.
Proof. unfold shape_of. cbn. destruct (rd_listener r) eqn:E; upd_simpl; by rewrite ?E, ?length_insert. Qed.

Lemma shape_set_bridge b r : shape_of (t_set the_bridge b r) = shape_of r.
Proof. unfold shape_of. cbn. destruct (rd_bridge r) eqn:E; upd_simpl; by rewrite ?E, ?length_insert. Qed.

(** * Options that move no pointer *)

Section steady.
Context (s : shape) (Hs : shape_ok s).

(** It does not fault and leaves the pointers and the lengths as they are. *)
Definition steady {A} (m : R A) : Prop := forall r, shape_of r = s -> wp m (fun _ r' => shape_of r' = s) r.

Lemma steady_ret {A} (a : A) : steady (mret a).
Proof. intros r Hr. by wp_step. Qed.

Lemma steady_bind {A B} (m : R A) (f : A -> R B) : steady m -> (forall a, steady (f a)) -> steady (m ≫= f).
Proof. intros Hm Hf r Hr. wp_step. eapply wp_mono; [by apply Hm|]. intros a r' Hr'. by apply Hf. Qed.

Lemma steady_get : steady get.
Proof. intros r Hr. by wp_step. Qed.

Lemma steady_gets {A} (f : reader -> A) : steady (gets f).
Proof. intros r Hr. by wp_step. Qed.

Lemma steady_whenM b m : steady m -> steady (whenM b m).
Proof. destruct b; [done|]. intros _. apply steady_ret. Qed.

Lemma steady_unwrap {A} (o : option A) : is_Some o -> steady (unwrap o).
Proof. intros [a ->]. apply steady_ret. Qed.

Lemma steady_set_cr f : steady (set_cr f).
Proof. intros r Hr. unfold set_cr. by wp_step. Qed.

Lemma steady_load {X} (t : target X) : (forall r, shape_of r = s -> exists x, t_get t r = Some x) -> steady (load t).
Proof. intros Ht r Hr. destruct (Ht r Hr) as [x Hx]. rewrite wp_load. by exists x. Qed.

Lemma steady_update {X} (t : target X) f : (forall r, shape_of r = s -> exists x, t_get t r = Some x) ->
  (forall r x, shape_of r = s -> t_get t r = Some x -> shape_of (t_set t (f x) r) = s) -> steady (update t f).
Proof. intros Ht Hf r Hr. destruct (Ht r Hr) as [x Hx]. rewrite wp_update. exists x. split; [done|]. by apply Hf. Qed.

Lemma steady_config f : (forall g, length (g_listeners (f g)) = length (g_listeners g)
  /\ length (g_bridges (f g)) = length (g_bridges g)) -> steady (update the_config f).
Proof.
  intros Hf. apply steady_update; [by eexists|]. intros r x Hr [= <-]. rewrite <- Hr. unfold shape_of. cbn.
  by destruct (Hf (rd_config r)) as [-> ->].
Qed.

Lemma listener_there r : shape_of r = s -> exists l, t_get the_listener r = Some l.
Proof. intros <-. by apply shape_get_listener. Qed.

Lemma bridge_there r : sh_bridge s <> None -> shape_of r = s -> exists b, t_get the_bridge r = Some b.
Proof. intros Hb <-. by apply shape_get_bridge. Qed.

Lemma steady_listener f : steady (update the_listener f).
Proof. apply steady_update; [apply listener_there|]. intros r x <- _. apply shape_set_listener. Qed.

Lemma steady_bridge f : sh_bridge s <> None -> steady (update the_bridge f).
Proof. intros Hb. apply steady_update; [intros r; by apply bridge_there|]. intros r x <- _. apply shape_set_bridge. Qed.

Lemma steady_load_config : steady (load the_config).
Proof. apply steady_load. by eexists. Qed.

Lemma steady_load_listener : steady (load the_listener).
Proof. apply steady_load, listener_there. Qed.

Lemma steady_load_bridge : sh_bridge s <> None -> steady (load the_bridge).
Proof. intros Hb. apply steady_load. intros r. by apply bridge_there. Qed.
End steady.

Create HintDb steady.
#[export] Hint Resolve steady_ret steady_get steady_gets steady_set_cr steady_load_config steady_load_listener
  steady_load_bridge steady_listener steady_bridge : steady.

(** Follow a routine; what is left are the values it needs. *)
Ltac steady_step :=
  match goal with
  | |- steady _ (_ ≫= _) => apply steady_bind; [|intros ?; cbv beta]
  | |- steady _ (whenM _ _) => apply steady_whenM
  | |- steady _ (update the_config _) => apply steady_config; intros ?; done
  | |- steady _ (set_config _) => unfold set_config
  | |- steady _ (read_field _ _) => unfold read_field
  | |- steady _ (write_field _ _ _) => unfold write_field
  | |- steady _ (or_inval _ _) => unfold or_inval
  | |- steady _ (_conf_parse_bool _ _ _) => unfold _conf_parse_bool
  | |- steady _ (_conf_parse_int _ _ _) => unfold _conf_parse_int
  | |- steady _ (_conf_parse_string _ _ _) => unfold _conf_parse_string
  | |- steady _ (parse_tmp_int _ _) => unfold parse_tmp_int
  | |- steady _ done_ok => unfold done_ok
  | |- steady _ (string_option _ _ _) => unfold string_option
  | |- steady _ (bool_option _ _ _) => unfold bool_option
  | |- steady _ (word_option _ _) => unfold word_option
  | |- steady _ (local_option _ _) => unfold local_option
  | |- steady _ (at_least _ _ _) => unfold at_least
  | |- steady _ (log_type_word _) => unfold log_type_word
  | |- steady _ (log_dest_word _) => unfold log_dest_word
  | |- steady _ (match ?x with _ => _ end) => destruct x eqn:?
  | _ => solve [auto with steady]
  end.

Section options_steady.
Context `{Files} (s : shape) (Hs : shape_ok s) (reload : bool) (w : conf_line).

Lemma steady_not_on_reload h : steady s (h w) -> steady s (not_on_reload reload h w).
Proof. intros Hh. unfold not_on_reload. destruct reload; [apply steady_ret|done]. Qed.

Lemma steady_for_bridge h : (sh_bridge s <> None -> steady s (h w)) -> steady s (for_bridge reload h w).
Proof.
  intros Hh. apply steady_not_on_reload. intros r Hr. wp_step.
  destruct (rd_bridge r) eqn:E; [|by wp_step]. apply Hh; [|done]. rewrite <- Hr. cbn. by rewrite E.
Qed.

(** The string that was just parsed is there. *)
Lemma steady_parsed {X} (t : target X) `{!Lawful t} (l : lens X (option str)) rest k :
  (forall a x, lget l (lset l a x) = a) -> (forall r, shape_of r = s -> exists x, t_get t r = Some x) ->
  (forall a, steady s (update t (lset l a))) -> (forall v, steady s (k v)) ->
  steady s (or_inval (_conf_parse_string t l rest) (v ← read_field t l; v ← unwrap v; k v)).
Proof.
  intros Hl Ht Hu Hk r Hr. unfold or_inval, _conf_parse_string. wp_step.
  destruct (strtok [] rest) as [[token ?]|]; [|by repeat wp_step]. wp_step.
  destruct (Ht r Hr) as [x Hx]. exists x. split; [done|]. destruct (lget l x); [by repeat wp_step|]. wp_step.
  exists x. split; [done|]. wp_step. change (negb (MOSQ_ERR_SUCCESS =? MOSQ_ERR_SUCCESS)) with false. cbv iota. wp_step.
  eexists. split; [by eapply get_set|]. rewrite Hl. wp_step. eexists. split; [reflexivity|]. apply Hk.
  pose proof (Hu (Some (skip_blanks token)) r Hr) as Hsh. rewrite wp_update in Hsh. destruct Hsh as (x' & Hx' & Hsh).
  rewrite Hx in Hx'. by injection Hx' as <-.
Qed.

Lemma steady_bind_address : steady s (opt_bind_address reload w).
Proof.
  apply steady_not_on_reload. apply (steady_parsed the_config); [done|by eexists|intros a; by repeat steady_step|].
  intros v. by repeat steady_step.
Qed.

Lemma steady_mount_point : steady s (opt_mount_point reload w).
Proof.
  apply steady_not_on_reload. steady_step; [steady_step|]. steady_step; [steady_step|].
  apply (steady_parsed the_listener); [done|by apply listener_there|intros v; by apply steady_listener|].
  intros m. by repeat steady_step.
Qed.

Lemma text_after_some rest : w_behind w <> None -> is_Some (text_after w rest).
Proof. intros Hw. unfold text_after. destruct rest; [|by eexists]. destruct (w_blank_end w); [by eexists|]. by destruct (w_behind w). Qed.

Lemma steady_auth_opt : w_behind w <> None -> steady s (opt_auth_opt w).
Proof.
  intros Hw. unfold opt_auth_opt. case_match; [apply steady_ret|]. apply steady_bind; [by apply steady_unwrap, text_after_some|].
  intros v. by repeat steady_step.
Qed.

Lemma steady_log_dest : w_behind w <> None -> steady s (opt_log_dest w).
Proof.
  intros Hw. unfold opt_log_dest. repeat steady_step. by apply steady_unwrap, text_after_some.
Qed.

(** While a topic is read the bridge has one. *)
Definition has_topic (r : reader) : Prop :=
  shape_of r = s /\ exists b, t_get the_bridge r = Some b /\ b_topics (cb_core b) <> [].

Lemma wp_topic_update f (Q : unit -> reader -> Prop) r :
  (forall b, b_topics (cb_core b) <> [] -> b_topics (cb_core (f b)) <> []) ->
  has_topic r -> (forall r', has_topic r' -> Q tt r') -> wp (update the_bridge f) Q r.
Proof.
  intros Hf (Hr & b & Hb & Ht) HQ. rewrite wp_update. exists b. split; [done|]. apply HQ.
  split; [by rewrite shape_set_bridge|]. exists (f b). split; [by eapply get_set|by apply Hf].
Qed.

Lemma upd_last_nonempty {A} (f : A -> A) l : l <> [] -> upd_last f l <> [].
Proof. intros Hl E. apply (f_equal length) in E. unfold upd_last in E. rewrite length_alter in E. by destruct l. Qed.

Lemma wp_upd_topic f (Q : unit -> reader -> Prop) r : has_topic r -> (forall r', has_topic r' -> Q tt r') -> wp (upd_topic f) Q r.
Proof. intros Hr HQ. apply wp_topic_update; [|done..]. intros b Hb. by apply upd_last_nonempty. Qed.

Ltac topic_step :=
  match goal with
  | |- wp (upd_topic _ ≫= _) _ _ => rewrite wp_bind; apply wp_upd_topic; [assumption|intros ? ?]
  | |- wp (write_field the_bridge (bcore b_topic_remapping) _ ≫= _) _ _ =>
    rewrite wp_bind; apply wp_topic_update; [done|assumption|intros ? ?]
  | |- wp (match ?x with _ => _ end) _ _ => destruct x eqn:?
  | |- wp done_ok _ _ => unfold done_ok
  | |- wp (mret _) _ _ => rewrite wp_ret; solve [eauto]
  end.

Lemma wp_topic_words rest r : has_topic r -> wp (topic_words rest) (fun _ r' => has_topic r') r.
Proof. intros Hr. unfold topic_words, topic_prefixes. cbv zeta. repeat topic_step. Qed.

Lemma wp_topic_join r : has_topic r -> wp topic_join (fun _ r' => shape_of r' = s) r.
Proof.
  intros Hr. unfold topic_join, last_topic. wp_step. pose proof Hr as (Hsh & b & Hb & Ht). exists b. split; [done|]. wp_step.
  destruct (last (b_topics (cb_core b))) as [t|] eqn:E; [|by apply last_None in E]. exists t. split; [done|].
  case_match; [by wp_step|]. unfold done_ok. wp_step. apply wp_upd_topic; [done|]. intros r' [Hr' _]. done.
Qed.

Lemma steady_topic : steady s (opt_topic reload w).
Proof.
  apply steady_for_bridge. intros Hb. steady_step; [|apply steady_ret]. steady_step.
  intros r Hr. wp_step. destruct (bridge_there s Hs r Hb Hr) as [b Hx]. exists b. split; [done|].
  rewrite wp_bind. eapply wp_mono; [apply wp_topic_words|].
  - split; [by rewrite shape_set_bridge|]. eexists. split; [by eapply get_set|]. cbn. by destruct (b_topics (cb_core b)).
  - intros rc r' Hr'. cbv beta. case_match; [wp_step; apply Hr'|by apply wp_topic_join].
Qed.
End options_steady.

#[export] Hint Extern 1 (steady _ (not_on_reload _ _ _)) => apply steady_not_on_reload; cbv beta : steady.
#[export] Hint Extern 1 (steady _ (for_bridge _ _ _)) => apply steady_for_bridge; intros ?; cbv beta : steady.
#[export] Hint Resolve steady_bind_address steady_mount_point steady_auth_opt steady_log_dest steady_topic : steady.

(** * All options *)

Section good.
Context `{Files} (reload nested : bool).

(** In a file that is included no pointer moves; in the main file they stay valid until
    an error ends the reading. *)
Definition good (m : R Z) : Prop :=
  if nested then forall s, shape_ok s -> steady s m
  else forall r, shape_ok (shape_of r) -> wp m (fun rc r' => rc = MOSQ_ERR_SUCCESS -> shape_ok (shape_of r')) r.

Lemma good_steady m : (forall s, shape_ok s -> steady s m) -> good m.
Proof.
  intros Hm. unfold good. destruct nested; [done|]. intros r Hr. eapply wp_mono; [by apply (Hm _ Hr)|].
  intros rc r' E _. by rewrite E.
Qed.

Ltac good_option :=
  cbn [o_run o_is opt opt2]; intros ? ?; apply good_steady; intros ? ?;
  lazymatch goal with
  | |- steady _ (?h _) => first [solve [auto with steady] | let f := option_head h in unfold f]
  end;
  try first [apply steady_for_bridge; intros ?; cbv beta | apply steady_not_on_reload; cbv beta];
  unfold file_option, without_psk_hint, no_psk, no_certificate; repeat steady_step.

Lemma good_connection w : w_token w = lit "connection" -> words_safe nested w = true -> good (opt_connection reload w).
Proof.
  intros Ht Hw. unfold good, words_safe in *. rewrite Ht in Hw. destruct nested; [by rewrite andb_false_r in Hw|].
  intros r Hr. unfold opt_connection, not_on_reload. destruct reload; [unfold done_ok; by wp_step|].
  destruct (strtok _ _) as [[name ?]|]; wp_step; [|done]. unfold done_ok. wp_step. destruct Hr as [Hl _].
  split; [exact Hl|]. intros i [= <-]. cbn. rewrite length_app. cbn. lia.
Qed.

Lemma good_listener w : w_token w = lit "listener" -> words_safe nested w = true -> good (opt_listener reload w).
Proof.
  intros Ht Hw. unfold good, words_safe in *. rewrite Ht in Hw. destruct nested; [by rewrite andb_false_r in Hw|].
  intros r Hr. unfold opt_listener, not_on_reload. destruct reload; [unfold done_ok; by wp_step|].
  destruct (strtok _ _) as [[port rest]|]; wp_step; [|done]. case_match; wp_step; [done|].
  rewrite get_new_listener. eexists. split; [done|]. unfold done_ok. wp_step. rewrite set_new_listener.
  destruct Hr as [_ Hb]. split; [|exact Hb]. intros i [= <-]. cbn. rewrite length_app. cbn. lia.
Qed.

(** The files that can be included leave the pointers of the including file alone. *)
Definition includes_steady (include : option (str -> R Z)) : Prop :=
  forall read, include = Some read -> nested = false /\ forall dir names name s,
    opendir dir = Some names -> name ∈ names -> shape_ok s -> steady s (read (dir ++ lit "/" ++ name)).

Lemma good_include_dir include w : includes_steady include -> w_token w = lit "include_dir" ->
  words_safe nested w = true -> good (opt_include_dir include w).
Proof.
  intros Hinc Ht Hw. unfold words_safe in Hw. rewrite Ht in Hw.
  apply andb_true_iff in Hw as [[_ Hd]%andb_true_iff _]. change (streq _ _) with true in Hd. cbn in Hd.
  apply bool_decide_eq_true in Hd. apply good_steady. intros s Hs. unfold opt_include_dir.
  destruct include as [read|]; [|apply steady_ret]. destruct (Hinc read eq_refl) as [_ Hread].
  apply steady_bind; [apply steady_unwrap; by destruct (strtok _ _)|]. intros token.
  destruct (opendir token.1) as [names|] eqn:E; [|apply steady_ret].
  assert (forall l, (forall name, name ∈ l -> name ∈ names) -> steady s (include_files read token.1 l)) as Hl; [|by apply Hl].
  induction l as [|name l IH]; intros Hin; cbn [include_files]; [apply steady_ret|].
  assert (steady s (include_files read token.1 l)) as IH' by (apply IH; intros ? ?; apply Hin; by right).
  case_match; [|done]. apply steady_bind; [eapply Hread; [done| |done]; apply Hin; by left|].
  intros rc. case_match; [apply steady_ret|done].
Qed.

Lemma options_good include w : includes_steady include -> w_behind w <> None -> 
  Forall (fun o => o_is o (w_token w) = true -> words_safe nested w = true -> good (o_run o w)) (options reload include).
Proof.
  intros Hinc Hw. unfold options. repeat (constructor; [try solve [good_option]|]); [..|constructor].
  - intros Ht%bool_decide_eq_true. by apply good_connection.
  - intros Ht%bool_decide_eq_true. by apply good_include_dir.
  - intros Ht%bool_decide_eq_true. by apply good_listener.
Qed.

Lemma good_run_option include w : includes_steady include -> words_safe nested w = true -> good (run_option reload include w).
Proof.
  intros Hinc Hw. assert (w_behind w <> None) as Hb.
  { unfold words_safe in Hw. rewrite !andb_true_iff, bool_decide_eq_true in Hw. apply Hw. }
  unfold run_option. destruct (List.find _ _) as [o|] eqn:E; [|apply good_steady; intros; apply steady_ret].
  apply List.find_some in E as [Hin Ho]. apply list_elem_of_In in Hin.
  pose proof (options_good include w Hinc Hb) as F. rewrite Forall_forall in F. by apply F.
Qed.

Lemma good_bind_ok m k : good m -> good k -> good (rc ← m; if negb (rc =? MOSQ_ERR_SUCCESS) then mret rc else k).
Proof.
  unfold good. destruct nested; intros Hm Hk.
  - intros s Hs. apply steady_bind; [by apply Hm|]. intros rc. case_match; [apply steady_ret|by apply Hk].
  - intros r Hr. wp_step. eapply wp_mono; [by apply Hm|]. intros rc r' Hr'. cbv beta.
    destruct (Z.eqb_spec rc MOSQ_ERR_SUCCESS) as [->|?]; cbn [negb]; [by apply Hk, Hr'|]. by wp_step.
Qed.

Lemma good_read_lines include file lineno lines : includes_steady include -> forallb (line_safe nested) lines = true ->
  good (read_lines reload include file lineno lines).
Proof.
  intros Hinc. revert lineno. induction lines as [|buf lines IH]; intros lineno; cbn [read_lines forallb].
  { intros _. apply good_steady. intros. apply steady_ret. }
  intros [Hl Hls]%andb_true_iff. unfold line_safe in Hl.
  assert (exists o, split_line (leftover file lineno) buf = Some o /\
    (forall w, o = Some w -> words_safe nested w = true)) as (o & Eo & Ho).
  { unfold split_line in *. destruct (_ || _); [by eexists|]. destruct (strip_eol_unguarded buf); [|done].
    eexists. split; [done|]. destruct (strtok _ _) as [[token rest]|]; [|done]. intros w [= <-].
    unfold words_safe in *. cbn in *. by repeat case_match. }
  rewrite Eo. change (good (rc ← match o with Some w => run_option reload include w | None => mret MOSQ_ERR_SUCCESS end;
    if negb (rc =? MOSQ_ERR_SUCCESS) then mret rc else read_lines reload include file (S lineno) lines)).
  apply good_bind_ok; [|by apply IH]. destruct o as [w|]; [by apply good_run_option; [|apply Ho]|].
  apply good_steady. intros. apply steady_ret.
Qed.
End good.

(** * Files *)

Section defined.
Context `{Files} (reload : bool).

(** A file that is included. *)
Lemma steady_included file s : file_safe true file = true -> shape_ok s -> steady s (read_file_with reload None file).
Proof.
  intros Hf Hs. unfold file_safe, read_file_with in *. destruct (file_contents file) as [contents|]; [|apply steady_ret].
  assert (good true (read_lines reload None file 1 (file_lines CONF_LINE contents))) as Hg by by apply good_read_lines.
  intros r Hr. unfold _config_read_file_core. wp_step. eapply wp_mono.
  { apply (Hg (Shape None None (sh_listeners s) (sh_bridges s))); [done|]. by rewrite <- Hr. }
  intros rc r' Hr'. cbv beta. wp_step. rewrite <- Hr in *. injection Hr' as E1 E2 E3 E4. unfold shape_of. cbn. by rewrite E3, E4.
Qed.

(** The files in a directory. *)
Definition directories_safe : Prop :=
  forall dir names name, opendir dir = Some names -> name ∈ names -> file_safe true (dir ++ lit "/" ++ name) = true.

Lemma wp_main_file file r : directories_safe -> file_safe false file = true -> wp (_config_read_file reload 0 file) (fun _ _ => True) r.
Proof.
  intros Hd Hf. cbn [_config_read_file]. unfold file_safe in Hf. unfold read_file_with at 1.
  destruct (file_contents file) as [contents|]; [|by wp_step]. unfold _config_read_file_core. wp_step.
  eapply wp_mono.
  { assert (includes_steady false (Some (read_file_with reload None))) as Hinc.
    { intros read [= <-]. split; [done|]. intros dir names name s Hdir Hin. apply steady_included. by eapply Hd. }
    apply (good_read_lines reload false _ file 1 _ Hinc Hf). by split. }
  intros rc r' _. cbv beta. by wp_step.
Qed.

(** C8: At the start and on a reload, reading the configuration does not fault: no pointer to
    the listeners or bridges dangles and no buffer is left, if no line of the files begins with
    a NUL or ends with the buffer instead of a newline, each include_dir names a directory, and
    the files in directories open neither listeners nor connections. *)
Theorem config_read_defined g : directories_safe ->
  (forall file, g_config_file g = Some file -> file_safe false file = true) ->
  exists rc g', mqtt3_config_read reload g = Some (rc, g').
Proof.
  intros Hd Hf. assert (wp (mqtt3_config_read reload) (fun _ _ => True) g) as Hw.
  { unfold mqtt3_config_read. wp_step. destruct (g_config_file g) as [file|]; [|by wp_step]. wp_step.
    rewrite wp_eq. unfold with_reader.
    match goal with |- context [_config_read_file _ _ _ ?r] => pose proof (wp_main_file file r Hd (Hf _ eq_refl)) as Hm end.
    rewrite wp_eq in Hm. destruct (_config_read_file _ _ _ _) as [[rc r]|]; [|done].
    case_match; [by wp_step|]. unfold finish_read. wp_step. case_match; by repeat wp_step. }
  apply wp_some in Hw as (rc & g' & E & _). by exists rc, g'.
Qed.
End defined.

(** * Examples *)

(** A main file that includes another, with the settings of a listener before it. *)
Definition including_files (included : string) : Files :=
  files_of [(lit "m.conf", text ["listener 1883"; "include_dir d"; "max_connections 5"]%string);
            (lit "d/a.conf", text [included])]
    [(lit "d", [lit "a.conf"; lit "notes"])] [].
Arguments including_files included%_string.

Definition configured (file : str) : config := mqtt3_config_init <| g_config_file := Some file |>.

Lemma including_safe : @directories_safe (including_files "allow_anonymous false")
  /\ @file_safe (including_files "allow_anonymous false") false (lit "m.conf") = true.
Proof.
  split; [|by vm_compute]. intros dir names name Hd Hin. cbn in Hd. unfold lookup_str in Hd. cbn in Hd.
  unfold streq in Hd. destruct (decide (lit "d" = dir)) as [<-|Hne]; [|by rewrite bool_decide_eq_false_2 in Hd].
  rewrite bool_decide_eq_true_2 in Hd by done. cbn in Hd. injection Hd as <-.
  apply elem_of_cons in Hin as [->|Hin]; [by vm_compute|]. apply list_elem_of_singleton in Hin as ->. by vm_compute.
Qed.

Lemma config_read_defined_witness : exists rc g',
  @mqtt3_config_read (including_files "allow_anonymous false") false (configured (lit "m.conf")) = Some (rc, g').
Proof.
  destruct including_safe as [Hd Hf]. apply (@config_read_defined (including_files "allow_anonymous false") false); [exact Hd|].
  intros file [= <-]. exact Hf.
Defined.

(** A listener in the included file: [cur_listener] of the main file is left dangling. *)
Lemma include_dangles :
  @mqtt3_config_read (including_files "listener 1884") false (configured (lit "m.conf")) = None.
Proof. vm_compute. reflexivity. Qed.

(** The file of one text. *)
Definition one_file (contents behind : str) : Files := files_of [(lit "m.conf", contents)] [] behind.
Definition read_text (contents behind : str) : option (Z * config) :=
  @mqtt3_config_read (one_file contents behind) false (configured (lit "m.conf")).

(** The missing name of a directory is reported, and then used. *)
Lemma include_without_name : read_text (text ["include_dir"]%string) [] = None.
Proof. vm_compute. reflexivity. Qed.

(** An option without a value at the end of a file takes what is left in the buffer. *)
Lemma auth_opt_reads_leftover :
  (fun r => g_auth_options r.2) <$> read_text (lit "auth_opt_host") (lit "old text") = Some [(lit "host", lit "old text")].
Proof. vm_compute. reflexivity. Qed.

(** Keys of one or two characters are refused, whatever the value. *)
Lemma auth_opt_short_key : fst <$> read_text (text ["auth_opt_db value"]%string) [] = Some MOSQ_ERR_INVAL.
Proof. vm_compute. reflexivity. Qed.

(** An address of colons stays a pointer into the buffer; the configuration is accepted, and
    freeing it faults. *)
Lemma address_of_colons_dangles : exists g,
  read_text (text ["connection b"; "address :"; "topic t"]%string) [] = Some (MOSQ_ERR_SUCCESS, g)
  /\ map cb_addresses (g_bridges g) = [[InBuffer (lit ":")]] /\ mqtt3_config_cleanup g = None.
Proof. eexists. split; [vm_compute; reflexivity|]. split; vm_compute; reflexivity. Qed.

(** A boolean that is misspelt is reported, not refused. *)
Lemma misspelt_bool_is_accepted :
  (fun r => (r.1, cf_allow_anonymous (g_core r.2))) <$> read_text (text ["allow_anonymous no"]%string) []
  = Some (MOSQ_ERR_SUCCESS, true).
Proof. vm_compute. reflexivity. Qed.

(** Certificates and a hint for pre-shared keys exclude each other in one order only. *)
Lemma psk_hint_order :
  fst <$> read_text (text ["listener 8883"; "psk_hint h"; "cafile a"]%string) [] = Some MOSQ_ERR_INVAL
  /\ fst <$> read_text (text ["listener 8883"; "cafile a"; "psk_hint h"]%string) [] = Some MOSQ_ERR_SUCCESS.
Proof. split; vm_compute; reflexivity. Qed.
