(* ===== verification/ConfText.v ===== *)
(** A configuration that is written out is read back: [render] writes statements as lines
    of a configuration file, [meaning] says what each of them changes, and the reader of
    src/conf.c makes exactly these changes. *)

From stdpp Require Import pretty.
From S2P Require Export ConfSafe.

#[local] Open Scope Z_scope.

(** * Numbers *)

Definition decimal (n : Z) : str := lit (pretty (Z.to_N n)).

Lemma digit_pretty x : (x < 10)%N -> digit (pretty_N_char x) = Some (Z.of_N x).
Proof.
  intros Hx. assert (x = 0 \/ x = 1 \/ x = 2 \/ x = 3 \/ x = 4 \/ x = 5 \/ x = 6 \/ x = 7 \/ x = 8 \/ x = 9)%N as E by lia.
  by repeat destruct E as [->|E]; subst.
Qed.

Lemma digits_pretty_go x s : digits 0 (lit (pretty_N_go x s)) = digits (Z.of_N x) (lit s).
Proof.
  revert s. induction (N.lt_wf_0 x) as [x _ IH]. intros s. destruct (decide (x = 0)%N) as [->|Hx]; [done|].
  rewrite pretty_N_go_step, IH by (try apply N.div_lt; lia). unfold lit. cbn [String.list_ascii_of_string digits].
  rewrite digit_pretty by (apply N.mod_lt; lia). f_equal. pose proof (N.div_mod x 10). lia.
Qed.

(** A character of a number. *)
Definition is_digit (b : byte) : Prop := exists d, digit b = Some d.

Lemma pretty_go_digits x s : Forall is_digit (lit s) -> Forall is_digit (lit (pretty_N_go x s)).
Proof.
  revert s. induction (N.lt_wf_0 x) as [x _ IH]. intros s Hs. destruct (decide (x = 0)%N) as [->|Hx]; [done|].
  rewrite pretty_N_go_step by lia. apply IH; [apply N.div_lt; lia|]. constructor; [|done].
  eexists. apply digit_pretty, N.mod_lt. lia.
Qed.

Lemma decimal_digits n : Forall is_digit (decimal n).
Proof.
  unfold decimal, pretty, pretty_N. case_decide; [|apply pretty_go_digits; constructor].
  repeat constructor. by eexists.
Qed.

Lemma decimal_nonempty n : decimal n <> [].
Proof.
  intros E. assert (digits 7 (decimal n) = 7) as E7 by by rewrite E.
  unfold decimal, pretty, pretty_N in *. case_decide; [done|].
  assert (forall x s, lit s <> [] -> lit (pretty_N_go x s) <> []) as Hne.
  { intros x. induction (N.lt_wf_0 x) as [x _ IH]. intros s Hs. destruct (decide (x = 0)%N) as [->|Hx]; [done|].
    rewrite pretty_N_go_step by lia. apply IH; [apply N.div_lt; lia|done]. }
  rewrite pretty_N_go_step in E by lia. by apply Hne in E.
Qed.

Lemma is_digit_range b : is_digit b -> 48 <= Z_of_byte b <= 57.
Proof. intros [d Hd]. unfold digit in Hd. case_match; [lia|done]. Qed.

Lemma is_digit_not_space b : is_digit b -> is_space b = false.
Proof.
  intros Hb%is_digit_range. apply bool_decide_eq_false. rewrite !elem_of_cons. intros E.
  repeat destruct E as [->|E]; try (by vm_compute in Hb; destruct Hb). by apply elem_of_nil in E.
Qed.

Lemma decimal_atoi n : 0 <= n < 2 ^ 31 -> atoi (decimal n) = n.
Proof.
  intros Hn. assert (digits 0 (decimal n) = n) as Hd.
  { unfold decimal, pretty, pretty_N. case_decide as E; [transitivity 0; [reflexivity|lia]|].
    rewrite digits_pretty_go. cbn. lia. }
  unfold atoi. pose proof (decimal_digits n) as F. pose proof (decimal_nonempty n) as Hne.
  destruct (decimal n) as [|b s]; [done|]. apply Forall_cons in F as [Hb _]. cbn [skip_space].
  rewrite is_digit_not_space by done. pose proof (is_digit_range b Hb) as Hr.
  assert (b <> "-"%char /\ b <> "+"%char) as [H1 H2] by (split; intros ->; vm_compute in Hr; by destruct Hr).
  assert (s32 (clamp_long (digits 0 (b :: s))) = n) as E.
  { rewrite Hd. unfold s32, clamp_long. rewrite Z.min_l, Z.max_r by lia. rewrite Z.mod_small by lia. lia. }
  by destruct b as [[] [] [] [] [] [] [] []].
Qed.

(** * Words and lines *)

Definition word_char (b : byte) : Prop := b ∉ [SPACE; LF; CR; NUL].
Definition word_ok (w : str) : Prop := w <> [] /\ Forall word_char w.

(** Words with a blank between them, and the line of them. *)
Fixpoint unwords (ws : list str) : str :=
  match ws with
  | [] => []
  | [w] => w
  | w :: ws => w ++ SPACE :: unwords ws
  end.

Definition line_of (ws : list str) : str := unwords ws ++ [LF].

(** A line that begins with the name of an option, with at most as many characters as the buffer takes. *)
Definition statement_ok (ws : list str) : Prop :=
  Forall word_ok ws /\ (exists w, head ws = Some w /\ head w <> Some HASH) /\ (length (unwords ws) < CONF_LINE)%nat.

Lemma word_no_space w : word_ok w -> Forall (fun b => b ∉ [SPACE]) w.
Proof. intros [_ Hw]. eapply Forall_impl; [exact Hw|]. intros b Hb ->%list_elem_of_singleton. apply Hb. by left. Qed.

Lemma unwords_cons w w' ws : unwords (w :: w' :: ws) = w ++ SPACE :: unwords (w' :: ws).
Proof. done. Qed.

Lemma strtok_unwords w ws : word_ok w -> strtok [SPACE] (unwords (w :: ws)) = Some (w, unwords ws).
Proof.
  intros Hw. pose proof (word_no_space w Hw). destruct Hw as [Hne _]. destruct ws as [|w' ws].
  - by apply strtok_all.
  - rewrite unwords_cons. apply strtok_app; [done|done|by left].
Qed.

Lemma words_unwords n ws : Forall word_ok ws -> (length ws <= n)%nat -> words n (unwords ws) = ws.
Proof.
  intros Hws. revert n. induction Hws as [|w ws Hw Hws IH]; intros n Hn; [by destruct n|].
  destruct n as [|n]; [cbn in Hn; lia|]. cbn [words]. rewrite strtok_unwords by done. f_equal. apply IH. cbn in Hn. lia.
Qed.

Lemma unwords_length ws : Forall word_ok ws -> (length ws <= length (unwords ws))%nat.
Proof.
  induction 1 as [|w ws [Hne _] Hws IH]; [done|]. destruct ws as [|w' ws].
  - destruct w; [done|]. cbn. lia.
  - rewrite unwords_cons, length_app. cbn [length] in *. lia.
Qed.

Lemma unwords_chars ws : Forall word_ok ws -> Forall (fun b => b ∉ [LF; CR; NUL]) (unwords ws).
Proof.
  assert (forall w, word_ok w -> Forall (fun b => b ∉ [LF; CR; NUL]) w) as Hw.
  { intros w [_ Hw]. eapply Forall_impl; [exact Hw|]. intros b Hb Hin. apply Hb. by right. }
  induction 1 as [|w ws H Hws IH]; [constructor|]. destruct ws as [|w' ws]; [by apply Hw|].
  rewrite unwords_cons. apply Forall_app. split; [by apply Hw|]. constructor; [|done].
  by apply (bool_decide_unpack _); vm_compute.
Qed.

Lemma unwords_last w ws : Forall word_ok (w :: ws) -> last (unwords (w :: ws)) <> Some SPACE.
Proof.
  assert (forall w, word_ok w -> last w <> Some SPACE) as Hl.
  { intros w0 [_ Hw] E. apply last_Some in E as [l ->]. apply Forall_app in Hw as [_ Hw].
    rewrite Forall_singleton in Hw. apply Hw. by left. }
  revert w. induction ws as [|w' ws IH]; intros w Hws; apply Forall_cons in Hws as [Hw Hws]; [by apply Hl|].
  rewrite unwords_cons. rewrite last_app, last_cons. pose proof (IH w' Hws) as IHw.
  destruct (unwords (w' :: ws)) as [|b k] eqn:E.
  - exfalso. pose proof (unwords_length _ Hws) as Hlen. rewrite E in Hlen. cbn in Hlen. lia.
  - destruct (last (b :: k)) as [c|] eqn:El; [exact IHw|]. by apply last_None in El.
Qed.

Lemma unwords_head w ws : word_ok w -> head (unwords (w :: ws)) = head w.
Proof. intros [Hne _]. destruct w as [|b w]; [done|]. by destruct ws. Qed.

Lemma line_of_ok ws : Forall word_ok ws -> (length (unwords ws) < CONF_LINE)%nat -> line_ok CONF_LINE (line_of ws).
Proof.
  intros Hws Hlen. exists (unwords ws). pose proof (unwords_chars ws Hws) as Hc. rewrite Forall_forall in Hc.
  split_and!; [done| | |unfold line_of; rewrite length_app; cbn; unfold CONF_LINE in *; lia].
  - intros Hin. apply (Hc _ Hin). by left.
  - intros Hin. apply (Hc _ Hin). right. right. by left.
Qed.

Lemma split_statement behind w ws : statement_ok (w :: ws) ->
  split_line behind (line_of (w :: ws)) = Some (Some (ConfLine w (unwords ws) false (Some []))).
Proof.
  intros (Hws & (w0 & [= <-] & Hh) & _). pose proof (unwords_chars _ Hws) as Hc.
  pose proof (unwords_last w ws Hws) as Hl. apply Forall_cons in Hws as [Hw Hws].
  pose proof (unwords_head w ws Hw) as Hhd. unfold split_line, line_of.
  destruct (unwords (w :: ws)) as [|b k] eqn:E; [destruct Hw as [Hne _]; by destruct w|].
  apply Forall_cons in Hc as [Hb Hk]. cbn [app]. cbn in Hhd.
  change (cget (b :: k ++ [LF]) 0) with b. rewrite bool_decide_eq_false_2 by congruence.
  assert (b <> LF /\ b <> CR) as [H1 H2] by (split; intros ->; apply Hb; rewrite !elem_of_cons; tauto).
  unfold is_eol. rewrite !bool_decide_eq_false_2 by done. cbn [orb].
  unfold strip_eol_unguarded. change (b :: k ++ [LF]) with ((b :: k) ++ [LF]). rewrite strip_eol_line.
  - rewrite <- E, strtok_unwords, E by done. rewrite length_app, Nat.add_1_r.
    rewrite (proj2 (Nat.ltb_lt _ _)) by lia. by rewrite bool_decide_eq_false_2.
  - constructor; [done|]. eapply Forall_impl; [exact Hk|]. intros c Hcc. split; intros ->; apply Hcc; rewrite !elem_of_cons; tauto.
Qed.

(** * Reading lines one after the other *)

Section runs.
Context `{Files} (reload : bool) (include : option (str -> R Z)).

(** From [r] the lines are accepted, and what follows is read from [r']. *)
Definition runs (lines : list str) (r r' : reader) : Prop := forall file lineno rest,
  read_lines reload include file lineno (lines ++ rest) r
  = read_lines reload include file (lineno + length lines)%nat rest r'.

Lemma runs_nil r : runs [] r r.
Proof. intros file lineno rest. cbn. by rewrite Nat.add_0_r. Qed.

Lemma runs_app l1 l2 r1 r2 r3 : runs l1 r1 r2 -> runs l2 r2 r3 -> runs (l1 ++ l2) r1 r3.
Proof.
  intros H1 H2 file lineno rest. rewrite <- app_assoc, H1, H2, length_app. f_equal. lia.
Qed.

Lemma runs_line w ws r r' : statement_ok (w :: ws) ->
  run_option reload include (ConfLine w (unwords ws) false (Some [])) r = Some (MOSQ_ERR_SUCCESS, r') ->
  runs [line_of (w :: ws)] r r'.
Proof.
  intros Hs Hr file lineno rest. cbn [app read_lines length]. rewrite split_statement by done.
  unfold mbind, st_bind, unwrap, mret, st_ret. rewrite Hr. cbn. by rewrite Nat.add_1_r.
Qed.

Lemma runs_step w ws lines r r' r'' : statement_ok (w :: ws) ->
  run_option reload include (ConfLine w (unwords ws) false (Some [])) r = Some (MOSQ_ERR_SUCCESS, r') ->
  runs lines r' r'' -> runs (line_of (w :: ws) :: lines) r r''.
Proof. intros Hs Hr. apply (runs_app [_]). by apply runs_line. Qed.
End runs.

(** * Statements *)

(** A topic of a bridge; [None] is the empty topic and the empty prefix. *)
Record topic_stmt := TopicStmt {
  ts_topic : option str;
  ts_direction : mqtt3_bridge_direction;
  ts_qos : Z;
  ts_local : option str;
  ts_remote : option str }.

Record bridge_stmt := BridgeStmt {
  bs_name : str;
  bs_addresses : list (str * Z);
  bs_keepalive : Z;
  bs_cleansession : bool;
  bs_clientid : option str;
  bs_username : option str;
  bs_password : option str;
  bs_topics : list topic_stmt }.

Record listener_stmt := ListenerStmt {
  ls_port : Z;
  ls_host : option str;
  ls_max_connections : Z;
  ls_mount_point : option str }.

Inductive stmt :=
| AllowAnonymous (b : bool)
| Persistence (b : bool)
| RetryInterval (n : Z)
| PasswordFile (name : str)
| AclFile (name : str)
| AListener (l : listener_stmt)
| ABridge (b : bridge_stmt).

(** ** How they are written *)

Definition bool_word (b : bool) : str := if b then lit "true" else lit "false".
Definition direction_word (d : mqtt3_bridge_direction) : str :=
  match d with bd_out => lit "out" | bd_in => lit "in" | bd_both => lit "both" end.
Definition or_empty (o : option str) : str := default EMPTY_WORD o.

Definition topic_line (t : topic_stmt) : list str :=
  [lit "topic"; or_empty (ts_topic t); direction_word (ts_direction t); decimal (ts_qos t);
   or_empty (ts_local t); or_empty (ts_remote t)].

Definition address_word (a : str * Z) : str := a.1 ++ COLON :: decimal a.2.

(** A line for what is given. *)
Definition given (name : str) (o : option str) : list (list str) :=
  match o with Some v => [[name; v]] | None => [] end.

Definition listener_lines (l : listener_stmt) : list (list str) :=
  (lit "listener" :: decimal (ls_port l) :: match ls_host l with Some h => [h] | None => [] end)
  :: [lit "max_connections"; decimal (ls_max_connections l)]
  :: given (lit "mount_point") (ls_mount_point l).

Definition bridge_lines (b : bridge_stmt) : list (list str) :=
  [[lit "connection"; bs_name b];
   lit "addresses" :: map address_word (bs_addresses b);
   [lit "keepalive_interval"; decimal (bs_keepalive b)];
   [lit "cleansession"; bool_word (bs_cleansession b)]]
  ++ given (lit "remote_clientid") (bs_clientid b)
  ++ given (lit "remote_username") (bs_username b)
  ++ given (lit "remote_password") (bs_password b)
  ++ map topic_line (bs_topics b).

Definition stmt_lines (st : stmt) : list (list str) :=
  match st with
  | AllowAnonymous b => [[lit "allow_anonymous"; bool_word b]]
  | Persistence b => [[lit "persistence"; bool_word b]]
  | RetryInterval n => [[lit "retry_interval"; decimal n]]
  | PasswordFile name => [[lit "password_file"; name]]
  | AclFile name => [[lit "acl_file"; name]]
  | AListener l => listener_lines l
  | ABridge b => bridge_lines b
  end.

Definition render (sts : list stmt) : list byte := concat (map line_of (concat (map stmt_lines sts))).

(** ** What they mean *)

Definition topic_meaning (t : topic_stmt) : _mqtt3_bridge_topic :=
  BridgeTopic (ts_topic t) (ts_qos t) (ts_direction t) (ts_local t) (ts_remote t)
    (default [] (ts_local t) ++ default [] (ts_topic t)) (default [] (ts_remote t) ++ default [] (ts_topic t)).

Definition bridge_meaning (b : bridge_stmt) : conf_bridge :=
  (new_bridge (bs_name b))
    <| cb_addresses := map (fun a => Address a.1 a.2) (bs_addresses b) |>
    <| cb_core ::= (fun c =>
      c <| b_address_count := Z.of_nat (length (bs_addresses b)) |> <| b_keepalive := bs_keepalive b |>
        <| b_clean_session := bs_cleansession b |> <| b_remote_clientid := bs_clientid b |>
        <| b_remote_username := bs_username b |> <| b_remote_password := bs_password b |>
        <| b_topics := map topic_meaning (bs_topics b) |>
        <| b_topic_remapping := negb (bool_decide (bs_topics b = [])) |>) |>.

Definition listener_meaning (l : listener_stmt) : conf_listener :=
  listener_zero
    <| cl_host := ls_host l |>
    <| cl_core ::= (fun c =>
      c <| l_port := ls_port l |> <| l_max_connections := ls_max_connections l |>
        <| l_mount_point := ls_mount_point l |>) |>.

Definition meaning (st : stmt) (g : config) : config :=
  match st with
  | AllowAnonymous b => g <| g_core ::= (fun c => c <| cf_allow_anonymous := b |>) |>
  | Persistence b => g <| g_core ::= (fun c => c <| cf_persistence := b |>) |>
  | RetryInterval n => g <| g_core ::= (fun c => c <| cf_retry_interval := n |>) |>
  | PasswordFile name => g <| g_password_file := Some name |>
  | AclFile name => g <| g_acl_file := Some name |>
  | AListener l => g <| g_listeners ::= (fun k => k ++ [listener_meaning l]) |>
  | ABridge b => g <| g_bridges ::= (fun k => k ++ [bridge_meaning b]) |>
  end.

(** ** Which can be written *)

(** A word that is not read as the empty one. *)
Definition name_word (w : str) : Prop := word_ok w /\ w <> EMPTY_WORD.
Definition prefix_ok (o : option str) : Prop :=
  forall p, o = Some p -> name_word p /\ mosquitto_pub_topic_check p = MOSQ_ERR_SUCCESS.

Record topic_stmt_ok (t : topic_stmt) : Prop := {
  tk_topic p : ts_topic t = Some p -> name_word p;
  tk_qos : 0 <= ts_qos t <= 2;
  tk_local : prefix_ok (ts_local t);
  tk_remote : prefix_ok (ts_remote t);
  tk_some : ts_topic t <> None \/ (ts_local t <> None /\ ts_remote t <> None) }.

Definition port_ok (n : Z) : Prop := 1 <= n <= 65535.
Definition optional_word (o : option str) : Prop := forall w, o = Some w -> word_ok w.

Record bridge_stmt_ok (b : bridge_stmt) : Prop := {
  bk_name : word_ok (bs_name b);
  bk_addresses : Forall (fun a => word_ok a.1 /\ (COLON ∉ a.1) /\ port_ok a.2) (bs_addresses b);
  bk_some : bs_addresses b <> [];
  bk_keepalive : 5 <= bs_keepalive b < 2 ^ 31;
  bk_clientid : optional_word (bs_clientid b);
  bk_username : optional_word (bs_username b);
  bk_password : optional_word (bs_password b);
  bk_topics : Forall topic_stmt_ok (bs_topics b) }.

Record listener_stmt_ok (l : listener_stmt) : Prop := {
  lk_port : port_ok (ls_port l);
  lk_host : optional_word (ls_host l);
  lk_max : 0 <= ls_max_connections l < 2 ^ 31;
  lk_mount p : ls_mount_point l = Some p -> name_word p /\ head p <> Some "009"%char
    /\ mosquitto_pub_topic_check p = MOSQ_ERR_SUCCESS }.

(** File names are given once, and begin with no tab. *)
Definition file_name_ok (w : str) : Prop := word_ok w /\ head w <> Some "009"%char.

Definition stmt_ok (g : config) (st : stmt) : Prop :=
  Forall (fun ws => length (unwords ws) < CONF_LINE)%nat (stmt_lines st) /\
  match st with
  | AllowAnonymous _ | Persistence _ => True
  | RetryInterval n => 1 <= n <= 3600
  | PasswordFile name => file_name_ok name /\ g_password_file g = None
  | AclFile name => file_name_ok name /\ g_acl_file g = None
  | AListener l => listener_stmt_ok l
  | ABridge b => bridge_stmt_ok b
  end.

Fixpoint stmts_ok (g : config) (sts : list stmt) : Prop :=
  match sts with
  | [] => True
  | st :: sts => stmt_ok g st /\ stmts_ok (meaning st g) sts
  end.

(** * Reading statements *)

Lemma wp_run {S A} (m : ST S A) a s s' : wp m (fun x k => x = a /\ k = s') s -> m s = Some (a, s').
Proof. by intros (? & ? & E & -> & ->)%wp_some. Qed.

Lemma word_ok_decimal n : word_ok (decimal n).
Proof.
  split; [apply decimal_nonempty|]. eapply Forall_impl; [apply decimal_digits|]. intros b Hb%is_digit_range.
  intros Hin. rewrite !elem_of_cons in Hin. repeat destruct Hin as [->|Hin]; try (vm_compute in Hb; by destruct Hb).
  by apply elem_of_nil in Hin.
Qed.

#[global] Instance word_ok_dec w : Decision (word_ok w).
Proof. unfold word_ok, word_char. apply _. Defined.

(** [word_ok] of a given word. *)
Ltac word_dec := apply (bool_decide_unpack _); vm_compute; exact I.

Section statements.
Context `{Files} (include : option (str -> R Z)).

Abbreviation runs := (runs false include).

(** An option with one word. *)
Lemma parse_one w : word_ok w -> strtok [SPACE] (unwords [w]) = Some (w, []).
Proof. apply strtok_unwords. Qed.

Lemma bool_word_ok b : word_ok (bool_word b).
Proof. destruct b; word_dec. Qed.

Lemma wp_parse_bool {X} (t : target X) l b Q r x : t_get t r = Some x ->
  Q MOSQ_ERR_SUCCESS (t_set t (lset l b x) r) -> wp (_conf_parse_bool t l (unwords [bool_word b])) Q r.
Proof.
  intros Hx HQ. unfold _conf_parse_bool. rewrite parse_one by apply bool_word_ok.
  destruct b; unfold bool_word.
  - change (streq (lit "true") (lit "false") || streq (lit "true") (lit "0")) with false.
    change (streq (lit "true") (lit "true") || streq (lit "true") (lit "1")) with true.
    cbv iota. wp_step. exists x. split; [done|]. by wp_step.
  - change (streq (lit "false") (lit "false") || streq (lit "false") (lit "0")) with true.
    cbv iota. wp_step. exists x. split; [done|]. by wp_step.
Qed.

Lemma wp_parse_int {X} (t : target X) l n Q r x : 0 <= n < 2 ^ 31 -> t_get t r = Some x ->
  Q MOSQ_ERR_SUCCESS (t_set t (lset l n x) r) -> wp (_conf_parse_int t l (unwords [decimal n])) Q r.
Proof.
  intros Hn Hx HQ. unfold _conf_parse_int. rewrite parse_one by apply word_ok_decimal. rewrite decimal_atoi by done.
  wp_step. exists x. split; [done|]. by wp_step.
Qed.

Lemma skip_blanks_word w : word_ok w -> head w <> Some "009"%char -> skip_blanks w = w.
Proof.
  intros [Hne Hw] Ht. destruct w as [|b w]; [done|]. apply Forall_cons in Hw as [Hb _]. unfold skip_blanks. cbn [skip_delim].
  rewrite decide_False; [done|]. rewrite !elem_of_cons, elem_of_nil. intros [->|[->|[]]]; [apply Hb; by left|done].
Qed.

Lemma wp_parse_word {X} (t : target X) l w Q r x : word_ok w -> head w <> Some "009"%char ->
  t_get t r = Some x -> lget l x = None ->
  Q MOSQ_ERR_SUCCESS (t_set t (lset l (Some w) x) r) -> wp (_conf_parse_string t l (unwords [w])) Q r.
Proof.
  intros Hw Ht Hx Hl HQ. unfold _conf_parse_string. cbn [unwords].
  rewrite strtok_all by (try apply Hw; apply Forall_forall; intros b _; apply not_elem_of_nil).
  wp_step. exists x. split; [done|]. rewrite Hl. wp_step. exists x. split; [done|]. wp_step. by rewrite skip_blanks_word.
Qed.

Lemma wp_or_inval m k Q r : wp m (fun rc r' => rc = MOSQ_ERR_SUCCESS /\ wp k Q r') r -> wp (or_inval m k) Q r.
Proof. intros Hm. unfold or_inval. wp_step. eapply wp_mono; [exact Hm|]. by intros rc r' [-> Hk]. Qed.

(** A line whose option is known. *)
Lemma runs_option name ws run r r' : statement_ok (name :: ws) ->
  (forall rest, run_option false include (ConfLine name rest false (Some [])) = run (ConfLine name rest false (Some []))) ->
  wp (run (ConfLine name (unwords ws) false (Some []))) (fun rc k => rc = MOSQ_ERR_SUCCESS /\ k = r') r ->
  runs [line_of (name :: ws)] r r'.
Proof. intros Hs Hrun Hw. apply runs_line; [done|]. rewrite Hrun. by apply wp_run. Qed.

(** Two words on a line that is not too long. *)
Lemma two_words name v : word_ok name -> head name <> Some HASH -> word_ok v ->
  (length (unwords [name; v]) < CONF_LINE)%nat -> statement_ok [name; v].
Proof. intros Hn Hh Hv Hl. split; [by rewrite !Forall_cons|]. split; [by exists name|done]. Qed.

(** ** Settings of the broker *)

Definition at_config (g : config) (cr : config_recurse) (lp bp : option nat) : reader := Reader g cr lp bp.

Lemma runs_bool name l b g cr lp bp : word_ok name -> head name <> Some HASH ->
  (length (unwords [name; bool_word b]) < CONF_LINE)%nat ->
  (forall rest, run_option false include (ConfLine name rest false (Some []))
    = bool_option the_config l (ConfLine name rest false (Some []))) ->
  runs [line_of [name; bool_word b]] (Reader g cr lp bp) (Reader (lset l b g) cr lp bp).
Proof.
  intros Hn Hh Hlen Hrun. eapply runs_option; [apply two_words; [done..|apply bool_word_ok|done]|exact Hrun|].
  unfold bool_option. apply wp_or_inval. eapply wp_parse_bool; [done|]. split; [done|]. unfold done_ok. by wp_step.
Qed.

Lemma runs_file name l v g cr lp bp : word_ok name -> head name <> Some HASH -> file_name_ok v -> lget l g = None ->
  (length (unwords [name; v]) < CONF_LINE)%nat ->
  (forall rest, run_option false include (ConfLine name rest false (Some []))
    = file_option false l (ConfLine name rest false (Some []))) ->
  runs [line_of [name; v]] (Reader g cr lp bp) (Reader (lset l (Some v) g) cr lp bp).
Proof.
  intros Hn Hh [Hv Ht] Hl Hlen Hrun. eapply runs_option; [by apply two_words|exact Hrun|].
  unfold file_option, string_option. cbn [whenM]. wp_step. apply wp_or_inval.
  eapply wp_parse_word; [done|done|done|done|]. split; [done|]. unfold done_ok. by wp_step.
Qed.

Lemma runs_retry n g cr lp bp : 1 <= n <= 3600 -> (length (unwords [lit "retry_interval"; decimal n]) < CONF_LINE)%nat ->
  runs [line_of [lit "retry_interval"; decimal n]] (Reader g cr lp bp)
    (Reader (lset (gcore cf_retry_interval) n g) cr lp bp).
Proof.
  intros Hn Hlen. eapply (runs_option _ _ (opt_retry_interval)); [by apply two_words; [word_dec|done|apply word_ok_decimal|]|reflexivity|].
  unfold opt_retry_interval. apply wp_or_inval. eapply wp_parse_int; [lia|done|]. split; [done|]. wp_step.
  eexists. split; [done|]. cbn [lget gcore inside fld].
  assert ((n <? 1) || (3600 <? n) = false) as E by lia.
  change (cf_retry_interval (g_core (lset (gcore cf_retry_interval) n g))) with n.
  cbn. rewrite E. unfold done_ok. by wp_step.
Qed.

(** ** Listeners *)

(** The listener that is being configured. *)
Definition at_listener (g : config) (cr : config_recurse) (bp : option nat) (l : conf_listener) : reader :=
  Reader (g <| g_listeners ::= (fun k => k ++ [l]) |>) cr (Some (length (g_listeners g))) bp.

Lemma get_at_listener g cr bp l : t_get the_listener (at_listener g cr bp l) = Some l.
Proof. exact (get_new_listener (Reader g cr None bp) l). Qed.

Lemma set_at_listener g cr bp l l' : t_set the_listener l' (at_listener g cr bp l) = at_listener g cr bp l'.
Proof. exact (set_new_listener (Reader g cr None bp) l l'). Qed.

Lemma runs_new_listener port host g cr lp bp : port_ok port -> optional_word host ->
  let ws := decimal port :: match host with Some h => [h] | None => [] end in
  (length (unwords (lit "listener" :: ws)) < CONF_LINE)%nat ->
  runs [line_of (lit "listener" :: ws)] (Reader g cr lp bp)
    (at_listener g cr bp (listener_zero <| cl_host := host |> <| cl_core ::= (fun c => c <| l_port := port |>) |>)).
Proof.
  intros [Hp1 Hp2] Hh ws Hlen. subst ws. eapply (runs_option _ _ (opt_listener false)); [|reflexivity|].
  - split; [|split; [by eexists|done]]. constructor; [word_dec|]. constructor; [apply word_ok_decimal|].
    destruct host as [h|]; [|done]. rewrite Forall_singleton. by apply Hh.
  - unfold opt_listener, not_on_reload. cbn [w_rest]. rewrite strtok_unwords by apply word_ok_decimal. wp_step. cbn zeta.
    rewrite decimal_atoi by lia. assert ((port <? 1) || (65535 <? port) = false) as -> by lia. wp_step.
    eexists. split; [apply get_new_listener|]. unfold done_ok. wp_step. split; [done|]. rewrite set_new_listener.
    unfold at_listener. destruct host as [h|]; cbn [fmap option_fmap option_map]; [|done].
    by rewrite parse_one by by apply Hh.
Qed.

Lemma runs_max_connections n g cr bp l : 0 <= n < 2 ^ 31 ->
  (length (unwords [lit "max_connections"; decimal n]) < CONF_LINE)%nat ->
  runs [line_of [lit "max_connections"; decimal n]] (at_listener g cr bp l)
    (at_listener g cr bp (lset (lcore l_max_connections) n l)).
Proof.
  intros Hn Hlen. eapply (runs_option _ _ (opt_max_connections false)); [by apply two_words; [word_dec|done|apply word_ok_decimal|]|reflexivity|].
  unfold opt_max_connections, not_on_reload. cbn [w_rest]. rewrite parse_one by apply word_ok_decimal. cbn zeta.
  rewrite decimal_atoi by done. rewrite (proj2 (Z.ltb_ge n 0)) by lia. unfold done_ok. wp_step.
  exists l. split; [apply get_at_listener|]. wp_step. split; [done|]. apply set_at_listener.
Qed.

Lemma runs_mount_point p g cr bp l : name_word p -> head p <> Some "009"%char ->
  mosquitto_pub_topic_check p = MOSQ_ERR_SUCCESS -> l_mount_point (cl_core l) = None ->
  (length (unwords [lit "mount_point"; p]) < CONF_LINE)%nat ->
  runs [line_of [lit "mount_point"; p]] (at_listener g cr bp l) (at_listener g cr bp (lset (lcore l_mount_point) (Some p) l)).
Proof.
  intros [Hw _] Ht Hc Hl Hlen. eapply (runs_option _ _ (opt_mount_point false)); [by apply two_words; [word_dec|done|done|]|reflexivity|].
  unfold opt_mount_point, not_on_reload. wp_step.
  rewrite bool_decide_eq_false_2 by (intros [_ E]%app_nil; done).
  apply wp_or_inval. eapply wp_parse_word; [done|done|apply get_at_listener|done|]. split; [done|].
  rewrite set_at_listener. wp_step. eexists. split; [apply get_at_listener|]. wp_step. exists p. split; [done|].
  rewrite Hc. unfold done_ok. by wp_step.
Qed.

(** ** Bridges *)

(** The bridge that is being configured. *)
Definition at_bridge (g : config) (cr : config_recurse) (lp : option nat) (b : conf_bridge) : reader :=
  Reader (g <| g_bridges ::= (fun k => k ++ [b]) |>) cr lp (Some (length (g_bridges g))).

Lemma get_at_bridge g cr lp b : t_get the_bridge (at_bridge g cr lp b) = Some b.
Proof. cbn. rewrite length_app, Nat.add_1_r, Nat.eqb_refl. by rewrite lookup_app_r, Nat.sub_diag. Qed.

Lemma set_at_bridge g cr lp b b' : t_set the_bridge b' (at_bridge g cr lp b) = at_bridge g cr lp b'.
Proof. cbn. unfold at_bridge. upd_simpl. by rewrite insert_app_r_alt, Nat.sub_diag by done. Qed.

Lemma runs_connection name g cr lp bp : word_ok name ->
  (length (unwords [lit "connection"; name]) < CONF_LINE)%nat ->
  runs [line_of [lit "connection"; name]] (Reader g cr lp bp) (at_bridge g cr lp (new_bridge name)).
Proof.
  intros Hn Hlen. eapply (runs_option _ _ (opt_connection false)); [by apply two_words; [word_dec|done|done|]|reflexivity|].
  unfold opt_connection, not_on_reload. cbn [w_rest]. rewrite parse_one by done. unfold done_ok. by wp_step.
Qed.

Lemma wp_for_bridge h w g cr lp b Q : wp (h w) Q (at_bridge g cr lp b) -> wp (for_bridge false h w) Q (at_bridge g cr lp b).
Proof. intros Hh. unfold for_bridge, not_on_reload. by wp_step. Qed.

Lemma wp_at_bridge {A} (l : lens conf_bridge A) a Q g cr lp b :
  Q tt (at_bridge g cr lp (lset l a b)) -> wp (write_field the_bridge l a) Q (at_bridge g cr lp b).
Proof. intros HQ. rewrite wp_write_field. exists b. split; [apply get_at_bridge|]. by rewrite set_at_bridge. Qed.

Lemma runs_bridge_word name l v g cr lp b : word_ok name -> head name <> Some HASH -> word_ok v -> lget l b = None ->
  (length (unwords [name; v]) < CONF_LINE)%nat ->
  (forall rest, run_option false include (ConfLine name rest false (Some []))
    = for_bridge false (word_option l) (ConfLine name rest false (Some []))) ->
  runs [line_of [name; v]] (at_bridge g cr lp b) (at_bridge g cr lp (lset l (Some v) b)).
Proof.
  intros Hn Hh Hv Hl Hlen Hrun. eapply runs_option; [by apply two_words|exact Hrun|].
  apply wp_for_bridge. unfold word_option. cbn [w_rest]. rewrite parse_one by done. wp_step.
  exists b. split; [apply get_at_bridge|]. rewrite Hl. unfold done_ok. wp_step.
  exists b. split; [apply get_at_bridge|]. wp_step. split; [done|]. apply set_at_bridge.
Qed.

Lemma runs_keepalive n g cr lp b : 5 <= n < 2 ^ 31 ->
  (length (unwords [lit "keepalive_interval"; decimal n]) < CONF_LINE)%nat ->
  runs [line_of [lit "keepalive_interval"; decimal n]] (at_bridge g cr lp b) (at_bridge g cr lp (lset (bcore b_keepalive) n b)).
Proof.
  intros Hn Hlen. eapply (runs_option _ _ (opt_keepalive_interval false)); [by apply two_words; [word_dec|done|apply word_ok_decimal|]|reflexivity|].
  apply wp_for_bridge. unfold at_least. apply wp_or_inval. eapply wp_parse_int; [lia|apply get_at_bridge|]. split; [done|].
  rewrite set_at_bridge. wp_step. eexists. split; [apply get_at_bridge|].
  change (lget (bcore b_keepalive) (lset (bcore b_keepalive) n b)) with n. rewrite (proj2 (Z.ltb_ge n 5)) by lia.
  unfold done_ok. cbn [whenM]. by wp_step.
Qed.

Lemma runs_cleansession c g cr lp b : (length (unwords [lit "cleansession"; bool_word c]) < CONF_LINE)%nat ->
  runs [line_of [lit "cleansession"; bool_word c]] (at_bridge g cr lp b) (at_bridge g cr lp (lset (bcore b_clean_session) c b)).
Proof.
  intros Hlen. eapply (runs_option _ _ (opt_cleansession false)); [by apply two_words; [word_dec|done|apply bool_word_ok|]|reflexivity|].
  apply wp_for_bridge. unfold bool_option. apply wp_or_inval. eapply wp_parse_bool; [apply get_at_bridge|]. split; [done|].
  rewrite set_at_bridge. unfold done_ok. by wp_step.
Qed.

(** *** Addresses *)

Lemma address_word_ok a : word_ok a.1 -> word_ok (address_word a).
Proof.
  intros [Hne Hw]. unfold address_word. split; [by destruct a.1|]. apply Forall_app. split; [done|].
  constructor; [|apply word_ok_decimal]. unfold word_char. by apply (bool_decide_unpack _); vm_compute.
Qed.

Lemma no_colon w : (COLON ∉ w) -> Forall (fun b => b ∉ [COLON]) w.
Proof. intros Hw. apply Forall_forall. by intros b Hb ->%list_elem_of_singleton. Qed.

Lemma decimal_no_colon n : COLON ∉ decimal n.
Proof.
  intros Hin. pose proof (decimal_digits n) as F. rewrite Forall_forall in F.
  apply F, is_digit_range in Hin. vm_compute in Hin. by destruct Hin.
Qed.

Lemma split_address_words addresses : Forall (fun a => word_ok a.1 /\ (COLON ∉ a.1) /\ port_ok a.2) addresses ->
  split_addresses (map address_word addresses) = (map (fun a => Address a.1 a.2) addresses, MOSQ_ERR_SUCCESS).
Proof.
  induction 1 as [|[h p] l ([Hne _] & Hc & [Hp1 Hp2]) _ IH]; [done|]. cbn in *. unfold address_word at 1. cbn.
  rewrite strtok_app by (done || (by apply no_colon) || by left).
  rewrite strtok_all by (apply decimal_nonempty || apply no_colon, decimal_no_colon).
  rewrite decimal_atoi by lia. assert ((p <? 1) || (65535 <? p) = false) as -> by lia. by rewrite IH.
Qed.

Lemma runs_addresses addresses g cr lp b : addresses <> [] -> cb_addresses b = [] ->
  Forall (fun a => word_ok a.1 /\ (COLON ∉ a.1) /\ port_ok a.2) addresses ->
  (length (unwords (lit "addresses" :: map address_word addresses)) < CONF_LINE)%nat ->
  runs [line_of (lit "addresses" :: map address_word addresses)] (at_bridge g cr lp b)
    (at_bridge g cr lp (lset (bcore b_address_count) (Z.of_nat (length addresses))
                          (lset (fld cb_addresses) (map (fun a => Address a.1 a.2) addresses) b))).
Proof.
  intros Hne Hb Ha Hlen. assert (Forall word_ok (map address_word addresses)) as Hws.
  { apply Forall_map. eapply Forall_impl; [exact Ha|]. intros a [Hw _]. by apply address_word_ok. }
  eapply (runs_option _ _ (opt_address false)); [|reflexivity|].
  - split; [|split; [by eexists|done]]. constructor; [word_dec|done].
  - apply wp_for_bridge. wp_step. exists b. split; [apply get_at_bridge|]. change (lget (fld cb_addresses) b) with (cb_addresses b).
    rewrite Hb. cbn zeta. cbn [w_rest]. rewrite words_unwords by (done || by apply unwords_length).
    rewrite split_address_words by done. cbv iota. rewrite wp_bind. apply wp_at_bridge. rewrite wp_bind. apply wp_at_bridge.
    change (negb (MOSQ_ERR_SUCCESS =? MOSQ_ERR_SUCCESS)) with false. cbv iota.
    rewrite bool_decide_eq_false_2 by (by destruct addresses). unfold done_ok. wp_step. by rewrite length_map.
Qed.

(** *** Topics *)

(** The last topic, as far as it was read. *)
Definition with_topic (k : list _mqtt3_bridge_topic) (m : bool) (b : conf_bridge) (t : _mqtt3_bridge_topic) : conf_bridge :=
  b <| cb_core ::= (fun c => c <| b_topics := k ++ [t] |> <| b_topic_remapping := m |>) |>.

Lemma wp_upd_with_topic f Q g cr lp k m b t :
  Q tt (at_bridge g cr lp (with_topic k m b (f t))) -> wp (upd_topic f) Q (at_bridge g cr lp (with_topic k m b t)).
Proof.
  intros HQ. unfold upd_topic. rewrite wp_update. eexists. split; [apply get_at_bridge|]. rewrite set_at_bridge.
  replace (_ <| cb_core ::= _ |>) with (with_topic k m b (f t)); [done|].
  unfold with_topic. upd_simpl. by rewrite upd_last_app.
Qed.

Lemma parse_direction_word d : parse_direction (direction_word d) = Some d.
Proof. by destruct d. Qed.

Lemma parse_prefix_word o : prefix_ok o -> parse_prefix (or_empty o) = Some o.
Proof.
  intros Ho. unfold parse_prefix, streq. destruct o as [p|]; cbn; [|done]. destruct (Ho p eq_refl) as [[_ Hne] Hc].
  by rewrite bool_decide_eq_false_2, Hc by done.
Qed.

Lemma or_empty_ok o : (forall p, o = Some p -> name_word p) -> word_ok (or_empty o).
Proof. intros Ho. destruct o as [p|]; [by apply Ho|word_dec]. Qed.

Lemma direction_word_ok d : word_ok (direction_word d).
Proof. destruct d; word_dec. Qed.

Lemma topic_line_ok t : topic_stmt_ok t -> Forall word_ok (topic_line t).
Proof.
  intros [Ht Hq Hl Hr _]. unfold topic_line. rewrite !Forall_cons. split_and!; try done.
  - word_dec.
  - by apply or_empty_ok.
  - apply direction_word_ok.
  - apply word_ok_decimal.
  - apply or_empty_ok. intros p Hp. by apply Hl.
  - apply or_empty_ok. intros p Hp. by apply Hr.
Qed.

Definition add_topic (b : conf_bridge) (t : topic_stmt) : conf_bridge :=
  with_topic (b_topics (cb_core b)) true b (topic_meaning t).

Lemma runs_topic t g cr lp b : topic_stmt_ok t -> (length (unwords (topic_line t)) < CONF_LINE)%nat ->
  runs [line_of (topic_line t)] (at_bridge g cr lp b) (at_bridge g cr lp (add_topic b t)).
Proof.
  intros Ht Hlen. pose proof (topic_line_ok t Ht) as Hws. unfold topic_line in Hws. rewrite !Forall_cons in Hws.
  destruct Hws as (_ & W1 & W2 & W3 & W4 & W5 & _). pose proof Ht as [T1 T2 T3 T4 T5].
  eapply (runs_option _ _ (opt_topic false)); [|reflexivity|].
  - split; [by apply topic_line_ok|]. split; [by eexists|done].
  - apply wp_for_bridge. cbn [w_rest]. rewrite strtok_unwords by done. cbn zeta. wp_step. exists b. split; [apply get_at_bridge|].
    rewrite set_at_bridge. set (k := b_topics (cb_core b)).
    assert ((if streq (or_empty (ts_topic t)) EMPTY_WORD then None else Some (or_empty (ts_topic t))) = ts_topic t) as ->.
    { unfold streq. destruct (ts_topic t) as [p|]; cbn; [|done]. destruct (T1 p eq_refl) as [_ Hne]. by rewrite bool_decide_eq_false_2. }
    match goal with |- wp _ _ (at_bridge g cr lp ?x) =>
      replace x with (with_topic k (b_topic_remapping (cb_core b)) b (BridgeTopic (ts_topic t) 0 bd_out None None [] [])) by (by destruct b as [[] ?]) end.
    rewrite wp_bind. unfold topic_words, topic_prefixes. rewrite strtok_unwords, parse_direction_word by done.
    rewrite wp_bind. apply wp_upd_with_topic. rewrite strtok_unwords, decimal_atoi by (done || lia). cbn zeta.
    rewrite wp_bind. apply wp_upd_with_topic. assert ((ts_qos t <? 0) || (2 <? ts_qos t) = false) as -> by lia.
    rewrite strtok_unwords by done. rewrite wp_bind. apply wp_at_bridge.
    change (lset (bcore b_topic_remapping) true (with_topic k ?m ?b ?t)) with (with_topic k true b t).
    rewrite parse_prefix_word by done. rewrite wp_bind. apply wp_upd_with_topic.
    rewrite strtok_unwords, parse_prefix_word by done. rewrite wp_bind. apply wp_upd_with_topic. unfold done_ok. wp_step.
    change (negb (MOSQ_ERR_SUCCESS =? MOSQ_ERR_SUCCESS)) with false. cbv iota. unfold topic_join, last_topic. wp_step.
    eexists. split; [apply get_at_bridge|]. wp_step. eexists. split; [cbn; apply last_snoc|]. cbn [bt_topic bt_local_prefix bt_remote_prefix].
    match goal with |- wp (if ?c then _ else _) _ _ => assert (c = false) as -> end.
    { rewrite andb_false_iff, orb_false_iff, !bool_decide_eq_false. cbn. tauto. }
    rewrite wp_bind. apply wp_upd_with_topic. unfold done_ok. by wp_step.
Qed.

Lemma runs_topics ts g cr lp b : Forall topic_stmt_ok ts -> Forall (fun ws => length (unwords ws) < CONF_LINE)%nat (map topic_line ts) ->
  runs (map line_of (map topic_line ts)) (at_bridge g cr lp b) (at_bridge g cr lp (foldl add_topic b ts)).
Proof.
  intros Ht. revert b. induction Ht as [|t ts Ht Hts IH]; intros b Hl; [apply runs_nil|].
  cbn [map] in *. apply Forall_cons in Hl as [Hl Hls]. cbn [foldl].
  apply (runs_app _ _ [_] _ _ (at_bridge g cr lp (add_topic b t))); [by apply runs_topic|by apply IH].
Qed.

Definition set_topics (k : list _mqtt3_bridge_topic) (m : bool) (b : conf_bridge) : conf_bridge :=
  b <| cb_core ::= (fun c => c <| b_topics := k |> <| b_topic_remapping := m |>) |>.

Lemma set_topics_same b : set_topics (b_topics (cb_core b)) (b_topic_remapping (cb_core b)) b = b.
Proof. by destruct b as [[] ?]. Qed.

Lemma fold_topics ts b : foldl add_topic b ts
  = set_topics (b_topics (cb_core b) ++ map topic_meaning ts) (b_topic_remapping (cb_core b) || negb (bool_decide (ts = []))) b.
Proof.
  revert b. induction ts as [|t ts IH]; intros b; cbn [foldl map].
  - by rewrite app_nil_r, orb_false_r, set_topics_same.
  - rewrite IH. change (add_topic b t) with (set_topics (b_topics (cb_core b) ++ [topic_meaning t]) true b).
    change (b_topics (cb_core (set_topics ?k ?m b))) with k. change (b_topic_remapping (cb_core (set_topics ?k ?m b))) with m.
    rewrite <- app_assoc, orb_true_r. reflexivity.
Qed.

(** *** Statements *)

Lemma runs_given name (l : lens conf_bridge (option str)) o g cr lp b : word_ok name -> head name <> Some HASH -> optional_word o ->
  lget l b = None -> lset l None b = b ->
  Forall (fun ws => length (unwords ws) < CONF_LINE)%nat (given name o) ->
  (forall rest, run_option false include (ConfLine name rest false (Some []))
    = for_bridge false (word_option l) (ConfLine name rest false (Some []))) ->
  runs (map line_of (given name o)) (at_bridge g cr lp b) (at_bridge g cr lp (lset l o b)).
Proof.
  intros Hn Hh Ho Hl Hs Hlen Hrun. destruct o as [v|]; cbn [given map] in *.
  - apply runs_bridge_word; [done|done|by apply Ho|done|by apply Forall_inv in Hlen|done].
  - rewrite Hs. apply runs_nil.
Qed.

(** Read the lines of a statement one after the other. *)
Ltac run_line := eapply (runs_app _ _ [_]).

Lemma runs_bridge b g cr lp bp : bridge_stmt_ok b -> Forall (fun ws => length (unwords ws) < CONF_LINE)%nat (bridge_lines b) ->
  exists bp', runs (map line_of (bridge_lines b)) (Reader g cr lp bp) (Reader (meaning (ABridge b) g) cr lp bp').
Proof.
  intros [Bn Ba Bs Bk Bi Bu Bp Bt] Hl. exists (Some (length (g_bridges g))).
  change (Reader (meaning (ABridge b) g) cr lp (Some (length (g_bridges g)))) with (at_bridge g cr lp (bridge_meaning b)).
  unfold bridge_lines in *. rewrite !map_app. cbn [map]. rewrite !Forall_app, !Forall_cons in Hl.
  destruct Hl as ((L1 & L2 & L3 & L4 & _) & L5 & L6 & L7 & L8).
  set (b1 := fun id user pw ts m => ConfBridge
    (Bridge (bs_name b) (Z.of_nat (length (bs_addresses b))) 0 false true false (bs_cleansession b) (bs_keepalive b) ts m
       id user pw None None None true None bst_automatic 60 30 10 false true mosq_p_mqtt31 0 0)
    (map (fun a => Address a.1 a.2) (bs_addresses b)) None None None None false None None None).
  apply (runs_app _ _ _ _ _ (at_bridge g cr lp (b1 None None None [] false))).
  { replace (b1 None None None [] false) with (lset (bcore b_clean_session) (bs_cleansession b)
      (lset (bcore b_keepalive) (bs_keepalive b) (lset (bcore b_address_count) (Z.of_nat (length (bs_addresses b)))
        (lset (fld cb_addresses) (map (fun a => Address a.1 a.2) (bs_addresses b)) (new_bridge (bs_name b))))))
      by (vm_compute; reflexivity).
    run_line; [by apply runs_connection|]. run_line; [by apply runs_addresses|].
    run_line; [by apply runs_keepalive|]. by apply runs_cleansession. }
  apply (runs_app _ _ _ _ _ (at_bridge g cr lp (b1 (bs_clientid b) None None [] false))).
  { change (b1 (bs_clientid b) None None [] false) with (lset (bcore b_remote_clientid) (bs_clientid b) (b1 None None None [] false)).
    apply (runs_given _ (bcore b_remote_clientid)); [word_dec|discriminate|assumption|reflexivity|reflexivity|assumption|reflexivity]. }
  apply (runs_app _ _ _ _ _ (at_bridge g cr lp (b1 (bs_clientid b) (bs_username b) None [] false))).
  { change (b1 (bs_clientid b) (bs_username b) None [] false) with (lset (bcore b_remote_username) (bs_username b) (b1 (bs_clientid b) None None [] false)).
    apply (runs_given _ (bcore b_remote_username)); [word_dec|discriminate|assumption|reflexivity|reflexivity|assumption|reflexivity]. }
  apply (runs_app _ _ _ _ _ (at_bridge g cr lp (b1 (bs_clientid b) (bs_username b) (bs_password b) [] false))).
  { change (b1 (bs_clientid b) (bs_username b) (bs_password b) [] false) with (lset (bcore b_remote_password) (bs_password b) (b1 (bs_clientid b) (bs_username b) None [] false)).
    apply (runs_given _ (bcore b_remote_password)); [word_dec|discriminate|assumption|reflexivity|reflexivity|assumption|reflexivity]. }
  replace (bridge_meaning b) with (foldl add_topic (b1 (bs_clientid b) (bs_username b) (bs_password b) [] false) (bs_topics b));
    [by apply runs_topics|].
  rewrite fold_topics. unfold bridge_meaning, b1. generalize (bool_decide (bs_topics b = [])). intros m. vm_compute. reflexivity.
Qed.

Lemma runs_listener l g cr lp bp : listener_stmt_ok l -> Forall (fun ws => length (unwords ws) < CONF_LINE)%nat (listener_lines l) ->
  exists lp', runs (map line_of (listener_lines l)) (Reader g cr lp bp) (Reader (meaning (AListener l) g) cr lp' bp).
Proof.
  intros [Lp Lh Lm Lt] Hl. exists (Some (length (g_listeners g))).
  change (Reader (meaning (AListener l) g) cr (Some (length (g_listeners g))) bp) with (at_listener g cr bp (listener_meaning l)).
  unfold listener_lines in *. cbn [map]. rewrite !Forall_cons in Hl. destruct Hl as (L1 & L2 & L3).
  run_line; [by apply runs_new_listener|]. run_line; [by apply runs_max_connections|].
  destruct l as [port host n [p|]]; cbn in *; [|apply runs_nil]. destruct (Lt p eq_refl) as (? & ? & ?).
  apply Forall_inv in L3. by apply runs_mount_point.
Qed.

Lemma runs_statement st g cr lp bp : stmt_ok g st ->
  exists lp' bp', runs (map line_of (stmt_lines st)) (Reader g cr lp bp) (Reader (meaning st g) cr lp' bp').
Proof.
  intros [Hl Hst]. destruct st as [b|b|n|name|name|l|b]; cbn [stmt_lines] in *.
  1-5: apply Forall_inv in Hl; exists lp, bp; cbn [map].
  - apply (runs_bool _ (gcore cf_allow_anonymous)); [word_dec|done|done|reflexivity].
  - apply (runs_bool _ (gcore cf_persistence)); [word_dec|done|done|reflexivity].
  - by apply runs_retry.
  - destruct Hst. change (meaning (PasswordFile name) g) with (lset (fld g_password_file) (Some name) g).
    apply (runs_file _ (fld g_password_file)); [word_dec|done|done|done|done|reflexivity].
  - destruct Hst. change (meaning (AclFile name) g) with (lset (fld g_acl_file) (Some name) g).
    apply (runs_file _ (fld g_acl_file)); [word_dec|done|done|done|done|reflexivity].
  - destruct (runs_listener l g cr lp bp Hst Hl) as [lp' Hr]. by exists lp', bp.
  - destruct (runs_bridge b g cr lp bp Hst Hl) as [bp' Hr]. by exists lp, bp'.
Qed.

Lemma runs_statements sts g cr lp bp : stmts_ok g sts ->
  exists lp' bp', runs (map line_of (concat (map stmt_lines sts))) (Reader g cr lp bp)
    (Reader (foldl (fun g st => meaning st g) g sts) cr lp' bp').
Proof.
  revert g lp bp. induction sts as [|st sts IH]; intros g lp bp; [intros _; exists lp, bp; apply runs_nil|].
  intros [Hst Hsts]. cbn [map concat foldl]. rewrite map_app.
  destruct (runs_statement st g cr lp bp Hst) as (lp1 & bp1 & H1).
  destruct (IH (meaning st g) lp1 bp1 Hsts) as (lp2 & bp2 & H2). exists lp2, bp2. by eapply runs_app.
Qed.
End statements.

(** * The file *)

Lemma given_words name o : word_ok name -> optional_word o -> Forall (Forall word_ok) (given name o).
Proof. intros Hn Ho. destruct o as [v|]; [|constructor]. cbn. rewrite !Forall_cons. split_and!; try done. by apply Ho. Qed.

Lemma stmt_words g st : stmt_ok g st -> Forall (Forall word_ok) (stmt_lines st).
Proof.
  intros [_ Hst]. destruct st as [b|b|n|name|name|l|b]; cbn [stmt_lines].
  1-5: rewrite Forall_singleton, !Forall_cons; split_and!; try done; first [apply bool_word_ok|apply word_ok_decimal|apply Hst|word_dec].
  - destruct Hst as [_ Lh _ Lt]. unfold listener_lines. rewrite !Forall_cons. split_and!; try done;
      first [apply word_ok_decimal|word_dec|idtac].
    + destruct (ls_host l) as [h|]; [|done]. rewrite Forall_singleton. by apply Lh.
    + apply given_words; [word_dec|]. intros p Hp. by apply Lt.
  - destruct Hst as [Bn Ba _ _ Bi Bu Bp Bt]. unfold bridge_lines. rewrite !Forall_app, !Forall_cons. split_and!; try done;
      first [apply bool_word_ok|apply word_ok_decimal|apply given_words; [word_dec|done]|word_dec|idtac].
    + apply Forall_map. eapply Forall_impl; [exact Ba|]. intros a [Hw _]. by apply address_word_ok.
    + apply Forall_map. eapply Forall_impl; [exact Bt|]. apply topic_line_ok.
Qed.

Lemma render_lines g sts : stmts_ok g sts ->
  file_lines CONF_LINE (render sts) = map line_of (concat (map stmt_lines sts)).
Proof.
  intros Hsts. apply file_lines_concat, Forall_map. revert g Hsts.
  induction sts as [|st sts IH]; intros g Hsts; cbn [map concat]; [constructor|]. destruct Hsts as [Hst Hsts].
  apply Forall_app. split; [|by eapply IH]. pose proof (stmt_words g st Hst) as Hw. destruct Hst as [Hl _].
  rewrite Forall_forall in Hw, Hl. apply Forall_forall. intros ws Hin. apply line_of_ok; auto.
Qed.

(** What follows the reading when nothing was said about the log and the limits. *)
Definition finished (g : config) : config :=
  set_logging recurse_defaults ((default_user (set_persistence g)) <| g_max_inflight := 20 |> <| g_max_queued := 100 |>).

(** C11: Statements that are written to the configuration file, in any number and order, are read
    back as they were meant: each listener with its port, host, limit and mount point, each
    bridge with its addresses, credentials and topics, the topics remapped by their
    prefixes; the result is the configuration that the statements make of the one at hand. *)
Theorem config_text_roundtrip `{Files} sts file g : g_config_file g = Some file ->
  file_contents file = Some (render sts) -> stmts_ok g sts ->
  forallb bridge_complete (g_bridges (foldl (fun g st => meaning st g) g sts)) = true ->
  mqtt3_config_read false g = Some (MOSQ_ERR_SUCCESS, finished (foldl (fun g st => meaning st g) g sts)).
Proof.
  intros Hf Hc Hs Hb.
  destruct (runs_statements (Some (read_file_with false None)) sts g recurse_defaults None None Hs) as (lp & bp & Hr).
  assert (_config_read_file false 0 file (Reader g recurse_defaults None None)
    = Some (MOSQ_ERR_SUCCESS, Reader (foldl (fun g st => meaning st g) g sts) recurse_defaults None None)) as E.
  { cbn [_config_read_file]. unfold read_file_with at 1. rewrite Hc. unfold _config_read_file_core, mbind, st_bind, get, modify.
    rewrite (render_lines g) by done. specialize (Hr file 1%nat []). rewrite app_nil_r in Hr.
    change ((Reader g recurse_defaults None None) <| rd_listener := None |> <| rd_bridge := None |>)
      with (Reader g recurse_defaults None None).
    rewrite Hr. reflexivity. }
  unfold mqtt3_config_read, mbind, st_bind, get, modify, with_reader. rewrite Hf, E. cbn [rd_cr rd_config].
  change (negb (MOSQ_ERR_SUCCESS =? 0)) with false. cbv iota. unfold finish_read, mbind, st_bind, get, modify.
  assert (g_bridges (default_user (set_persistence (foldl (fun g st => meaning st g) g sts)))
    = g_bridges (foldl (fun g st => meaning st g) g sts)) as Eb.
  { unfold default_user, set_persistence. by repeat case_match. }
  match goal with |- context [forallb bridge_complete ?x] => change x with
    (g_bridges (default_user (set_persistence (foldl (fun g st => meaning st g) g sts)))) end.
  rewrite Eb, Hb. reflexivity.
Qed.

(** * Example *)

Definition sample_stmts : list stmt := [
  AllowAnonymous false; PasswordFile (lit "/etc/pw"); RetryInterval 30;
  AListener (ListenerStmt 1884 (Some (lit "localhost")) 100 (Some (lit "site/")));
  ABridge (BridgeStmt (lit "b1") [(lit "host1", 1883); (lit "host2", 8883)] 30 true (Some (lit "id")) None None
    [TopicStmt (Some (lit "t/#")) bd_both 2 (Some (lit "l/")) (Some (lit "r/"));
     TopicStmt (Some (lit "x")) bd_out 0 None None])]%string.

Definition stmt_files : Files := files_of [(lit "m.conf", render sample_stmts)] [] [].

(** Decides the conditions on the words and numbers of a given statement. *)
Ltac given_dec :=
  repeat first
    [ word_dec | done | match goal with
      | |- _ /\ _ => split
      | |- Forall _ [] => constructor
      | |- Forall _ (_ :: _) => constructor
      | |- topic_stmt_ok _ => constructor; cbn
      | |- listener_stmt_ok _ => constructor; cbn
      | |- bridge_stmt_ok _ => constructor; cbn
      | |- context [port_ok] => unfold port_ok; lia
      | |- optional_word _ => intros ? [= <-]
      | |- prefix_ok None => discriminate
      | |- prefix_ok _ => intros ? [= <-]
      | |- name_word _ => split
      | |- (_ <= _)%Z => vm_compute; discriminate
      | |- (_ < _)%Z => vm_compute; reflexivity
      | |- _ \/ _ => left
      | |- forall _, _ = _ -> _ => intros ? [= <-]
      end ].

Lemma sample_stmts_ok : stmts_ok (configured (lit "m.conf")) sample_stmts.
Proof.
  assert (Forall (fun st => Forall (fun ws => length (unwords ws) < CONF_LINE)%nat (stmt_lines st)) sample_stmts) as Hl
    by (apply (bool_decide_unpack _); vm_compute; exact I).
  rewrite Forall_forall in Hl. cbn [stmts_ok sample_stmts]. split_and!; try exact I.
  all: split; [apply Hl; rewrite list_elem_of_In; cbn; tauto|].
  all: given_dec.
Qed.

(** The statements above, in a file of their own. *)
Lemma config_text_roundtrip_witness :
  file_contents (Files := stmt_files) (lit "m.conf") = Some (render sample_stmts)
  /\ stmts_ok (configured (lit "m.conf")) sample_stmts
  /\ @mqtt3_config_read stmt_files false (configured (lit "m.conf"))
     = Some (MOSQ_ERR_SUCCESS, finished (foldl (fun g st => meaning st g) (configured (lit "m.conf")) sample_stmts)).
Proof.
  assert (file_contents (Files := stmt_files) (lit "m.conf") = Some (render sample_stmts)) as Hf by (vm_compute; reflexivity).
  split; [exact Hf|]. split; [exact sample_stmts_ok|].
  apply (@config_text_roundtrip stmt_files sample_stmts (lit "m.conf") (configured (lit "m.conf"))).
  - reflexivity.
  - exact Hf.
  - exact sample_stmts_ok.
  - vm_compute. reflexivity.
Defined.
