(* ===== verification/Client.v ===== *)
(** The client library: the files of lib/ compiled without WITH_BROKER, that is
    lib/mosquitto.c, lib/messages_mosq.c, lib/read_handle.c, lib/read_handle_client.c
    and the other half of the files the broker shares.  A routine that the broker
    compiles to something else has the prefix [lib_] here.

    [struct mosquitto] is one structure with two sets of fields: those both programs
    have are the record [mosquitto] ([cl_mosq]; the broker's own stay zero), those of
    the library are the fields of [client].  The user's callbacks are observed as
    events; they do not call back.  A call of the library is atomic: the mutexes are
    left out, and so are SOCKS, DNS-SRV and TLS. *)

From S2P Require Export Bridge.
#[local] Open Scope Z_scope.

(** [struct mosquitto_message_all]: a list of them is the chain of [next] pointers. *)
Record mosquitto_message_all := MessageAll {
  ma_addr : addr;
  ma_timestamp : Z;
  ma_state : mosquitto_msg_state;
  ma_dup : bool;
  ma_mid : Z;
  ma_msg : mosquitto_message }.

#[global] Instance eta_message_all : Eta mosquitto_message_all := fun m =>
  MessageAll (ma_addr m) (ma_timestamp m) (ma_state m) (ma_dup m) (ma_mid m) (ma_msg m).

Inductive event :=
| on_connect (rc : Z)
| on_disconnect (rc : Z)
| on_publish (mid : Z)
| on_message (mid : Z) (m : mosquitto_message)
| on_subscribe (mid : Z) (granted_qos : list Z)
| on_unsubscribe (mid : Z).

(** A pointer that may have been freed without being reset. *)
Inductive pointer (A : Type) := Null | At (a : A) | Freed.
Arguments Null {A}.
Arguments At {A} a.
Arguments Freed {A}.

(** [cl_leaked] are messages that are still allocated but on neither list.
    [cl_sent] is what the current connection was given, [cl_reads] what it delivers;
    [cl_again] is whether [errno] is EAGAIN after the last call on the socket. *)
Record client := Client {
  cl_mosq : mosquitto;
  cl_host : option str;
  cl_port : Z;
  cl_bind_address : pointer str;
  cl_threaded : bool;
  cl_message_retry : Z;
  cl_last_retry_check : Z;
  cl_reconnect_delay : Z;
  cl_reconnect_delay_max : Z;
  cl_reconnect_exponential_backoff : bool;
  cl_in_messages : list mosquitto_message_all;
  cl_in_messages_last : option addr;
  cl_out_messages : list mosquitto_message_all;
  cl_out_messages_last : option addr;
  cl_in_queue_len : Z;
  cl_out_queue_len : Z;
  cl_inflight_messages : Z;
  cl_max_inflight_messages : Z;
  cl_callbacks : event -> bool;
  cl_events : list event;
  cl_leaked : list addr;
  cl_next : addr;
  cl_writes : list write_result;
  cl_reads : list read_result;
  cl_sent : list byte;
  cl_again : bool;
  cl_time : Z }.

#[global] Instance eta_client : Eta client := fun s =>
  Client (cl_mosq s) (cl_host s) (cl_port s) (cl_bind_address s) (cl_threaded s) (cl_message_retry s)
    (cl_last_retry_check s) (cl_reconnect_delay s) (cl_reconnect_delay_max s)
    (cl_reconnect_exponential_backoff s) (cl_in_messages s) (cl_in_messages_last s)
    (cl_out_messages s) (cl_out_messages_last s) (cl_in_queue_len s) (cl_out_queue_len s)
    (cl_inflight_messages s) (cl_max_inflight_messages s) (cl_callbacks s) (cl_events s)
    (cl_leaked s) (cl_next s) (cl_writes s) (cl_reads s) (cl_sent s) (cl_again s)
    (cl_time s).

Abbreviation L := (ST client).

Definition lib_time : L Z := gets cl_time.
Definition upd_mosq (f : mosquitto -> mosquitto) : L unit := modify (fun s => s <| cl_mosq ::= f |>).

(** [if(mosq->on_x) mosq->on_x(...)] *)
Definition callback (e : event) : L unit :=
  modify (fun s => if cl_callbacks s e then s <| cl_events ::= (fun l => l ++ [e]) |> else s).

Definition lib_in_packet {A} (m : ST packet A) : L A :=
  s ← get;
  match m (c_in_packet (cl_mosq s)) with
  | None => fault
  | Some (a, p) => upd_mosq (fun x => x <| c_in_packet := p |>);; mret a
  end.

(** * lib/net_mosq.c *)

Definition lib_socket_close : L Z :=
  upd_mosq (fun x => x <| c_ssl := false |> <| c_sock ::= (fun s => if 0 <=? s then INVALID_SOCKET else s) |>);;
  mret 0.

(** [while(mosq->current_out_packet)]: a DISCONNECT that is out closes the socket and
    ends the call, whatever is still queued. *)
Fixpoint lib_write_loop (cur : packet) (queue : list packet) : L Z :=
  s ← get;
  let '(out, p, sent, ws) := packet_drain (cl_writes s) cur [] in
  modify (fun s => s <| cl_writes := ws |> <| cl_sent ::= (fun bs => bs ++ sent) |>
                     <| cl_again := bool_decide (out = inl MOSQ_ERR_SUCCESS) |>);;
  match out with
  | inl rc => upd_mosq (fun x => x <| c_current_out_packet := Some p |>);; mret rc
  | inr tt =>
    let next :=
      upd_mosq (fun x => x <| c_current_out_packet := head queue |> <| c_out_packet := tail queue |>
                           <| c_last_msg_out := cl_time s |>) in
    if is_publish_sent p then
      callback (on_publish (p_mid p));; next;;
      match queue with [] => mret MOSQ_ERR_SUCCESS | q :: queue => lib_write_loop q queue end
    else if Z.land (p_command p) 0xF0 =? DISCONNECT then
      lib_socket_close;; next;; callback (on_disconnect 0);; mret MOSQ_ERR_SUCCESS
    else
      next;;
      match queue with [] => mret MOSQ_ERR_SUCCESS | q :: queue => lib_write_loop q queue end
  end.

Definition lib_packet_write : L Z :=
  s ← get;
  if c_sock (cl_mosq s) =? INVALID_SOCKET then mret MOSQ_ERR_NO_CONN else
  upd_mosq pop_current;;
  s ← get;
  let x := cl_mosq s in
  if bool_decide (c_state x = mosq_cs_connect_pending) then mret MOSQ_ERR_SUCCESS else
  match c_current_out_packet x with
  | None => mret MOSQ_ERR_SUCCESS
  | Some cur => lib_write_loop cur (c_out_packet x)
  end.

(** With threads the packet is only queued; the other thread is woken to write it. *)
Definition lib_packet_queue (p : packet) : L Z :=
  let p := p <| p_pos := 0 |> <| p_to_process := p_packet_length p |> in
  upd_mosq (fun x => x <| c_out_packet ::= (fun q => q ++ [p]) |>);;
  s ← get;
  if cl_threaded s then mret MOSQ_ERR_SUCCESS else lib_packet_write.

(** * lib/send_mosq.c and lib/send_client_mosq.c *)

Definition lib_queue_built (b : ST packet Z) : L Z :=
  match b packet_calloc with
  | None => fault
  | Some (rc, p) => if negb (rc =? 0) then mret rc else lib_packet_queue p
  end.

Definition lib_send_simple_command (command : Z) : L Z :=
  lib_queue_built (build_packet command 0 (mret tt)).

Definition lib_send_command_with_mid (command mid : Z) : L Z :=
  lib_queue_built (build_packet command 2 (poke 0 (MOSQ_MSB mid);; poke 1 (MOSQ_LSB mid))).

Definition lib_send_pingreq : L Z :=
  rc ← lib_send_simple_command PINGREQ;
  now ← lib_time;
  whenM (rc =? MOSQ_ERR_SUCCESS) (upd_mosq (fun x => x <| c_ping_t := now |>));;
  mret rc.

Definition lib_send_pingresp : L Z := lib_send_simple_command PINGRESP.
Definition lib_send_disconnect : L Z := lib_send_simple_command DISCONNECT.
Definition lib_send_puback (mid : Z) : L Z := lib_send_command_with_mid PUBACK mid.
Definition lib_send_pubrec (mid : Z) : L Z := lib_send_command_with_mid PUBREC mid.
Definition lib_send_pubrel (mid : Z) : L Z := lib_send_command_with_mid (Z.lor PUBREL 2) mid.
Definition lib_send_pubcomp (mid : Z) : L Z := lib_send_command_with_mid PUBCOMP mid.

Definition lib_send_real_publish (mid : Z) (topic : str) (payload : list byte) (qos : Z)
    (retain dup : bool) : L Z :=
  let payloadlen := Z.of_nat (length payload) in
  let packetlen := 2 + strlen topic + payloadlen + (if 0 <? qos then 2 else 0) in
  lib_queue_built
    (modify (fun p => p <| p_mid := mid |>);;
     build_packet (publish_command qos retain dup) packetlen
       (_mosquitto_write_string topic (strlen topic);;
        whenM (0 <? qos) (_mosquitto_write_uint16 mid);;
        whenM (negb (payloadlen =? 0)) (_mosquitto_write_bytes payload payloadlen))).

Definition lib_send_publish (mid : Z) (topic : str) (payload : list byte) (qos : Z)
    (retain dup : bool) : L Z :=
  s ← get;
  if c_sock (cl_mosq s) =? INVALID_SOCKET then mret MOSQ_ERR_NO_CONN else
  lib_send_real_publish mid topic payload qos retain dup.

Definition lib_mid_generate : L Z :=
  upd_mosq (fun x => x <| c_last_mid ::= next_mid |>);;
  gets (fun s => c_last_mid (cl_mosq s)).

(** The identifier goes to the caller with the result. *)
Definition lib_queue_with_mid (command len : Z) (body : Z -> ST packet unit) : L (Z * option Z) :=
  match build_packet command len (mret tt) packet_calloc with
  | None => fault
  | Some (rc, p) =>
    if negb (rc =? 0) then mret (rc, None) else
    mid ← lib_mid_generate;
    match body mid p with
    | None => fault
    | Some (_, p) => rc ← lib_packet_queue p; mret (rc, Some mid)
    end
  end.

Definition lib_send_subscribe (topic : str) (topic_qos : Z) : L (Z * option Z) :=
  lib_queue_with_mid (Z.lor SUBSCRIBE (Z.shiftl 1 1)) (2 + 2 + strlen topic + 1) (fun mid =>
    _mosquitto_write_uint16 mid;;
    _mosquitto_write_string topic (strlen topic);;
    _mosquitto_write_byte topic_qos).

Definition lib_send_unsubscribe (topic : str) : L (Z * option Z) :=
  lib_queue_with_mid (Z.lor UNSUBSCRIBE (Z.shiftl 1 1)) (2 + 2 + strlen topic) (fun mid =>
    _mosquitto_write_uint16 mid;;
    _mosquitto_write_string topic (strlen topic)).

(** The library has no bridge: the identity is its own. *)
Definition lib_send_connect (keepalive : Z) (clean_session : bool) : L Z :=
  s ← get;
  let x := cl_mosq s in
  clientid ← unwrap (c_id x);
  match (match c_protocol x with
         | mosq_p_mqtt31 => Some (MQTT_PROTOCOL_V31, 12)
         | mosq_p_mqtt311 => Some (MQTT_PROTOCOL_V311, 10)
         | _ => None
         end) with
  | None => mret MOSQ_ERR_INVAL
  | Some (version, headerlen) =>
    match build_packet CONNECT (headerlen + connect_payloadlen x clientid (c_username x) (c_password x))
            (connect_body x version keepalive clean_session clientid (c_username x) (c_password x))
            packet_calloc with
    | None => fault
    | Some (rc, p) =>
      if negb (rc =? 0) then mret rc else
      upd_mosq (fun x => x <| c_keepalive := keepalive |>);;
      lib_packet_queue p
    end
  end.

(** * lib/messages_mosq.c *)

Definition in_window (s : client) : bool :=
  (cl_max_inflight_messages s =? 0) || (cl_inflight_messages s <? cl_max_inflight_messages s).

Definition last_addr (l : list mosquitto_message_all) : option addr := ma_addr <$> last l.

(** The list up to and with the message at [a], and what follows. *)
Fixpoint cut_after (a : addr) (l : list mosquitto_message_all)
    : option (list mosquitto_message_all * list mosquitto_message_all) :=
  match l with
  | [] => None
  | m :: l =>
    if decide (ma_addr m = a) then Some ([m], l)
    else '(before, after) ← cut_after a l; Some (m :: before, after)
  end.

(** [last->next = message]: the message comes after the one at [a], wherever that is.
    What followed it is on no list any more; a freed [a] faults. *)
Definition link_after (a : addr) (m : mosquitto_message_all) : L unit :=
  s ← get;
  match cut_after a (cl_in_messages s), cut_after a (cl_out_messages s) with
  | Some (before, after), _ =>
    modify (fun s => s <| cl_in_messages := before ++ [m] |>
                       <| cl_leaked ::= app (map ma_addr after) |>)
  | None, Some (before, after) =>
    modify (fun s => s <| cl_out_messages := before ++ [m] |>
                       <| cl_leaked ::= app (map ma_addr after) |>)
  | None, None =>
    assertM (bool_decide (a ∈ cl_leaked s));;
    modify (fun s => s <| cl_leaked ::= cons (ma_addr m) |>)
  end.

Definition _mosquitto_message_queue (m : mosquitto_message_all) (dir : mosquitto_msg_direction) : L unit :=
  s ← get;
  match dir with
  | mosq_md_out =>
    modify (fun s => s <| cl_out_queue_len ::= Z.succ |>);;
    (match cl_out_messages_last s with
     | Some a => link_after a m
     | None => modify (fun s => s <| cl_out_messages := [m] |>)
     end);;
    modify (fun s => s <| cl_out_messages_last := Some (ma_addr m) |>);;
    s ← get;
    whenM ((0 <? msg_qos (ma_msg m)) && in_window s)
      (modify (fun s => s <| cl_inflight_messages ::= Z.succ |>))
  | mosq_md_in =>
    modify (fun s => s <| cl_in_queue_len ::= Z.succ |>);;
    (match cl_in_messages_last s with
     | Some a => link_after a m
     | None => modify (fun s => s <| cl_in_messages := [m] |>)
     end);;
    modify (fun s => s <| cl_in_messages_last := Some (ma_addr m) |>)
  end.

(** The loop over [in_messages]; [kept] is the list up to [prev], [None] the NULL
    pointer that is dereferenced when the only message is removed.  After a removal
    at the head the next message is passed over. *)
Fixpoint in_reset_loop (kept : list mosquitto_message_all) (l : list mosquitto_message_all) (len : Z)
    : option (list mosquitto_message_all * Z) :=
  match l with
  | [] => Some (kept, len)
  | m :: l =>
    let len := len + 1 in
    if negb (msg_qos (ma_msg m) =? 2) then
      match kept, l with
      | [], [] => None
      | [], n :: l => in_reset_loop [n] l len
      | _, _ => in_reset_loop kept l len
      end
    else in_reset_loop (kept ++ [m <| ma_timestamp := 0 |>]) l len
  end.

Fixpoint out_reset_loop (max inflight : Z) (l : list mosquitto_message_all)
    : list mosquitto_message_all * Z :=
  match l with
  | [] => ([], inflight)
  | m :: l =>
    let qos := msg_qos (ma_msg m) in
    let inflight := if 0 <? qos then inflight + 1 else inflight in
    let state :=
      if (max =? 0) || (inflight <? max)
      then if qos =? 1 then mosq_ms_wait_for_puback else ma_state m
      else mosq_ms_invalid in
    let '(l, inflight) := out_reset_loop max inflight l in
    (m <| ma_timestamp := 0 |> <| ma_state := state |> :: l, inflight)
  end.

(** [prev] is not set back to NULL between the two loops. *)
Definition _mosquitto_messages_reconnect_reset : L unit :=
  s ← get;
  '(ins, in_len) ← unwrap (in_reset_loop [] (cl_in_messages s) 0);
  let prev := last_addr ins in
  let '(outs, inflight) := out_reset_loop (cl_max_inflight_messages s) 0 (cl_out_messages s) in
  modify (fun s => s
    <| cl_in_messages := ins |> <| cl_in_queue_len := in_len |> <| cl_in_messages_last := prev |>
    <| cl_out_messages := outs |> <| cl_out_queue_len := Z.of_nat (length outs) |>
    <| cl_inflight_messages := inflight |>
    <| cl_out_messages_last := match last_addr outs with Some a => Some a | None => prev end |>).

(** The first message with this identifier, what stands before and after it. *)
Fixpoint split_mid (mid : Z) (l : list mosquitto_message_all)
    : option (list mosquitto_message_all * mosquitto_message_all * list mosquitto_message_all) :=
  match l with
  | [] => None
  | m :: l =>
    if ma_mid m =? mid then Some ([], m, l)
    else '(before, n, rest) ← split_mid mid l; Some (m :: before, n, rest)
  end.

(** The state in which a message that was waiting for the window is sent. *)
Definition first_state (m : mosquitto_message_all) : mosquitto_msg_state :=
  let qos := msg_qos (ma_msg m) in
  if qos =? 1 then mosq_ms_wait_for_puback
  else if qos =? 2 then mosq_ms_wait_for_pubrec else ma_state m.

Definition send_message (m : mosquitto_message_all) : L Z :=
  let msg := ma_msg m in
  lib_send_publish (ma_mid m) (msg_topic msg) (msg_payload msg) (msg_qos msg) (msg_retain msg) (ma_dup m).

(** After an outgoing message was removed: fill the window again. *)
Fixpoint fill_window (before l : list mosquitto_message_all) : L Z :=
  match l with
  | [] => mret MOSQ_ERR_SUCCESS
  | m :: l =>
    s ← get;
    if in_window s then
      if (0 <? msg_qos (ma_msg m)) && bool_decide (ma_state m = mosq_ms_invalid) then
        let m := m <| ma_state := first_state m |> in
        modify (fun s => s <| cl_inflight_messages ::= Z.succ |>
                           <| cl_out_messages := before ++ m :: l |>);;
        rc ← send_message m;
        if negb (rc =? 0) then mret rc else fill_window (before ++ [m]) l
      else fill_window (before ++ [m]) l
    else mret MOSQ_ERR_SUCCESS
  end.

(** [last] after [cur] was unlinked. *)
Definition last_after (before rest : list mosquitto_message_all) (last : option addr) : option addr :=
  match rest with
  | [] => last_addr before
  | _ => last
  end.

(** The result is the code's [rc] and [*message]. *)
Definition _mosquitto_message_remove (mid : Z) (dir : mosquitto_msg_direction)
    : L (Z * option mosquitto_message_all) :=
  s ← get;
  match dir with
  | mosq_md_out =>
    match split_mid mid (cl_out_messages s) with
    | None => mret (MOSQ_ERR_NOT_FOUND, None)
    | Some (before, cur, rest) =>
      modify (fun s => s
        <| cl_out_messages := before ++ rest |> <| cl_out_queue_len ::= Z.pred |>
        <| cl_out_messages_last ::= last_after before rest |>
        <| cl_inflight_messages ::= (fun n => if 0 <? msg_qos (ma_msg cur) then n - 1 else n) |>);;
      rc ← fill_window [] (before ++ rest);
      mret (rc, Some cur)
    end
  | mosq_md_in =>
    match split_mid mid (cl_in_messages s) with
    | None => mret (MOSQ_ERR_NOT_FOUND, None)
    | Some (before, cur, rest) =>
      modify (fun s => s
        <| cl_in_messages := before ++ rest |> <| cl_in_queue_len ::= Z.pred |>
        <| cl_in_messages_last ::= last_after before rest |>);;
      mret (MOSQ_ERR_SUCCESS, Some cur)
    end
  end.

(** The message is freed unless the window could not be filled: then it is leaked. *)
Definition _mosquitto_message_delete (mid : Z) (dir : mosquitto_msg_direction) : L Z :=
  '(rc, m) ← _mosquitto_message_remove mid dir;
  whenM (negb (rc =? MOSQ_ERR_SUCCESS))
    (modify (fun s => s <| cl_leaked ::= app (option_list (ma_addr <$> m)) |>));;
  mret rc.

(** What is sent again for a message in this state. *)
Definition resend (state : mosquitto_msg_state) : option (mosquitto_message_all -> L Z) :=
  match state with
  | mosq_ms_wait_for_puback | mosq_ms_wait_for_pubrec => Some send_message
  | mosq_ms_wait_for_pubrel => Some (fun m => lib_send_pubrec (ma_mid m))
  | mosq_ms_wait_for_pubcomp => Some (fun m => lib_send_pubrel (ma_mid m))
  | _ => None
  end.

(** The loop of [_mosquitto_message_retry_check_actual] over one of the lists, which
    [put] writes back; sending does not touch the list. *)
Fixpoint retry_loop (put : list mosquitto_message_all -> client -> client)
    (before l : list mosquitto_message_all) : L unit :=
  match l with
  | [] => mret tt
  | m :: l =>
    s ← get;
    match (if ma_timestamp m + cl_message_retry s <? cl_time s then resend (ma_state m) else None) with
    | Some send =>
      let m := m <| ma_timestamp := cl_time s |> <| ma_dup := true |> in
      modify (put (before ++ m :: l));;
      send m;;
      retry_loop put (before ++ [m]) l
    | None => retry_loop put (before ++ [m]) l
    end
  end.

Definition _mosquitto_message_retry_check : L unit :=
  s ← get;
  retry_loop (fun l s => s <| cl_out_messages := l |>) [] (cl_out_messages s);;
  s ← get;
  retry_loop (fun l s => s <| cl_in_messages := l |>) [] (cl_in_messages s).

Definition mosquitto_message_retry_set (message_retry : Z) : L unit :=
  modify (fun s => s <| cl_message_retry := message_retry |>).

Definition _mosquitto_message_out_update (mid : Z) (state : mosquitto_msg_state) : L Z :=
  s ← get;
  match split_mid mid (cl_out_messages s) with
  | None => mret MOSQ_ERR_NOT_FOUND
  | Some (before, m, rest) =>
    modify (fun s => s <| cl_out_messages :=
      before ++ m <| ma_state := state |> <| ma_timestamp := cl_time s |> :: rest |>);;
    mret MOSQ_ERR_SUCCESS
  end.

Definition mosquitto_max_inflight_messages_set (max_inflight_messages : Z) : L Z :=
  modify (fun s => s <| cl_max_inflight_messages := max_inflight_messages |>);;
  mret MOSQ_ERR_SUCCESS.

(** [mosquitto_message_copy] is the copy of a value; the buffers are fresh. *)
Definition mosquitto_message_copy (src : option (Z * mosquitto_message))
    : Z + (Z * mosquitto_message) :=
  match src with None => inl MOSQ_ERR_INVAL | Some m => inr m end.

Definition _mosquitto_message_cleanup_all : L unit :=
  modify (fun s => s <| cl_in_messages := [] |> <| cl_out_messages := [] |>).

(** * lib/read_handle_shared.c, lib/read_handle_client.c, lib/read_handle.c *)

Definition lib_handle_pingreq : L Z := lib_send_pingresp.

Definition lib_handle_pingresp : L Z :=
  upd_mosq (fun x => x <| c_ping_t := 0 |>);;
  mret MOSQ_ERR_SUCCESS.

(** Only inform the client the message has been sent once. *)
Definition lib_handle_pubackcomp : L Z :=
  mid ←? lib_in_packet _mosquitto_read_uint16;
  rc ← _mosquitto_message_delete mid mosq_md_out;
  whenM (rc =? 0) (callback (on_publish mid));;
  mret MOSQ_ERR_SUCCESS.

Definition lib_handle_pubrec : L Z :=
  mid ←? lib_in_packet _mosquitto_read_uint16;
  rc ← _mosquitto_message_out_update mid mosq_ms_wait_for_pubcomp;
  if negb (rc =? 0) then mret rc else
  lib_send_pubrel mid.

Definition lib_handle_pubrel : L Z :=
  s ← get;
  if bool_decide (c_protocol (cl_mosq s) = mosq_p_mqtt311) && negb (header_flags (cl_mosq s) =? 2)
  then mret MOSQ_ERR_PROTOCOL else
  mid ←? lib_in_packet _mosquitto_read_uint16;
  '(rc, m) ← _mosquitto_message_remove mid mosq_md_in;
  (match m with
   | Some m => whenM (rc =? 0) (callback (on_message (ma_mid m) (ma_msg m)))
   | None => mret tt
   end);;
  lib_send_pubcomp mid.

Fixpoint lib_read_codes (fuel : nat) (granted : list Z) : L (res (list Z)) :=
  s ← get;
  let p := c_in_packet (cl_mosq s) in
  if p_pos p <? p_remaining_length p then
    match fuel with
    | O => fault
    | S fuel =>
      r ← lib_in_packet _mosquitto_read_byte;
      match r with
      | ROk qos => lib_read_codes fuel (granted ++ [qos])
      | RErr rc => mret (RErr rc)
      end
    end
  else mret (ROk granted).

Definition lib_handle_suback : L Z :=
  mid ←? lib_in_packet _mosquitto_read_uint16;
  s ← get;
  granted ←? lib_read_codes (Z.to_nat (p_remaining_length (c_in_packet (cl_mosq s)))) [];
  callback (on_subscribe mid granted);;
  mret MOSQ_ERR_SUCCESS.

Definition lib_handle_unsuback : L Z :=
  mid ←? lib_in_packet _mosquitto_read_uint16;
  callback (on_unsubscribe mid);;
  mret MOSQ_ERR_SUCCESS.

Definition lib_handle_connack : L Z :=
  byte ←? lib_in_packet _mosquitto_read_byte;
  result ←? lib_in_packet _mosquitto_read_byte;
  callback (on_connect result);;
  if result =? 0 then
    upd_mosq (fun x =>
      if bool_decide (c_state x = mosq_cs_disconnecting) then x else x <| c_state := mosq_cs_connected |>);;
    mret MOSQ_ERR_SUCCESS
  else if (1 <=? result) && (result <=? 5) then mret MOSQ_ERR_CONN_REFUSED
  else mret MOSQ_ERR_PROTOCOL.

Definition lib_malloc : L addr :=
  s ← get;
  modify (fun s => s <| cl_next ::= S |>);;
  mret (cl_next s).

(** Up to the switch on the QoS: the identifier, topic and payload. *)
Definition lib_read_publish (qos : Z) : L (res (Z * str * list byte)) :=
  r ← lib_in_packet _mosquitto_read_string;
  match r with
  | RErr rc => mret (RErr rc)
  | ROk topic =>
    if bool_decide (topic = []) then mret (RErr MOSQ_ERR_PROTOCOL) else
    r ← (if 0 <? qos then lib_in_packet _mosquitto_read_uint16 else mret (ROk 0));
    match r with
    | RErr rc => mret (RErr rc)
    | ROk mid =>
      s ← get;
      let p := c_in_packet (cl_mosq s) in
      let payloadlen := u32 (p_remaining_length p - p_pos p) in
      if payloadlen =? 0 then mret (ROk (mid, topic, [])) else
      r ← lib_in_packet (_mosquitto_read_bytes payloadlen);
      mret (match r with ROk payload => ROk (mid, topic, payload) | RErr rc => RErr rc end)
    end
  end.

Definition _mosquitto_handle_publish : L Z :=
  a ← lib_malloc;
  s ← get;
  let header := p_command (c_in_packet (cl_mosq s)) in
  let dup := negb (Z.land header 0x08 =? 0) in
  let qos := Z.shiftr (Z.land header 0x06) 1 in
  let retain := negb (Z.land header 0x01 =? 0) in
  r ←? lib_read_publish qos;
  let '(mid, topic, payload) := r in
  let msg := Message topic payload qos retain in
  if qos =? 0 then
    callback (on_message mid msg);;
    mret MOSQ_ERR_SUCCESS
  else if qos =? 1 then
    rc ← lib_send_puback mid;
    callback (on_message mid msg);;
    mret rc
  else if qos =? 2 then
    rc ← lib_send_pubrec mid;
    _mosquitto_message_queue (MessageAll a (cl_time s) mosq_ms_wait_for_pubrel dup mid msg) mosq_md_in;;
    mret rc
  else mret MOSQ_ERR_PROTOCOL.

Definition _mosquitto_packet_handle : L Z :=
  s ← get;
  let command := Z.land (p_command (c_in_packet (cl_mosq s))) 0xF0 in
  if command =? PINGREQ then lib_handle_pingreq
  else if command =? PINGRESP then lib_handle_pingresp
  else if command =? PUBACK then lib_handle_pubackcomp
  else if command =? PUBCOMP then lib_handle_pubackcomp
  else if command =? PUBLISH then _mosquitto_handle_publish
  else if command =? PUBREC then lib_handle_pubrec
  else if command =? PUBREL then lib_handle_pubrel
  else if command =? CONNACK then lib_handle_connack
  else if command =? SUBACK then lib_handle_suback
  else if command =? UNSUBACK then lib_handle_unsuback
  else mret MOSQ_ERR_PROTOCOL.

(** The reader of lib/net_mosq.c; the library takes any first command, and counts
    nothing. *)
Definition lib_packet_read : L Z :=
  s ← get;
  let x := cl_mosq s in
  if c_sock x =? INVALID_SOCKET then mret MOSQ_ERR_NO_CONN else
  if bool_decide (c_state x = mosq_cs_connect_pending) then mret MOSQ_ERR_SUCCESS else
  let '(out, p, _, rs) := assemble (fun _ => true) (cl_reads s) (c_in_packet x) 0 in
  modify (fun s => s <| cl_reads := rs |>
    <| cl_again := match out with inl (rc, _) => rc =? MOSQ_ERR_SUCCESS | inr _ => false end |>);;
  upd_mosq (fun x => x <| c_in_packet := p |>);;
  match out with
  | inl (rc, slow) =>
    whenM slow (upd_mosq (fun x => x <| c_last_msg_in := cl_time s |>));;
    mret rc
  | inr tt =>
    upd_mosq (fun x => x <| c_in_packet ::= (fun p => p <| p_pos := 0 |>) |>);;
    rc ← _mosquitto_packet_handle;
    upd_mosq (fun x => x <| c_in_packet ::= _mosquitto_packet_cleanup |> <| c_last_msg_in := cl_time s |>);;
    mret rc
  end.

(** * lib/mosquitto.c *)

(** What the system answers: the result and socket of [_mosquitto_socket_connect] for
    a blocking connection or not, and the characters of a random client identifier. *)
Class LibSystem := {
  lib_socket_connect : client -> bool -> Z * Z;
  random_chars : str }.

(** [memset(mosq, 0, sizeof(struct mosquitto))]; what the socket answers is not part
    of the structure. *)
Definition client_zero (s : client) : client :=
  Client context_calloc None 0 Null false 0 0 0 0 false [] None [] None 0 0 0 0 (fun _ => false)
    (cl_events s) [] (cl_next s) (cl_writes s) (cl_reads s) [] false (cl_time s).

Section api.
Context `{LibSystem}.

(** Freeing twice faults. *)
Definition free_bind_address : L unit :=
  s ← get;
  match cl_bind_address s with
  | Freed => fault
  | _ => mret tt
  end.

Definition _mosquitto_destroy : L unit :=
  s ← get;
  whenM (negb (c_sock (cl_mosq s) =? INVALID_SOCKET)) (lib_socket_close;; mret tt);;
  _mosquitto_message_cleanup_all;;
  free_bind_address;;
  modify (fun s => s <| cl_host := None |> <| cl_bind_address := Null |>);;
  upd_mosq (fun x =>
    x <| c_will := None |> <| c_address := None |> <| c_id := None |> <| c_username := None |>
      <| c_password := None |> <| c_current_out_packet := None |> <| c_out_packet := [] |>
      <| c_in_packet ::= _mosquitto_packet_cleanup |>).

(** The assignments of [mosquitto_reinitialise] before the identifier and after it. *)
Definition client_settings (clean_session : bool) (s : client) : client :=
  s <| cl_mosq ::= fun x =>
         x <| c_protocol := mosq_p_mqtt31 |> <| c_sock := INVALID_SOCKET |> <| c_keepalive := 60 |>
           <| c_clean_session := clean_session |> |>
    <| cl_message_retry := 20 |>.

Definition client_defaults (id : str) (now : Z) (s : client) : client :=
  s <| cl_mosq ::= fun x =>
         x <| c_id := Some id |> <| c_in_packet ::= _mosquitto_packet_cleanup |>
           <| c_last_msg_in := now |> <| c_last_msg_out := now |> <| c_state := mosq_cs_new |> |>
    <| cl_max_inflight_messages := 20 |> <| cl_port := 1883 |>
    <| cl_reconnect_delay := 1 |> <| cl_reconnect_delay_max := 1 |>.

Definition mosquitto_reinitialise (id : option str) (clean_session : bool) : L Z :=
  if negb clean_session && bool_decide (id = None) then mret MOSQ_ERR_INVAL else
  _mosquitto_destroy;;
  modify client_zero;;
  modify (client_settings clean_session);;
  now ← lib_time;
  match id with
  | Some id =>
    if strlen id =? 0 then mret MOSQ_ERR_INVAL else
    modify (client_defaults id now);;
    mret MOSQ_ERR_SUCCESS
  | None =>
    modify (client_defaults (lit "mosq/" ++ random_chars) now);;
    mret MOSQ_ERR_SUCCESS
  end.

(** [None] is a NULL pointer: there is no client. *)
Definition mosquitto_new (id : option str) (clean_session : bool) : L (option Z) :=
  if negb clean_session && bool_decide (id = None) then mret None else
  modify client_zero;;
  upd_mosq (fun x => x <| c_sock := INVALID_SOCKET |>);;
  rc ← mosquitto_reinitialise id clean_session;
  if negb (rc =? 0) then _mosquitto_destroy;; mret None else mret (Some rc).

Definition lib_will_set (topic : option str) (payload : list byte) (qos : Z) (retain : bool) : L Z :=
  match topic with
  | None => mret MOSQ_ERR_INVAL
  | Some topic =>
    if MQTT_MAX_PAYLOAD <? Z.of_nat (length payload) then mret MOSQ_ERR_PAYLOAD_SIZE else
    if negb (mosquitto_pub_topic_check topic =? 0) then mret MOSQ_ERR_INVAL else
    upd_mosq (fun x => x <| c_will := Some (Message topic payload qos retain) |>);;
    mret MOSQ_ERR_SUCCESS
  end.

Definition mosquitto_will_set (topic : option str) (payload : list byte) (qos : Z) (retain : bool) : L Z :=
  lib_will_set topic payload qos retain.

Definition mosquitto_will_clear : L Z :=
  upd_mosq (fun x => x <| c_will := None |>);;
  mret MOSQ_ERR_SUCCESS.

(** A password without a user name is dropped. *)
Definition mosquitto_username_pw_set (username password : option str) : L Z :=
  upd_mosq (fun x => x <| c_username := username |>
                       <| c_password := if bool_decide (username = None) then None else password |>);;
  mret MOSQ_ERR_SUCCESS.

Definition mosquitto_reconnect_delay_set (delay delay_max : Z) (backoff : bool) : L Z :=
  modify (fun s => s <| cl_reconnect_delay := delay |> <| cl_reconnect_delay_max := delay_max |>
                     <| cl_reconnect_exponential_backoff := backoff |>);;
  mret MOSQ_ERR_SUCCESS.

(** The old [bind_address] is freed, and not reset when there is no new one. *)
Definition _mosquitto_connect_init (host : option str) (port keepalive : Z) (bind_address : option str) : L Z :=
  match host with
  | None => mret MOSQ_ERR_INVAL
  | Some _ =>
    if port <=? 0 then mret MOSQ_ERR_INVAL else
    free_bind_address;;
    modify (fun s => s <| cl_host := host |> <| cl_port := port |>
      <| cl_bind_address ::= (fun old =>
           match bind_address, old with
           | Some b, _ => At b
           | None, Null => Null
           | None, _ => Freed
           end) |>);;
    upd_mosq (fun x => x <| c_keepalive := u16 keepalive |>);;
    mret MOSQ_ERR_SUCCESS
  end.

Definition _mosquitto_reconnect (blocking : bool) : L Z :=
  s ← get;
  if bool_decide (cl_host s = None) || (cl_port s <=? 0) then mret MOSQ_ERR_INVAL else
  now ← lib_time;
  upd_mosq (fun x =>
    x <| c_state := mosq_cs_new |> <| c_last_msg_in := now |> <| c_last_msg_out := now |>
      <| c_ping_t := 0 |> <| c_in_packet ::= _mosquitto_packet_cleanup |>
      <| c_current_out_packet := None |> <| c_out_packet := [] |>);;
  _mosquitto_messages_reconnect_reset;;
  s ← get;
  assertM (match cl_bind_address s with Freed => false | _ => true end);;
  let '(rc, sock) := lib_socket_connect s blocking in
  if 0 <? rc then mret rc else
  upd_mosq (fun x => x <| c_sock := sock |>);;
  modify (fun s => s <| cl_sent := [] |>);;
  s ← get;
  lib_send_connect (c_keepalive (cl_mosq s)) (c_clean_session (cl_mosq s)).

Definition mosquitto_connect_bind (host : option str) (port keepalive : Z) (bind_address : option str) : L Z :=
  rc ← _mosquitto_connect_init host port keepalive bind_address;
  if negb (rc =? 0) then mret rc else
  upd_mosq (fun x => x <| c_state := mosq_cs_new |>);;
  _mosquitto_reconnect true.

Definition mosquitto_connect (host : option str) (port keepalive : Z) : L Z :=
  mosquitto_connect_bind host port keepalive None.

Definition mosquitto_connect_bind_async (host : option str) (port keepalive : Z)
    (bind_address : option str) : L Z :=
  rc ← _mosquitto_connect_init host port keepalive bind_address;
  if negb (rc =? 0) then mret rc else
  upd_mosq (fun x => x <| c_state := mosq_cs_connect_async |>);;
  _mosquitto_reconnect false.

Definition mosquitto_reconnect : L Z := _mosquitto_reconnect true.
Definition mosquitto_reconnect_async : L Z := _mosquitto_reconnect false.

Definition mosquitto_disconnect : L Z :=
  upd_mosq (fun x => x <| c_state := mosq_cs_disconnecting |>);;
  s ← get;
  if c_sock (cl_mosq s) =? INVALID_SOCKET then mret MOSQ_ERR_NO_CONN else
  lib_send_disconnect.

(** [message->state = ...] after the message was queued. *)
Definition set_message (m : mosquitto_message_all) : L unit :=
  let put n := if decide (ma_addr n = ma_addr m) then m else n in
  modify (fun s => s <| cl_in_messages ::= map put |> <| cl_out_messages ::= map put |>).

(** The result and, when one was drawn, the identifier. *)
Definition mosquitto_publish (topic : option str) (payload : list byte) (qos : Z) (retain : bool)
    : L (Z * option Z) :=
  match topic with
  | None => mret (MOSQ_ERR_INVAL, None)
  | Some topic =>
    if (qos <? 0) || (2 <? qos) then mret (MOSQ_ERR_INVAL, None) else
    if strlen topic =? 0 then mret (MOSQ_ERR_INVAL, None) else
    if MQTT_MAX_PAYLOAD <? Z.of_nat (length payload) then mret (MOSQ_ERR_PAYLOAD_SIZE, None) else
    if negb (mosquitto_pub_topic_check topic =? MOSQ_ERR_SUCCESS) then mret (MOSQ_ERR_INVAL, None) else
    local_mid ← lib_mid_generate;
    if qos =? 0 then
      rc ← lib_send_publish local_mid topic payload qos retain false;
      mret (rc, Some local_mid)
    else
      a ← lib_malloc;
      now ← lib_time;
      let m := MessageAll a now mosq_ms_invalid false local_mid (Message topic payload qos retain) in
      _mosquitto_message_queue m mosq_md_out;;
      s ← get;
      if in_window s then
        let m := m <| ma_state := first_state m |> in
        set_message m;;
        rc ← send_message m;
        mret (rc, Some local_mid)
      else mret (MOSQ_ERR_SUCCESS, Some local_mid)
  end.

Definition mosquitto_subscribe (sub : str) (qos : Z) : L (Z * option Z) :=
  s ← get;
  if c_sock (cl_mosq s) =? INVALID_SOCKET then mret (MOSQ_ERR_NO_CONN, None) else
  if negb (mosquitto_sub_topic_check sub =? 0) then mret (MOSQ_ERR_INVAL, None) else
  lib_send_subscribe sub (u8 qos).

Definition mosquitto_unsubscribe (sub : str) : L (Z * option Z) :=
  s ← get;
  if c_sock (cl_mosq s) =? INVALID_SOCKET then mret (MOSQ_ERR_NO_CONN, None) else
  if negb (mosquitto_sub_topic_check sub =? 0) then mret (MOSQ_ERR_INVAL, None) else
  lib_send_unsubscribe sub.

(** [None] is an option number that is not known. *)
Definition mosquitto_opts_set (protocol_version : option Z) : L Z :=
  match protocol_version with
  | Some v =>
    if v =? MQTT_PROTOCOL_V31 then upd_mosq (fun x => x <| c_protocol := mosq_p_mqtt31 |>);; mret MOSQ_ERR_SUCCESS
    else if v =? MQTT_PROTOCOL_V311 then
      upd_mosq (fun x => x <| c_protocol := mosq_p_mqtt311 |>);; mret MOSQ_ERR_SUCCESS
    else mret MOSQ_ERR_INVAL
  | None => mret MOSQ_ERR_INVAL
  end.

(** The socket is closed and the user told, with 0 for a disconnect that was asked for. *)
Definition lost_connection (rc : Z) : L Z :=
  lib_socket_close;;
  s ← get;
  let rc := if bool_decide (c_state (cl_mosq s) = mosq_cs_disconnecting) then MOSQ_ERR_SUCCESS else rc in
  callback (on_disconnect rc);;
  mret rc.

Definition lib_check_keepalive : L unit :=
  s ← get;
  let x := cl_mosq s in
  let now := cl_time s in
  if keepalive_due x now then
    if bool_decide (c_state x = mosq_cs_connected) && (c_ping_t x =? 0) then
      lib_send_pingreq;;
      upd_mosq (fun x => x <| c_last_msg_in := now |> <| c_last_msg_out := now |>)
    else lost_connection 1;; mret tt
  else mret tt.

Definition mosquitto_loop_misc : L Z :=
  s ← get;
  if c_sock (cl_mosq s) =? INVALID_SOCKET then mret MOSQ_ERR_NO_CONN else
  lib_check_keepalive;;
  s ← get;
  whenM (cl_last_retry_check s + 1 <? cl_time s)
    (_mosquitto_message_retry_check;; modify (fun s => s <| cl_last_retry_check := cl_time s |>));;
  s ← get;
  let x := cl_mosq s in
  if negb (c_ping_t x =? 0) && (c_keepalive x <=? cl_time s - c_ping_t x) then
    lost_connection 1;;
    mret MOSQ_ERR_CONN_LOST
  else mret MOSQ_ERR_SUCCESS.

Definition _mosquitto_loop_rc_handle (rc : Z) : L Z :=
  if negb (rc =? 0) then lost_connection rc else mret rc.

(** [for(i=0; i<max_packets; i++)], for reading and for writing. *)
Fixpoint packet_loop (n : nat) (once : L Z) (rc : Z) : L Z :=
  match n with
  | O => mret rc
  | S n =>
    rc ← once;
    s ← get;
    if negb (rc =? 0) || cl_again s then _mosquitto_loop_rc_handle rc
    else packet_loop n once rc
  end.

(** As many packets as there are messages with QoS > 0 under way, at least one. *)
Definition packets_per_loop (s : client) : nat :=
  Z.to_nat (Z.max 1 (cl_out_queue_len s + cl_in_queue_len s)).

Definition mosquitto_loop_read (max_packets : Z) : L Z :=
  if max_packets <? 1 then mret MOSQ_ERR_INVAL else
  s ← get;
  packet_loop (packets_per_loop s) lib_packet_read 0.

Definition mosquitto_loop_write (max_packets : Z) : L Z :=
  if max_packets <? 1 then mret MOSQ_ERR_INVAL else
  s ← get;
  packet_loop (packets_per_loop s) lib_packet_write 0.

Definition mosquitto_want_write : L bool :=
  s ← get;
  let x := cl_mosq s in
  mret (negb (bool_decide (c_out_packet x = [])) || bool_decide (c_current_out_packet x <> None)).

(** The error codes of lib/mosquitto.h that only the library returns. *)
Definition MOSQ_ERR_EAI : Z := 15.
Definition MOSQ_ERR_PROXY : Z := 16.

(** What select(2) answers: it failed, interrupted or not, or the socket can be read
    or written and there was a call to wake the loop. *)
Inductive select_answer := SelFailed (interrupted : bool) | SelReady (readable writable woken : bool).

Definition FD_SETSIZE : Z := 1024.

(** Writing is asked for only when there is something to write. *)
Definition mosquitto_loop (answer : select_answer) (max_packets : Z) : L Z :=
  if max_packets <? 1 then mret MOSQ_ERR_INVAL else
  s ← get;
  if FD_SETSIZE <=? c_sock (cl_mosq s) then mret MOSQ_ERR_INVAL else
  wanted ← mosquitto_want_write;
  match answer with
  | SelFailed interrupted => mret (if interrupted then MOSQ_ERR_SUCCESS else MOSQ_ERR_ERRNO)
  | SelReady readable writable woken =>
    if c_sock (cl_mosq s) =? INVALID_SOCKET then mosquitto_loop_misc else
    rc ← (if readable then mosquitto_loop_read max_packets else mret 0);
    s ← get;
    if negb (rc =? 0) || (readable && (c_sock (cl_mosq s) =? INVALID_SOCKET)) then mret rc else
    let write := (wanted && writable) || woken in
    rc ← (if write then mosquitto_loop_write max_packets else mret 0);
    s ← get;
    if negb (rc =? 0) || (write && (c_sock (cl_mosq s) =? INVALID_SOCKET)) then mret rc else
    mosquitto_loop_misc
  end.

(** [mosquitto_loop_forever]: the results that end it, and how long it waits before it
    connects again, with the new count of attempts; [unsigned int] products wrap. *)
Definition fatal_error (rc : Z) : bool :=
  bool_decide (rc ∈ [MOSQ_ERR_NOMEM; MOSQ_ERR_PROTOCOL; MOSQ_ERR_INVAL; MOSQ_ERR_NOT_FOUND; MOSQ_ERR_TLS;
    MOSQ_ERR_PAYLOAD_SIZE; MOSQ_ERR_NOT_SUPPORTED; MOSQ_ERR_AUTH; MOSQ_ERR_ACL_DENIED;
    MOSQ_ERR_UNKNOWN; MOSQ_ERR_EAI; MOSQ_ERR_PROXY]).

Definition next_delay (s : client) (reconnects : Z) : Z * Z :=
  let delay := cl_reconnect_delay s in
  let wait :=
    if (0 <? delay) && cl_reconnect_exponential_backoff s
    then u32 (u32 (delay * reconnects) * reconnects) else delay in
  if cl_reconnect_delay_max s <? wait then (cl_reconnect_delay_max s, reconnects)
  else (wait, u32 (reconnects + 1)).

(** The inner loop: until connecting succeeds, at most [attempts] times; sleeping is time
    that passes. [None]: not yet. Otherwise whether to go on, the last result and the count. *)
Fixpoint reconnect_loop (attempts : nat) (reconnects : Z) : L (option (bool * Z * Z)) :=
  match attempts with
  | O => mret None
  | S attempts =>
    s ← get;
    if bool_decide (c_state (cl_mosq s) = mosq_cs_disconnecting)
    then mret (Some (false, MOSQ_ERR_SUCCESS, reconnects)) else
    let '(wait, reconnects) := next_delay s reconnects in
    modify (fun s => s <| cl_time ::= fun t => t + wait |>);;
    rc ← mosquitto_reconnect;
    if rc =? MOSQ_ERR_SUCCESS then mret (Some (true, rc, reconnects))
    else reconnect_loop attempts reconnects
  end.

(** The outer loop up to the end of the list: what select(2) answers each time it is
    asked and whether errno is EPROTO afterwards. [None]: it is still running. *)
Fixpoint forever_loop (answers : list (select_answer * bool)) (attempts : nat) (max_packets reconnects : Z)
    : L (option Z) :=
  match answers with
  | [] => mret None
  | (answer, eproto) :: answers =>
    rc ← mosquitto_loop answer max_packets;
    if rc =? MOSQ_ERR_SUCCESS then forever_loop answers attempts max_packets 0
    else if fatal_error rc || eproto then mret (Some rc)
    else
      r ← reconnect_loop attempts reconnects;
      match r with
      | Some (true, _, reconnects) => forever_loop answers attempts max_packets reconnects
      | Some (false, rc, _) => mret (Some rc)
      | None => mret None
      end
  end.

Definition mosquitto_loop_forever (answers : list (select_answer * bool)) (attempts : nat)
    (max_packets : Z) : L (option Z) :=
  s ← get;
  whenM (bool_decide (c_state (cl_mosq s) = mosq_cs_connect_async)) (mosquitto_reconnect;; mret tt);;
  forever_loop answers attempts max_packets 0.
End api.
