(* ===== verification/Loop.v ===== *)
(** The broker's loop: [mosquitto_main_loop] of src/loop.c, one function per part of an
    iteration, and the accepting of connections of src/net.c.

    [pollfds] is the list of contexts that were given to [poll(2)], each with the
    descriptor and whether the loop asked for [POLLOUT]; a context that is not on it
    has a [pollfd_index] of -1.  An iteration over a table visits the contexts that are
    in the table when it starts, in order: one that loses its socket on the way has
    nothing left to be done ([packet_read] and [do_disconnect] do nothing for it). *)

From S2P Require Export Bridge.
#[local] Open Scope Z_scope.

(** * src/net.c *)

(** The listeners that accept on [listensock], from index [i] on, are told. *)
Fixpoint assign_listener (c : addr) (listensock : Z) (i : nat) (ls : list _mqtt3_listener) : M unit :=
  match ls with
  | [] => mret tt
  | l :: ls =>
    whenM (bool_decide (listensock ∈ l_socks l))
      (upd_ctx c (fun x => x <| c_listener := Some i |>);;
       modify (fun d => d <| d_listeners ::=
                 <[i := l <| l_client_count := l_client_count l + 1 |>]> |>));;
    assign_listener c listensock (S i) ls
  end.

(** [accepted] is the new socket and its peer, [None] when there is no more to accept
    or the socket cannot be used; [tls_ok] whether the TLS handshake did not fail. *)
Definition mqtt3_socket_accept (listensock : Z) (accepted : option (Z * option str)) (tls_ok : bool)
    : M Z :=
  match accepted with
  | None => mret (-1)
  | Some (new_sock, peer) =>
    r ← mqtt3_context_init new_sock peer;
    match r with
    | None => mret (-1)
    | Some c =>
      d ← get;
      assign_listener c listensock 0 (d_listeners d);;
      x ← get_ctx c;
      listener ← get_listener (c_listener x);
      match listener with
      | None => mqtt3_context_cleanup c true;; mret (-1)
      | Some l =>
        if (0 <? l_max_connections l) && (l_max_connections l <? l_client_count l) then
          mqtt3_context_cleanup c true;; mret (-1)
        else if l_ssl_ctx l then
          upd_ctx c (fun x => x <| c_ssl := true |>);;
          if tls_ok then mret new_sock else mqtt3_context_cleanup c true;; mret (-1)
        else mret new_sock
      end
    end
  end.

(** * src/loop.c *)

(** One entry of [pollfds]. *)
Record pollfd := Pollfd { pf_context : addr; pf_fd : Z; pf_out : bool }.

(** What [poll(2)] reports for a context. *)
Record revents := Revents { re_in : bool; re_out : bool; re_err : bool }.

(** [getsockopt(SO_ERROR)] of a connecting socket: [None] when it fails. *)
Record poll_answer := PollAnswer {
  pa_failed : bool;
  pa_revents : addr -> revents;
  pa_sockerr : addr -> option Z }.

Fixpoint find_pollfd (l : list pollfd) (c : addr) : option pollfd :=
  match l with
  | [] => None
  | p :: l => if decide (pf_context p = c) then Some p else find_pollfd l c
  end.

(** [now - context->last_msg_in < (time_t)(context->keepalive)*3/2] *)
Definition alive (x : mosquitto) (now : Z) : bool :=
  (c_keepalive x =? 0) || bool_decide (c_bridge x <> None)
  || (now - c_last_msg_in x <? c_keepalive x * 3 / 2).

Section loop.
Context `{Crypto, Environment, Network}.

(** A bridge on another than its first address goes back to it when it answers. *)
Definition retry_primary (c : addr) : M unit :=
  x ← get_ctx c;
  now ← mosquitto_time;
  match c_bridge x with
  | None => mret tt
  | Some b =>
    if negb (b_round_robin b) && negb (b_cur_address b =? 0) && (b_primary_retry b <? now) then
      d ← get;
      if try_connect d c =? MOSQ_ERR_SUCCESS then
        _mosquitto_socket_close c;;
        upd_ctx c (fun x => x <| c_bridge ::=
          fmap (fun b => b <| b_cur_address := b_address_count b - 1 |>) |>)
      else mret tt
    else mret tt
  end.

Definition poll_entry (c : addr) : M pollfd :=
  x ← get_ctx c;
  mret (Pollfd c (c_sock x) (bool_decide (c_current_out_packet x <> None)
                             || bool_decide (c_state x = mosq_cs_connect_pending))).

(** The body of [HASH_ITER(hh_sock, ...)]: write what is due, or drop a client that
    was silent for one and a half times its keepalive. *)
Definition serve_context (c : addr) : M (option pollfd) :=
  x ← get_ctx c;
  if c_sock x =? INVALID_SOCKET then mret None else
  whenM (bool_decide (c_bridge x <> None)) (_mosquitto_check_keepalive c;; retry_primary c);;
  x ← get_ctx c;
  now ← mosquitto_time;
  if alive x now then
    rc ← mqtt3_db_message_write c;
    if rc =? MOSQ_ERR_SUCCESS then p ← poll_entry c; mret (Some p)
    else do_disconnect c;; mret None
  else do_disconnect c;; mret None.

Fixpoint serve_contexts (l : list addr) : M (list pollfd) :=
  match l with
  | [] => mret []
  | c :: l =>
    p ← serve_context c;
    ps ← serve_contexts l;
    mret (match p with Some p => p :: ps | None => ps end)
  end.

Definition next_address (b : _mqtt3_bridge) : _mqtt3_bridge :=
  let cur := b_cur_address b + 1 in
  b <| b_cur_address := if cur =? b_address_count b then 0 else cur |>.

Definition upd_bridge (c : addr) (f : _mqtt3_bridge -> _mqtt3_bridge) : M unit :=
  upd_ctx c (fun x => x <| c_bridge ::= fmap f |>).

(** A bridge without a socket: set its time of restart, or start it. *)
Definition restart_bridge (c : addr) : M (option pollfd) :=
  x ← get_ctx c;
  if negb (c_sock x =? INVALID_SOCKET) then mret None else
  b ← unwrap (c_bridge x);
  now ← mosquitto_time;
  if b_restart_t b =? 0 then
    upd_bridge c (fun b =>
      let b := next_address (b <| b_restart_t := now + b_restart_timeout b |>) in
      if negb (b_round_robin b) && negb (b_cur_address b =? 0)
      then b <| b_primary_retry := now + 5 |> else b);;
    mret None
  else
    whenM (bool_decide (b_start_type b = bst_lazy) && b_lazy_reconnect b)
      (rc ← mqtt3_bridge_connect c;
       whenM (negb (rc =? 0)) (upd_bridge c next_address));;
    x ← get_ctx c;
    b ← unwrap (c_bridge x);
    if bool_decide (b_start_type b = bst_automatic) && (b_restart_t b <? now) then
      upd_bridge c (fun b => b <| b_restart_t := 0 |>);;
      rc ← mqtt3_bridge_connect c;
      if rc =? MOSQ_ERR_SUCCESS then
        x ← get_ctx c;
        mret (Some (Pollfd c (c_sock x) (bool_decide (c_current_out_packet x <> None))))
      else
        upd_bridge c (fun b => next_address (b <| b_restart_t := now + b_restart_timeout b |>));;
        mret None
    else mret None.

Fixpoint restart_bridges (l : list (option addr)) : M (list pollfd) :=
  match l with
  | [] => mret []
  | None :: l => restart_bridges l
  | Some c :: l =>
    p ← restart_bridge c;
    ps ← restart_bridges l;
    mret (match p with Some p => p :: ps | None => ps end)
  end.

(** ** Handling what poll reports *)

Definition handle_error (pollfds : list pollfd) (re : addr -> revents) (c : addr) : M unit :=
  match find_pollfd pollfds c with
  | None => mret tt
  | Some _ => whenM (re_err (re c)) (do_disconnect c)
  end.

Definition loop_handle_errors (pollfds : list pollfd) (re : addr -> revents) : M unit :=
  d ← get;
  for_each (handle_error pollfds re) (d_contexts_by_sock d).

(** A connecting socket that became writable is connected, or is dropped; the result
    is whether to go on. *)
Definition finish_connect (sockerr : option Z) (c : addr) : M bool :=
  x ← get_ctx c;
  if bool_decide (c_state x = mosq_cs_connect_pending) then
    match sockerr with
    | Some err =>
      whenM (err =? 0) (upd_ctx c (fun x => x <| c_state := mosq_cs_new |>));;
      mret true
    | None => do_disconnect c;; mret false
    end
  else mret true.

Definition handle_write (pollfds : list pollfd) (pa : poll_answer) (c : addr) : M unit :=
  match find_pollfd pollfds c with
  | None => mret tt
  | Some p =>
    x ← get_ctx c;
    assertM (pf_fd p =? c_sock x);;
    if re_out (pa_revents pa c) || (c_ssl x && bool_decide (c_state x = mosq_cs_new)) then
      go_on ← finish_connect (pa_sockerr pa c) c;
      if (go_on : bool) then
        rc ← _mosquitto_packet_write c;
        whenM (negb (rc =? 0)) (do_disconnect c)
      else mret tt
    else mret tt
  end.

Definition handle_read (pollfds : list pollfd) (pa : poll_answer) (c : addr) : M unit :=
  match find_pollfd pollfds c with
  | None => mret tt
  | Some _ =>
    x ← get_ctx c;
    if re_in (pa_revents pa c) || (c_ssl x && bool_decide (c_state x = mosq_cs_new)) then
      rc ← packet_read c;
      whenM (negb (rc =? 0)) (do_disconnect c)
    else mret tt
  end.

Definition loop_handle_reads_writes (pollfds : list pollfd) (pa : poll_answer) : M unit :=
  d ← get;
  for_each (handle_write pollfds pa) (d_contexts_by_sock d);;
  d ← get;
  for_each (handle_read pollfds pa) (d_contexts_by_sock d).

(** [while(mqtt3_socket_accept(db, listensock[i]) != -1)], with the answers of the
    successive calls of [accept(2)]. *)
Fixpoint accept_loop (listensock : Z) (accepted : list (Z * option str * bool)) : M unit :=
  match accepted with
  | [] => mret tt
  | (sock, peer, tls_ok) :: accepted =>
    rc ← mqtt3_socket_accept listensock (Some (sock, peer)) tls_ok;
    if rc =? -1 then mret tt else accept_loop listensock accepted
  end.

Definition accept_all (ready : list (Z * list (Z * option str * bool))) : M unit :=
  for_each (fun '(listensock, accepted) => accept_loop listensock accepted) ready.

(** One iteration up to the handling of what poll reports; [poll] is the system call,
    the result the time of the next expiry check. *)
Definition main_loop_iteration (poll : list pollfd -> poll_answer)
    (ready : list (Z * list (Z * option str * bool))) (expiration_check_time : Z) : M Z :=
  mosquitto__free_disused_contexts;;
  d ← get;
  clients ← serve_contexts (d_contexts_by_sock d);
  d ← get;
  bridges ← restart_bridges (d_bridges d);
  next_check ← expire_persistent_clients expiration_check_time;
  retry_interval ← gets (fun d => cf_retry_interval (d_config d));
  mqtt3_db_message_timeout_check retry_interval;;
  let pollfds := clients ++ bridges in
  let pa := poll pollfds in
  (if pa_failed pa then loop_handle_errors pollfds (pa_revents pa)
   else loop_handle_reads_writes pollfds pa;; accept_all ready);;
  mret next_check.
End loop.
