(* ===== verification/Persist.v ===== *)
(** The saved database: src/persist.c and src/persist.h.  A file is a list of bytes.
    Chunks are in network byte order, but for message ids of the store and times,
    which are written as the host has them: little endian, 8 bytes.  Opening,
    renaming and failing to write the file are the system's and left out. *)

From S2P Require Export Context.
#[local] Open Scope Z_scope.

Definition MOSQ_DB_VERSION : Z := 3.
Definition magic : list byte := map byte_of_Z [0; 0xB5; 0] ++ lit "mosquitto db".
Definition DB_CHUNK_CFG : Z := 1.
Definition DB_CHUNK_MSG_STORE : Z := 2.
Definition DB_CHUNK_CLIENT_MSG : Z := 3.
Definition DB_CHUNK_RETAIN : Z := 4.
Definition DB_CHUNK_SUB : Z := 5.
Definition DB_CHUNK_CLIENT : Z := 6.

(** * Integers in the file *)

(** [n] bytes of [z], least significant first. *)
Fixpoint le_bytes (n : nat) (z : Z) : list byte :=
  match n with
  | O => []
  | S n => byte_of_Z z :: le_bytes n (z / 256)
  end.

Fixpoint le_value (bs : list byte) : Z :=
  match bs with
  | [] => 0
  | b :: bs => Z_of_byte b + 256 * le_value bs
  end.

(** [htons], [htonl], and an integer of the host. *)
Definition w_u8 (z : Z) : list byte := le_bytes 1 z.
Definition w_be16 (z : Z) : list byte := rev (le_bytes 2 z).
Definition w_be32 (z : Z) : list byte := rev (le_bytes 4 z).
Definition w_le64 (z : Z) : list byte := le_bytes 8 z.

(** Reading the file: [None] is [goto error], with the file at an end too early. *)
Abbreviation R := (ST (list byte)).

Definition read_e (n : nat) : R (list byte) :=
  bs ← get;
  assertM (Nat.leb n (length bs));;
  modify (drop n);;
  mret (take n bs).

Definition r_u8 : R Z := bs ← read_e 1; mret (le_value bs).
Definition r_be16 : R Z := bs ← read_e 2; mret (le_value (rev bs)).
Definition r_be32 : R Z := bs ← read_e 4; mret (le_value (rev bs)).
Definition r_le64 : R Z := bs ← read_e 8; mret (le_value bs).

(** [time_t] is signed. *)
Definition signed64 (z : Z) : Z := if z <? 2 ^ 63 then z else z - 2 ^ 64.

(** [slen = strlen(s); i16temp = htons(slen); write; write(s, slen)] *)
Definition w_string (s : str) : list byte :=
  let slen := u16 (strlen s) in w_be16 slen ++ take (Z.to_nat slen) s.

Definition r_string : R str :=
  slen ← r_be16;
  bs ← read_e (Z.to_nat slen);
  mret (cstr bs).

(** The same, where an empty string is refused. *)
Definition r_nonempty : R str :=
  slen ← r_be16;
  assertM (negb (slen =? 0));;
  bs ← read_e (Z.to_nat slen);
  mret (cstr bs).

Definition w_chunk (chunk length : Z) (body : list byte) : list byte :=
  w_be16 chunk ++ w_be32 (u32 length) ++ body.

(** * Saving *)

(** [mqtt3_db_message_store_write]: one stored message.  A NULL topic faults. *)
Definition store_chunk (st : mosquitto_msg_store) : option (list byte) :=
  topic ← s_topic st;
  let force_no_retain := strneq topic (lit "$SYS") 4 in
  Some (w_chunk DB_CHUNK_MSG_STORE
    (8 + (2 + strlen (s_source_id st)) + 2 + 2 + (2 + strlen topic) + 4 + s_payloadlen st + 1 + 1)
    (w_le64 (s_db_id st) ++ w_string (s_source_id st) ++ w_be16 (s_source_mid st)
     ++ w_be16 (s_mid st) ++ w_string topic ++ w_u8 (s_qos st)
     ++ w_u8 (if force_no_retain then 0 else zbool (s_retain st))
     ++ w_be32 (s_payloadlen st) ++ s_payload st)).

(** [mqtt3_db_client_messages_write]: one message of a client. *)
Definition client_msg_chunk (id : str) (db_id : Z) (m : mosquitto_client_msg) : list byte :=
  w_chunk DB_CHUNK_CLIENT_MSG (8 + 2 + 1 + 1 + 1 + 1 + 1 + 2 + u16 (strlen id))
    (w_string id ++ w_le64 db_id ++ w_be16 (m_mid m) ++ w_u8 (m_qos m)
     ++ w_u8 (zbool (m_retain m)) ++ w_u8 (direction_Z (m_direction m))
     ++ w_u8 (msg_state_Z (m_state m)) ++ w_u8 (zbool (m_dup m))).

(** [mqtt3_db_client_write]: the chunk of one client. *)
Definition client_chunk (id : str) (last_mid disconnect_t : Z) : list byte :=
  w_chunk DB_CHUNK_CLIENT (2 + strlen id + 2 + 8)
    (w_string id ++ w_be16 last_mid ++ w_le64 disconnect_t).

Definition sub_chunk (id thistopic : str) (qos : Z) : list byte :=
  w_chunk DB_CHUNK_SUB (2 + strlen id + 2 + strlen thistopic + 1)
    (w_string id ++ w_string thistopic ++ w_u8 qos).

Definition retain_chunk (db_id : Z) : list byte := w_chunk DB_CHUNK_RETAIN 8 (w_le64 db_id).

(** Writing appends to the file. *)
Fixpoint concat_map {A} (f : A -> M (list byte)) (l : list A) : M (list byte) :=
  match l with
  | [] => mret []
  | a :: l => bs ← f a; bs' ← concat_map f l; mret (bs ++ bs')
  end.

Definition mqtt3_db_message_store_write : M (list byte) :=
  d ← get;
  concat_map (fun s => st ← get_store s; unwrap (store_chunk st)) (d_msg_store d).

Definition mqtt3_db_client_messages_write (c : addr) : M (list byte) :=
  x ← get_ctx c;
  concat_map (fun m =>
    id ← unwrap (c_id x);
    st ← get_store (m_store m);
    mret (client_msg_chunk id (s_db_id st) m)) (c_msgs x).

Definition client_write (c : addr) : M (list byte) :=
  x ← get_ctx c;
  if c_clean_session x then mret [] else
  id ← unwrap (c_id x);
  now ← mosquitto_time;
  let disconnect_t := if negb (c_disconnect_t x =? 0) then c_disconnect_t x else now in
  msgs ← mqtt3_db_client_messages_write c;
  mret (client_chunk id (c_last_mid x) disconnect_t ++ msgs).

Definition mqtt3_db_client_write : M (list byte) :=
  d ← get;
  concat_map client_write (d_contexts_by_id d).

(** The topic of a node below [topic]. *)
Definition this_topic (topic node : str) : str :=
  if negb (strlen topic =? 0) then topic ++ lit "/" ++ node else node.

Definition leaf_write (thistopic : str) (leaf : _mosquitto_subleaf) : M (list byte) :=
  x ← get_ctx (lf_context leaf);
  if c_clean_session x then mret [] else
  id ← unwrap (c_id x);
  mret (sub_chunk id thistopic (lf_qos leaf)).

Definition retained_write (retained : option addr) : M (list byte) :=
  match retained with
  | None => mret []
  | Some s =>
    st ← get_store s;
    topic ← unwrap (s_topic st);
    mret (if strneq topic (lit "$SYS") 4 then [] else retain_chunk (s_db_id st))
  end.

(** [_db_subs_retain_write] on a chain of siblings. *)
Fixpoint _db_subs_retain_write (topic : str) (node : _mosquitto_subhier) : M (list byte) :=
  match node with
  | HNil => mret []
  | HNode _ t subs retained children next =>
    let thistopic := this_topic topic t in
    leaves ← concat_map (leaf_write thistopic) subs;
    kept ← retained_write retained;
    below ← _db_subs_retain_write thistopic children;
    rest ← _db_subs_retain_write topic next;
    mret (leaves ++ kept ++ below ++ rest)
  end.

Definition mqtt3_db_subs_retain_write : M (list byte) :=
  root ← gets d_subs;
  _db_subs_retain_write [] root.

(** The header and the DB_CHUNK_CFG of [mqtt3_db_backup]. *)
Definition file_header : list byte := magic ++ w_be32 0 ++ w_be32 MOSQ_DB_VERSION.
Definition cfg_chunk (shutdown : bool) (last_db_id : Z) : list byte :=
  w_chunk DB_CHUNK_CFG (8 + 1 + 1) (w_u8 (zbool shutdown) ++ w_u8 8 ++ w_le64 last_db_id).

(** The contents of the file [mqtt3_db_backup] leaves. *)
Definition mqtt3_db_backup (shutdown : bool) : M (list byte) :=
  d ← get;
  stores ← mqtt3_db_message_store_write;
  clients ← mqtt3_db_client_write;
  subs ← mqtt3_db_subs_retain_write;
  mret (file_header ++ cfg_chunk shutdown (d_last_db_id d) ++ stores ++ clients ++ subs).

(** * Restoring *)

(** An enumerator that the file names by number; a number of no enumerator is not a
    value of the type. *)
Definition msg_states : list mosquitto_msg_state :=
  [mosq_ms_invalid; mosq_ms_publish_qos0; mosq_ms_publish_qos1; mosq_ms_wait_for_puback;
   mosq_ms_publish_qos2; mosq_ms_wait_for_pubrec; mosq_ms_resend_pubrel; mosq_ms_wait_for_pubrel;
   mosq_ms_resend_pubcomp; mosq_ms_wait_for_pubcomp; mosq_ms_send_pubrec; mosq_ms_queued].
Definition msg_state_of (z : Z) : option mosquitto_msg_state := msg_states !! Z.to_nat z.
Definition direction_of (z : Z) : option mosquitto_msg_direction :=
  [mosq_md_in; mosq_md_out] !! Z.to_nat z.

(** [db->msg_store_load]: the stored message of each id in the file.  The pointer is
    cleared when the message is freed. *)
Definition load_table : Type := list (Z * option addr).

Fixpoint find_load (l : load_table) (id : Z) : option (option addr) :=
  match l with
  | [] => None
  | (i, p) :: l => if i =? id then Some p else find_load l id
  end.

Fixpoint set_load (l : load_table) (id : Z) (p : option addr) : load_table :=
  match l with
  | [] => []
  | (i, q) :: l => if i =? id then (i, p) :: l else (i, q) :: set_load l id p
  end.

(** ** The contents of the chunks *)

Record store_rec := StoreRec {
  sr_id : Z; sr_source_id : str; sr_source_mid : Z; sr_topic : str; sr_qos : Z; sr_retain : bool;
  sr_payload : list byte }.
Record client_msg_rec := ClientMsgRec {
  mr_client_id : str; mr_store_id : Z; mr_mid : Z; mr_qos : Z; mr_retain : bool;
  mr_direction : Z; mr_state : Z; mr_dup : bool }.

Definition read_store : R store_rec :=
  store_id ← r_le64;
  source_id ← r_string;
  source_mid ← r_be16;
  _mid ← r_be16;
  topic ← r_nonempty;
  qos ← r_u8;
  retain ← r_u8;
  payloadlen ← r_be32;
  payload ← read_e (Z.to_nat payloadlen);
  mret (StoreRec store_id source_id source_mid topic qos (negb (retain =? 0)) payload).

Definition read_client_msg : R client_msg_rec :=
  client_id ← r_nonempty;
  store_id ← r_le64;
  mid ← r_be16;
  qos ← r_u8;
  retain ← r_u8;
  direction ← r_u8;
  state ← r_u8;
  dup ← r_u8;
  mret (ClientMsgRec client_id store_id mid qos (negb (retain =? 0)) direction state
          (negb (dup =? 0))).

(** [now] stands for [time(NULL)], which an older file needs. *)
Definition read_client (db_version now : Z) : R (str * Z * Z) :=
  client_id ← r_nonempty;
  last_mid ← r_be16;
  disconnect_t ← (if db_version =? 2 then mret now else t ← r_le64; mret (signed64 t));
  mret (client_id, last_mid, disconnect_t).

Definition read_sub : R (str * str * Z) :=
  client_id ← r_string;
  topic ← r_string;
  qos ← r_u8;
  mret (client_id, topic, qos).

Definition read_cfg : R (Z * Z) :=
  shutdown ← r_u8;
  dbid_size ← r_u8;
  if negb (dbid_size =? 8) then fault else
  last_db_id ← r_le64;
  mret (dbid_size, last_db_id).

(** ** Their effect *)

Definition _db_find_or_add_context (client_id : str) (last_mid : Z) : M addr :=
  d ← get;
  found ← find_by_id (d_contexts_by_id d) client_id;
  c ←
    (match found with
     | Some c => mret c
     | None =>
       r ← mqtt3_context_init (-1) None;
       c ← unwrap r;
       upd_ctx c (fun x => x <| c_id := Some client_id |> <| c_clean_session := false |>);;
       modify (fun d => d <| d_contexts_by_id ::= (fun l => l ++ [c]) |>);;
       mret c
     end);
  whenM (negb (last_mid =? 0)) (upd_ctx c (fun x => x <| c_last_mid := last_mid |>));;
  mret c.

(** [context->last_msg->next = cmsg]; the counters are left as they are. *)
Definition link_restored (m : mosquitto_client_msg) (x : mosquitto) : option mosquitto :=
  l ← (match c_msgs x with
       | [] => Some [m]
       | _ => a ← c_last_msg x; append_after a m (c_msgs x)
       end);
  Some (x <| c_msgs := l |> <| c_last_msg := Some (m_addr m) |>).

Definition _db_client_msg_restore (loads : load_table) (r : client_msg_rec) : M Z :=
  match find_load loads (mr_store_id r) with
  | None => mret 1
  | Some p =>
    store ← unwrap p;
    direction ← unwrap (direction_of (mr_direction r));
    state ← unwrap (msg_state_of (mr_state r));
    a ← malloc;
    upd_store store (fun st => st <| s_ref_count ::= Z.succ |>);;
    c ← _db_find_or_add_context (mr_client_id r) 0;
    x ← get_ctx c;
    x ← unwrap (link_restored (ClientMsg a store 0 (mr_mid r) (mr_qos r) (mr_retain r) direction
                                 state (mr_dup r)) x);
    upd_ctx c (fun _ => x);;
    mret MOSQ_ERR_SUCCESS
  end.

Definition _db_client_restore (r : str * Z * Z) : M Z :=
  let '(client_id, last_mid, disconnect_t) := r in
  c ← _db_find_or_add_context client_id last_mid;
  upd_ctx c (fun x => x <| c_disconnect_t := disconnect_t |>);;
  mret 0.

Definition _db_msg_store_restore (loads : load_table) (r : store_rec) : M (Z * load_table) :=
  stored ← mqtt3_db_message_store (Some (sr_source_id r)) (sr_source_mid r) (Some (sr_topic r))
             (sr_qos r) (sr_payload r) (sr_retain r) (sr_id r);
  st ← get_store stored;
  mret (0, (s_db_id st, Some stored) :: loads).

Definition _db_retain_restore (loads : load_table) (store_id : Z) : M (Z * load_table) :=
  match find_load loads store_id with
  | None => mret (MOSQ_ERR_INVAL, loads)
  | Some p =>
    store ← unwrap p;
    st ← get_store store;
    topic ← unwrap (s_topic st);
    '(_, p) ← mqtt3_db_messages_queue None topic (s_qos st) (s_retain st) store;
    mret (MOSQ_ERR_SUCCESS, set_load loads store_id p)
  end.

Definition _db_restore_sub (client_id sub : str) (qos : Z) : M Z :=
  c ← _db_find_or_add_context client_id 0;
  mqtt3_sub_add c sub qos.

(** ** The file *)

(** A chunk as it was read; [CkSkip] is one of an unknown type. *)
Inductive db_chunk :=
| CkCfg (last_db_id : Z)
| CkStore (r : store_rec)
| CkClientMsg (r : client_msg_rec)
| CkRetain (store_id : Z)
| CkSub (client_id sub : str) (qos : Z)
| CkClient (client_id : str) (last_mid disconnect_t : Z)
| CkSkip.

(** [fseek] may pass the end of the file. *)
Definition skip_e (n : nat) : R unit := modify (drop n).

Definition read_chunk (db_version now chunk length : Z) : R db_chunk :=
  if chunk =? DB_CHUNK_CFG then '(_, last_db_id) ← read_cfg; mret (CkCfg last_db_id)
  else if chunk =? DB_CHUNK_MSG_STORE then r ← read_store; mret (CkStore r)
  else if chunk =? DB_CHUNK_CLIENT_MSG then r ← read_client_msg; mret (CkClientMsg r)
  else if chunk =? DB_CHUNK_RETAIN then id ← r_le64; mret (CkRetain id)
  else if chunk =? DB_CHUNK_SUB then '(client_id, sub, qos) ← read_sub; mret (CkSub client_id sub qos)
  else if chunk =? DB_CHUNK_CLIENT then
    '(client_id, last_mid, disconnect_t) ← read_client db_version now;
    mret (CkClient client_id last_mid disconnect_t)
  else skip_e (Z.to_nat length);; mret CkSkip.

(** What is done with a chunk before the next is read. *)
Definition restore_chunk (loads : load_table) (k : db_chunk) : M (Z * load_table) :=
  match k with
  | CkCfg last_db_id => modify (fun d => d <| d_last_db_id := last_db_id |>);; mret (0, loads)
  | CkStore r => _db_msg_store_restore loads r
  | CkClientMsg r => rc ← _db_client_msg_restore loads r; mret (rc, loads)
  | CkRetain id => _db_retain_restore loads id
  | CkSub client_id sub qos => rc ← _db_restore_sub client_id sub qos; mret (rc, loads)
  | CkClient client_id last_mid disconnect_t =>
    rc ← _db_client_restore (client_id, last_mid, disconnect_t); mret (rc, loads)
  | CkSkip => mret (0, loads)
  end.

(** [while(rlen = fread(&i16temp, ...), rlen == 1)]; every chunk takes at least six
    bytes, so the length of the file is enough [fuel]. *)
Fixpoint restore_loop (fuel : nat) (db_version : Z) (file : list byte) (loads : load_table) : M Z :=
  match r_be16 file with
  | None => mret 0
  | Some (chunk, file) =>
    match fuel with
    | O => fault
    | S fuel =>
      now ← mosquitto_time;
      match (length ← r_be32; read_chunk db_version now chunk length) file with
      | None => mret 1
      | Some (k, file) =>
        '(rc, loads) ← restore_chunk loads k;
        if negb (rc =? 0) then mret 1 else restore_loop fuel db_version file loads
      end
    end
  end.

(** [None]: the file cannot be opened, so there is nothing to restore. *)
Definition mqtt3_db_restore (file : option (list byte)) : M Z :=
  match file with
  | None => mret MOSQ_ERR_SUCCESS
  | Some file =>
    match read_e 15 file with
    | None => mret 1
    | Some (header, file) =>
      if negb (bool_decide (header = magic)) then mret 1 else
      match (crc ← r_be32; r_be32) file with
      | None => mret 1
      | Some (db_version, file) =>
        if MOSQ_DB_VERSION <? db_version then mret 1
        else restore_loop (length file) db_version file []
      end
    end
  end.
