(* ===== verification/Start.v ===== *)
(** From the command line to the main loop, and from the loop to the end: src/mosquitto.c,
    with the log file (src/logging.c), the plugin and the choice between it and the files
    (src/security.c) and the listening sockets (src/net.c).

    The broker and its configuration share their structures in the code; here [share]
    brings the database up to date after the configuration changed. *)

From S2P Require Export Conf Loop Persist.

#[local] Open Scope Z_scope.

(** * The system *)

(** The identities of a process. *)
Record process := Process { pr_uid : Z; pr_gid : Z; pr_euid : Z; pr_egid : Z }.

#[global] Instance eta_process : Eta process := fun p => Process (pr_uid p) (pr_gid p) (pr_euid p) (pr_egid p).

Inductive id_call := setgid | setegid | setuid | seteuid.

(** What [getaddrinfo] finds, and what becomes of a socket for it: its number ([-1] is
    an error), and whether it is made non-blocking, bound and listening. *)
Record addr_info := AddrInfo {
  ai_inet : bool;
  ai_socket : Z;
  ai_nonblock : bool;
  ai_bind : bool;
  ai_listen : bool }.

(** The symbols of a plugin, [None] or [false] where one is missing. *)
Record auth_library := AuthLibrary {
  al_version : option Z;
  al_plugin_init : option (list (str * str) -> Z);
  al_plugin_cleanup : bool;
  al_security_init : option (list (str * str) -> bool -> Z);
  al_security_cleanup : option (list (str * str) -> bool -> Z);
  al_acl_check : option (str -> option str -> str -> Z -> Z);
  al_unpwd_check : option (option str -> option str -> Z);
  al_psk_key_get : bool }.

Inductive fork_result := fork_child | fork_parent | fork_failed.

(** What the system answers: users and groups and the calls that change the identity
    ([None]: refused), files that can be opened for writing, plugins, addresses, whether
    OpenSSL takes the certificates or the hint of a listener, [fork], and when this
    program was built. *)
Class System := {
  getpwnam : str -> option (Z * Z);
  initgroups : str -> Z -> bool;
  set_id : id_call -> Z -> process -> option process;
  opens_for_writing : str -> bool;
  lib_load : str -> option auth_library;
  getaddrinfo : option str -> Z -> option (list addr_info);
  tls_certificates : conf_listener -> bool;
  tls_psk : conf_listener -> bool;
  fork : fork_result;
  build_timestamp : str }.

(** The process with its log and its data. *)
Record boot := Boot {
  bo_process : process;
  bo_log_destinations : Z;
  bo_log_priorities : Z;
  bo_config : config;
  bo_db : mosquitto_db }.

#[global] Instance eta_boot : Eta boot := fun b =>
  Boot (bo_process b) (bo_log_destinations b) (bo_log_priorities b) (bo_config b) (bo_db b).

Abbreviation B := (ST boot).

(** A routine on one part. *)
Definition on_process {A} (m : ST process A) : B A := fun b =>
  match m (bo_process b) with Some (a, p) => Some (a, b <| bo_process := p |>) | None => None end.
Definition on_config {A} (m : ST config A) : B A := fun b =>
  match m (bo_config b) with Some (a, g) => Some (a, b <| bo_config := g |>) | None => None end.
Definition on_db {A} (m : M A) : B A := fun b =>
  match m (bo_db b) with Some (a, d) => Some (a, b <| bo_db := d |>) | None => None end.

(** The listener as the broker sees it. *)
Definition shared_listener (l : conf_listener) : _mqtt3_listener :=
  (cl_core l) <| l_psk_hint := bool_decide (cl_psk_hint l <> None) |>.

(** What a reload may change. *)
Definition reread (g : config) (d : mosquitto_db) : mosquitto_db :=
  d <| d_config := g_core g |> <| d_max_inflight := g_max_inflight g |> <| d_max_queued := g_max_queued g |>.

Definition shared (g : config) (d : mosquitto_db) : mosquitto_db :=
  (reread g d) <| d_listeners := map shared_listener (g_listeners g) |>.

Definition share : B unit := modify (fun b => b <| bo_db ::= shared (bo_config b) |>).

(** The contents of a file that the configuration names. *)
Definition named_file `{Files} (name : option str) : option (option (list byte)) := file_contents <$> name.

(** * Privileges *)

Section privileges.
Context `{System}.

Definition call_id (call : id_call) (n : Z) : ST process bool := fun p =>
  match set_id call n p with Some p' => Some (true, p') | None => Some (false, p) end.

Definition drop_privileges (user : option str) (temporary : bool) : ST process Z :=
  p ← get;
  if negb (pr_euid p =? 0) then mret MOSQ_ERR_SUCCESS else
  match user with
  | None => mret MOSQ_ERR_SUCCESS
  | Some user =>
    if streq user (lit "root") then mret MOSQ_ERR_SUCCESS else
    match getpwnam user with
    | None => mret 1
    | Some (uid, gid) =>
      if negb (initgroups user gid) then mret 1 else
      ok ← call_id (if temporary then setegid else setgid) gid;
      if negb ok then mret 1 else
      ok ← call_id (if temporary then seteuid else setuid) uid;
      if negb ok then mret 1 else mret MOSQ_ERR_SUCCESS
    end
  end.

Definition restore_privileges : ST process Z :=
  p ← get;
  if negb (pr_uid p =? 0) then mret MOSQ_ERR_SUCCESS else
  ok ← call_id setegid 0;
  if negb ok then mret 1 else
  ok ← call_id seteuid 0;
  if negb ok then mret 1 else mret MOSQ_ERR_SUCCESS.

(** * The log *)

(** Opening a file without a name faults. *)
Definition mqtt3_log_init : B Z :=
  g ← gets bo_config;
  modify (fun b => b <| bo_log_priorities := g_log_type g |> <| bo_log_destinations := g_log_dest g |>);;
  if Z.land (g_log_dest g) MQTT3_LOG_FILE =? 0 then mret 0 else
  rc ← on_process (drop_privileges (g_user g) true);
  if negb (rc =? 0) then mret 1 else
  file ← unwrap (g_log_file g);
  let opened := opens_for_writing file in
  on_config (modify (fun g => g <| g_log_fptr := opened |>));;
  if negb opened then mret MOSQ_ERR_INVAL else
  on_process restore_privileges;;
  mret 0.

Definition mqtt3_log_close : B Z :=
  dest ← gets bo_log_destinations;
  whenM (negb (Z.land dest MQTT3_LOG_FILE =? 0)) (on_config (modify (fun g => g <| g_log_fptr := false |>)));;
  mret MOSQ_ERR_SUCCESS.
End privileges.

(** * The plugin (src/security.c) *)

Definition MOSQ_AUTH_PLUGIN_VERSION : Z := 2.

(** A library of the right version with all entry points. *)
Definition auth_plugin_of (lib : auth_library) : option _mosquitto_auth_plugin :=
  version ← al_version lib;
  if negb (version =? MOSQ_AUTH_PLUGIN_VERSION) then None else
  _ ← al_plugin_init lib;
  if negb (al_plugin_cleanup lib) then None else
  security_init ← al_security_init lib;
  security_cleanup ← al_security_cleanup lib;
  acl_check ← al_acl_check lib;
  unpwd_check ← al_unpwd_check lib;
  if negb (al_psk_key_get lib) then None else
  Some (AuthPlugin acl_check unpwd_check security_init security_cleanup).

Section security.
Context `{Crypto, Files, System}.

Definition mosquitto_security_module_init (g : config) : M Z :=
  match g_auth_plugin g with
  | None => modify (fun d => d <| d_auth_plugin := None |>);; mret MOSQ_ERR_SUCCESS
  | Some name =>
    match lib_load name with
    | None => mret 1
    | Some lib =>
      modify (fun d => d <| d_auth_plugin := auth_plugin_of lib |>);;
      match auth_plugin_of lib, al_plugin_init lib with
      | Some _, Some plugin_init => mret (plugin_init (g_auth_options g))
      | _, _ => mret 1
      end
    end
  end.

(** With a plugin the files are not read. *)
Definition mosquitto_security_init (g : config) (reload : bool) : M Z :=
  d ← get;
  match d_auth_plugin d with
  | None => mosquitto_security_init_default (named_file (g_password_file g)) (named_file (g_acl_file g)) (named_file (g_psk_file g))
  | Some p => mret (ap_security_init p (g_auth_options g) reload)
  end.

Definition mosquitto_security_apply : M Z :=
  d ← get;
  match d_auth_plugin d with
  | None => mosquitto_security_apply_default
  | Some _ => mret MOSQ_ERR_SUCCESS
  end.

Definition mosquitto_security_cleanup (g : config) (reload : bool) : M Z :=
  d ← get;
  match d_auth_plugin d with
  | None => mosquitto_security_cleanup_default
  | Some p => mret (ap_security_cleanup p (g_auth_options g) reload)
  end.

Definition mosquitto_security_module_cleanup (g : config) : M Z :=
  mosquitto_security_cleanup g false;;
  modify (fun d => d <| d_auth_plugin := None |>);;
  mret MOSQ_ERR_SUCCESS.
End security.

(** * Listening (src/net.c) *)

Section listening.
Context `{System}.

(** The sockets of the addresses in turn; [false]: one could not be used. *)
Fixpoint listen_loop (infos : list addr_info) (socks : list Z) : bool * list Z :=
  match infos with
  | [] => (true, socks)
  | i :: infos =>
    if negb (ai_inet i) || (ai_socket i =? INVALID_SOCKET) then listen_loop infos socks else
    let socks := socks ++ [ai_socket i] in
    if ai_nonblock i && ai_bind i && ai_listen i then listen_loop infos socks else (false, socks)
  end.

(** The certificates, or the hint for pre-shared keys, are given to OpenSSL. *)
Definition listener_tls (l : conf_listener) : option bool :=
  if (bool_decide (cl_cafile l <> None) || bool_decide (cl_capath l <> None))
     && bool_decide (cl_certfile l <> None) && bool_decide (cl_keyfile l <> None)
  then Some (tls_certificates l)
  else if bool_decide (cl_psk_hint l <> None) then Some (tls_psk l)
  else None.

Definition set_socks (socks : list Z) (l : conf_listener) : conf_listener :=
  l <| cl_core ::= (fun c => c <| l_socks := socks |>) |>.

Definition mqtt3_socket_listen (l : conf_listener) : Z * conf_listener :=
  match getaddrinfo (cl_host l) (l_port (cl_core l)) with
  | None => (INVALID_SOCKET, l)
  | Some infos =>
    let '(ok, socks) := listen_loop infos [] in
    let l := set_socks socks l in
    if negb ok then (1, l) else
    if bool_decide (socks = []) then (1, l) else
    match listener_tls l with
    | None => (0, l)
    | Some ok => (if ok then 0 else 1, l <| cl_core ::= (fun c => c <| l_ssl_ctx := true |>) |>)
    end
  end.
End listening.

(** * main *)

Section main.
Context `{Crypto, Environment, Network, Files, System}.

Definition mqtt3_db_open (g : config) : M Z :=
  mqtt3_db_open_init;;
  match (if cf_persistence (g_core g) then g_persistence_filepath g else None) with
  | None => mret MOSQ_ERR_SUCCESS
  | Some path =>
    rc ← mqtt3_db_restore (file_contents path);
    mret (if negb (rc =? 0) then 1 else MOSQ_ERR_SUCCESS)
  end.

(** The messages of $SYS that do not change. The buffer has 1024 bytes. *)
Definition sys_messages (g : config) : M unit :=
  whenM (0 <? g_sys_interval g)
    (mqtt3_db_messages_easy_queue None (Some (lit "$SYS/broker/version")) 2 (lit "mosquitto version 1.4.2") true;;
     mqtt3_db_messages_easy_queue None (Some (lit "$SYS/broker/timestamp")) 2 (take 1023 build_timestamp) true;;
     mret tt).

(** The listeners from number [i] on; the sockets of all of them. The first that fails ends
    the program. *)
Fixpoint listen_all (i : nat) (todo : list conf_listener) (listensock : list Z) : B (res (list Z)) :=
  match todo with
  | [] => mret (ROk listensock)
  | l :: todo =>
    if negb (bool_decide (cl_protocol l = mp_mqtt)) then listen_all (S i) todo listensock else
    let '(rc, l) := mqtt3_socket_listen l in
    on_config (modify (fun g => g <| g_listeners ::= <[i := l]> |>));;
    if negb (rc =? 0) || bool_decide (INVALID_SOCKET ∈ l_socks (cl_core l))
    then on_db mqtt3_db_close;; mret (RErr 1)
    else listen_all (S i) todo (listensock ++ l_socks (cl_core l))
  end.

(** What may be written for a process that detached itself. *)
Definition pid_refused (g : config) : bool :=
  g_daemon g && match g_pid_file g with Some file => negb (opens_for_writing file) | None => false end.

(** The bridges of the configuration; one that cannot be connected is reported. *)
Definition start_bridges (bridges : list conf_bridge) : M unit :=
  for_each (fun b => mqtt3_bridge_new (cb_core b);; mret tt) bridges.

(** From the reading of the configuration to the opening of the database. *)
Definition main_configure (argv : list str) : B (res config) :=
  on_config (modify (fun _ => mqtt3_config_init));;
  rc ← on_config (mqtt3_config_parse_args argv);
  if negb (rc =? 0) then mret (RErr rc) else
  share;;
  g ← gets bo_config;
  match (if g_daemon g then fork else fork_child) with
  | fork_failed => mret (RErr 1)
  | fork_parent => mret (RErr MOSQ_ERR_SUCCESS)
  | fork_child => if pid_refused g then mret (RErr 1) else mret (ROk g)
  end.

(** The sockets that listen once everything is ready for the loop, or the result with
    which the program ends. *)
Definition main_start (argv : list str) : B (res (list Z)) :=
  g ←r main_configure argv;
  rc ← on_db (mqtt3_db_open g);
  if negb (rc =? 0) then mret (RErr rc) else
  mqtt3_log_init;;
  rc ← on_db (mosquitto_security_module_init g);
  if negb (rc =? 0) then mret (RErr rc) else
  rc ← on_db (mosquitto_security_init g false);
  if negb (rc =? 0) then mret (RErr rc) else
  on_db (sys_messages g);;
  listensock ←r listen_all 0 (g_listeners g) [];
  share;;
  g ← gets bo_config;
  rc ← on_process (drop_privileges (g_user g) false);
  if negb (rc =? 0) then mret (RErr rc) else
  on_db (start_bridges (g_bridges g));;
  mret (ROk listensock).

(** [listener_max] *)
Definition listener_max (listensock : list Z) : Z := foldr Z.max (-1) listensock.

(** Contexts that are still in a table are freed; a bridge that was freed with them is
    no longer among the bridges. *)
Fixpoint free_bridges (i count : nat) : M unit :=
  match count with
  | O => mret tt
  | S count =>
    d ← get;
    (match d_bridges d !! i with
     | Some (Some c) => mqtt3_context_cleanup c true
     | _ => mret tt
     end);;
    free_bridges (S i) count
  end.

(** After the loop: the saved database, if it is to be saved. *)
Definition main_end : B (option (list byte)) :=
  mqtt3_log_close;;
  g ← gets bo_config;
  saved ← (if cf_persistence (g_core g) then file ← on_db (mqtt3_db_backup true); mret (Some file) else mret None);
  on_db
    (d ← get;
     for_each (fun c => mqtt3_context_cleanup c true) (d_contexts_by_id d);;
     d ← get;
     for_each (fun c => mqtt3_context_cleanup c true) (d_contexts_by_sock d);;
     d ← get;
     free_bridges 0 (length (d_bridges d));;
     modify (fun d => d <| d_bridges := [] |>);;
     mosquitto__free_disused_contexts;;
     mqtt3_db_close;;
     mosquitto_security_module_cleanup g);;
  on_config mqtt3_config_cleanup;;
  mret saved.

(** * Saving in the main loop (src/loop.c) *)

(** [last_backup] and the file, if one is written. *)
Definition main_loop_autosave (g : config) (last_backup : Z) : M (Z * option (list byte)) :=
  if cf_persistence (g_core g) && negb (g_autosave_interval g =? 0) then
    if g_autosave_on_changes g then
      changes ← gets d_persistence_changes;
      if g_autosave_interval g <? changes then
        file ← mqtt3_db_backup false;
        modify (fun d => d <| d_persistence_changes := 0 |>);;
        mret (last_backup, Some file)
      else mret (last_backup, None)
    else
      now ← mosquitto_time;
      if last_backup + g_autosave_interval g <? now then
        file ← mqtt3_db_backup false;
        now ← mosquitto_time;
        mret (now, Some file)
      else mret (last_backup, None)
  else mret (last_backup, None).
End main.

(** * Rules *)

Section on.
Context (b : boot).

Lemma wp_on_process {A} (m : ST process A) Q :
  wp (on_process m) Q b <-> wp m (fun a p => Q a (b <| bo_process := p |>)) (bo_process b).
Proof. rewrite !wp_eq; unfold on_process. by destruct (m _) as [[]|]. Qed.

Lemma wlp_on_process {A} (m : ST process A) Q :
  wlp (on_process m) Q b <-> wlp m (fun a p => Q a (b <| bo_process := p |>)) (bo_process b).
Proof. unfold wlp, on_process. by destruct (m _) as [[]|]. Qed.

Lemma wp_on_config {A} (m : ST config A) Q :
  wp (on_config m) Q b <-> wp m (fun a g => Q a (b <| bo_config := g |>)) (bo_config b).
Proof. rewrite !wp_eq; unfold on_config. by destruct (m _) as [[]|]. Qed.

Lemma wlp_on_config {A} (m : ST config A) Q :
  wlp (on_config m) Q b <-> wlp m (fun a g => Q a (b <| bo_config := g |>)) (bo_config b).
Proof. unfold wlp, on_config. by destruct (m _) as [[]|]. Qed.

Lemma wp_on_db {A} (m : M A) Q : wp (on_db m) Q b <-> wp m (fun a d => Q a (b <| bo_db := d |>)) (bo_db b).
Proof. rewrite !wp_eq; unfold on_db. by destruct (m _) as [[]|]. Qed.

Lemma wlp_on_db {A} (m : M A) Q : wlp (on_db m) Q b <-> wlp m (fun a d => Q a (b <| bo_db := d |>)) (bo_db b).
Proof. unfold wlp, on_db. by destruct (m _) as [[]|]. Qed.
End on.

#[global] Hint Rewrite @wlp_on_process @wlp_on_config @wlp_on_db : wlp.
#[global] Hint Rewrite @wp_on_process @wp_on_config @wp_on_db : wp.

(** Closing the log touches the handle of its file at most. *)
Definition log_handle (opened : bool) (b : boot) : boot := b <| bo_config ::= (fun g => g <| g_log_fptr := opened |>) |>.

Lemma wp_log_close Q b : (forall opened, Q MOSQ_ERR_SUCCESS (log_handle opened b)) -> wp mqtt3_log_close Q b.
Proof.
  intros H. unfold mqtt3_log_close. wp_step. destruct (negb _); cbn [whenM]; wp_step; [exact (H false)|].
  specialize (H (g_log_fptr (bo_config b))). by destruct b as [? ? ? [] ?].
Qed.
