(* ===== verification/ConfReload.v ===== *)
(** Reading the configuration again while the broker runs: what a reload leaves as it
    was, and what a reload that fails does to the running broker (the part of src/loop.c
    that handles [flag_reload]). *)

From S2P Require Export ConfRules Start.

#[local] Open Scope Z_scope.

(** * [flag_reload] *)

(** The result of reading is not looked at. *)
Definition main_loop_reload `{Crypto, Files, System} : B unit :=
  on_config (mqtt3_config_read true);;
  modify (fun b => b <| bo_db ::= reread (bo_config b) |>);;
  g ← gets bo_config;
  on_db (mosquitto_security_cleanup g true);;
  on_db (mosquitto_security_init g true);;
  on_db mosquitto_security_apply;;
  mqtt3_log_close;;
  mqtt3_log_init;;
  mret tt.

(** * What is not reloaded *)

(** The settings that only a restart changes; of the default listener, which has been
    copied when the broker started, all but the protocol. *)
Definition start_settings (g : config) :=
  (g_listeners g, g_bridges g, g_config_file g, g_daemon g, g_verbose g, g_pid_file g, g_user g, g_auth_plugin g,
   (g_default_listener g) <| cl_protocol := mp_mqtt |>).

(** While a file is read again. *)
Definition reloading (g0 : config) (r : reader) : Prop :=
  rd_listener r = None /\ start_settings (rd_config r) = start_settings g0.

Definition stays (g0 : config) (m : ST reader Z) : Prop :=
  forall r, reloading g0 r -> wlp m (fun _ r' => reloading g0 r') r.

Section stays.
Variable g0 : config.

Lemma reloading_config f r x : (forall g, start_settings (f g) = start_settings g) ->
  reloading g0 r -> t_get the_config r = Some x -> reloading g0 (t_set the_config (f x) r).
Proof. intros Hf [Hl Hg] [= <-]. split; [done|]. cbn. by rewrite Hf. Qed.

Lemma reloading_cr f r : reloading g0 r -> reloading g0 (r <| rd_cr ::= f |>).
Proof. done. Qed.

Lemma reloading_protocol p r x :
  reloading g0 r -> t_get the_listener r = Some x -> reloading g0 (t_set the_listener (lset (fld cl_protocol) p x) r).
Proof. intros [Hl Hg]. cbn. rewrite Hl. intros [= <-]. split; [done|]. exact Hg. Qed.
End stays.

#[local] Opaque wlp.

(** Follow an option to the stores it makes. *)
Ltac stay_step :=
  match goal with
  | |- wlp (or_inval _ _) _ _ => unfold or_inval
  | |- wlp (_conf_parse_string _ _ _) _ _ => unfold _conf_parse_string
  | |- wlp (_conf_parse_bool _ _ _) _ _ => unfold _conf_parse_bool
  | |- wlp (string_option _ _ _) _ _ => unfold string_option
  | |- reloading _ (t_set the_config (lset _ _ _) _) => eapply reloading_config; [| |eassumption]; [intros ?; reflexivity|]
  | |- reloading _ (t_set the_listener _ _) => eapply reloading_protocol; [|eassumption]
  | |- reloading _ _ => solve [eassumption | apply reloading_cr; assumption]
  | |- reloading _ (upd rd_cr _ _) => apply reloading_cr
  | _ => ok_step
  end.

Ltac stays_option :=
  cbn [o_run opt opt2];
  first
    [ solve [ auto with conf ]
    | lazymatch goal with
      | |- stays _ (?h _) => let f := option_head h in unfold f
      end;
      unfold for_bridge, not_on_reload, done_ok, bool_option, file_option, stays; repeat stay_step ].

Section reload_options.
Context `{Files} (g0 : config).

Lemma stays_include_files read dir names : (forall file, stays g0 (read file)) -> stays g0 (include_files read dir names).
Proof.
  intros Hread. induction names as [|name names IH]; cbn [include_files]; [intros r Hr; by rewrite wlp_ret|].
  case_match; [|done]. intros r Hr. rewrite wlp_bind. eapply wlp_mono; [by apply Hread|].
  intros rc r' Hr'. cbv beta. case_match; [by rewrite wlp_ret|by apply IH].
Qed.

Definition stays_included (include : option (str -> ST reader Z)) : Prop :=
  forall read, include = Some read -> forall file, stays g0 (read file).

Lemma stays_include_dir include w : stays_included include -> stays g0 (opt_include_dir include w).
Proof.
  intros Hread r Hr. unfold opt_include_dir. destruct include as [read|]; [|unfold done_ok; by rewrite wlp_ret].
  rewrite wlp_bind, wlp_unwrap. intros token _. case_match; [|by rewrite wlp_ret].
  apply stays_include_files; [by apply Hread|done].
Qed.

#[local] Hint Resolve stays_include_dir : conf.

Lemma stays_options include w : stays_included include -> Forall (fun o => stays g0 (o_run o w)) (options true include).
Proof. intros Hread. unfold options. repeat (constructor; [stays_option|]). constructor. Qed.

Lemma stays_run_option include w : stays_included include -> stays g0 (run_option true include w).
Proof.
  intros Hread. unfold run_option. destruct (List.find _ _) as [o|] eqn:E; [|intros r Hr; by rewrite wlp_ret].
  apply List.find_some in E as [Hin _]. apply list_elem_of_In in Hin.
  pose proof (stays_options include w Hread) as F. rewrite Forall_forall in F. by apply F.
Qed.

Lemma stays_read_lines include file lineno lines : stays_included include -> stays g0 (read_lines true include file lineno lines).
Proof.
  intros Hread. revert lineno. induction lines as [|buf lines IH]; intros lineno r Hr; cbn [read_lines]; [by rewrite wlp_ret|].
  rewrite wlp_bind, wlp_unwrap. intros w _. rewrite wlp_bind. apply (wlp_mono _ (fun _ r' => reloading g0 r')).
  { destruct w as [w|]; [by apply stays_run_option|by rewrite wlp_ret]. }
  intros rc r' Hr'. cbv beta. case_match; [by rewrite wlp_ret|by apply IH].
Qed.

Lemma stays_read_file_with include file : stays_included include -> stays g0 (read_file_with true include file).
Proof.
  intros Hread r [Hl Hg]. unfold read_file_with. destruct (file_contents file) as [contents|]; [|by rewrite wlp_ret].
  unfold _config_read_file_core. rewrite !wlp_bind, wlp_get, wlp_bind, wlp_modify, wlp_bind.
  eapply wlp_mono; [by apply stays_read_lines|]. intros rc r' [_ Hg']. cbv beta. by rewrite wlp_bind, wlp_modify, wlp_ret.
Qed.

Lemma stays_read_file level file : stays g0 (_config_read_file true level file).
Proof.
  destruct level; cbn [_config_read_file]; apply stays_read_file_with; [|done].
  intros read [= <-] f. by apply stays_read_file_with.
Qed.

(** C9: A reload, whether it succeeds or not, leaves the listeners, the bridges, the user, the
    files of the process and of the plugin, and the default listener but for its protocol. *)
Theorem reload_keeps_start_settings rc g' : g_user g0 <> None -> mqtt3_config_read true g0 = Some (rc, g') ->
  start_settings g' = start_settings g0.
Proof.
  intros Hu. assert (wlp (mqtt3_config_read true) (fun _ g => start_settings g = start_settings g0) g0) as Hw.
  { unfold mqtt3_config_read. rewrite wlp_bind, wlp_get. destruct (g_config_file g0) as [file|] eqn:Ef; [|by rewrite wlp_ret].
    rewrite wlp_bind, wlp_modify, wlp_bind. apply wlp_with_reader. eapply wlp_mono; [by apply stays_read_file|].
    intros rc1 r [_ Hr]. cbv beta iota. case_match; [by rewrite wlp_ret|]. unfold finish_read. autorewrite with wlp. cbv beta.
    assert (start_settings (default_user (set_persistence (rd_config r))) = start_settings g0) as Hs.
    { assert (g_user (rd_config r) = g_user g0) as Er by (unfold start_settings in Hr; congruence).
      unfold set_persistence. destruct (cf_persistence _); unfold default_user; cbn; rewrite Er; by destruct (g_user g0). }
    case_match; [by rewrite wlp_ret|]. autorewrite with wlp. unfold set_logging. repeat case_match; exact Hs. }
  intros E. by eapply wlp_some in Hw; [|exact E].
Qed.
End reload_options.

(** * A reload that fails *)

Section failed.
Context `{Crypto, Files, System}.

Definition clients_live (d : mosquitto_db) : Prop :=
  forall c, c ∈ d_contexts_by_id d -> is_Some (d_contexts d !! c).

Lemma unreadable_reload g file : g_config_file g = Some file -> file_contents file = None ->
  mqtt3_config_read true g = Some (1, _config_init_reload g).
Proof.
  intros Hf Hn. unfold mqtt3_config_read, mbind, st_bind, get, modify, with_reader. rewrite Hf.
  unfold _config_read_file, read_file_with. by rewrite Hn.
Qed.

Lemma wp_clear_acl_lists l d : (forall c, c ∈ l -> is_Some (d_contexts d !! c)) ->
  wp (clear_acl_lists l) (fun _ d' => exists m, d' = d <| d_contexts := m |>
    /\ forall c, is_Some (d_contexts d !! c) -> is_Some (m !! c)) d.
Proof.
  revert d. induction l as [|c l IH]; intros d Hl; cbn [clear_acl_lists]; wp_step; [by exists (d_contexts d); destruct d|].
  destruct (Hl c) as [x Hx]; [by left|]. exists x. split; [done|].
  assert (forall c', is_Some (d_contexts d !! c') -> is_Some (<[c := x <| c_acl_list := None |>]> (d_contexts d) !! c')) as Hk.
  { intros c' Hc'. destruct (decide (c' = c)) as [->|]; [rewrite lookup_insert_eq; by eexists|by rewrite lookup_insert_ne]. }
  eapply wp_mono; [apply IH|].
  - intros c' Hc'. apply Hk, Hl. by right.
  - intros ? d' (m & -> & Hm). exists m. split; [by destruct d|]. intros c' Hc'. by apply Hm, Hk.
Qed.

Lemma wp_security_cleanup d : clients_live d ->
  wp mosquitto_security_cleanup_default (fun rc d' => rc = MOSQ_ERR_SUCCESS /\ clients_live d'
    /\ d_unpwd d' = [] /\ d_acl_list d' = [] /\ d_psk_id d' = [] /\ d_config d' = d_config d
    /\ d_auth_plugin d' = d_auth_plugin d) d.
Proof.
  intros Hd. unfold mosquitto_security_cleanup_default, _acl_cleanup, _unpwd_cleanup, _psk_cleanup. wp_step.
  case_bool_decide as E; wp_step; [done|]. eapply wp_mono; [by apply wp_clear_acl_lists|].
  intros ? d' (m & -> & Hm). cbv beta. wp_step. split; [done|]. split; [|done].
  intros c Hc. apply Hm. by apply Hd.
Qed.

(** Nobody is disconnected when nothing is asked for. *)
Lemma apply_security_open l d : cf_allow_anonymous (d_config d) = true -> d_unpwd d = [] -> d_acl_list d = [] ->
  (forall c, c ∈ l -> is_Some (d_contexts d !! c)) -> for_each apply_security l d = Some (tt, d).
Proof.
  intros Ha Hu Hl. induction l as [|c l IH]; intros Hc; [done|]. cbn [for_each].
  destruct (Hc c) as [x Hx]; [by left|].
  assert (apply_security c d = Some (tt, d)) as E.
  { unfold apply_security, get_ctx, mbind, st_bind, get, unwrap, mosquitto_unpwd_check_default.
    rewrite Hx. cbn. by rewrite Ha, Hu, Hl. }
  unfold mbind, st_bind. rewrite E. apply IH. intros c' Hc'. apply Hc. by right.
Qed.

(** When the file cannot be read any more, reloading does not stop the broker, it opens
    it: clients without a name are allowed, every name and password is accepted, and there
    are no rules for users. *)
Theorem failed_reload_opens file b : let d := bo_db b in
  g_config_file (bo_config b) = Some file -> file_contents file = None -> clients_live d -> d_auth_plugin d = None ->
  exists b', main_loop_reload b = Some (tt, b') /\ cf_allow_anonymous (d_config (bo_db b')) = true
    /\ (forall username password, mosquitto_unpwd_check (bo_db b') username password = MOSQ_ERR_SUCCESS)
    /\ d_acl_list (bo_db b') = [].
Proof.
  intros d Hf Hn Hd Hp.
  assert (wp main_loop_reload (fun _ b' => cf_allow_anonymous (d_config (bo_db b')) = true
    /\ (forall username password, mosquitto_unpwd_check (bo_db b') username password = MOSQ_ERR_SUCCESS)
    /\ d_acl_list (bo_db b') = []) b) as Hw.
  { unfold main_loop_reload. wp_step. rewrite wp_eq, (unreadable_reload _ file) by done. wp_step.
    unfold mosquitto_security_cleanup. wp_step. cbn [bo_db bo_config upd]. fold d.
    set (g := _config_init_reload (bo_config b)). change (d_auth_plugin (reread g d)) with (d_auth_plugin d). rewrite Hp.
    eapply wp_mono; [by apply wp_security_cleanup|]. intros rc d' (_ & Hl & Hu & Ha & _ & Hc & Hp'). cbv beta.
    change (d_auth_plugin d' = d_auth_plugin d) in Hp'. rewrite Hp in Hp'. change (d_config d' = g_core g) in Hc.
    unfold mosquitto_security_init. wp_step. cbn [bo_db upd]. rewrite Hp'. unfold mosquitto_security_init_default. cbn. wp_step.
    change (negb (MOSQ_ERR_SUCCESS =? 0)) with false. cbv iota. wp_step.
    change (negb (MOSQ_ERR_SUCCESS =? 0)) with false. cbv iota. wp_step.
    unfold mosquitto_security_apply. wp_step. cbn [bo_db upd]. rewrite Hp'. unfold mosquitto_security_apply_default. wp_step.
    rewrite wp_eq, apply_security_open; [|by rewrite Hc|done..]. wp_step.
    apply wp_log_close. intros opened. wp_step. unfold mqtt3_log_init. wp_step. cbn. wp_step.
    change (Z.land MQTT3_LOG_STDERR MQTT3_LOG_FILE =? 0) with true. cbv iota. wp_step. cbn. split; [by rewrite Hc|]. split; [|done].
    intros u p. unfold mosquitto_unpwd_check, mosquitto_unpwd_check_default. by rewrite Hp', Hu. }
  apply wp_some in Hw as ([] & b' & E & Hw). by exists b'.
Qed.
End failed.

(** * Examples *)

#[local] Instance sample_reload_crypto : Crypto := {| _base64_decode _ := None; _pw_digest _ _ := RErr 1 |}.

(** A running broker with a password file, and its settings when it is told to reload. *)
Definition running : config :=
  mqtt3_config_init <| g_config_file := Some (lit "m.conf") |> <| g_user := Some (lit "mosquitto") |>
    <| g_password_file := Some (lit "pw") |> <| g_core ::= (fun c => c <| cf_allow_anonymous := false |>) |>.

Definition running_db : mosquitto_db :=
  db_calloc <| d_config := g_core running |> <| d_unpwd := [Unpwd (lit "u") None []] |>.

Lemma reload_keeps_start_settings_witness :
  start_settings (match @mqtt3_config_read sample_files true running with Some (_, g) => g | None => running end)
  = start_settings running.
Proof.
  apply (@reload_keeps_start_settings sample_files running 0); [done|]. vm_compute. reflexivity.
Defined.

#[local] Instance sample_system : System := {|
  getpwnam _ := None; initgroups _ _ := false; set_id _ _ _ := None; opens_for_writing _ := false; lib_load _ := None;
  getaddrinfo _ _ := None; tls_certificates _ := false; tls_psk _ := false; fork := fork_child; build_timestamp := [] |}.

Definition running_boot : boot := Boot (Process 1 1 1 1) MQTT3_LOG_STDERR 0 running running_db.

Lemma failed_reload_opens_witness :
  mosquitto_unpwd_check_default running_db None None = MOSQ_ERR_INVAL
  /\ exists b', @main_loop_reload _ (files_of [] [] []) _ running_boot = Some (tt, b')
    /\ cf_allow_anonymous (d_config (bo_db b')) = true
    /\ (forall username password, mosquitto_unpwd_check (bo_db b') username password = MOSQ_ERR_SUCCESS)
    /\ d_acl_list (bo_db b') = [].
Proof.
  split; [reflexivity|].
  apply (@failed_reload_opens _ (files_of [] [] []) _ (lit "m.conf") running_boot); [done|done| |done].
  intros c Hc. by apply elem_of_nil in Hc.
Defined.
