(* ===== verification/Frame.v ===== *)
(** What the routines of the broker do to the heap as a whole.  Most of them follow
    pointers, change fields of contexts and stored messages, and publish; they do not
    open or close a connection.  A [Frame] is a preorder on states that such steps
    stay within; one lemma per routine then holds for every frame. *)

From S2P Require Export Loop Persist.
#[local] Open Scope Z_scope.

Create HintDb within.
Create HintDb core.

(** The part of a state that holds the objects and the tables of their addresses. *)
Definition heap_of (d : mosquitto_db) :=
  (d_contexts d, d_stores d, d_next d, d_contexts_by_id d, d_contexts_by_sock d, d_ll_for_free d,
   d_bridges d, d_msg_store d, d_msg_store_count d).

(** The part of a context that says whether it is connected, and as whom. *)
Definition core (x : mosquitto) :=
  (c_sock x, c_id x, c_state x, c_clean_session x, bool_decide (c_bridge x = None)).

Definition within (R : relation mosquitto_db) {A} (m : M A) : Prop :=
  forall s, match m s with Some (_, s') => R s s' | None => True end.

Class Frame (R : relation mosquitto_db) : Prop := {
  frame_pre :: PreOrder R;
  frame_heap d d' : heap_of d' = heap_of d -> R d d';
  frame_malloc d : R d (d <| d_next := S (d_next d) |>);
  frame_ctx c x y d :
    d_contexts d !! c = Some x -> core y = core x -> R d (d <| d_contexts ::= <[c := y]> |>);
  frame_store s st st' d : d_stores d !! s = Some st -> R d (d <| d_stores ::= <[s := st']> |>);
  frame_remove s : within R (mosquitto__db_msg_store_remove s);
  frame_new source mid topic qos payload retain id :
    within R (mqtt3_db_message_store source mid topic qos payload retain id) }.

(** * The rules *)

Section rules.
Context (R : relation mosquitto_db) `{!Frame R}.

Lemma within_ret {A} (a : A) : within R (mret a).
Proof. intros s. cbn. reflexivity. Qed.

Lemma within_bind {A B} (m : M A) (f : A -> M B) :
  within R m -> (forall a, within R (f a)) -> within R (m ≫= f).
Proof.
  intros Hm Hf s. specialize (Hm s). unfold mbind, st_bind. destruct (m s) as [[a s']|]; [|done].
  specialize (Hf a s'). destruct (f a s') as [[b s'']|]; [|done]. by transitivity s'.
Qed.

Lemma within_get : within R get.
Proof. intros s. cbn. reflexivity. Qed.

Lemma within_gets {A} (f : mosquitto_db -> A) : within R (gets f).
Proof. intros s. cbn. reflexivity. Qed.

Lemma within_modify f : (forall s, heap_of (f s) = heap_of s) -> within R (modify f).
Proof. intros H s. cbn. by apply frame_heap. Qed.

Lemma within_assertM b : within R (assertM b).
Proof. destruct b; intros s; cbn; [reflexivity | done]. Qed.

Lemma within_unwrap {A} (o : option A) : within R (unwrap o).
Proof. destruct o; intros s; cbn; [reflexivity | done]. Qed.

Lemma within_fault {A} : within R (@fault mosquitto_db A).
Proof. by intros s. Qed.

Lemma within_whenM b m : within R m -> within R (whenM b m).
Proof. destruct b; [done | intros _; apply within_ret]. Qed.

Lemma within_for_each {A} (f : A -> M unit) l : (forall a, within R (f a)) -> within R (for_each f l).
Proof. intros H. induction l; cbn; [apply within_ret | by apply within_bind]. Qed.

Lemma within_get_ctx c : within R (get_ctx c).
Proof. unfold get_ctx. apply within_bind; [apply within_get | intros d; apply within_unwrap]. Qed.

Lemma within_get_store s : within R (get_store s).
Proof. unfold get_store. apply within_bind; [apply within_get | intros d; apply within_unwrap]. Qed.

Lemma within_upd_ctx c f : (forall x, core (f x) = core x) -> within R (upd_ctx c f).
Proof.
  intros Hf d. unfold upd_ctx, get_ctx, mbind, st_bind, get, unwrap, modify.
  destruct (d_contexts d !! c) as [x|] eqn:E; cbn; [|done]. by eapply frame_ctx.
Qed.

Lemma within_upd_store s f : within R (upd_store s f).
Proof.
  intros d. unfold upd_store, get_store, mbind, st_bind, get, unwrap, modify.
  destruct (d_stores d !! s) as [x|] eqn:E; cbn; [|done]. by eapply frame_store.
Qed.

Lemma within_malloc : within R malloc.
Proof. intros d. cbn. apply frame_malloc. Qed.

Lemma within_time : within R mosquitto_time.
Proof. apply within_gets. Qed.

Lemma within_get_listener o : within R (get_listener o).
Proof.
  destruct o; cbn; [|apply within_ret].
  apply within_bind; [apply within_get|]. intros d.
  apply within_bind; [apply within_unwrap | intros l; apply within_ret].
Qed.

(** [x ← *c; y ← f x; *c = y]: a context is replaced by what was made of it. *)
Lemma within_replace {A} c (f : mosquitto -> option mosquitto) (k : M A) :
  (forall x y, f x = Some y -> core y = core x) -> within R k ->
  within R (x ← get_ctx c; y ← unwrap (f x); upd_ctx c (fun _ => y);; k).
Proof.
  intros Hf Hk d. unfold upd_ctx, get_ctx, mbind, st_bind, get, unwrap, modify.
  destruct (d_contexts d !! c) as [x|] eqn:E; cbn; [|done].
  destruct (f x) as [y|] eqn:Ey; cbn; [|done]. rewrite E. cbn.
  assert (R d (d <| d_contexts ::= <[c := y]> |>)) as HR by (eapply frame_ctx; eauto).
  specialize (Hk (d <| d_contexts ::= <[c := y]> |>)).
  destruct (k _) as [[a s']|]; [|done]. by etransitivity.
Qed.

Lemma within_on_in_packet {A} c (m : ST packet A) : within R (on_in_packet c m).
Proof.
  unfold on_in_packet. apply within_bind; [apply within_get_ctx|]. intros x.
  destruct (m (c_in_packet x)) as [[a p]|]; [|apply within_fault].
  apply within_bind; [by apply within_upd_ctx | intros _; apply within_ret].
Qed.
End rules.

#[export] Hint Resolve within_ret within_get within_gets within_assertM within_unwrap within_fault
  within_for_each within_get_ctx within_get_store within_upd_store within_malloc within_time
  within_get_listener within_on_in_packet frame_remove frame_new : within.

#[export] Hint Extern 0 (Frame _) => exact _ : within.

Ltac within_step :=
  cbv zeta;
  lazymatch goal with
  | |- within _ (whenM _ _) => apply within_whenM; [exact _|]
  | |- within _ (modify _) => apply within_modify; [exact _ | intros ?; reflexivity]
  | |- within _ (upd_ctx _ _) =>
      first [solve [auto with within] | apply within_upd_ctx; [exact _ | intros ?; solve [reflexivity | auto with core]]]
  | |- within _ (match ?x with _ => _ end) => destruct x
  | |- within _ (let '_ := ?x in _) => destruct x
  | |- within _ (_ ≫= _) =>
      first [solve [auto with within]
            | apply within_replace; [exact _ | solve [eauto with core] |]
            | apply within_bind; [exact _ | | intros ?]]
  | |- within _ _ => solve [auto with within]
  end.
Ltac within_tac := repeat within_step.


(** * lib/net_mosq.c and lib/send_mosq.c *)
Lemma core_pop_current x : core (pop_current x) = core x.
Proof. unfold pop_current. by repeat case_match. Qed.
#[export] Hint Resolve core_pop_current : core.
Lemma within_packet_write R `{!Frame R} c : within R (_mosquitto_packet_write c).
Proof. unfold _mosquitto_packet_write, write_back. within_tac. Qed.
#[export] Hint Resolve within_packet_write : within.
Lemma within_packet_queue R `{!Frame R} c p : within R (_mosquitto_packet_queue c p).
Proof. unfold _mosquitto_packet_queue. within_tac. Qed.
#[export] Hint Resolve within_packet_queue : within.
Lemma within_queue_built R `{!Frame R} c b : within R (queue_built c b).
Proof. unfold queue_built. within_tac. Qed.
Lemma within_mid_generate R `{!Frame R} c : within R (_mosquitto_mid_generate c).
Proof. unfold _mosquitto_mid_generate. within_tac. Qed.
#[export] Hint Resolve within_queue_built within_mid_generate : within.
Lemma within_send_simple R `{!Frame R} c command : within R (_mosquitto_send_simple_command c command).
Proof. unfold _mosquitto_send_simple_command. within_tac. Qed.
Lemma within_send_mid R `{!Frame R} c command mid dup : within R (_mosquitto_send_command_with_mid c command mid dup).
Proof. unfold _mosquitto_send_command_with_mid. within_tac. Qed.
Lemma within_send_connack R `{!Frame R} c ack result : within R (_mosquitto_send_connack c ack result).
Proof. unfold _mosquitto_send_connack. within_tac. Qed.
Lemma within_send_suback R `{!Frame R} c mid payload : within R (_mosquitto_send_suback c mid payload).
Proof. unfold _mosquitto_send_suback. within_tac. Qed.
Lemma within_send_real_publish R `{!Frame R} c mid topic payload qos retain dup : within R (_mosquitto_send_real_publish c mid topic payload qos retain dup).
Proof. unfold _mosquitto_send_real_publish. within_tac. Qed.
#[export] Hint Resolve within_send_simple within_send_mid within_send_connack within_send_suback within_send_real_publish : within.
Lemma within_send_publish R `{!Frame R} c mid topic payload qos retain dup : within R (_mosquitto_send_publish c mid topic payload qos retain dup).
Proof. unfold _mosquitto_send_publish. within_tac. Qed.
Lemma within_send_pubrec R `{!Frame R} c mid : within R (_mosquitto_send_pubrec c mid).
Proof. unfold _mosquitto_send_pubrec. within_tac. Qed.
Lemma within_send_pubrel R `{!Frame R} c mid : within R (_mosquitto_send_pubrel c mid).
Proof. unfold _mosquitto_send_pubrel. within_tac. Qed.
Lemma within_send_pubcomp R `{!Frame R} c mid : within R (_mosquitto_send_pubcomp c mid).
Proof. unfold _mosquitto_send_pubcomp. within_tac. Qed.
Lemma within_send_puback R `{!Frame R} c mid : within R (_mosquitto_send_puback c mid).
Proof. unfold _mosquitto_send_puback. within_tac. Qed.
Lemma within_send_pingresp R `{!Frame R} c : within R (_mosquitto_send_pingresp c).
Proof. unfold _mosquitto_send_pingresp. within_tac. Qed.
Lemma within_send_pingreq R `{!Frame R} c : within R (_mosquitto_send_pingreq c).
Proof. unfold _mosquitto_send_pingreq. within_tac. Qed.
Lemma within_queue_with_mid R `{!Frame R} c command len body : within R (queue_with_mid c command len body).
Proof. unfold queue_with_mid. within_tac. Qed.
#[export] Hint Resolve within_send_publish within_send_pubrec within_send_pubrel within_send_pubcomp within_send_puback within_send_pingresp within_send_pingreq within_queue_with_mid : within.

(** * src/database.c *)
Lemma within_deref R `{!Frame R} s : within R (mosquitto__db_msg_store_deref s).
Proof. unfold mosquitto__db_msg_store_deref. within_tac. Qed.
#[export] Hint Resolve within_deref : within.
Lemma within_set_msgs R `{!Frame R} c l : within R (set_msgs c l).
Proof. unfold set_msgs. within_tac. Qed.
Lemma within_message_remove R `{!Frame R} c before rest m : within R (_message_remove c before rest m).
Proof. unfold _message_remove. within_tac. Qed.
#[export] Hint Resolve within_set_msgs within_message_remove : within.
Lemma within_message_delete R `{!Frame R} c mid dir : within R (mqtt3_db_message_delete c mid dir).
Proof. unfold mqtt3_db_message_delete. apply within_bind; [exact _ | auto with within | intros x].
  generalize 0 at 1 as i, false as deleted, (@nil mosquitto_client_msg) as before.
  induction (c_msgs x) as [|m rest IH]; intros i deleted before; cbn [delete_loop]; within_tac. Qed.
(** A message that is put on a list. *)
Lemma core_append_msg m x y : append_msg m x = Some y -> core y = core x.
Proof.
  unfold append_msg. destruct (match c_last_msg x with Some a => _ | None => _ end) as [l|]; [|done].
  by intros [= <-].
Qed.
Lemma core_lazy_threshold x : core (lazy_threshold x) = core x.
Proof. unfold lazy_threshold. destruct (c_bridge x) eqn:E; [|done]. case_match; [|done]. unfold core. by rewrite E. Qed.
#[export] Hint Resolve core_append_msg core_lazy_threshold : core.
Lemma within_insert_append R `{!Frame R} c mid dir qos retain s id state : within R (insert_append c mid dir qos retain s id state).
Proof. unfold insert_append. within_tac. Qed.
#[export] Hint Resolve within_message_delete within_insert_append : within.
Lemma within_message_insert R `{!Frame R} c mid dir qos retain s : within R (mqtt3_db_message_insert c mid dir qos retain s).
Proof. unfold mqtt3_db_message_insert, drop_message. within_tac. Qed.
Lemma within_message_update R `{!Frame R} c mid dir state : within R (mqtt3_db_message_update c mid dir state).
Proof. unfold mqtt3_db_message_update. within_tac. Qed.
Lemma within_deref_all R `{!Frame R} l : within R (deref_all l).
Proof. induction l; cbn [deref_all]; within_tac. Qed.
#[export] Hint Resolve within_message_insert within_message_update within_deref_all : within.
Lemma within_messages_delete R `{!Frame R} c : within R (mqtt3_db_messages_delete c).
Proof. unfold mqtt3_db_messages_delete. within_tac. Qed.
Lemma within_store_find R `{!Frame R} c mid : within R (mqtt3_db_message_store_find c mid).
Proof. unfold mqtt3_db_message_store_find. apply within_bind; [exact _ | auto with within | intros x].
  induction (c_msgs x); cbn [store_find_loop]; within_tac. Qed.
Lemma within_reset_loop R `{!Frame R} c before tail : within R (reset_loop c before tail).
Proof. revert before tail. fix IH 2. intros before [|m tail]; cbn [reset_loop]; within_tac. Qed.
#[export] Hint Resolve within_messages_delete within_store_find within_reset_loop : within.
Lemma within_reconnect_reset R `{!Frame R} c : within R (mqtt3_db_message_reconnect_reset c).
Proof. unfold mqtt3_db_message_reconnect_reset. within_tac. Qed.
Lemma within_timeout_contexts R `{!Frame R} threshold now l : within R (timeout_contexts threshold now l).
Proof. induction l; cbn [timeout_contexts]; within_tac. Qed.
#[export] Hint Resolve within_reconnect_reset within_timeout_contexts : within.
Lemma within_timeout_check R `{!Frame R} timeout : within R (mqtt3_db_message_timeout_check timeout).
Proof. unfold mqtt3_db_message_timeout_check. within_tac. Qed.
Lemma within_write_action R `{!Frame R} s c mid :
  match write_action_of s with wa_command send _ => within R (send c mid) | _ => True end.
Proof. destruct s; cbn; auto with within. Qed.

Lemma within_write_msgs R `{!Frame R} fuel c before tail n : within R (write_msgs fuel c before tail n).
Proof.
  revert before tail n. induction fuel as [|fuel IH]; intros before tail n; cbn [write_msgs]; [within_tac|].
  destruct tail as [|m rest]; [within_tac|].
  pose proof (within_write_action R (m_state m) c (m_mid m)) as Ha.
  destruct (write_action_of (m_state m)); within_tac.
Qed.
#[export] Hint Resolve within_timeout_check within_write_msgs : within.
Lemma within_message_write R `{!Frame R} c : within R (mqtt3_db_message_write c).
Proof. unfold mqtt3_db_message_write. within_tac. Qed.
#[export] Hint Resolve within_message_write : within.

(** * src/security_default.c and src/subs.c *)

Lemma within_acl_check R `{!Frame R} c topic access : within R (mosquitto_acl_check c topic access).
Proof. unfold mosquitto_acl_check, mosquitto_acl_check_default. within_tac. Qed.
Lemma within_resubscribe R `{!Frame R} id qos subs : within R (resubscribe id qos subs).
Proof. induction subs; cbn [resubscribe]; within_tac. Qed.
#[export] Hint Resolve within_acl_check within_resubscribe : within.
Lemma within_add_leaf R `{!Frame R} context qos a subs : within R (add_leaf context qos a subs).
Proof. unfold add_leaf. within_tac. Qed.
#[export] Hint Resolve within_add_leaf : within.
Lemma within_branch_add R `{!Frame R} t add h :
  (forall h, within R (add h)) -> within R (branch_add t add h).
Proof. intros Ha. induction h; cbn [branch_add]; within_tac. Qed.
#[export] Hint Resolve within_branch_add : within.
Lemma within_sub_add' R `{!Frame R} context qos tokens h : within R (_sub_add context qos tokens h).
Proof. revert h. induction tokens as [|t tokens IH]; intros h; destruct h; cbn [_sub_add]; within_tac. Qed.
Lemma within_on_root R `{!Frame R} {A} t (f : _ -> M (A * _)) h :
  (forall h, within R (f h)) -> within R (on_root t f h).
Proof. intros Ha. induction h; cbn [on_root]; within_tac. Qed.
#[export] Hint Resolve within_sub_add' within_on_root : within.
Lemma within_sub_add R `{!Frame R} c sub qos : within R (mqtt3_sub_add c sub qos).
Proof. unfold mqtt3_sub_add. within_tac. Qed.
Lemma within_remove_leaf R `{!Frame R} c a subs : within R (remove_leaf c a subs).
Proof. unfold remove_leaf. within_tac. Qed.
Lemma within_branch_remove R `{!Frame R} t f h :
  (forall h, within R (f h)) -> within R (branch_remove t f h).
Proof. intros Ha. induction h; cbn [branch_remove]; within_tac. Qed.
#[export] Hint Resolve within_sub_add within_remove_leaf within_branch_remove : within.
Lemma within_sub_remove' R `{!Frame R} c tokens h : within R (_sub_remove c tokens h).
Proof. revert h. induction tokens as [|t tokens IH]; intros h; destruct h; cbn [_sub_remove]; within_tac. Qed.
#[export] Hint Resolve within_sub_remove' : within.
Lemma within_sub_remove R `{!Frame R} c sub : within R (mqtt3_sub_remove c sub).
Proof. unfold mqtt3_sub_remove. within_tac. apply within_on_root; [exact _ | intros h; within_tac]. Qed.
Lemma within_set_retained R `{!Frame R} topic stored retained :
  within R (set_retained topic stored retained).
Proof. unfold set_retained. within_tac. Qed.
Lemma within_leaf_loop R `{!Frame R} source_id topic qos retain stored subs rc :
  within R (leaf_loop source_id topic qos retain stored subs rc).
Proof. revert rc. induction subs; intros rc; cbn [leaf_loop]; within_tac. Qed.
#[export] Hint Resolve within_sub_remove within_set_retained within_leaf_loop : within.
Lemma within_subs_process R `{!Frame R} subs retained source_id topic qos retain stored set_retain :
  within R (_subs_process subs retained source_id topic qos retain stored set_retain).
Proof. unfold _subs_process, notify. within_tac. Qed.
#[export] Hint Resolve within_subs_process : within.
Lemma within_sub_search R `{!Frame R} source_id topic qos retain stored h tokens sr :
  within R (_sub_search source_id topic qos retain stored h tokens sr).
Proof. revert tokens sr. induction h; intros tokens sr; cbn [_sub_search]; within_tac. Qed.
#[export] Hint Resolve within_sub_search : within.
Lemma within_queue_roots R `{!Frame R} source_id topic qos retain stored h tokens :
  within R (queue_roots source_id topic qos retain stored h tokens).
Proof. induction h; cbn [queue_roots]; within_tac. Qed.
#[export] Hint Resolve within_queue_roots : within.
Lemma within_messages_queue R `{!Frame R} source_id topic qos retain stored :
  within R (mqtt3_db_messages_queue source_id topic qos retain stored).
Proof. unfold mqtt3_db_messages_queue. within_tac. Qed.
Lemma within_clean_loop R `{!Frame R} c slots : within R (clean_loop c slots).
Proof. induction slots as [|[a|] slots IH]; cbn [clean_loop]; within_tac. Qed.
#[export] Hint Resolve within_messages_queue within_clean_loop : within.
Lemma within_clean_session R `{!Frame R} c : within R (mqtt3_subs_clean_session c).
Proof. unfold mqtt3_subs_clean_session. within_tac. Qed.
Lemma within_process_slot R `{!Frame R} c sub_qos retained :
  within R (process_slot c sub_qos retained).
Proof. unfold process_slot, _retain_process. within_tac. Qed.
#[export] Hint Resolve within_clean_session within_process_slot : within.
Lemma within_retain_search R `{!Frame R} c sub_qos h tokens level flag :
  within R (_retain_search c sub_qos h tokens level flag).
Proof. revert tokens level flag. induction h; intros tokens level flag; cbn [_retain_search]; within_tac. Qed.
#[export] Hint Resolve within_retain_search : within.
Lemma within_retain_roots R `{!Frame R} c sub_qos h tokens :
  within R (retain_roots c sub_qos h tokens).
Proof. induction h; cbn [retain_roots]; within_tac. Qed.
#[export] Hint Resolve within_retain_roots : within.
Lemma within_retain_queue R `{!Frame R} c sub sub_qos : within R (mqtt3_retain_queue c sub sub_qos).
Proof. unfold mqtt3_retain_queue. within_tac. Qed.
#[export] Hint Resolve within_retain_queue : within.

(** * src/database.c: publishing and release *)

Lemma within_easy_queue R `{!Frame R} context topic qos payload retain :
  within R (mqtt3_db_messages_easy_queue context topic qos payload retain).
Proof. unfold mqtt3_db_messages_easy_queue. within_tac. Qed.
Lemma within_release_promote R `{!Frame R} c m i : within R (release_promote c m i).
Proof. unfold release_promote. within_tac. Qed.
#[export] Hint Resolve within_easy_queue within_release_promote : within.
Lemma within_release_loop R `{!Frame R} fuel c mid dir before tail i deleted :
  within R (release_loop fuel c mid dir before tail i deleted).
Proof.
  revert before tail i deleted. induction fuel as [|fuel IHf]; intros before tail;
    (revert before; induction tail as [|m tail IHt]; intros before i deleted; cbn; within_tac).
Qed.
#[export] Hint Resolve within_release_loop : within.
Lemma within_message_release R `{!Frame R} c mid dir :
  within R (mqtt3_db_message_release c mid dir).
Proof. unfold mqtt3_db_message_release. within_tac. Qed.
#[export] Hint Resolve within_message_release : within.

(** * src/context.c, the handlers and src/persist.c *)

Lemma within_find_by_id R `{!Frame R} l id : within R (find_by_id l id).
Proof. induction l; cbn [find_by_id]; within_tac. Qed.
Lemma within_send_will R `{!Frame R} c : within R (send_will c).
Proof. unfold send_will. within_tac. Qed.
Lemma within_associate_acl R `{!Frame R} c : within R (associate_acl c).
Proof. unfold associate_acl. within_tac. apply within_upd_ctx; [exact _ | intros x; by repeat case_match]. Qed.
Lemma within_purge_loop R `{!Frame R} c before tail : within R (purge_loop c before tail).
Proof. revert before. induction tail; intros before; cbn [purge_loop]; within_tac. Qed.
Lemma within_retarget_slot R `{!Frame R} found c slot : within R (retarget_slot found c slot).
Proof. unfold retarget_slot. within_tac. Qed.
#[export] Hint Resolve within_find_by_id within_send_will within_associate_acl within_purge_loop within_retarget_slot : within.
Lemma within_inherit_session R `{!Frame R} c found : within R (inherit_session c found).
Proof. unfold inherit_session. within_tac. Qed.
Lemma within_read_codes R `{!Frame R} fuel c : within R (read_codes fuel c).
Proof. induction fuel; cbn [read_codes]; within_tac. Qed.
Lemma within_bad_message R `{!Frame R} c qos mid : within R (bad_message c qos mid).
Proof. unfold bad_message. within_tac. Qed.
Lemma within_accept_message R `{!Frame R} c topic payload qos mid retain :
  within R (accept_message c topic payload qos mid retain).
Proof. unfold accept_message. within_tac. Qed.
Lemma within_read_message R `{!Frame R} c : within R (read_message c).
Proof. unfold read_message. within_tac. Qed.
#[export] Hint Resolve within_inherit_session within_read_codes within_bad_message within_accept_message within_read_message : within.
Lemma within_handle_publish R `{!Frame R} c : within R (mqtt3_handle_publish c).
Proof. unfold mqtt3_handle_publish. within_tac. Qed.
Lemma within_subscribe_loop R `{!Frame R} fuel c payload rc :
  within R (subscribe_loop fuel c payload rc).
Proof. revert payload rc. induction fuel; intros payload rc; cbn [subscribe_loop]; within_tac. Qed.
Lemma within_unsubscribe_loop R `{!Frame R} fuel c : within R (unsubscribe_loop fuel c).
Proof. induction fuel; cbn [unsubscribe_loop]; within_tac. Qed.
#[export] Hint Resolve within_handle_publish within_subscribe_loop within_unsubscribe_loop : within.
Lemma within_handle_subscribe R `{!Frame R} c : within R (mqtt3_handle_subscribe c).
Proof. unfold mqtt3_handle_subscribe. within_tac. Qed.
Lemma within_handle_unsubscribe R `{!Frame R} c : within R (mqtt3_handle_unsubscribe c).
Proof. unfold mqtt3_handle_unsubscribe. within_tac. Qed.
Lemma within_handle_pubackcomp R `{!Frame R} c : within R (_mosquitto_handle_pubackcomp c).
Proof. unfold _mosquitto_handle_pubackcomp. within_tac. Qed.
Lemma within_handle_pubrec R `{!Frame R} c : within R (_mosquitto_handle_pubrec c).
Proof. unfold _mosquitto_handle_pubrec. within_tac. Qed.
Lemma within_handle_pubrel R `{!Frame R} c : within R (_mosquitto_handle_pubrel c).
Proof. unfold _mosquitto_handle_pubrel. within_tac. Qed.
Lemma within_handle_suback R `{!Frame R} c : within R (_mosquitto_handle_suback c).
Proof. unfold _mosquitto_handle_suback. within_tac. Qed.
Lemma within_handle_pingresp R `{!Frame R} c : within R (_mosquitto_handle_pingresp c).
Proof. unfold _mosquitto_handle_pingresp. within_tac. Qed.
Lemma within_handle_unsuback R `{!Frame R} c : within R (_mosquitto_handle_unsuback c).
Proof. unfold _mosquitto_handle_unsuback. within_tac. Qed.
#[export] Hint Resolve within_handle_subscribe within_handle_unsubscribe within_handle_pubackcomp within_handle_pubrec within_handle_pubrel within_handle_suback within_handle_pingresp within_handle_unsuback : within.
Lemma within_refuse R `{!Frame R} {A} c code rc : within R (@refuse A c code rc).
Proof. unfold refuse. within_tac. Qed.
Lemma within_read_or_1 R `{!Frame R} {A} c (m : ST packet (res A)) : within R (read_or_1 c m).
Proof. unfold read_or_1. within_tac. Qed.
#[export] Hint Resolve within_refuse within_read_or_1 : within.
Lemma within_read_protocol R `{!Frame R} c : within R (read_protocol c).
Proof. unfold read_protocol. within_tac. Qed.
Lemma within_read_client_id R `{!Frame R} `{Crypto, Environment} c fl :
  within R (read_client_id c fl).
Proof. unfold read_client_id. within_tac. Qed.
Lemma within_read_will R `{!Frame R} c fl : within R (read_will c fl).
Proof. unfold read_will. within_tac. Qed.
Lemma within_read_credentials R `{!Frame R} c fl : within R (read_credentials c fl).
Proof. unfold read_credentials. within_tac. Qed.
Lemma within_identify_peer R `{!Frame R} `{Crypto, Environment} c l : within R (identify_peer c l).
Proof. unfold identify_peer. within_tac. Qed.
Lemma within_final_client_id R `{!Frame R} c client_id : within R (final_client_id c client_id).
Proof. unfold final_client_id. within_tac. Qed.
#[export] Hint Resolve within_read_protocol within_read_client_id within_read_will within_read_credentials within_identify_peer within_final_client_id : within.
