(* ===== verification/Sessions.v ===== *)
(** An abstract view of the broker: the table of its sessions.  A session is what
    matters of a context for who is connected as whom; the steps of the table are what
    the code does to it, and the invariant of the table is preserved by every step.
    Invariant.v shows that the broker's code follows these steps.  Bridges are left
    out: a table has only sessions of clients. *)

From S2P Require Export Frame.
#[local] Open Scope Z_scope.

Record session := Session {
  ss_sock : Z;
  ss_id : option str;
  ss_state : mosquitto_client_state;
  ss_clean : bool }.

#[global] Instance eta_session : Eta session := fun s =>
  Session (ss_sock s) (ss_id s) (ss_state s) (ss_clean s).

(** [t_free] are the sessions whose memory is to be freed. *)
Record table := Table {
  t_sessions : gmap addr session;
  t_by_id : list addr;
  t_by_sock : list addr;
  t_free : list addr }.

#[global] Instance eta_table : Eta table := fun t =>
  Table (t_sessions t) (t_by_id t) (t_by_sock t) (t_free t).

Definition without (c : addr) (l : list addr) : list addr := filter (fun a => a <> c) l.
#[global] Arguments without : simpl never.

(** * Operations *)

Definition t_upd (c : addr) (f : session -> session) (t : table) : table :=
  t <| t_sessions ::= alter f c |>.

Definition t_open (c : addr) (sock : Z) (t : table) : table :=
  t <| t_sessions ::= <[c := Session sock None mosq_cs_new true]> |> <| t_by_sock ::= (fun l => l ++ [c]) |>.

Definition t_restore (c : addr) (id : str) (t : table) : table :=
  t <| t_sessions ::= <[c := Session (-1) (Some id) mosq_cs_new false]> |>
    <| t_by_id ::= (fun l => l ++ [c]) |>.

Definition t_close (c : addr) (t : table) : table :=
  match t_sessions t !! c with
  | Some s => if 0 <=? ss_sock s
              then t_upd c (fun s => s <| ss_sock := -1 |>) t <| t_by_sock ::= without c |>
              else t
  | None => t
  end.

(** The session gives up its identifier. *)
Definition t_forget (c : addr) (t : table) : table :=
  match ss_id <$> t_sessions t !! c with
  | Some (Some _) => t_upd c (fun s => s <| ss_id := None |>) t <| t_by_id ::= without c |>
  | _ => t
  end.

Definition t_disconnect (c : addr) (t : table) : table :=
  let t := t_close c t in
  let t :=
    match t_sessions t !! c with
    | Some s => if ss_clean s then t_forget c (t <| t_free ::= cons c |>) else t
    | None => t
    end in
  t_upd c (fun s => s <| ss_state := mosq_cs_disconnected |>) t.

Definition t_connect (c : addr) (id : str) (clean : bool) (t : table) : table :=
  t_upd c (fun s => s <| ss_id := Some id |> <| ss_clean := clean |> <| ss_state := mosq_cs_connected |>) t
    <| t_by_id ::= (fun l => l ++ [c]) |>.

Definition t_delete (c : addr) (t : table) : table :=
  t <| t_sessions ::= delete c |> <| t_by_sock ::= without c |>.

Definition t_reap (t : table) : table :=
  t <| t_sessions ::= (fun m => foldr delete m (t_free t)) |> <| t_free := [] |>.

(** * Steps *)

(** [live t c s]: [c] is a session that is not waiting to be freed. *)
Definition live (t : table) (c : addr) (s : session) : Prop :=
  t_sessions t !! c = Some s /\ (c ∉ t_free t).

Definition id_free (t : table) (id : str) : Prop :=
  forall c s, t_sessions t !! c = Some s -> ss_id s <> Some id.

Inductive tstep : table -> table -> Prop :=
| ts_open c sock t :
    t_sessions t !! c = None -> 0 <= sock -> tstep t (t_open c sock t)
| ts_restore c id t :
    t_sessions t !! c = None -> id_free t id -> tstep t (t_restore c id t)
| ts_close c t : tstep t (t_close c t)
| ts_clean c s b t :
    live t c s -> ss_state s = mosq_cs_new -> tstep t (t_upd c (fun s => s <| ss_clean := b |>) t)
| ts_drop c s s' t :
    live t c s -> ss_sock s' = ss_sock s -> ss_id s' = ss_id s ->
    tstep t (t_disconnect c (t_upd c (fun _ => s') t))
| ts_connect c s id clean t :
    live t c s -> ss_state s = mosq_cs_new -> 0 <= ss_sock s -> id_free t id ->
    tstep t (t_connect c id clean t)
| ts_ready c s t :
    live t c s -> 0 <= ss_sock s -> tstep t (t_upd c (fun s => s <| ss_state := mosq_cs_connected |>) t)
| ts_delete c s t :
    live t c s -> ss_id s = None -> tstep t (t_delete c t)
| ts_reap t : tstep t (t_reap t).

(** * The invariant *)

Record table_ok (t : table) : Prop := TableOk {
  (** a socket or -1, and the three states a client can be in *)
  tk_range : forall c s, t_sessions t !! c = Some s ->
    -1 <= ss_sock s /\ ss_state s ∈ [mosq_cs_new; mosq_cs_connected; mosq_cs_disconnected];
  (** the table by socket holds the sessions that have one *)
  tk_sock_nodup : NoDup (t_by_sock t);
  tk_sock : forall c, c ∈ t_by_sock t <-> exists s, t_sessions t !! c = Some s /\ 0 <= ss_sock s;
  (** the table by identifier holds the sessions that have one *)
  tk_id_nodup : NoDup (t_by_id t);
  tk_id : forall c, c ∈ t_by_id t <-> exists s, t_sessions t !! c = Some s /\ ss_id s <> None;
  (** no two sessions have the same identifier *)
  tk_unique : forall c1 c2 s1 s2 id, t_sessions t !! c1 = Some s1 -> t_sessions t !! c2 = Some s2 ->
    ss_id s1 = Some id -> ss_id s2 = Some id -> c1 = c2;
  (** a connection is anonymous until its CONNECT is accepted *)
  tk_new : forall c s, t_sessions t !! c = Some s -> ss_state s = mosq_cs_new -> 0 <= ss_sock s ->
    ss_id s = None;
  (** what is to be freed, once, is what was disconnected and is not to be kept *)
  tk_free_nodup : NoDup (t_free t);
  tk_free : forall c, c ∈ t_free t <-> exists s, t_sessions t !! c = Some s
    /\ ss_state s = mosq_cs_disconnected /\ ss_clean s = true;
  (** a disconnected session has no socket, and keeps its identifier only to be resumed *)
  tk_offline : forall c s, t_sessions t !! c = Some s -> ss_state s = mosq_cs_disconnected ->
    ss_sock s = -1 /\ (ss_clean s = true -> ss_id s = None) }.

Definition table_init : table := Table ∅ [] [] [].

(** Closed lists of table entries. *)
Lemma elem_of_without c a l : a ∈ without c l <-> a <> c /\ a ∈ l.
Proof. unfold without. rewrite list_elem_of_filter. tauto. Qed.

Lemma NoDup_without c l : NoDup l -> NoDup (without c l).
Proof. apply NoDup_filter. Qed.

Lemma without_notin c l : (c ∉ l) -> without c l = l.
Proof.
  intros H. induction l as [|a l IH]; [done|]. unfold without in *. rewrite filter_cons.
  rewrite decide_True by (intros ->; apply H; left). f_equal. apply IH. intros ?. apply H. by right.
Qed.

Lemma table_init_ok : table_ok table_init.
Proof.
  split; cbn; try (intros *; rewrite lookup_empty; intros; congruence); try constructor.
  all: try by intros ?%elem_of_nil.
  all: intros (s & H & _); by rewrite lookup_empty in H.
Qed.

(** One session is set; the lists may change for it alone. *)
Lemma table_ok_set t c s by_id by_sock free :
  table_ok t ->
  -1 <= ss_sock s -> ss_state s ∈ [mosq_cs_new; mosq_cs_connected; mosq_cs_disconnected] ->
  NoDup by_sock -> (forall a, a ∈ by_sock <-> if decide (a = c) then 0 <= ss_sock s else a ∈ t_by_sock t) ->
  NoDup by_id -> (forall a, a ∈ by_id <-> if decide (a = c) then ss_id s <> None else a ∈ t_by_id t) ->
  (forall id a s', ss_id s = Some id -> a <> c -> t_sessions t !! a = Some s' -> ss_id s' <> Some id) ->
  (ss_state s = mosq_cs_new -> 0 <= ss_sock s -> ss_id s = None) ->
  NoDup free ->
  (forall a, a ∈ free <-> if decide (a = c) then ss_state s = mosq_cs_disconnected /\ ss_clean s = true
                    else a ∈ t_free t) ->
  (ss_state s = mosq_cs_disconnected -> ss_sock s = -1 /\ (ss_clean s = true -> ss_id s = None)) ->
  table_ok (Table (<[c := s]> (t_sessions t)) by_id by_sock free).
Proof.
  intros [] Hs Hst Hsn Hsi Hin Hii Hu Hnew Hfn Hfi Hoff.
  assert (forall a s', <[c := s]> (t_sessions t) !! a = Some s' ->
    a = c /\ s' = s \/ a <> c /\ t_sessions t !! a = Some s') as Hget.
  { intros a s' H. destruct (decide (a = c)) as [->|Hne].
    - rewrite lookup_insert_eq in H. injection H as <-. by left.
    - rewrite lookup_insert_ne in H by done. by right. }
  assert (forall a (Q : session -> Prop) (L : list addr) (L' : list addr),
    (a ∈ L' <-> if decide (a = c) then Q s else a ∈ L) ->
    (a ∈ L <-> exists s', t_sessions t !! a = Some s' /\ Q s') ->
    (a ∈ L' <-> exists s', <[c := s]> (t_sessions t) !! a = Some s' /\ Q s')) as Hiff.
  { intros a Q L L' H1 H2. rewrite H1. case_decide as E.
    - subst a. rewrite lookup_insert_eq. split; [by exists s | by intros (? & [= <-] & ?)].
    - rewrite lookup_insert_ne by done. done. }
  split; cbn; try done.
  - intros a s' [[-> ->]|[? H]]%Hget; [done | by eapply tk_range0].
  - intros a. by eapply Hiff.
  - intros a. by eapply Hiff.
  - intros c1 c2 s1 s2 id [[-> ->]|[H1 H1']]%Hget [[-> ->]|[H2 H2']]%Hget E1 E2; [done | | |].
    + by destruct (Hu id c2 s2 E1 H2 H2').
    + by destruct (Hu id c1 s1 E2 H1 H1').
    + by eapply tk_unique0.
  - intros a s' [[-> ->]|[? H]]%Hget; [done | by eapply tk_new0].
  - intros a. by eapply Hiff.
  - intros a s' [[-> ->]|[? H]]%Hget; [done | by eapply tk_offline0].
Qed.

(** ** The steps in closed form *)

Lemma t_upd_eq c f t s :
  t_sessions t !! c = Some s ->
  t_upd c f t = Table (<[c := f s]> (t_sessions t)) (t_by_id t) (t_by_sock t) (t_free t).
Proof.
  intros H. destruct t as [m i k l]. unfold t_upd, upd. cbn in *. f_equal.
  apply map_eq. intros a. destruct (decide (a = c)) as [->|Hne].
  - by rewrite lookup_alter_eq, lookup_insert_eq, H.
  - by rewrite lookup_alter_ne, lookup_insert_ne by done.
Qed.

Lemma t_close_eq t c s :
  table_ok t -> t_sessions t !! c = Some s ->
  t_close c t = Table (<[c := s <| ss_sock := -1 |>]> (t_sessions t)) (t_by_id t)
                  (without c (t_by_sock t)) (t_free t).
Proof.
  intros Hok H. unfold t_close. rewrite H. destruct (0 <=? ss_sock s) eqn:E.
  - by rewrite (t_upd_eq c _ _ s) by exact H.
  - assert (c ∉ t_by_sock t) as Hn.
    { intros (s' & H' & ?)%(tk_sock _ Hok). simplify_eq. lia. }
    assert (ss_sock s = -1) as Es by (apply (tk_range _ Hok) in H; lia).
    rewrite without_notin by done. rewrite insert_id; [by destruct t|].
    rewrite H. f_equal. destruct s. cbn in *. by subst.
Qed.

(** What a session becomes when it is disconnected. *)
Definition disconnected (s : session) : session :=
  Session (-1) (if ss_clean s then None else ss_id s) mosq_cs_disconnected (ss_clean s).

Lemma t_disconnect_eq t c s :
  -1 <= ss_sock s -> t_sessions t !! c = Some s ->
  (c ∈ t_by_sock t <-> 0 <= ss_sock s) -> (c ∈ t_by_id t <-> ss_id s <> None) ->
  t_disconnect c t = Table (<[c := disconnected s]> (t_sessions t))
    (if ss_clean s then without c (t_by_id t) else t_by_id t) (without c (t_by_sock t))
    (if ss_clean s then c :: t_free t else t_free t).
Proof.
  intros Hr H Hs Hi. unfold t_disconnect.
  assert (t_close c t = Table (<[c := s <| ss_sock := -1 |>]> (t_sessions t)) (t_by_id t)
                  (without c (t_by_sock t)) (t_free t)) as ->.
  { unfold t_close. rewrite H. destruct (0 <=? ss_sock s) eqn:E.
    - by rewrite (t_upd_eq c _ _ s) by exact H.
    - assert (c ∉ t_by_sock t) as Hn by (rewrite Hs; lia).
      assert (ss_sock s = -1) as Es by lia.
      rewrite without_notin by done. rewrite insert_id; [by destruct t|].
      rewrite H. f_equal. destruct s. cbn in *. by subst. }
  cbn. rewrite lookup_insert_eq. destruct s as [sock id st cl]; cbn in *. destruct cl.
  - unfold t_forget. cbn. rewrite lookup_insert_eq. destruct id as [id|]; cbn.
    + unfold t_upd, upd. cbn. f_equal. apply map_eq. intros a.
      destruct (decide (a = c)) as [->|Hne].
      * by rewrite !lookup_alter_eq, !lookup_insert_eq.
      * by rewrite !lookup_alter_ne, !lookup_insert_ne by done.
    + rewrite (t_upd_eq _ _ _ (Session (-1) None st true)) by (cbn; by rewrite lookup_insert_eq). cbn.
      rewrite insert_insert_eq, (without_notin c (t_by_id t)); [done|]. rewrite Hi. intros Hn. by apply Hn.
  - rewrite (t_upd_eq _ _ _ (Session (-1) id st false)) by (cbn; by rewrite lookup_insert_eq). cbn.
    by rewrite insert_insert_eq.
Qed.

(** ** Every step preserves the invariant *)

Lemma NoDup_snoc_fresh (c : addr) l : NoDup l -> (c ∉ l) -> NoDup (l ++ [c]).
Proof.
  intros Hl Hc. apply NoDup_app. split_and!; [done | | apply NoDup_singleton].
  intros a Ha ->%list_elem_of_singleton. done.
Qed.

Lemma foldr_delete_lookup (l : list addr) (m : gmap addr session) a :
  foldr delete m l !! a = if decide (a ∈ l) then None else m !! a.
Proof.
  induction l as [|b l IH]; cbn; [by rewrite decide_False by apply not_elem_of_nil|].
  destruct (decide (a = b)) as [->|Hne].
  - rewrite lookup_delete_eq, decide_True; [done | left].
  - rewrite lookup_delete_ne, IH by done.
    destruct (decide (a ∈ l)) as [H|H]; [by rewrite decide_True by by right|].
    rewrite decide_False; [done|]. by intros [?|?]%elem_of_cons.
Qed.

(** [elem_lists] settles what is on a list after an element was put on or taken off. *)
Ltac elem_lists :=
  try intros ?; rewrite ?elem_of_without, ?elem_of_app, ?list_elem_of_singleton, ?elem_of_cons;
  case_decide; subst; cbn; try tauto.

Section preserved.
Variable t : table.
Hypothesis Hok : table_ok t.

Lemma known c s : t_sessions t !! c = Some s ->
  (c ∈ t_by_sock t <-> 0 <= ss_sock s) /\ (c ∈ t_by_id t <-> ss_id s <> None).
Proof.
  intros H. rewrite (tk_sock _ Hok), (tk_id _ Hok).
  split; (split; [intros (? & ? & ?); by simplify_eq | by exists s]).
Qed.

Lemma unknown c : t_sessions t !! c = None ->
  (c ∉ t_by_sock t) /\ (c ∉ t_by_id t) /\ (c ∉ t_free t).
Proof.
  intros H. rewrite (tk_sock _ Hok), (tk_id _ Hok), (tk_free _ Hok).
  split_and!; intros (s & H' & _); by rewrite H in H'.
Qed.

Lemma open_ok c sock : t_sessions t !! c = None -> 0 <= sock -> table_ok (t_open c sock t).
Proof.
  intros H Hs. destruct (unknown c H) as (H1 & H2 & H3). pose proof Hok as [Hrange Hsn Hsi Hin Hii Huniq Hnew Hfn Hfi Hoff].
  apply (table_ok_set t c (Session sock None mosq_cs_new true)); cbn; try done.
  - lia.
  - left.
  - by apply NoDup_snoc_fresh.
  - elem_lists.
  - intros a. case_decide; subst; tauto.
  - intros a. case_decide; subst; [|done]. split; [done | by intros [? _]].
Qed.

Lemma restore_ok c id : t_sessions t !! c = None -> id_free t id -> table_ok (t_restore c id t).
Proof.
  intros H Hid. destruct (unknown c H) as (H1 & H2 & H3). pose proof Hok as [Hrange Hsn Hsi Hin Hii Huniq Hnew Hfn Hfi Hoff].
  apply (table_ok_set t c (Session (-1) (Some id) mosq_cs_new false)); cbn; try done.
  - left.
  - intros a. case_decide; subst; [|done]. split; [done | lia].
  - by apply NoDup_snoc_fresh.
  - elem_lists. split; [done | by right].
  - intros ? a s' [= <-] _ Ha. by eapply Hid.
  - intros a. case_decide; subst; [|done]. split; [done | by intros [? _]].
Qed.

Lemma close_ok c : table_ok (t_close c t).
Proof.
  destruct (t_sessions t !! c) as [s|] eqn:H; [|unfold t_close; by rewrite H].
  rewrite (t_close_eq _ _ _ Hok H). destruct (known c s H) as [H1 H2]. pose proof Hok as [Hrange Hsn Hsi Hin Hii Huniq Hnew Hfn Hfi Hoff].
  destruct (Hrange _ _ H) as [Hr Hst].
  apply (table_ok_set t c (s <| ss_sock := -1 |>)); cbn; try done.
  - by apply NoDup_without.
  - elem_lists. split; [by intros [? _] | lia].
  - intros a. case_decide; subst; tauto.
  - intros id a s' Hid Hne Ha Hid'. apply Hne. by eapply Huniq.
  - intros a. case_decide; subst; [|done]. rewrite Hfi.
    split; [intros (? & ? & ?); by simplify_eq | by exists s].
  - intros Hd. by eapply Hoff in H as [_ ?].
Qed.

Lemma drop_ok c s s' : live t c s -> ss_sock s' = ss_sock s -> ss_id s' = ss_id s ->
  table_ok (t_disconnect c (t_upd c (fun _ => s') t)).
Proof.
  intros [H Hfree] Es Ei. destruct (known c s H) as [H1 H2]. pose proof Hok as [Hrange Hsn Hsi Hin Hii Huniq Hnew Hfn Hfi Hoff].
  destruct (Hrange _ _ H) as [Hr Hst].
  rewrite (t_upd_eq _ _ _ _ H).
  erewrite t_disconnect_eq; cbn; [|rewrite Es; lia | by rewrite lookup_insert_eq | by rewrite Es | by rewrite Ei].
  rewrite insert_insert_eq. apply (table_ok_set t c (disconnected s')); cbn; try done.
  - right; right; left.
  - by apply NoDup_without.
  - elem_lists. split; [by intros [? _] | lia].
  - destruct (ss_clean s'); [by apply NoDup_without | done].
  - intros a. destruct (ss_clean s'); [by elem_lists|].
    case_decide; subst; [|done]. by rewrite Ei.
  - intros id a s1 Hid Hne Ha Hid'. destruct (ss_clean s'); [done|]. rewrite Ei in Hid.
    apply Hne. by eapply Huniq.
  - destruct (ss_clean s'); [by constructor | done].
  - intros a. destruct (ss_clean s') eqn:E; [elem_lists|].
    case_decide; subst; [|done]. split; [done | by intros [_ ?]].
  - intros _. split; [done|]. by intros ->.
Qed.

Lemma connect_ok c s id clean : live t c s -> ss_state s = mosq_cs_new -> 0 <= ss_sock s ->
  id_free t id -> table_ok (t_connect c id clean t).
Proof.
  intros [H Hfree] Hst Hs Hid. destruct (known c s H) as [H1 H2]. pose proof Hok as [Hrange Hsn Hsi Hin Hii Huniq Hnew Hfn Hfi Hoff].
  assert (ss_id s = None) as Hno by by eapply Hnew.
  assert (c ∉ t_by_id t) as Hni by (rewrite H2, Hno; by intros []).
  unfold t_connect. erewrite t_upd_eq by exact H. cbn.
  apply (table_ok_set t c (s <| ss_id := Some id |> <| ss_clean := clean |> <| ss_state := mosq_cs_connected |>));
    cbn; try done.
  - lia.
  - right; left.
  - intros a. case_decide; subst; tauto.
  - by apply NoDup_snoc_fresh.
  - elem_lists. split; [done | by right].
  - intros ? a s' [= <-] _ Ha. by eapply Hid.
  - intros a. case_decide; subst; [|done]. split; [done | by intros [? _]].
Qed.

Lemma ready_ok c s : live t c s -> 0 <= ss_sock s ->
  table_ok (t_upd c (fun s => s <| ss_state := mosq_cs_connected |>) t).
Proof.
  intros [H Hfree] Hs. destruct (known c s H) as [H1 H2]. pose proof Hok as [Hrange Hsn Hsi Hin Hii Huniq Hnew Hfn Hfi Hoff].
  rewrite (t_upd_eq _ _ _ _ H).
  apply (table_ok_set t c (s <| ss_state := mosq_cs_connected |>)); cbn; try done.
  - lia.
  - right; left.
  - intros a. case_decide; subst; tauto.
  - intros a. case_decide; subst; tauto.
  - intros id a s' Hid Hne Ha Hid'. apply Hne. by eapply Huniq.
  - intros a. case_decide; subst; [|done]. split; [done | by intros [? _]].
Qed.

Lemma clean_ok c s b : live t c s -> ss_state s = mosq_cs_new ->
  table_ok (t_upd c (fun s => s <| ss_clean := b |>) t).
Proof.
  intros [H Hfree] Hst. destruct (known c s H) as [H1 H2]. pose proof Hok as [Hrange Hsn Hsi Hin Hii Huniq Hnew Hfn Hfi Hoff].
  destruct (Hrange _ _ H) as [Hr Hstate].
  rewrite (t_upd_eq _ _ _ _ H).
  apply (table_ok_set t c (s <| ss_clean := b |>)); cbn; try done.
  - intros a. case_decide; subst; tauto.
  - intros a. case_decide; subst; tauto.
  - intros id a s' Hid Hne Ha Hid'. apply Hne. by eapply Huniq.
  - by eapply Hnew.
  - intros a. case_decide; subst; [|done]. split; [done | intros [? _]; congruence].
  - congruence.
Qed.

(** Sessions are taken away that are on neither table. *)
Lemma remove_ok gone by_sock free :
  (forall a s, a ∈ gone -> t_sessions t !! a = Some s -> ss_id s = None) ->
  NoDup by_sock -> (forall a, a ∈ by_sock <-> a ∈ t_by_sock t /\ (a ∉ gone)) ->
  NoDup free -> (forall a, a ∈ free <-> a ∈ t_free t /\ (a ∉ gone)) ->
  table_ok (Table (foldr delete (t_sessions t) gone) (t_by_id t) by_sock free).
Proof.
  intros Hg Hsn' Hsi' Hfn' Hfi'.
  destruct Hok as [Hrange Hsn Hsi Hin Hii Huniq Hnew Hfn Hfi Hoff].
  assert (forall a s, foldr delete (t_sessions t) gone !! a = Some s <->
    t_sessions t !! a = Some s /\ (a ∉ gone)) as Hget.
  { intros a s. rewrite foldr_delete_lookup. case_decide as E; split; [done | by intros [_ ?] | done | by intros [? _]]. }
  assert (forall a (Q : session -> Prop),
    (exists s, foldr delete (t_sessions t) gone !! a = Some s /\ Q s)
    <-> (exists s, t_sessions t !! a = Some s /\ Q s) /\ (a ∉ gone)) as Hex.
  { intros a Q. setoid_rewrite Hget. split; [intros (s & [? ?] & ?); split; eauto | intros [(s & ? & ?) ?]; eauto]. }
  split; cbn; try done.
  - intros a s [H _]%Hget. eauto.
  - intros a. by rewrite Hex, Hsi', Hsi.
  - intros a. rewrite Hex, Hii. split; [|by intros [? _]]. intros Ha. split; [done|].
    intros Hin'. destruct Ha as (s & Hs & Hid). apply Hid. by eapply Hg.
  - intros c1 c2 s1 s2 id [H1 _]%Hget [H2 _]%Hget. eauto.
  - intros a s [H _]%Hget. eauto.
  - intros a. by rewrite Hex, Hfi', Hfi.
  - intros a s [H _]%Hget. eauto.
Qed.

Lemma delete_ok c s : live t c s -> ss_id s = None -> table_ok (t_delete c t).
Proof.
  intros [H Hfree] Hid.
  apply (remove_ok [c] (without c (t_by_sock t)) (t_free t)).
  - intros a s' ->%list_elem_of_singleton H'. by simplify_eq.
  - apply NoDup_without, Hok.
  - intros a. rewrite elem_of_without, list_elem_of_singleton. tauto.
  - apply Hok.
  - intros a. rewrite list_elem_of_singleton. split; [|by intros [? _]]. intros Ha. split; [done|].
    by intros ->.
Qed.

Lemma reap_ok : table_ok (t_reap t).
Proof.
  apply (remove_ok (t_free t) (t_by_sock t) []).
  - intros a s Ha H. rewrite (tk_free _ Hok) in Ha. destruct Ha as (s' & H' & Hd & Hc). simplify_eq.
    destruct (tk_offline _ Hok _ _ H' Hd) as [_ Hx]. by apply Hx.
  - apply Hok.
  - intros a. split; [|by intros [? _]]. intros Ha. split; [done|]. rewrite (tk_free _ Hok).
    intros (s' & H' & Hd & _). rewrite (tk_sock _ Hok) in Ha. destruct Ha as (s & H & Hs).
    simplify_eq. destruct (tk_offline _ Hok _ _ H Hd) as [? _]. lia.
  - constructor.
  - intros a. split; [by intros ?%elem_of_nil | by intros []].
Qed.
End preserved.

(** The invariant holds in every table the steps lead to. *)
Lemma tstep_ok t t' : tstep t t' -> table_ok t -> table_ok t'.
Proof.
  intros [] Hok.
  - by apply open_ok.
  - by apply restore_ok.
  - by apply close_ok.
  - by eapply clean_ok.
  - by eapply drop_ok.
  - by eapply connect_ok.
  - by eapply ready_ok.
  - by eapply delete_ok.
  - by apply reap_ok.
Qed.

Lemma tsteps_ok t t' : rtc tstep t t' -> table_ok t -> table_ok t'.
Proof. induction 1; eauto using tstep_ok. Qed.
