(* ===== verification/Invariant.v ===== *)
(** The broker's code follows the steps of Sessions.v: every state a broker without
    bridges reaches has a well-formed table of sessions.  The statements here are
    about the states in which a routine returns; a step that faults leads nowhere. *)

From S2P Require Export Sessions.
#[local] Open Scope Z_scope.

(** * Partial correctness *)

Lemma wlp_get_ctx c Q d : (forall x, d_contexts d !! c = Some x -> Q x d) -> wlp (get_ctx c) Q d.
Proof. intros H. unfold get_ctx. apply wlp_bind, wlp_get, wlp_unwrap, H. Qed.

Lemma wlp_upd_ctx c f Q d :
  (forall x, d_contexts d !! c = Some x -> Q tt (d <| d_contexts ::= <[c := f x]> |>)) ->
  wlp (upd_ctx c f) Q d.
Proof. intros H. unfold upd_ctx. apply wlp_bind, wlp_get_ctx. intros x Hx. by apply wlp_modify, H. Qed.

Lemma wlp_within R {A} (m : M A) Q d :
  within R m -> (forall a d', R d d' -> Q a d') -> wlp m Q d.
Proof. intros H HQ. specialize (H d). unfold wlp. destruct (m d) as [[a d']|]; eauto. Qed.

Ltac wlp_step :=
  lazymatch goal with
  | |- wlp (_ ≫= _) _ _ => apply wlp_bind
  | |- wlp (mret _) _ _ => apply wlp_ret
  | |- wlp get _ _ => apply wlp_get
  | |- wlp (gets _) _ _ => apply wlp_gets
  | |- wlp (modify _) _ _ => apply wlp_modify
  | |- wlp mosquitto_time _ _ => apply wlp_gets
  | |- wlp (assertM _) _ _ => apply wlp_assertM; intros ?
  | |- wlp (unwrap _) _ _ => apply wlp_unwrap; intros ? ?
  | |- wlp (get_ctx _) _ _ => apply wlp_get_ctx; intros ? ?
  | |- wlp (upd_ctx _ _) _ _ => apply wlp_upd_ctx; intros ? ?
  end.

(** * The table of a state *)

Definition session_of (x : mosquitto) : session :=
  Session (c_sock x) (c_id x) (c_state x) (c_clean_session x).

Definition table_of (d : mosquitto_db) : table :=
  Table (session_of <$> d_contexts d) (d_contexts_by_id d) (d_contexts_by_sock d) (d_ll_for_free d).

Record clients_ok (d : mosquitto_db) : Prop := ClientsOk {
  co_table : table_ok (table_of d);
  co_fresh : forall c x, d_contexts d !! c = Some x -> (c < d_next d)%nat;
  co_client : forall c x, d_contexts d !! c = Some x -> c_bridge x = None;
  co_bridges : d_bridges d = [] }.

(** What holds besides the table: no context turns into a bridge. *)
Definition side (d d' : mosquitto_db) : Prop :=
  (d_next d <= d_next d')%nat /\ d_bridges d' = d_bridges d
  /\ forall c x', d_contexts d' !! c = Some x' ->
       exists x, d_contexts d !! c = Some x /\ (c_bridge x = None -> c_bridge x' = None).

#[global] Instance side_pre : PreOrder side.
Proof.
  split; [intros d; split_and!; eauto|]. intros d1 d2 d3 (H1 & E1 & K1) (H2 & E2 & K2).
  split_and!; [lia | congruence|]. intros c x3 (x2 & H & Hb)%K2. apply K1 in H as (x1 & ? & ?).
  exists x1. eauto.
Qed.

(** The table stays as it is. *)
Definition quiet (d d' : mosquitto_db) : Prop := table_of d' = table_of d /\ side d d'.

Lemma table_of_upd c f d x :
  d_contexts d !! c = Some x ->
  table_of (d <| d_contexts ::= <[c := f x]> |>)
  = t_upd c (fun _ => session_of (f x)) (table_of d).
Proof.
  intros H. rewrite (t_upd_eq _ _ _ (session_of x)) by (cbn; by rewrite lookup_fmap, H).
  unfold table_of. cbn. by rewrite fmap_insert.
Qed.

Lemma side_upd c y d x : d_contexts d !! c = Some x -> (c_bridge x = None -> c_bridge y = None) ->
  side d (d <| d_contexts ::= <[c := y]> |>).
Proof.
  intros H Hb. split_and!; [done | done|]. intros a x'. cbn. destruct (decide (a = c)) as [->|Hne].
  - rewrite lookup_insert_eq. intros [= <-]. eauto.
  - rewrite lookup_insert_ne by done. eauto.
Qed.

Lemma quiet_heap d d' : heap_of d' = heap_of d -> quiet d d'.
Proof.
  unfold heap_of. intros [= E1 E2 E3 E4 E5 E6 E7 E8 E9]. unfold quiet, table_of, side.
  rewrite E1, E3, E4, E5, E6, E7. split_and!; eauto.
Qed.

#[global] Instance quiet_pre : PreOrder quiet.
Proof.
  split; [intros d; by split|]. intros d1 d2 d3 [E1 H1] [E2 H2]. split; [congruence | by etransitivity].
Qed.

Lemma side_same d d' : d_contexts d' = d_contexts d -> (d_next d <= d_next d')%nat ->
  d_bridges d' = d_bridges d -> side d d'.
Proof. intros E ? ?. unfold side. rewrite E. split_and!; eauto. Qed.

#[global] Instance quiet_frame : Frame quiet.
Proof.
  split.
  - exact _.
  - apply quiet_heap.
  - intros d. split; [done | apply side_same; [done | cbn; lia | done]].
  - intros c x y d H E. unfold core in E. injection E as E1 E2 E3 E4 E5. split.
    + rewrite (table_of_upd c (fun _ => y) d x H). rewrite (t_upd_eq _ _ _ (session_of x)) by (cbn; by rewrite lookup_fmap, H).
      replace (session_of y) with (session_of x) by (unfold session_of; congruence).
      rewrite insert_id by (cbn; by rewrite lookup_fmap, H). done.
    + apply (side_upd c y d x H). intros Hb. by case_bool_decide; case_bool_decide.
  - intros s st st' d H. split; [done | by apply side_same].
  - intros s d. unfold mosquitto__db_msg_store_remove, get_store, mbind, st_bind, get, unwrap, modify.
    destruct (d_stores d !! s); cbn; [|done]. split; [done | by apply side_same].
  - intros source mid topic qos payload retain id d.
    unfold mqtt3_db_message_store, mosquitto__db_msg_store_add, malloc, mbind, st_bind, get, modify, gets.
    destruct (id =? 0); cbn; (split; [done | apply side_same; [done | cbn; lia | done]]).
Qed.

(** * What the routines do to the table *)

(** [does f m]: when [m] returns, the table has become [f] of what it was. *)
Definition changes (f : table -> table) (d d' : mosquitto_db) : Prop :=
  table_of d' = f (table_of d) /\ side d d'.

Lemma changes_then f g d d1 d2 : changes f d d1 -> changes g d1 d2 -> changes (fun t => g (f t)) d d2.
Proof. intros [E1 S1] [E2 S2]. split; [congruence | by etransitivity]. Qed.

Lemma changes_quiet f d d1 d2 : changes f d d1 -> quiet d1 d2 -> changes f d d2.
Proof. intros H1 H2. by apply (changes_then f (fun t => t) d d1 d2). Qed.

Lemma quiet_changes f d d1 d2 : quiet d d1 -> changes f d1 d2 -> changes f d d2.
Proof. intros H1 H2. by apply (changes_then (fun t => t) f d d1 d2). Qed.

Lemma changes_upd c f g d x :
  d_contexts d !! c = Some x -> g (session_of x) = session_of (f x) ->
  (c_bridge x = None -> c_bridge (f x) = None) ->
  changes (t_upd c g) d (d <| d_contexts ::= <[c := f x]> |>).
Proof.
  intros H Hg Hb. split; [|by eapply side_upd]. rewrite (table_of_upd _ _ _ _ H).
  rewrite !(t_upd_eq _ _ _ (session_of x)) by (cbn; by rewrite lookup_fmap, H). by rewrite Hg.
Qed.

Lemma table_lookup d c s :
  t_sessions (table_of d) !! c = Some s <-> exists x, d_contexts d !! c = Some x /\ s = session_of x.
Proof.
  cbn. rewrite lookup_fmap. destruct (d_contexts d !! c) as [x|]; cbn.
  - split; [intros [= <-]; eauto | intros (? & [= <-] & ->); done].
  - split; [done | by intros (? & ? & _)].
Qed.

Lemma table_get d c x : d_contexts d !! c = Some x -> t_sessions (table_of d) !! c = Some (session_of x).
Proof. intros H. rewrite table_lookup. eauto. Qed.

(** Looking again at a context after its table entry stayed as it was. *)
Lemma quiet_get d d' c x : quiet d d' -> d_contexts d !! c = Some x ->
  exists x', d_contexts d' !! c = Some x' /\ session_of x' = session_of x
    /\ (c_bridge x = None -> c_bridge x' = None).
Proof.
  intros [E (_ & _ & Hb)] H. assert (t_sessions (table_of d') !! c = Some (session_of x)) as H'.
  { rewrite E. by apply table_get. }
  apply table_lookup in H' as (x' & H' & Es). exists x'. split_and!; [done | done|].
  apply Hb in H' as (y & Hy & ?). by simplify_eq.
Qed.

Lemma socket_close_changes c d :
  wlp (_mosquitto_socket_close c) (fun _ d' => changes (t_close c) d d') d.
Proof.
  unfold _mosquitto_socket_close. wlp_step.
  eapply wlp_within; [apply (within_upd_ctx quiet); done|]. intros _ d1 Hq1.
  apply wlp_bind, wlp_get_ctx. intros x Hx.
  assert (forall d2, changes (t_close c) d1 d2 ->
    wlp (match c_listener x with
         | None => mret 0
         | Some i =>
           d ← get;
           l ← unwrap (d_listeners d !! i);
           let count := l_client_count l - 1 in
           modify (fun d => d <| d_listeners ::= <[i := l <| l_client_count := count |>]> |>);;
           assertM (0 <=? count);;
           upd_ctx c (fun x => x <| c_listener := None |>);;
           mret 0
         end) (fun _ d' => changes (t_close c) d d') d2) as Hend.
  { intros d2 H2. apply (wlp_within quiet); [within_tac|intros _ d3 H3; eapply quiet_changes; [exact Hq1|];
      eapply changes_quiet; [exact H2 | exact H3]]. }
  apply wlp_bind. destruct (0 <=? c_sock x) eqn:E.
  - wlp_step. wlp_step. apply wlp_upd_ctx. intros y Hy. cbn in Hy. rewrite Hx in Hy. injection Hy as <-.
    apply Hend. set (d2 := d1 <| d_contexts_by_sock ::= filter (fun a => a <> c) |>).
    assert (d_contexts d2 !! c = Some x) as Hx2 by done.
    assert (changes (t_upd c (fun s => s <| ss_sock := -1 |>)) d2
      (d2 <| d_contexts ::= <[c := x <| c_sock := INVALID_SOCKET |>]> |>)) as [E2 S2] by by eapply changes_upd.
    split; [|etransitivity; [|exact S2]; by apply side_same].
    rewrite E2. unfold t_close. rewrite (table_get _ _ _ Hx). cbn [ss_sock session_of]. by rewrite E.
  - apply wlp_ret, Hend. split; [|done]. unfold t_close. rewrite (table_get _ _ _ Hx).
    cbn [ss_sock session_of]. by rewrite E.
Qed.

Lemma delete_by_id_run c d :
  wlp (delete_by_id c) (fun _ d' => d' = d <| d_contexts_by_id ::= without c |>) d.
Proof. unfold delete_by_id. wlp_step. wlp_step. wlp_step. wlp_step. by wlp_step. Qed.

(** The identifier is given up: a part of [do_disconnect] and of
    [mqtt3_context_cleanup]. *)
Lemma forget_changes c d x :
  d_contexts d !! c = Some x ->
  wlp (whenM (bool_decide (c_id x <> None)) (delete_by_id c;; upd_ctx c (fun x => x <| c_id := None |>)))
    (fun _ d' => changes (t_forget c) d d') d.
Proof.
  intros Hx. case_bool_decide as Hid; cbn.
  - wlp_step. eapply wlp_mono; [apply delete_by_id_run|]. intros _ d1 ->.
    apply wlp_upd_ctx. intros y Hy. cbn in Hy. rewrite Hx in Hy. injection Hy as <-.
    set (d2 := d <| d_contexts_by_id ::= without c |>).
    assert (d_contexts d2 !! c = Some x) as Hx2 by done.
    assert (changes (t_upd c (fun s => s <| ss_id := None |>)) d2
      (d2 <| d_contexts ::= <[c := x <| c_id := None |>]> |>)) as [E2 S2] by by eapply changes_upd.
    split; [|etransitivity; [|exact S2]; by apply side_same].
    rewrite E2. unfold t_forget. rewrite (table_get _ _ _ Hx). cbn. by destruct (c_id x).
  - split; [|done]. unfold t_forget. rewrite (table_get _ _ _ Hx). cbn.
    by rewrite Hid.
Qed.

Lemma t_close_free c t : t_free (t_close c t) = t_free t.
Proof. unfold t_close. by repeat case_match. Qed.

(** [do_disconnect] is [t_disconnect], once: a session that is disconnected is left
    alone, and one that was put on the list of those to be freed is not put there
    again. *)
Lemma do_disconnect_changes c d x :
  d_contexts d !! c = Some x -> c_bridge x = None ->
  wlp (do_disconnect c) (fun _ d' =>
    if decide (c_state x = mosq_cs_disconnected) then d' = d
    else changes (t_disconnect c) d d' /\ (c_clean_session x = true -> c ∉ d_ll_for_free d)) d.
Proof.
  intros Hx Hbr. unfold do_disconnect. wlp_step. wlp_step. simplify_eq.
  case_decide as Hst; [rewrite bool_decide_eq_true_2 by done; by wlp_step|].
  rewrite bool_decide_eq_false_2 by done.
  unfold mqtt3_context_disconnect. wlp_step. wlp_step.
  apply (wlp_within quiet); [within_tac|]. intros _ d1 Hq1. wlp_step. wlp_step. wlp_step.
  apply (wlp_within quiet); [within_tac|]. intros _ d2 Hq2. wlp_step.
  eapply wlp_mono; [apply socket_close_changes|]. cbv beta. intros _ d3 Hc3. wlp_step.
  apply wlp_bind, wlp_get_ctx. intros x3 Hx3. wlp_step.
  assert (changes (t_close c) d d3) as [E3 S3].
  { eapply quiet_changes; [|exact Hc3]. by etransitivity. }
  assert (c_bridge x3 = None) as Hbr3.
  { destruct S3 as (_ & _ & K3). destruct (K3 _ _ Hx3) as (? & ? & ?). simplify_eq. auto. }
  pose proof (table_get _ _ _ Hx3) as Ht3. pose proof Ht3 as Hcl. rewrite E3 in Hcl.
  assert (c_clean_session x3 = c_clean_session x) as Ecl3.
  { unfold t_close in Hcl. rewrite (table_get _ _ _ Hx) in Hcl.
    destruct (0 <=? ss_sock (session_of x)) in Hcl; cbn in Hcl.
    - rewrite lookup_alter_eq, lookup_fmap, Hx in Hcl. cbn in Hcl. by injection Hcl.
    - rewrite lookup_fmap, Hx in Hcl. cbn in Hcl. by injection Hcl. }
  rewrite (bool_decide_eq_true_2 _ Hbr3), andb_true_r, Ecl3.
  set (free := fun t => if c_clean_session x then t_forget c (t <| t_free ::= cons c |>) else t).
  assert (forall d4, changes free d3 d4 -> (c_clean_session x = true -> c ∉ d_ll_for_free d) ->
    wlp (upd_ctx c (fun x => x <| c_state := mosq_cs_disconnected |>)) (fun _ d' =>
      changes (t_disconnect c) d d' /\ (c_clean_session x = true -> c ∉ d_ll_for_free d)) d4) as Hend.
  { intros d4 [E4 S4] Hfree. apply wlp_upd_ctx. intros x4 Hx4. split; [|done].
    assert (changes (t_upd c (fun s => s <| ss_state := mosq_cs_disconnected |>)) d4
      (d4 <| d_contexts ::= <[c := x4 <| c_state := mosq_cs_disconnected |>]> |>)) as [E5 S5]
      by by eapply changes_upd.
    split; [|etransitivity; [exact S3|]; by etransitivity].
    rewrite E5, E4, E3. unfold t_disconnect, free. rewrite Hcl. cbn [ss_clean session_of].
    by rewrite Ecl3. }
  destruct (c_clean_session x) eqn:Ecl; cbn [whenM].
  - unfold mosquitto__add_context_to_disused. wlp_step. wlp_step. wlp_step. wlp_step.
    case_bool_decide as Hfree; [|done].
    wlp_step. wlp_step. apply wlp_bind, wlp_get_ctx. intros x4 Hx4. cbn in Hx4. simplify_eq.
    eapply wlp_mono; [by apply forget_changes|]. cbv beta. intros _ d4 [E4 S4].
    apply Hend; [|intros _; change (c ∉ t_free (table_of d));
      rewrite <- (t_close_free c), <- E3; exact Hfree].
    split; [by rewrite E4 | etransitivity; [|exact S4]; by apply side_same].
  - wlp_step. by apply Hend.
Qed.

(** * Following the steps *)

(** [d'] comes from [d] by steps of the table. *)
Definition reaches (d d' : mosquitto_db) : Prop :=
  rtc tstep (table_of d) (table_of d') /\ clients_ok d'.

Lemma reaches_refl d : clients_ok d -> reaches d d.
Proof. by split. Qed.

Lemma reaches_trans d1 d2 d3 : reaches d1 d2 -> reaches d2 d3 -> reaches d1 d3.
Proof. intros [H1 _] [H2 ?]. split; [by etransitivity | done]. Qed.

Lemma reaches_side d d' : clients_ok d -> rtc tstep (table_of d) (table_of d') -> side d d' -> reaches d d'.
Proof.
  intros [Ht Hf Hc Hb] Hs (Hn & Hb' & K). split; [done|]. split.
  - by eapply tsteps_ok.
  - intros c x (y & Hy & _)%K. apply Hf in Hy. lia.
  - intros c x (y & Hy & Hxy)%K. eauto.
  - congruence.
Qed.

Lemma reaches_step d d' f : clients_ok d -> changes f d d' -> tstep (table_of d) (f (table_of d)) -> reaches d d'.
Proof. intros Hok [E Hs] Ht. apply reaches_side; [done | rewrite E; by apply rtc_once | done]. Qed.

Lemma quiet_reaches d d' : clients_ok d -> quiet d d' -> reaches d d'.
Proof. intros Hok [E Hs]. apply reaches_side; [done | by rewrite E | done]. Qed.

Lemma reaches_ok d d' : reaches d d' -> clients_ok d'.
Proof. by intros []. Qed.

Definition sim {A} (m : M A) : Prop := forall d, clients_ok d -> wlp m (fun _ d' => reaches d d') d.

Create HintDb sim.

Lemma sim_quiet {A} (m : M A) : within quiet m -> sim m.
Proof. intros H d Hok. apply (wlp_within quiet); [done|]. intros _ d' Hq. by apply quiet_reaches. Qed.

Lemma sim_bind {A B} (m : M A) (f : A -> M B) : sim m -> (forall a, sim (f a)) -> sim (m ≫= f).
Proof.
  intros Hm Hf d Hok. apply wlp_bind. eapply wlp_mono; [by apply Hm|]. cbv beta. intros a d1 H1.
  eapply wlp_mono; [apply Hf, (reaches_ok _ _ H1)|]. cbv beta. intros b d2 H2. by eapply reaches_trans.
Qed.

Lemma sim_whenM b m : sim m -> sim (whenM b m).
Proof. destruct b; [done|]. intros _. apply sim_quiet, (within_ret quiet). Qed.

Lemma sim_for_each {A} (f : A -> M unit) l : (forall a, sim (f a)) -> sim (for_each f l).
Proof. intros H. induction l; cbn; [apply sim_quiet; within_tac | by apply sim_bind]. Qed.

(** A routine that only returns in states where it did nothing to the table is quiet;
    the others are followed step by step. *)
Ltac sim_step :=
  cbv zeta;
  lazymatch goal with
  | |- sim (whenM _ _) => first [solve [apply sim_quiet; within_tac] | apply sim_whenM]
  | |- sim (for_each _ _) => first [solve [apply sim_quiet; within_tac] | apply sim_for_each; intros ?]
  | |- sim (match ?x with _ => _ end) => destruct x
  | |- sim (let '_ := ?x in _) => destruct x
  | |- sim (_ ≫= _) =>
      first [solve [auto with sim] | apply sim_bind; [|intros ?]]
  | |- sim _ => first [solve [auto with sim] | solve [apply sim_quiet; within_tac]]
  end.
Ltac sim_tac := repeat sim_step.

Lemma sim_socket_close c : sim (_mosquitto_socket_close c).
Proof.
  intros d Hok. eapply wlp_mono; [apply socket_close_changes|]. cbv beta. intros _ d' H.
  eapply reaches_step; [done | exact H | constructor].
Qed.

#[export] Hint Resolve sim_socket_close : sim.

Lemma t_upd_id c s t : t_sessions t !! c = Some s -> t_upd c (fun _ => s) t = t.
Proof. intros H. rewrite (t_upd_eq _ _ _ _ H), insert_id by done. by destruct t. Qed.

(** Disconnecting what [d] has at [c], after [f] marked it. *)
Lemma drop_changes c f d x :
  clients_ok d -> d_contexts d !! c = Some x ->
  c_sock (f x) = c_sock x -> c_id (f x) = c_id x -> c_bridge (f x) = c_bridge x ->
  c_state (f x) <> mosq_cs_disconnected ->
  (c_clean_session (f x) = false -> c_clean_session x = false) ->
  wlp (upd_ctx c f;; do_disconnect c) (fun _ d' =>
    changes (fun t => t_disconnect c (t_upd c (fun _ => session_of (f x)) t)) d d'
    /\ live (table_of d) c (session_of x)) d.
Proof.
  intros Hok Hx Es Ei Eb Hst Hcl. wlp_step. apply wlp_upd_ctx. intros y Hy. simplify_eq.
  pose proof (co_client _ Hok _ _ Hx) as Hbr.
  set (d1 := d <| d_contexts ::= <[c := f x]> |>).
  assert (changes (t_upd c (fun _ => session_of (f x))) d d1) as H1.
  { apply (changes_upd c f _ d x); [done | done | congruence]. }
  assert (d_contexts d1 !! c = Some (f x)) as Hx1 by (cbn; by rewrite lookup_insert_eq).
  eapply wlp_mono; [eapply (do_disconnect_changes c d1 (f x)); [done | congruence]|]. cbv beta.
  intros _ d2. rewrite decide_False by done. intros [H2 Hfree].
  split; [by eapply changes_then|]. split; [by apply table_get|].
  destruct (c_clean_session (f x)) eqn:Ecl; [by apply Hfree|].
  rewrite (tk_free _ (co_table _ Hok)). intros (s & Hs & _ & Hc).
  rewrite (table_get _ _ _ Hx) in Hs. injection Hs as <-. cbn in Hc. rewrite Hcl in Hc; done.
Qed.

Lemma drop_reaches c f d x :
  clients_ok d -> d_contexts d !! c = Some x ->
  c_sock (f x) = c_sock x -> c_id (f x) = c_id x -> c_bridge (f x) = c_bridge x ->
  c_state (f x) <> mosq_cs_disconnected ->
  (c_clean_session (f x) = false -> c_clean_session x = false) ->
  wlp (upd_ctx c f;; do_disconnect c) (fun _ d' => reaches d d') d.
Proof.
  intros Hok Hx Es Ei Eb Hst Hcl. eapply wlp_mono; [by eapply drop_changes|]. cbv beta.
  intros _ d' [H Hl]. eapply reaches_step; [done | exact H|]. by eapply ts_drop.
Qed.

Lemma sim_do_disconnect c : sim (do_disconnect c).
Proof.
  intros d Hok.
  assert (forall Q, (forall x, d_contexts d !! c = Some x -> wlp (do_disconnect c) Q d) -> wlp (do_disconnect c) Q d) as Hx.
  { intros Q HQ. destruct (d_contexts d !! c) as [x|] eqn:E; [by eapply HQ|].
    unfold do_disconnect, get_ctx, wlp, mbind, st_bind, get, unwrap. by rewrite E. }
  apply Hx. clear Hx. intros x Hx.
  eapply wlp_mono; [eapply do_disconnect_changes; [done | by eapply co_client]|]. cbv beta.
  intros _ d'. case_decide as Hst; [intros ->; by apply reaches_refl|]. intros [H Hfree].
  eapply reaches_step; [done | exact H|].
  rewrite <- (t_upd_id c (session_of x) (table_of d)) at 2 by by apply table_get.
  eapply ts_drop; [|done|done]. split; [by apply table_get|].
  destruct (c_clean_session x) eqn:Ecl; [by apply Hfree|].
  rewrite (tk_free _ (co_table _ Hok)). intros (s & Hs & _ & Hc).
  rewrite (table_get _ _ _ Hx) in Hs. injection Hs as <-. cbn in Hc. congruence.
Qed.

Lemma sim_context_disconnect c : sim (mqtt3_context_disconnect c).
Proof.
  unfold mqtt3_context_disconnect. sim_tac.
Qed.
#[export] Hint Resolve sim_do_disconnect sim_context_disconnect : sim.

(** * Handlers *)

Lemma within_subscribe_bridge R `{!Frame R} c au ts : within R (subscribe_bridge c au ts).
Proof.
  induction ts; cbn [subscribe_bridge]; unfold _mosquitto_send_subscribe, _mosquitto_send_unsubscribe; within_tac.
Qed.
Lemma within_notification_topic R `{!Frame R} b : within R (notification_topic b).
Proof. unfold notification_topic. within_tac. Qed.
#[export] Hint Resolve within_subscribe_bridge within_notification_topic : within.
Lemma within_accepted_bridge R `{!Frame R} c : within R (accepted_bridge c).
Proof. unfold accepted_bridge, announce_bridge. within_tac. Qed.
#[export] Hint Resolve within_accepted_bridge : within.

(** [c] is connected to a socket. *)
Definition online (c : addr) (d : mosquitto_db) : Prop :=
  exists x, d_contexts d !! c = Some x /\ 0 <= c_sock x.

Lemma online_live c d : clients_ok d -> online c d ->
  exists x, d_contexts d !! c = Some x /\ 0 <= c_sock x /\ live (table_of d) c (session_of x).
Proof.
  intros Hok (x & Hx & Hs). exists x. split_and!; [done | done|]. split; [by apply table_get|].
  rewrite (tk_free _ (co_table _ Hok)). intros (s & H & Hd & _).
  rewrite (table_get _ _ _ Hx) in H. injection H as <-.
  destruct (tk_offline _ (co_table _ Hok) _ _ (table_get _ _ _ Hx) Hd) as [Hm _]. cbn in Hm. lia.
Qed.

Lemma quiet_online c d d' : quiet d d' -> online c d -> online c d'.
Proof.
  intros Hq (x & Hx & Hs). destruct (quiet_get _ _ _ _ Hq Hx) as (x' & Hx' & E & _).
  exists x'. split; [done|]. injection E as E _ _ _. by rewrite E.
Qed.

(** Followed, when run for a client that is online. *)
Definition sim_online (c : addr) {A} (m : M A) : Prop :=
  forall d, clients_ok d -> online c d -> wlp m (fun _ d' => reaches d d') d.

Lemma sim_sim_online c {A} (m : M A) : sim m -> sim_online c m.
Proof. intros H d Hok _. by apply H. Qed.

Lemma sim_online_quiet c {A B} (m : M A) (f : A -> M B) :
  within quiet m -> (forall a, sim_online c (f a)) -> sim_online c (m ≫= f).
Proof.
  intros Hm Hf d Hok Ho. apply wlp_bind, (wlp_within quiet); [done|]. intros a d1 Hq.
  assert (reaches d d1) as H1 by by apply quiet_reaches.
  eapply wlp_mono; [apply Hf; [by eapply reaches_ok | by eapply quiet_online]|]. cbv beta.
  intros b d2 H2. by eapply reaches_trans.
Qed.

Lemma sim_online_bind c {A B} (m : M A) (f : A -> M B) :
  sim_online c m -> (forall a, sim (f a)) -> sim_online c (m ≫= f).
Proof.
  intros Hm Hf d Hok Ho. apply wlp_bind. eapply wlp_mono; [by apply Hm|]. cbv beta. intros a d1 H1.
  eapply wlp_mono; [apply Hf, (reaches_ok _ _ H1)|]. cbv beta. intros b d2 H2. by eapply reaches_trans.
Qed.

(** Marking and disconnecting, in front of the rest of a handler. *)
Lemma sim_drop c f {A} (k : M A) :
  (forall x, c_sock (f x) = c_sock x /\ c_id (f x) = c_id x /\ c_bridge (f x) = c_bridge x
     /\ c_state (f x) <> mosq_cs_disconnected
     /\ (c_clean_session (f x) = false -> c_clean_session x = false)) ->
  sim k -> sim (upd_ctx c f;; do_disconnect c;; k).
Proof.
  intros Hf Hk d Hok.
  assert (wlp ((upd_ctx c f;; do_disconnect c);; k) (fun _ d' => reaches d d') d) as H.
  { apply wlp_bind. destruct (d_contexts d !! c) as [x|] eqn:Hx.
    - destruct (Hf x) as (?&?&?&?&?). eapply wlp_mono; [by eapply drop_reaches|]. cbv beta.
      intros _ d1 Hr1. eapply wlp_mono; [apply Hk, (reaches_ok _ _ Hr1)|]. cbv beta. intros b d2 Hr2.
      by eapply reaches_trans.
    - apply wlp_bind, wlp_upd_ctx. intros x Hx'. congruence. }
  unfold wlp in *. by rewrite (st_eq_at _ _ (bind_assoc _ _ _)) in H.
Qed.

Lemma sim_handle_disconnect c : sim (mqtt3_handle_disconnect c).
Proof.
  unfold mqtt3_handle_disconnect. sim_step; [sim_tac|]. sim_step; [sim_tac|]. sim_step; [sim_tac|].
  apply sim_drop; [by intros x | sim_tac].
Qed.

Lemma sim_handle_connack c : sim_online c (mqtt3_handle_connack c).
Proof.
  unfold mqtt3_handle_connack.
  apply sim_online_quiet; [within_tac|]. intros [?|?]; [|apply sim_sim_online; sim_tac].
  apply sim_online_quiet; [within_tac|]. intros [rc|?]; [|apply sim_sim_online; sim_tac].
  destruct (rc =? CONNACK_ACCEPTED).
  - apply sim_online_quiet; [within_tac|]. intros ok. destruct ok; cbn [negb]; [|apply sim_sim_online; sim_tac].
    apply sim_online_bind; [|intros _; sim_tac].
    intros d Hok Ho. destruct (online_live _ _ Hok Ho) as (x & Hx & Hs & Hl).
    apply wlp_upd_ctx. intros y Hy. simplify_eq.
    eapply (reaches_step d _ (t_upd c (fun s => s <| ss_state := mosq_cs_connected |>))); [done | |].
    + by eapply changes_upd.
    + by eapply ts_ready.
  - destruct (rc =? CONNACK_REFUSED_PROTOCOL_VERSION); apply sim_sim_online, sim_quiet; [|within_tac].
    apply within_bind; [exact _ | | intros _; within_tac]. apply within_upd_ctx; [exact _|].
    intros x. unfold core. cbn. by destruct (c_bridge x).
Qed.

(** ** CONNECT *)

Lemma find_by_id_run l id d : wlp (find_by_id l id) (fun r d' => d' = d /\
  match r with
  | Some a => exists x, a ∈ l /\ d_contexts d !! a = Some x /\ c_id x = Some id
  | None => forall a x, a ∈ l -> d_contexts d !! a = Some x -> c_id x <> Some id
  end) d.
Proof.
  induction l as [|a l IH]; cbn [find_by_id].
  - wlp_step. split; [done|]. by intros a x ?%elem_of_nil.
  - apply wlp_bind, wlp_get_ctx. intros x Hx. case_bool_decide as Hid.
    + wlp_step. split; [done|]. exists x. split_and!; [left | done | done].
    + eapply wlp_mono; [exact IH|]. cbv beta. intros r d' [-> Hr]. split; [done|].
      destruct r as [b|].
      * destruct Hr as (y & ? & ? & ?). exists y. split_and!; [by right | done | done].
      * intros b y [->|Hb]%elem_of_cons Hy; [congruence | by apply (Hr b)].
Qed.

(** The whole table is searched: an identifier that is not found is free. *)
Lemma not_found_free d id : clients_ok d ->
  (forall a x, a ∈ d_contexts_by_id d -> d_contexts d !! a = Some x -> c_id x <> Some id) ->
  id_free (table_of d) id.
Proof.
  intros Hok H a s Hs Hid. apply table_lookup in Hs as (x & Hx & ->). cbn in Hid.
  refine (H a x _ Hx Hid). apply (tk_id _ (co_table _ Hok)).
  exists (session_of x). split; [by apply table_get|]. cbn. congruence.
Qed.

(** A client that sent its CONNECT and is not yet accepted. *)
Definition newcomer (c : addr) (d : mosquitto_db) : Prop :=
  exists x, d_contexts d !! c = Some x /\ 0 <= c_sock x /\ c_state x = mosq_cs_new.

Lemma quiet_newcomer c d d' : quiet d d' -> newcomer c d -> newcomer c d'.
Proof.
  intros Hq (x & Hx & Hs & Hst). destruct (quiet_get _ _ _ _ Hq Hx) as (x' & Hx' & E & _).
  injection E as E1 _ E3 _. exists x'. split_and!; congruence.
Qed.

Lemma newcomer_online c d : newcomer c d -> online c d.
Proof. intros (x & ? & ? & _). by exists x. Qed.

(** An earlier session of that identifier is closed first: the identifier is free. *)
Lemma take_over_run c id clean d :
  clients_ok d -> newcomer c d ->
  wlp (take_over c id clean) (fun _ d' => reaches d d' /\ newcomer c d' /\ id_free (table_of d') id) d.
Proof.
  intros Hok Hn. unfold take_over. wlp_step. wlp_step. wlp_step.
  eapply wlp_mono; [apply find_by_id_run|]. cbv beta. intros r d' [-> Hr]. destruct r as [found|].
  2:{ wlp_step. split_and!; [by apply reaches_refl | done | by apply not_found_free]. }
  destruct Hr as (f & Hin & Hf & Hid). destruct Hn as (x & Hx & Hs & Hst).
  assert (c_id x = None) as Hno.
  { by eapply (tk_new _ (co_table _ Hok) c (session_of x)); [apply table_get| |]. }
  assert (found <> c) as Hne by (intros ->; congruence).
  destruct (online_live c d Hok) as (x' & Hx' & _ & Hlive); [by exists x|]. simplify_eq.
  apply wlp_bind, wlp_get_ctx. intros x' Hx'. simplify_eq.
  wlp_step. apply wlp_upd_ctx. intros x'' Hx''. simplify_eq.
  set (d1 := d <| d_contexts ::= <[c := x <| c_clean_session := clean |>]> |>).
  assert (changes (t_upd c (fun s => s <| ss_clean := clean |>)) d d1) as H1 by by eapply changes_upd.
  assert (reaches d d1) as Hr1 by (eapply reaches_step; [done | exact H1 | by eapply ts_clean]).
  assert (d_contexts d1 !! found = Some f) as Hf1 by (cbn; by rewrite lookup_insert_ne).
  assert (newcomer c d1) as Hn1 by (eexists; split; [cbn; by rewrite lookup_insert_eq | done]).
  clearbody d1. apply wlp_bind, wlp_get_ctx. intros f' Hf'. simplify_eq. wlp_step.
  apply (wlp_within quiet); [within_tac|]. intros _ d2 Hq2.
  assert (reaches d1 d2) as Hr2 by (apply quiet_reaches; [by eapply reaches_ok | done]).
  destruct (quiet_get _ _ _ _ Hq2 Hf1) as (f2 & Hf2 & E2 & _). injection E2 as Es2 Ei2 Est2 Ec2.
  assert (newcomer c d2) as Hn2 by by eapply quiet_newcomer.
  set (mark := fun x => x <| c_clean_session := true |> <| c_state := mosq_cs_disconnecting |>).
  assert (wlp ((upd_ctx found mark;; do_disconnect found);;
               mret (if bool_decide (c_protocol x = mosq_p_mqtt311) && negb clean then 1 else 0))
    (fun _ d' => reaches d d' /\ newcomer c d' /\ id_free (table_of d') id) d2) as Hend.
  { apply wlp_bind. eapply wlp_mono; [apply (drop_changes found mark d2 f2); try done; by eapply reaches_ok|].
    cbv beta. intros _ d3 [H3 Hl3]. apply wlp_ret.
    assert (reaches d2 d3) as Hr3.
    { eapply reaches_step; [by eapply reaches_ok | exact H3 | by eapply ts_drop]. }
    destruct H3 as [E3 S3].
    assert (t_sessions (table_of d3) = <[found := disconnected (session_of (mark f2))]> (t_sessions (table_of d2))) as Et.
    { rewrite E3. pose proof (co_table _ (reaches_ok _ _ Hr2)) as Ht2.
      destruct (known _ Ht2 found (session_of f2) (table_get _ _ _ Hf2)) as [K1 K2].
      rewrite (t_upd_eq _ _ _ (session_of f2)) by by apply table_get.
      rewrite (t_disconnect_eq _ _ (session_of (mark f2)));
        [cbn; by rewrite insert_insert_eq | | cbn; by rewrite lookup_insert_eq | exact K1 | exact K2].
      apply (tk_range _ Ht2 found (session_of f2)). by apply table_get. }
    split_and!.
    - eapply reaches_trans; [exact Hr1|]. by eapply reaches_trans.
    - destruct Hn2 as (x2 & Hx2 & Hs2 & Hst2).
      assert (t_sessions (table_of d3) !! c = Some (session_of x2)) as H.
      { rewrite Et, lookup_insert_ne by done. by apply table_get. }
      apply table_lookup in H as (x3 & Hx3 & E). injection E as Ea Eb Ec Ed.
      exists x3. split_and!; congruence.
    - intros a s Ha Hida. rewrite Et in Ha. destruct (decide (a = found)) as [->|Hna].
      + rewrite lookup_insert_eq in Ha. by injection Ha as <-.
      + rewrite lookup_insert_ne in Ha by done. apply Hna.
        eapply (tk_unique _ (co_table _ (reaches_ok _ _ Hr2)) a found); [done | by apply table_get | done |].
        cbn. congruence. }
  unfold wlp in *. by rewrite (st_eq_at _ _ (bind_assoc _ _ _)) in Hend.
Qed.

(** The steps of [accept_connection] make one step of the table. *)
Lemma accept_connection_run c id fl pv will ack d :
  clients_ok d -> newcomer c d -> id_free (table_of d) id ->
  wlp (accept_connection c id fl pv will ack) (fun _ d' => reaches d d') d.
Proof.
  intros Hok Hn Hid. unfold accept_connection. wlp_step.
  apply (wlp_within quiet); [within_tac|]. intros _ d1 Hq1. wlp_step.
  apply (wlp_within quiet); [within_tac|]. intros _ d2 Hq2. wlp_step.
  apply wlp_upd_ctx. intros x2 Hx2.
  set (y := x2 <| c_id := Some id |> <| c_clean_session := fl_clean_session fl |>
    <| c_ping_t := 0 |> <| c_is_dropping := false |>
    <| c_is_bridge ::= (fun b => if Z.land pv 0x80 =? 0x80 then true else b) |>).
  assert (changes (t_upd c (fun s => s <| ss_id := Some id |> <| ss_clean := fl_clean_session fl |>)) d2
    (d2 <| d_contexts ::= <[c := y]> |>)) as H3 by by eapply (changes_upd c (fun _ => y)).
  set (d3 := d2 <| d_contexts ::= <[c := y]> |>) in *. clearbody d3 y. clear x2 Hx2.
  apply wlp_bind, wlp_get_ctx. intros x3 Hx3. wlp_step.
  apply (wlp_within quiet); [within_tac|]. intros _ d4 Hq4. wlp_step. wlp_step. wlp_step.
  apply (wlp_within quiet); [within_tac|]. intros _ d5 Hq5. wlp_step.
  apply wlp_upd_ctx. intros x5 Hx5.
  assert (changes (t_upd c (fun s => s <| ss_state := mosq_cs_connected |>)) d5
    (d5 <| d_contexts ::= <[c := x5 <| c_state := mosq_cs_connected |>]> |>)) as H6 by by eapply changes_upd.
  apply (wlp_within quiet); [within_tac|]. intros _ d7 Hq7.
  set (added := d4 <| d_contexts_by_id ::= (fun l => l ++ [c]) |>) in *.
  assert (changes (fun t => t <| t_by_id ::= (fun l => l ++ [c]) |>) d4 added) as H5.
  { split; [done | by apply side_same]. }
  pose proof (changes_quiet _ _ _ _ H3 Hq4) as H34.
  pose proof (changes_then _ _ _ _ _ H34 H5) as H35.
  pose proof (changes_quiet _ _ _ _ H35 Hq5) as H36.
  pose proof (changes_then _ _ _ _ _ H36 H6) as H37.
  pose proof (changes_quiet _ _ _ _ H37 Hq7) as [E S].
  assert (quiet d d2) as Hq by by etransitivity.
  destruct (quiet_newcomer _ _ _ Hq Hn) as (x & Hx & Hs & Hst).
  assert (clients_ok d2) as Hok2 by (eapply reaches_ok, quiet_reaches; done).
  eapply reaches_trans; [by apply quiet_reaches|].
  apply (reaches_step d2 d7 (t_connect c id (fl_clean_session fl))); [done | |].
  - split; [|done]. rewrite E. pose proof (table_get _ _ _ Hx) as Ht.
    unfold t_connect. rewrite (t_upd_eq c _ (table_of d2) (session_of x)) by done.
    rewrite (t_upd_eq c _ (upd t_by_id _ (table_of d2)) (session_of x)) by done.
    erewrite t_upd_eq by (cbn; by rewrite lookup_insert_eq). cbn. by rewrite insert_insert_eq.
  - destruct (online_live c d2 Hok2) as (x' & Hx' & _ & Hl); [by exists x|]. simplify_eq.
    eapply ts_connect; [done | done | done|]. by rewrite (proj1 Hq).
Qed.

(** Reading a CONNECT leaves the table alone when it succeeds; a refusal may close
    the socket. *)
Definition reads {A} (m : M (res A)) : Prop :=
  forall d, clients_ok d ->
    wlp m (fun r d' => match r with ROk _ => quiet d d' | RErr _ => reaches d d' end) d.

Lemma reads_quiet {A} (m : M (res A)) : within quiet m -> reads m.
Proof.
  intros H d Hok. apply (wlp_within quiet); [done|]. intros [a|rc] d' Hq; [done|]. by apply quiet_reaches.
Qed.

Lemma reads_bind {A B} (m : M (res A)) (k : A -> M (res B)) :
  reads m -> (forall a, reads (k a)) -> reads (m ≫= fun r => match r with ROk a => k a | RErr rc => mret (RErr rc) end).
Proof.
  intros Hm Hk d Hok. apply wlp_bind. eapply wlp_mono; [by apply Hm|]. cbv beta.
  intros [a|rc] d1; [|by intros]. intros Hq.
  assert (reaches d d1) as H1 by by apply quiet_reaches.
  eapply wlp_mono; [apply Hk; by eapply reaches_ok|]. cbv beta.
  intros [b|rc] d2 H2; [by etransitivity | by eapply reaches_trans].
Qed.

Lemma reads_refused {A B C} (m1 : M A) (m2 : M B) rc :
  sim m1 -> sim m2 -> reads (m1;; m2;; mret (@RErr C rc)).
Proof.
  intros H1 H2 d Hok. apply wlp_bind. eapply wlp_mono; [by apply H1|]. cbv beta. intros _ d1 Hr1.
  apply wlp_bind. eapply wlp_mono; [apply H2; by eapply reaches_ok|]. cbv beta. intros _ d2 Hr2.
  apply wlp_ret. by eapply reaches_trans.
Qed.

Section connect.
Context `{Crypto, Environment}.

Lemma reads_check_credentials c username password : reads (check_credentials c username password).
Proof.
  unfold check_credentials. intros d Hok. wlp_step. wlp_step. cbv zeta.
  destruct username as [u|].
  - destruct (_ =? MOSQ_ERR_SUCCESS).
    + apply (reads_quiet (upd_ctx c _;; mret (ROk tt))); [within_tac | done].
    + by apply (reads_refused (whenM _ _) (mqtt3_context_disconnect c)); [sim_tac | sim_tac |].
  - destruct (cf_allow_anonymous (d_config d)); [by wlp_step|].
    apply (reads_quiet (refuse c CONNACK_REFUSED_NOT_AUTHORIZED 1)); [within_tac | done].
Qed.

Lemma reads_authenticate c username password : reads (authenticate c username password).
Proof.
  intros d Hok. unfold authenticate. wlp_step. apply wlp_get_ctx. intros x Hx. wlp_step.
  apply (wlp_within quiet); [within_tac|]. intros l d1 Hq.
  assert (reaches d d1) as H1 by by apply quiet_reaches.
  assert (reads (match l with
    | Some l => if l_ssl_ctx l && l_use_identity_as_username l then identify_peer c l
                else check_credentials c username password
    | None => check_credentials c username password end)) as Hr.
  { destruct l as [l|]; [|apply reads_check_credentials].
    destruct (_ && _); [apply reads_quiet; within_tac | apply reads_check_credentials]. }
  eapply wlp_mono; [apply Hr; by eapply reaches_ok|]. cbv beta.
  intros [[]|rc] d2 H2; [by etransitivity | by eapply reaches_trans].
Qed.

Lemma read_connect_run c d :
  clients_ok d -> online c d ->
  wlp (read_connect c) (fun r d' => match r with ROk _ => quiet d d' /\ newcomer c d' | RErr _ => reaches d d' end) d.
Proof.
  intros Hok (x & Hx & Hs). unfold read_connect. apply wlp_bind, wlp_get_ctx. intros y Hy. simplify_eq.
  case_bool_decide as Hst; cbn [negb]; [|by apply wlp_ret, reaches_refl].
  eapply (wlp_mono _ (fun r d' => match r with ROk _ => quiet d d' | RErr _ => reaches d d' end)).
  2:{ intros [a|rc] d' Hq; [|done]. split; [done|]. eapply quiet_newcomer; [exact Hq|]. by exists x. }
  match goal with |- wlp ?m _ _ => assert (reads m) as Hr; [|by apply Hr] end.
  apply reads_bind; [apply reads_quiet; within_tac|]. intros pv.
  apply reads_bind; [apply reads_quiet; within_tac|]. intros byte. cbv zeta.
  case_match; [apply reads_quiet; within_tac|].
  apply reads_bind; [apply reads_quiet; within_tac|]. intros cid.
  apply reads_bind; [apply reads_quiet; within_tac|]. intros will.
  apply reads_bind; [apply reads_quiet; within_tac|]. intros cred.
  apply reads_bind; [apply reads_authenticate|]. intros _.
  apply reads_bind; [apply reads_quiet; within_tac|]. intros final. apply reads_quiet. within_tac.
Qed.

Lemma sim_handle_connect c : sim_online c (mqtt3_handle_connect c).
Proof.
  unfold mqtt3_handle_connect. apply sim_online_quiet; [within_tac|]. intros _ d Hok Ho.
  apply wlp_bind. eapply wlp_mono; [by apply read_connect_run|]. cbv beta.
  intros [[[[cid fl] pv] will]|rc] d1; [|by intros]. intros [Hq Hn].
  assert (reaches d d1) as H1 by by apply quiet_reaches.
  apply wlp_bind. eapply wlp_mono; [apply take_over_run; [by eapply reaches_ok | done]|]. cbv beta.
  intros ack d2 (H2 & Hn2 & Hid).
  eapply wlp_mono; [apply accept_connection_run; [by eapply reaches_ok | done | done]|]. cbv beta.
  intros rc d3 H3. eapply reaches_trans; [exact H1|]. by eapply reaches_trans.
Qed.

(** ** Reading and writing *)

Lemma sim_packet_handle c : sim_online c (mqtt3_packet_handle c).
Proof.
  unfold mqtt3_packet_handle, _mosquitto_handle_pingreq.
  apply sim_online_quiet; [within_tac|]. intros x. cbv zeta.
  repeat match goal with |- sim_online _ (if ?b then _ else _) => destruct b end;
    first [ apply sim_handle_connect | apply sim_handle_connack
          | apply sim_sim_online, sim_handle_disconnect
          | apply sim_sim_online, sim_quiet; within_tac ].
Qed.

Lemma sim_packet_read c : sim (packet_read c).
Proof.
  intros d Hok. unfold packet_read, _mosquitto_packet_read. apply wlp_bind, wlp_get_ctx. intros x Hx.
  destruct (Z.eqb_spec (c_sock x) INVALID_SOCKET) as [|Hs]; [by apply wlp_ret, reaches_refl|].
  assert (online c d) as Ho.
  { exists x. split; [done|].
    destruct (tk_range _ (co_table _ Hok) c (session_of x)) as [Hr _]; [by apply table_get|].
    cbn in Hr. unfold INVALID_SOCKET in Hs. lia. }
  case_bool_decide; [by apply wlp_ret, reaches_refl|].
  match goal with |- wlp ?m _ _ => assert (sim_online c m) as Hr; [|by apply Hr] end.
  apply sim_online_quiet; [within_tac|]. intros d'.
  destruct (assemble _ _ _ _) as [[[out p] received] rs].
  do 3 (apply sim_online_quiet; [within_tac|]; intros ?).
  destruct out as [[rc slow]|[]]; [apply sim_sim_online; sim_tac|].
  do 2 (apply sim_online_quiet; [within_tac|]; intros ?).
  apply sim_online_bind; [apply sim_packet_handle|]. intros rc. sim_tac.
Qed.
End connect.

(** * Contexts that come and go *)

(** A new context in the state [d]. *)
Definition with_context (c : addr) (x : mosquitto) (d : mosquitto_db) : mosquitto_db :=
  d <| d_next := S (d_next d) |> <| d_contexts ::= <[c := x]> |>.

Lemma context_init_run sock peer d :
  wlp (mqtt3_context_init sock peer) (fun r d' =>
    match r with
    | None => d' = d
    | Some c => c = d_next d /\ exists x, session_of x = Session sock None mosq_cs_new true /\ c_bridge x = None
        /\ d' = if 0 <=? sock then with_context c x d <| d_contexts_by_sock ::= (fun l => l ++ [c]) |>
                else with_context c x d
    end) d.
Proof.
  unfold mqtt3_context_init, malloc. case_match; [by apply wlp_ret|]. cbv zeta.
  repeat wlp_step. destruct (0 <=? sock); cbn [whenM]; repeat wlp_step;
    (split; [done|]; eexists; split_and!; [| |reflexivity]; done).
Qed.

Lemma table_with_context c x d : table_of (with_context c x d)
  = (table_of d) <| t_sessions ::= <[c := session_of x]> |>.
Proof. unfold table_of, with_context, upd. cbn. by rewrite fmap_insert. Qed.

Lemma fresh_unknown d : clients_ok d -> t_sessions (table_of d) !! d_next d = None.
Proof.
  intros Hok. cbn. rewrite lookup_fmap. destruct (d_contexts d !! d_next d) as [x|] eqn:E; [|done].
  apply (co_fresh _ Hok) in E. lia.
Qed.

(** A state that has one more context, a step of the table away. *)
Lemma with_context_reaches c x d d' :
  clients_ok d -> c = d_next d -> c_bridge x = None -> tstep (table_of d) (table_of d') ->
  d_contexts d' = <[c := x]> (d_contexts d) -> d_next d' = S (d_next d) -> d_bridges d' = d_bridges d ->
  reaches d d'.
Proof.
  intros Hok -> Hb Ht Ec En Eb. split; [by apply rtc_once|]. split.
  - by eapply tstep_ok, co_table.
  - intros a y. rewrite Ec, En. destruct (decide (a = d_next d)) as [->|]; [lia|].
    rewrite lookup_insert_ne by done. intros H%(co_fresh _ Hok). lia.
  - intros a y. rewrite Ec. destruct (decide (a = d_next d)) as [->|].
    + rewrite lookup_insert_eq. by intros [= <-].
    + rewrite lookup_insert_ne by done. apply (co_client _ Hok).
  - rewrite Eb. apply Hok.
Qed.

Lemma context_open_reaches sock peer d :
  clients_ok d -> 0 <= sock ->
  wlp (mqtt3_context_init sock peer) (fun r d' => reaches d d' /\
    match r with None => True
    | Some c => exists x, d_contexts d' !! c = Some x /\ session_of x = Session sock None mosq_cs_new true end) d.
Proof.
  intros Hok Hs. eapply wlp_mono; [apply context_init_run|]. cbv beta. intros [c|] d'.
  2:{ intros ->. split; [by apply reaches_refl | done]. }
  intros (Hc & x & Ex & Hb & ->). rewrite (proj2 (Z.leb_le 0 sock) Hs). split.
  - apply (with_context_reaches c x d); try done.
    assert (table_of (with_context c x d <| d_contexts_by_sock ::= (fun l => l ++ [c]) |>)
      = t_open c sock (table_of d)) as ->.
    { unfold t_open. rewrite <- Ex. unfold table_of, with_context, upd. cbn. by rewrite fmap_insert. }
    constructor; [|done]. rewrite Hc. by apply fresh_unknown.
  - exists x. split; [|done]. cbn. by rewrite lookup_insert_eq.
Qed.

(** ** Freeing *)

Lemma cleanup_bridge_run c d x : d_contexts d !! c = Some x -> c_bridge x = None ->
  wlp (cleanup_bridge c) (fun _ d' => d' = d) d.
Proof.
  intros Hx Hb. unfold cleanup_bridge. apply wlp_bind, wlp_get_ctx. intros y Hy. simplify_eq.
  rewrite Hb. by wlp_step.
Qed.

(** [mqtt3_context_cleanup(db, context, true)] *)
Lemma cleanup_changes c d x :
  d_contexts d !! c = Some x -> c_bridge x = None ->
  wlp (mqtt3_context_cleanup c true) (fun _ d' =>
    changes (fun t => (t_forget c (t_close c t)) <| t_sessions ::= delete c |>) d d') d.
Proof.
  intros Hx Hb. unfold mqtt3_context_cleanup. wlp_step.
  apply (wlp_within quiet); [within_tac|]. intros _ d1 Hq1. wlp_step.
  destruct (quiet_get _ _ _ _ Hq1 Hx) as (x1 & Hx1 & _ & Hb1).
  eapply wlp_mono; [eapply cleanup_bridge_run; [done | by apply Hb1]|]. cbv beta. intros _ d2 ->. wlp_step.
  eapply wlp_mono; [apply socket_close_changes|]. cbv beta. intros _ d2 H2. wlp_step.
  apply wlp_get_ctx. intros x2 Hx2. cbv zeta. cbn [orb]. wlp_step.
  apply (wlp_within quiet); [within_tac|]. intros _ d3 Hq3. wlp_step.
  apply (wlp_within quiet); [within_tac|]. intros _ d4 Hq4. wlp_step.
  apply wlp_get_ctx. intros x4 Hx4. wlp_step.
  eapply wlp_mono; [by apply forget_changes|]. cbv beta. intros _ d5 H5. wlp_step.
  apply (wlp_within quiet); [within_tac|]. intros _ d6 Hq6. wlp_step.
  apply (wlp_within quiet); [within_tac|]. intros _ d7 Hq7. cbn [whenM]. wlp_step.
  pose proof (quiet_changes _ _ _ _ Hq1 H2) as H3.
  pose proof (changes_quiet _ _ _ _ (changes_quiet _ _ _ _ H3 Hq3) Hq4) as H4.
  pose proof (changes_then _ _ _ _ _ H4 H5) as H6.
  pose proof (changes_quiet _ _ _ _ (changes_quiet _ _ _ _ H6 Hq6) Hq7) as H7.
  refine (changes_then _ (fun t => t <| t_sessions ::= delete c |>) _ _ _ H7 _). split.
  - unfold table_of, upd. cbn. by rewrite fmap_delete.
  - split_and!; [done | done|]. intros a y. cbn. intros [? ?]%lookup_delete_Some. eauto.
Qed.

(** Every context on the list of those to be freed is deleted. *)
Lemma reap_loop_changes l d :
  NoDup l -> (forall c, c ∈ l -> exists x, d_contexts d !! c = Some x
    /\ c_sock x = -1 /\ c_id x = None /\ c_bridge x = None) ->
  wlp (for_each (fun c => mqtt3_context_cleanup c true) l) (fun _ d' =>
    changes (fun t => t <| t_sessions ::= (fun m => foldr delete m l) |>) d d') d.
Proof.
  intros Hnd. revert d. induction Hnd as [|c l Hc Hnd IH]; intros d Hl; cbn [for_each].
  - wlp_step. split; [by destruct (table_of d) | done].
  - destruct (Hl c) as (x & Hx & Hs & Hid & Hb); [left|].
    wlp_step. eapply wlp_mono; [by eapply cleanup_changes|]. cbv beta. intros _ d1 [E1 S1].
    assert (table_of d1 = (table_of d) <| t_sessions ::= delete c |>) as E1'.
    { rewrite E1. unfold t_close. rewrite (table_get _ _ _ Hx). cbn [ss_sock session_of]. rewrite Hs. cbn [Z.leb Z.compare].
      unfold t_forget. rewrite (table_get _ _ _ Hx). cbn. by rewrite Hid. }
    eapply wlp_mono; [apply IH|].
    + intros a Ha. destruct (Hl a) as (y & Hy & Hsy & Hiy & Hby); [by right|].
      assert (t_sessions (table_of d1) !! a = Some (session_of y)) as H.
      { rewrite E1'. cbn. rewrite lookup_delete_ne by (intros ->; done). by rewrite lookup_fmap, Hy. }
      apply table_lookup in H as (y1 & Hy1 & E). injection E as Ea Eb _ _.
      exists y1. split_and!; [done | congruence | congruence|].
      destruct S1 as (_ & _ & K). destruct (K _ _ Hy1) as (z & Hz & Hbz). simplify_eq. auto.
    + cbv beta. intros _ d2 [E2 S2]. split; [|by etransitivity]. rewrite E2, E1'. unfold upd. cbn. f_equal.
      apply map_eq. intros a. rewrite foldr_delete_lookup. destruct (decide (a = c)) as [->|Hne].
      * by rewrite !lookup_delete_eq, decide_False.
      * rewrite !lookup_delete_ne, foldr_delete_lookup by done. done.
Qed.

Lemma sim_free_disused : sim mosquitto__free_disused_contexts.
Proof.
  intros d Hok. unfold mosquitto__free_disused_contexts. wlp_step. wlp_step. wlp_step.
  eapply wlp_mono; [apply reap_loop_changes|].
  - apply (tk_free_nodup _ (co_table _ Hok)).
  - intros c Hc. change (c ∈ t_free (table_of d)) in Hc.
    apply (tk_free _ (co_table _ Hok)) in Hc as (s & Hs & Hd & Hcl).
    destruct (tk_offline _ (co_table _ Hok) _ _ Hs Hd) as [Hso Hid].
    apply table_lookup in Hs as (x & Hx & ->). exists x. cbn in *.
    split_and!; [done | done | by apply Hid | by eapply co_client].
  - cbv beta. intros _ d1 [E1 S1]. wlp_step.
    apply (reaches_step d _ t_reap); [done | | constructor]. split.
    + unfold t_reap. cbn [t_free table_of]. unfold table_of in *. unfold upd in *. cbn in *.
      injection E1 as E1 E2 E3 E4. by rewrite E1, E2, E3.
    + etransitivity; [exact S1|]. by apply side_same.
Qed.
#[export] Hint Resolve sim_free_disused : sim.

Lemma delete_reaches c d x :
  clients_ok d -> d_contexts d !! c = Some x -> live (table_of d) c (session_of x) -> c_id x = None ->
  wlp (mqtt3_context_cleanup c true) (fun _ d' => reaches d d') d.
Proof.
  intros Hok Hx Hl Hid. eapply wlp_mono; [eapply cleanup_changes; [done | by eapply co_client]|].
  cbv beta. intros _ d' [E S]. apply (reaches_step d d' (t_delete c)); [done | | by eapply ts_delete].
  split; [|done]. rewrite E. rewrite (t_close_eq _ _ _ (co_table _ Hok) (table_get _ _ _ Hx)).
  unfold t_forget. cbn. rewrite lookup_insert_eq. cbn. rewrite Hid. unfold t_delete, upd. cbn.
  f_equal. by rewrite delete_insert_eq.
Qed.

(** * The loop *)

Lemma within_assign_listener R `{!Frame R} c s i ls : within R (assign_listener c s i ls).
Proof. revert i. induction ls; intros i; cbn [assign_listener]; within_tac. Qed.
#[export] Hint Resolve within_assign_listener : within.

(** [accept(2)] returns descriptors that are not negative. *)
Lemma sim_socket_accept listensock sock peer tls_ok :
  0 <= sock -> sim (mqtt3_socket_accept listensock (Some (sock, peer)) tls_ok).
Proof.
  intros Hs d Hok. unfold mqtt3_socket_accept. wlp_step.
  eapply wlp_mono; [by apply context_open_reaches|]. cbv beta. intros [c|] d1 [H1 Hc]; [|by wlp_step].
  destruct Hc as (x & Hx & Ex).
  assert (forall d2, reaches d d2 -> (exists x, d_contexts d2 !! c = Some x /\ session_of x = Session sock None mosq_cs_new true) ->
    wlp (mqtt3_context_cleanup c true;; mret (-1)) (fun _ d' => reaches d d') d2) as Hclean.
  { intros d2 H2 (x2 & Hx2 & E2). injection E2 as Ea Eb Ec Ed. wlp_step.
    destruct (online_live c d2) as (y & Hy & _ & Hl); [by eapply reaches_ok | exists x2; split; [done | lia] |].
    simplify_eq. eapply wlp_mono; [eapply delete_reaches; [by eapply reaches_ok | done..]|]. cbv beta.
    intros _ d3 H3. wlp_step. by eapply reaches_trans. }
  wlp_step. wlp_step. wlp_step.
  apply (wlp_within quiet); [within_tac|]. intros _ d2 Hq2. apply wlp_bind, wlp_get_ctx. intros x2 Hx2.
  wlp_step. apply (wlp_within quiet); [within_tac|]. intros l d3 Hq3.
  assert (quiet d1 d3) as Hq by by etransitivity.
  assert (reaches d d3) as H3 by (eapply reaches_trans; [exact H1 | apply quiet_reaches; [by eapply reaches_ok | done]]).
  destruct (quiet_get _ _ _ _ Hq Hx) as (x3 & Hx3 & E3 & _). rewrite Ex in E3.
  destruct l as [l|]; [|apply Hclean; eauto].
  destruct (_ && _); [apply Hclean; eauto|].
  destruct (l_ssl_ctx l); [|by wlp_step]. wlp_step.
  apply (wlp_within quiet); [within_tac|]. intros _ d4 Hq4.
  assert (reaches d d4) as H4 by (eapply reaches_trans; [exact H3 | apply quiet_reaches; [by eapply reaches_ok | done]]).
  destruct tls_ok; [by wlp_step|]. apply Hclean; [done|].
  destruct (quiet_get _ _ _ _ Hq4 Hx3) as (x4 & Hx4 & E4 & _). exists x4. split; congruence.
Qed.

(** The sockets of an answer to [accept(2)]. *)
Definition sockets_ok (ready : list (Z * list (Z * option str * bool))) : Prop :=
  Forall (fun r => Forall (fun a => 0 <= a.1.1) r.2) ready.

Lemma sim_accept_all ready : sockets_ok ready -> sim (accept_all ready).
Proof.
  unfold accept_all. induction 1 as [|[ls acc] ready Hacc _ IH]; cbn [for_each]; [sim_tac|].
  apply sim_bind; [|done]. cbn in Hacc. induction Hacc as [|[[s p] t] acc Hs _ IHacc]; cbn [accept_loop]; [sim_tac|].
  apply sim_bind; [by apply sim_socket_accept|]. intros rc. destruct (rc =? -1); [sim_tac | done].
Qed.

Lemma sim_expire c : sim (expire_context c).
Proof.
  unfold expire_context. intros d Hok. apply wlp_bind, wlp_get_ctx. intros x Hx.
  wlp_step. wlp_step. wlp_step. wlp_step. case_match; [|by apply wlp_ret, reaches_refl].
  eapply drop_reaches; eauto; done.
Qed.

Section loop.
Context `{Crypto, Environment, Network}.

Lemma sim_apply_security c : sim (apply_security c).
Proof.
  unfold apply_security. intros d Hok. apply wlp_bind, wlp_get_ctx. intros x Hx. wlp_step. wlp_step.
  case_match; [eapply drop_reaches; eauto; done|].
  match goal with |- wlp ?m _ _ => assert (sim m) as Hr; [sim_tac | by apply Hr] end.
Qed.

Lemma sim_serve_context c : sim (serve_context c).
Proof.
  unfold serve_context. intros d Hok. apply wlp_bind, wlp_get_ctx. intros x Hx.
  case_match; [by apply wlp_ret, reaches_refl|]. rewrite (co_client _ Hok _ _ Hx).
  rewrite bool_decide_eq_false_2 by (intros Hne; by apply Hne). unfold poll_entry.
  match goal with |- wlp ?m _ _ => assert (sim m) as Hr; [|by apply Hr] end.
  cbn [whenM]. sim_tac.
Qed.

Lemma sim_serve_contexts l : sim (serve_contexts l).
Proof.
  induction l as [|c l IH]; cbn [serve_contexts]; [sim_tac|].
  apply sim_bind; [apply sim_serve_context|]. intros p. apply sim_bind; [done|]. intros ps. sim_tac.
Qed.

Lemma sim_handle_error pollfds re c : sim (handle_error pollfds re c).
Proof. unfold handle_error. sim_tac. Qed.

Lemma sim_handle_write pollfds pa c : sim (handle_write pollfds pa c).
Proof.
  unfold handle_write. destruct (find_pollfd pollfds c); [|sim_tac]. intros d Hok.
  apply wlp_bind, wlp_get_ctx. intros x Hx.
  destruct (tk_range _ (co_table _ Hok) c (session_of x)) as [_ Hst]; [by apply table_get|].
  wlp_step. wlp_step. destruct (_ || _); [|by apply wlp_ret, reaches_refl].
  unfold finish_connect. apply wlp_bind, wlp_bind, wlp_get_ctx. intros y Hy. simplify_eq.
  rewrite bool_decide_eq_false_2.
  2:{ cbn in Hst. intros E. rewrite E in Hst.
      repeat (apply elem_of_cons in Hst as [Hst|Hst]; [discriminate Hst|]). by apply elem_of_nil in Hst. }
  wlp_step. match goal with |- wlp ?m _ _ => assert (sim m) as Hr; [sim_tac | by apply Hr] end.
Qed.

Lemma sim_handle_read pollfds pa c : sim (handle_read pollfds pa c).
Proof.
  unfold handle_read. destruct (find_pollfd pollfds c); [|sim_tac]. apply sim_bind; [sim_tac|]. intros x.
  destruct (_ || _); [|sim_tac]. apply sim_bind; [apply sim_packet_read|]. intros rc. sim_tac.
Qed.

Lemma sim_reads_writes pollfds pa : sim (loop_handle_reads_writes pollfds pa).
Proof.
  unfold loop_handle_reads_writes. apply sim_bind; [sim_tac|]. intros d.
  apply sim_bind; [apply sim_for_each, sim_handle_write|]. intros _.
  apply sim_bind; [sim_tac|]. intros d'. apply sim_for_each, sim_handle_read.
Qed.

Lemma sim_handle_errors pollfds re : sim (loop_handle_errors pollfds re).
Proof.
  unfold loop_handle_errors. apply sim_bind; [sim_tac|]. intros d. apply sim_for_each, sim_handle_error.
Qed.

Lemma sim_iteration poll ready t : sockets_ok ready -> sim (main_loop_iteration poll ready t).
Proof.
  intros Hready. unfold main_loop_iteration.
  apply sim_bind; [sim_tac|]. intros _. apply sim_bind; [sim_tac|]. intros d.
  apply sim_bind; [apply sim_serve_contexts|]. intros clients.
  intros d1 Hok1. wlp_step. wlp_step. rewrite (co_bridges _ Hok1). wlp_step. cbn [restart_bridges]. wlp_step.
  match goal with |- wlp ?m _ _ => assert (sim m) as Hr; [|by apply Hr] end. clear d1 Hok1.
  apply sim_bind.
  { unfold expire_persistent_clients. apply sim_bind; [sim_tac|]. intros now.
    apply sim_bind; [sim_tac|]. intros d1. case_match; [|sim_tac].
    apply sim_bind; [apply sim_for_each, sim_expire|]. intros _. sim_tac. }
  intros next. apply sim_bind; [sim_tac|]. intros retry. apply sim_bind; [sim_tac|]. intros rc. cbv zeta.
  apply sim_bind; [|intros _; sim_tac].
  case_match; [apply sim_handle_errors|]. apply sim_bind; [apply sim_reads_writes|]. intros _.
  by apply sim_accept_all.
Qed.

Lemma within_clear_acl_lists R `{!Frame R} l : within R (clear_acl_lists l).
Proof. induction l; cbn [clear_acl_lists]; within_tac. Qed.

Lemma within_aclfile_loop R `{!Frame R} l user : within R (aclfile_loop l user).
Proof. revert user. induction l; intros user; cbn [aclfile_loop]; unfold _add_acl, _add_acl_pattern; within_tac. Qed.

Lemma sim_security_cleanup : sim mosquitto_security_cleanup_default.
Proof.
  pose proof (within_clear_acl_lists quiet).
  apply sim_quiet. unfold mosquitto_security_cleanup_default, _acl_cleanup, _unpwd_cleanup, _psk_cleanup. within_tac.
Qed.

Lemma sim_security_init pw acl psk : sim (mosquitto_security_init_default pw acl psk).
Proof.
  pose proof (within_aclfile_loop quiet).
  apply sim_quiet. unfold mosquitto_security_init_default, _unpwd_file_parse, _aclfile_parse, _psk_file_parse. within_tac.
Qed.

Lemma sim_security_apply : sim mosquitto_security_apply_default.
Proof.
  unfold mosquitto_security_apply_default. apply sim_bind; [sim_tac|]. intros d.
  apply sim_bind; [apply sim_for_each, sim_apply_security | intros _; sim_tac].
Qed.
End loop.

(** * Starting from a saved database *)

Lemma sim_find_or_add client_id last_mid : sim (_db_find_or_add_context client_id last_mid).
Proof.
  intros d Hok. unfold _db_find_or_add_context. wlp_step. wlp_step. wlp_step.
  eapply wlp_mono; [apply find_by_id_run|]. cbv beta. intros r d' [-> Hr]. destruct r as [c|].
  { match goal with |- wlp ?m _ _ => assert (sim m) as Hs; [sim_tac | by apply Hs] end. }
  wlp_step. wlp_step. eapply wlp_mono; [apply context_init_run|]. cbv beta. intros r d1 Hd1.
  wlp_step. wlp_step. subst. destruct Hd1 as (-> & x & Ex & Hb & ->). cbn [Z.leb Z.compare].
  set (c := d_next d). wlp_step. apply wlp_upd_ctx. intros y Hy.
  cbn in Hy. rewrite lookup_insert_eq in Hy. injection Hy as <-.
  wlp_step. wlp_step. wlp_step.
  set (x' := x <| c_id := Some client_id |> <| c_clean_session := false |>).
  match goal with |- wlp _ _ ?s => set (d2 := s) end.
  assert (d_contexts d2 = <[c := x']> (d_contexts d)) as Ec by (cbn; by rewrite insert_insert_eq).
  assert (reaches d d2) as H2.
  { apply (with_context_reaches c x' d); try done.
    assert (table_of d2 = t_restore c client_id (table_of d)) as ->.
    { unfold table_of at 1. rewrite Ec, fmap_insert. injection Ex as E1 E2 E3 E4.
      unfold t_restore, session_of. cbn. by rewrite E1, E3. }
    constructor; [by apply fresh_unknown | by apply not_found_free]. }
  match goal with |- wlp ?m _ _ => assert (sim m) as Hs; [sim_tac |] end.
  eapply wlp_mono; [apply Hs; by eapply reaches_ok|]. cbv beta. intros c' d3 H3. by eapply reaches_trans.
Qed.
#[export] Hint Resolve sim_find_or_add : sim.

Lemma core_link_restored m x y : link_restored m x = Some y -> core y = core x.
Proof.
  unfold link_restored. destruct (match c_msgs x with [] => _ | _ => _ end) as [l|]; [|done].
  by intros [= <-].
Qed.
#[export] Hint Resolve core_link_restored : core.

Lemma sim_restore_chunk loads k : sim (restore_chunk loads k).
Proof.
  destruct k; cbn [restore_chunk]; try solve [apply sim_quiet; unfold _db_msg_store_restore, _db_retain_restore; within_tac].
  - apply sim_bind; [|intros rc; sim_tac]. unfold _db_client_msg_restore.
    destruct (find_load loads (mr_store_id r)) as [p|]; [|sim_tac].
    do 5 (apply sim_bind; [sim_tac|]; intros ?). apply sim_bind; [sim_tac|]. intros c.
    apply sim_quiet. within_tac.
  - apply sim_bind; [|intros rc; sim_tac]. unfold _db_restore_sub. sim_tac.
  - apply sim_bind; [|intros rc; sim_tac]. unfold _db_client_restore. sim_tac.
Qed.

Lemma sim_restore_loop fuel v file loads : sim (restore_loop fuel v file loads).
Proof.
  revert file loads. induction fuel as [|fuel IH]; intros file loads; cbn [restore_loop].
  { destruct (r_be16 file) as [[? ?]|]; sim_tac. }
  destruct (r_be16 file) as [[chunk file1]|]; [|sim_tac].
  apply sim_bind; [sim_tac|]. intros now. destruct ((_ : R db_chunk) file1) as [[k file2]|]; [|sim_tac].
  apply sim_bind; [apply sim_restore_chunk|]. intros [rc loads']. destruct (negb (rc =? 0)); [sim_tac | apply IH].
Qed.

Lemma sim_db_restore file : sim (mqtt3_db_restore file).
Proof.
  unfold mqtt3_db_restore. destruct file as [file|]; [|sim_tac].
  destruct (read_e 15 file) as [[header file1]|]; [|sim_tac].
  destruct (negb _); [sim_tac|]. destruct ((_ : R Z) file1) as [[v file2]|]; [|sim_tac].
  destruct (MOSQ_DB_VERSION <? v); [sim_tac | apply sim_restore_loop].
Qed.

Lemma open_init_ok d : d_contexts d = ∅ -> d_ll_for_free d = [] ->
  wlp mqtt3_db_open_init (fun _ d' => clients_ok d') d.
Proof.
  intros Hc Hf. unfold mqtt3_db_open_init, malloc. repeat wlp_step. split; cbn; rewrite ?Hc; try done.
  unfold table_of. cbn. rewrite Hc, Hf, fmap_empty. apply table_init_ok.
Qed.
