(* ===== verification/Running.v ===== *)
(** The broker as a program: the states it reaches from its command line, through its
    loop and its reloads, have well-formed tables of sessions. *)

From S2P Require Export ConfReload Invariant.
#[local] Open Scope Z_scope.

(** * Reachable states *)

Section running.
Context `{Crypto, Environment, Network, Files, System}.

(** The broker starts with what the command line, the files and the saved database say,
    without bridges; then it runs iterations of its loop and reloads, while time passes
    and the sockets change. *)
Inductive reachable : mosquitto_db -> Prop :=
| reach_start argv b0 time reads writes socks b :
    bo_db b0 = db_calloc <| d_time := time |> <| d_reads := reads |> <| d_writes := writes |> ->
    main_start argv b0 = Some (ROk socks, b) -> g_bridges (bo_config b) = [] -> reachable (bo_db b)
| reach_world d time reads writes :
    reachable d -> reachable (d <| d_time := time |> <| d_reads := reads |> <| d_writes := writes |>)
| reach_iteration d poll ready t t' d' :
    reachable d -> sockets_ok ready -> main_loop_iteration poll ready t d = Some (t', d') -> reachable d'
| reach_reload b b' :
    reachable (bo_db b) -> main_loop_reload b = Some (tt, b') -> reachable (bo_db b').

(** * Starting *)

Lemma sim_module_init g : sim (mosquitto_security_module_init g).
Proof. apply sim_quiet. unfold mosquitto_security_module_init. within_tac. Qed.

Lemma sim_init g reload : sim (mosquitto_security_init g reload).
Proof.
  unfold mosquitto_security_init. apply sim_bind; [sim_tac|]. intros d.
  case_match; [sim_tac | apply sim_security_init].
Qed.

Lemma sim_cleanup g reload : sim (mosquitto_security_cleanup g reload).
Proof.
  unfold mosquitto_security_cleanup. apply sim_bind; [sim_tac|]. intros d.
  case_match; [sim_tac | apply sim_security_cleanup].
Qed.

Lemma sim_apply : sim mosquitto_security_apply.
Proof.
  unfold mosquitto_security_apply. apply sim_bind; [sim_tac|]. intros d.
  case_match; [sim_tac | apply sim_security_apply].
Qed.

Lemma sim_sys_messages g : sim (sys_messages g).
Proof. unfold sys_messages. sim_tac. Qed.

Lemma sim_db_open_restore g d : d_contexts d = ∅ -> d_ll_for_free d = [] ->
  wlp (mqtt3_db_open g) (fun _ d' => clients_ok d') d.
Proof.
  intros Hc Hf. unfold mqtt3_db_open. apply wlp_bind. eapply wlp_mono; [by apply open_init_ok|]. cbv beta. intros _ d1 Hd1.
  assert (forall m : M Z, sim m -> wlp m (fun _ d' => clients_ok d') d1) as Hs.
  { intros m Hm. eapply wlp_mono; [by apply Hm|]. cbv beta. intros ? d2 Hr. by eapply reaches_ok. }
  apply Hs. case_match; [|sim_tac]. apply sim_bind; [apply sim_db_restore|]. intros rc. sim_tac.
Qed.

Lemma wlp_log_init b : wlp mqtt3_log_init (fun _ b' => bo_db b' = bo_db b) b.
Proof.
  unfold mqtt3_log_init. autorewrite with wlp. cbv beta. case_match; [by autorewrite with wlp|].
  autorewrite with wlp. apply wlp_any. intros rc p. cbv beta. case_match; [by autorewrite with wlp|].
  autorewrite with wlp. intros file _. case_match; [by autorewrite with wlp|]. autorewrite with wlp.
  apply wlp_any. intros _ p'. cbv beta. by autorewrite with wlp.
Qed.

Lemma wlp_log_close b : wlp mqtt3_log_close (fun _ b' => bo_db b' = bo_db b) b.
Proof. unfold mqtt3_log_close. autorewrite with wlp. cbv beta. case_match; by autorewrite with wlp. Qed.

Lemma wlp_configure argv b :
  wlp (main_configure argv) (fun r b' => forall g, r = ROk g -> bo_db b' = shared g (bo_db b)) b.
Proof.
  unfold main_configure. autorewrite with wlp. apply wlp_any. intros rc g. cbv beta. case_match; [by autorewrite with wlp|].
  unfold share. autorewrite with wlp. repeat case_match; autorewrite with wlp; try done; by intros ? [= <-].
Qed.

Lemma wlp_listen_all i todo socks b :
  wlp (listen_all i todo socks) (fun r b' => forall s, r = ROk s -> bo_db b' = bo_db b) b.
Proof.
  revert i socks b. induction todo as [|l todo IH]; intros i socks b; cbn [listen_all]; [by autorewrite with wlp|].
  case_match; [apply IH|]. destruct (mqtt3_socket_listen l) as [rc l']. autorewrite with wlp. case_match.
  - autorewrite with wlp. apply wlp_any. intros ? ?. cbv beta. by autorewrite with wlp.
  - eapply wlp_mono; [apply IH|]. intros r b' H'. exact H'.
Qed.

Lemma sim_on_db {A} (m : M A) b : sim m -> clients_ok (bo_db b) -> wlp (on_db m) (fun _ b' => clients_ok (bo_db b')) b.
Proof.
  intros Hm Hb. rewrite wlp_on_db. eapply wlp_mono; [by apply Hm|]. intros a d Hr. exact (reaches_ok _ _ Hr).
Qed.

Lemma clients_ok_shared d g : clients_ok d -> clients_ok (shared g d).
Proof. intros Hd. by eapply reaches_ok, quiet_reaches; [exact Hd | apply quiet_heap]. Qed.

Lemma start_clients_ok argv b0 : d_contexts (bo_db b0) = ∅ -> d_ll_for_free (bo_db b0) = [] ->
  wlp (main_start argv) (fun r b => forall s, r = ROk s -> g_bridges (bo_config b) = [] -> clients_ok (bo_db b)) b0.
Proof.
  intros Hc Hf. unfold main_start. rewrite wlp_bind. eapply wlp_mono; [apply wlp_configure|].
  intros [g|rc] b1 K1; cbv beta iota; [|by autorewrite with wlp]. specialize (K1 g eq_refl).
  rewrite wlp_bind, wlp_on_db. eapply wlp_mono; [apply sim_db_open_restore; by rewrite K1|].
  intros rc d Hd. cbv beta. case_match; [by autorewrite with wlp|]. set (b2 := b1 <| bo_db := d |>).
  rewrite wlp_bind. eapply wlp_mono; [apply wlp_log_init|]. intros ? b3 K3. cbv beta.
  rewrite wlp_bind. eapply wlp_mono; [apply sim_on_db; [apply sim_module_init | by rewrite K3]|].
  intros rc1 b4 K4. cbv beta. case_match; [by autorewrite with wlp|].
  rewrite wlp_bind. eapply wlp_mono; [apply sim_on_db; [apply sim_init | done]|].
  intros rc2 b5 K5. cbv beta. case_match; [by autorewrite with wlp|].
  rewrite wlp_bind. eapply wlp_mono; [apply sim_on_db; [apply sim_sys_messages | done]|]. intros ? b6 K6. cbv beta.
  rewrite wlp_bind. eapply wlp_mono; [apply wlp_listen_all|].
  intros [socks|rc3] b7 K7; cbv beta iota; [|by autorewrite with wlp]. specialize (K7 socks eq_refl).
  unfold share. autorewrite with wlp. apply wlp_any. intros rc4 p. cbv beta. case_match; [by autorewrite with wlp|].
  autorewrite with wlp. set (b8 := _ <| bo_process := p |>).
  assert (clients_ok (bo_db b8)) as K8 by (subst b8; cbn; rewrite K7; by apply clients_ok_shared).
  change (bo_config (upd bo_db _ _)) with (bo_config b8).
  clearbody b8. apply (wlp_mono _ (fun _ d => g_bridges (bo_config b8) = [] -> clients_ok d)).
  - destruct (g_bridges _) eqn:E; [|by apply wlp_any]. cbn. by intros _.
  - intros _ d' Hd'. by rewrite wlp_ret.
Qed.

Lemma reload_clients_ok b : clients_ok (bo_db b) -> wlp main_loop_reload (fun _ b' => clients_ok (bo_db b')) b.
Proof.
  intros Hb. unfold main_loop_reload. rewrite wlp_bind, wlp_on_config. apply wlp_any. intros rc g. cbv beta.
  rewrite wlp_bind, wlp_modify. set (b1 := _ <| bo_db ::= _ |>). assert (clients_ok (bo_db b1)) as K1.
  { by eapply reaches_ok, quiet_reaches; [exact Hb | apply quiet_heap]. }
  clearbody b1. rewrite wlp_bind, wlp_gets.
  rewrite wlp_bind. eapply wlp_mono; [apply sim_on_db; [apply sim_cleanup | done]|]. intros ? b2 K2. cbv beta.
  rewrite wlp_bind. eapply wlp_mono; [apply sim_on_db; [apply sim_init | done]|]. intros ? b3 K3. cbv beta.
  rewrite wlp_bind. eapply wlp_mono; [apply sim_on_db; [apply sim_apply | done]|]. intros ? b4 K4. cbv beta.
  rewrite wlp_bind. eapply wlp_mono; [apply wlp_log_close|]. intros ? b5 K5. cbv beta.
  rewrite wlp_bind. eapply wlp_mono; [apply wlp_log_init|]. intros ? b6 K6. cbv beta. rewrite wlp_ret. congruence.
Qed.

Lemma reachable_ok d : reachable d -> clients_ok d.
Proof.
  induction 1 as [argv b0 time reads writes socks b E0 Hrun Hb | d time reads writes _ IH
                 | d poll ready t t' d' _ IH Hs Hrun | b b' _ IH Hrun].
  - pose proof (start_clients_ok argv b0) as Hw. rewrite E0 in Hw. specialize (Hw eq_refl eq_refl).
    unfold wlp in Hw. rewrite Hrun in Hw. by apply (Hw socks).
  - by eapply reaches_ok, quiet_reaches; [exact IH | apply quiet_heap].
  - eapply reaches_ok. exact (wlp_some _ _ _ _ _ (sim_iteration poll ready t Hs d IH) Hrun).
  - pose proof (reload_clients_ok b IH) as Hw. unfold wlp in Hw. by rewrite Hrun in Hw.
Qed.
End running.
