(* ===== verification/Exchange.v ===== *)
(** Messages on their way: a PUBLISH from the wire to the decision on it, the QoS 2
    exchange up to the release, retries, and the renaming of topics by a bridge. *)

From S2P Require Export Loop.
#[local] Open Scope Z_scope.

(** * Reading a received packet along its contents *)

(** [m] takes the bytes [bs] off a packet and returns [a]. *)
Definition takes {A} (m : ST packet (res A)) (bs : list byte) (a : A) : Prop :=
  forall p rest, inpacket_wf p -> unread p = bs ++ rest -> m p = Some (ROk a, advance (strlen bs) p).

Create HintDb takes.

Lemma takes_byte b : takes _mosquitto_read_byte [b] (Z_of_byte b).
Proof. intros p rest Hp Hu. rewrite read_byte_eq by done. by rewrite Hu. Qed.

Lemma takes_uint16 w : 0 <= w < 2 ^ 16 -> takes _mosquitto_read_uint16 (enc_uint16 w) w.
Proof.
  intros Hw p rest Hp Hu. rewrite read_uint16_eq by done. rewrite Hu. cbn [enc_uint16 app].
  by rewrite enc_uint16_value by done.
Qed.

Lemma takes_bytes bs n : n = strlen bs -> takes (_mosquitto_read_bytes n) bs bs.
Proof.
  intros -> p rest Hp Hu. pose proof (unread_length p Hp) as Hl. pose proof Hp as (H1 & H2 & H3).
  rewrite Hu, length_app in Hl. unfold strlen. rewrite read_bytes_eq by (done || lia).
  rewrite Hu, length_app, (proj2 (Z.ltb_ge _ _)) by lia. by rewrite Nat2Z.id, take_app_length.
Qed.

(** A string a C program can hold and its length field can announce. *)
Definition short_string (s : str) : Prop := strlen s < 2 ^ 16 /\ (NUL ∉ s).

Lemma takes_string s : short_string s -> takes _mosquitto_read_string (enc_string s) s.
Proof.
  intros [Hs Hn] p rest Hp Hu. pose proof (strlen_nonneg s). rewrite read_string_eq by done. rewrite Hu.
  unfold enc_string. cbn [enc_uint16 app]. rewrite enc_uint16_value by lia. cbv zeta.
  rewrite (proj2 (Z.ltb_ge _ _)) by (rewrite length_app; unfold strlen; lia).
  unfold strlen at 1. rewrite Nat2Z.id, take_app_length, cstr_no_nul by done.
  rewrite !strlen_cons. by replace (1 + (1 + strlen s)) with (2 + strlen s) by lia.
Qed.

#[export] Hint Resolve takes_byte takes_uint16 takes_bytes takes_string : takes.

(** ** In the context of a client *)

(** [bs] is what is left of the packet that is handled for [c]. *)
Definition unparsed (c : addr) (bs : list byte) (d : mosquitto_db) : Prop :=
  exists x, d_contexts d !! c = Some x /\ inpacket_wf (c_in_packet x) /\ unread (c_in_packet x) = bs.

(** The state once [n] more bytes were read. *)
Definition ahead (c : addr) (n : Z) (d : mosquitto_db) : mosquitto_db :=
  d <| d_contexts ::= alter (fun x => x <| c_in_packet ::= advance n |>) c |>.

Lemma ahead_upd c n x d : d_contexts d !! c = Some x ->
  ahead c n d = d <| d_contexts ::= <[c := x <| c_in_packet ::= advance n |>]> |>.
Proof.
  intros Hx. unfold ahead. destruct d. cbn in Hx. db_compute. f_equal. apply map_eq. intros a.
  destruct (decide (a = c)) as [->|Hne].
  - by rewrite lookup_alter_eq, lookup_insert_eq, Hx.
  - by rewrite lookup_alter_ne, lookup_insert_ne by done.
Qed.

Lemma ahead_get c n x d : d_contexts d !! c = Some x ->
  d_contexts (ahead c n d) !! c = Some (x <| c_in_packet ::= advance n |>).
Proof. intros Hx. unfold ahead. cbn. by rewrite lookup_alter_eq, Hx. Qed.

Lemma ahead_ahead c n m d : ahead c n (ahead c m d) = ahead c (n + m) d.
Proof.
  unfold ahead. destruct d. db_compute. f_equal. apply map_eq. intros a.
  destruct (decide (a = c)) as [->|Hne]; [|by rewrite !lookup_alter_ne].
  rewrite !lookup_alter_eq. destruct (d_contexts !! c) as [x|]; cbn; [|done]. f_equal.
  destruct x. ctx_compute. by rewrite advance_add.
Qed.

Lemma ahead_0 c d : ahead c 0 d = d.
Proof.
  unfold ahead. destruct d. db_compute. f_equal. apply map_eq. intros a.
  destruct (decide (a = c)) as [->|Hne]; [|by rewrite lookup_alter_ne].
  rewrite lookup_alter_eq. destruct (d_contexts !! c) as [x|]; cbn; [|done]. f_equal.
  unfold advance. destruct x as [? ? ? ? ? ? ? ? ? ? ? ? []]. by ctx_compute.
Qed.

Lemma on_in_packet_takes {A} c (m : ST packet (res A)) bs rest a d :
  takes m bs a -> unparsed c (bs ++ rest) d ->
  on_in_packet c m d = Some (ROk a, ahead c (strlen bs) d) /\ unparsed c rest (ahead c (strlen bs) d).
Proof.
  intros Hm (x & Hx & Hp & Hu). split.
  - rewrite (ahead_upd _ _ x) by done. unfold on_in_packet, get_ctx, mbind, st_bind, get, unwrap.
    rewrite Hx. unfold mret, st_ret. rewrite (Hm _ rest) by done. by rewrite (upd_ctx_eq c x).
  - exists (x <| c_in_packet ::= advance (strlen bs) |>). split; [by apply ahead_get|].
    pose proof (unread_length _ Hp) as Hl. rewrite Hu in Hl. unfold strlen. rewrite length_app in Hl.
    split; [apply advance_wf; [done | lia]|]. change (unread (advance (Z.of_nat (length bs)) (c_in_packet x)) = rest).
    rewrite unread_advance by (done || lia). by rewrite Hu, Nat2Z.id, drop_app_length.
Qed.

(** The next field of the packet is read. *)
Lemma wp_takes {A} c (m : ST packet (res A)) bs rest a Q d :
  takes m bs a -> unparsed c (bs ++ rest) d ->
  (unparsed c rest (ahead c (strlen bs) d) -> Q (ROk a) (ahead c (strlen bs) d)) ->
  wp (on_in_packet c m) Q d.
Proof. intros Hm Hp HQ. destruct (on_in_packet_takes c m bs rest a d Hm Hp) as [E H]. rewrite wp_eq, E. auto. Qed.

(** Running the first of two routines. *)
Lemma bind_at {S A B} (m : ST S A) (f : A -> ST S B) s a s' : m s = Some (a, s') -> (m ≫= f) s = f a s'.
Proof. intros E. unfold mbind, st_bind. by rewrite E. Qed.

Lemma get_ctx_at c x d : d_contexts d !! c = Some x -> get_ctx c d = Some (x, d).
Proof. intros Hx. unfold get_ctx, mbind, st_bind, get, unwrap. by rewrite Hx. Qed.

(** * PUBLISH *)

Section exchange.
Context `{Crypto, Environment, Network}.

(** What becomes of a message that a client published. *)
Definition judge_message (c : addr) (topic : str) (payload : list byte) (qos mid : Z) (retain : bool) : M Z :=
  rc ← mosquitto_acl_check c (Some topic) MOSQ_ACL_WRITE;
  if rc =? MOSQ_ERR_ACL_DENIED then bad_message c qos mid
  else if negb (rc =? MOSQ_ERR_SUCCESS) then mret rc
  else accept_message c topic payload qos mid retain.

Definition count_received (payload : list byte) (d : mosquitto_db) : mosquitto_db :=
  d <| d_pub_bytes_received ::= (fun n => u64 (n + strlen payload)) |>.

(** The message is not larger than [message_size_limit]. *)
Definition admissible (d : mosquitto_db) (payload : list byte) : Prop :=
  let limit := cf_message_size_limit (d_config d) in limit = 0 \/ strlen payload <= limit.

Definition publish_header (qos : Z) (retain dup : bool) : Z := PUBLISH + 8 * zbool dup + 2 * qos + zbool retain.

Lemma publish_header_qos qos retain dup : 0 <= qos <= 2 ->
  Z.shiftr (Z.land (publish_header qos retain dup) 0x06) 1 = qos
  /\ negb (Z.land (publish_header qos retain dup) 0x01 =? 0) = retain.
Proof. intros Hq. assert (qos = 0 \/ qos = 1 \/ qos = 2) as [->|[->| ->]] by lia; by destruct retain, dup. Qed.

Lemma publish_command_byte qos retain dup : 0 <= qos <= 2 ->
  Z_of_byte (byte_of_Z (publish_command qos retain dup)) = publish_header qos retain dup.
Proof. intros Hq. assert (qos = 0 \/ qos = 1 \/ qos = 2) as [->|[->| ->]] by lia; by destruct retain, dup. Qed.

Lemma get_listener_run d x : listener_ok d x ->
  exists l, get_listener (c_listener x) d = Some (l, d) /\ l ≫= l_mount_point = mount_point d x.
Proof.
  unfold listener_ok, mount_point, get_listener. intros Hok. destruct (c_listener x) as [i|].
  - destruct (Hok i eq_refl) as [l Hl]. exists (Some l). unfold mbind at 1 2, st_bind, get, unwrap. rewrite Hl.
    split; [done|]. cbn. by rewrite ?Hl.
  - by exists None.
Qed.

Lemma read_message_run c payload d : unparsed c payload d -> admissible d payload -> strlen payload < 2 ^ 28 ->
  read_message c d = Some (ROk payload, count_received payload (ahead c (strlen payload) d)).
Proof.
  intros Hp Ha Hs. pose proof Hp as (x & Hx & Hw & Hu). pose proof (unread_length _ Hw) as Hl. rewrite Hu in Hl.
  fold (strlen payload) in Hl. unfold read_message, get_ctx, mbind, st_bind, get, unwrap. rewrite Hx.
  cbn [mret st_ret]. rewrite <- Hl. pose proof (strlen_nonneg payload). rewrite u32_small by lia.
  cbv zeta. unfold modify. fold (count_received payload d).
  destruct (strlen payload =? 0) eqn:E0.
  { apply Z.eqb_eq in E0. rewrite E0, ahead_0. destruct payload; [done|]. rewrite strlen_cons in E0. pose proof (strlen_nonneg payload). lia. }
  assert (negb (cf_message_size_limit (d_config d) =? 0) && (cf_message_size_limit (d_config d) <? strlen payload) = false) as ->.
  { destruct Ha as [Ha|Ha]; [by rewrite Ha|]. apply andb_false_r_iff || (apply andb_false_intro2, Z.ltb_ge; lia). }
  assert (unparsed c (payload ++ []) (count_received payload d)) as Hp' by (rewrite app_nil_r; by exists x).
  destruct (on_in_packet_takes c _ payload [] payload _ (takes_bytes payload _ eq_refl) Hp') as [E _].
  rewrite E. by destruct d.
Qed.

Lemma handle_publish_run c x d mid topic payload qos retain dup :
  d_contexts d !! c = Some x -> c_bridge x = None -> listener_ok d x ->
  p_command (c_in_packet x) = publish_header qos retain dup -> 0 <= qos <= 2 -> 0 <= mid < 2 ^ 16 ->
  short_string topic -> topic <> [] -> mosquitto_pub_topic_check topic = MOSQ_ERR_SUCCESS ->
  let mid_bytes := if 0 <? qos then enc_uint16 mid else [] in
  unparsed c (enc_string topic ++ mid_bytes ++ payload) d ->
  admissible d payload -> strlen payload < 2 ^ 28 ->
  mqtt3_handle_publish c d
  = judge_message c (default [] (mount_point d x) ++ topic) payload qos (if 0 <? qos then mid else 0) retain
      (count_received payload (ahead c (strlen (enc_string topic ++ mid_bytes ++ payload)) d)).
Proof.
  intros Hx Hb Hl Hcmd Hq Hmid Ht Hne Hcheck mid_bytes Hp Ha Hs.
  destruct (publish_header_qos qos retain dup Hq) as [Eq Er].
  unfold mqtt3_handle_publish. rewrite (bind_at _ _ _ _ _ (get_ctx_at c x d Hx)). cbv zeta.
  rewrite Hcmd, Eq, Er. rewrite (proj2 (Z.eqb_neq qos 3)) by lia.
  destruct (on_in_packet_takes c _ _ _ topic d (takes_string topic Ht) Hp) as [E1 Hp1].
  rewrite (bind_at _ _ _ _ _ E1). assert ((strlen topic =? 0) = false) as ->.
  { destruct topic; [done|]. rewrite strlen_cons. pose proof (strlen_nonneg topic). lia. }
  set (d1 := ahead c _ d) in *.
  assert (remap_in x topic = Some (inr topic)) as -> by (unfold remap_in; by rewrite Hb).
  rewrite (bind_at _ _ _ (inr topic) d1) by done. cbv iota. rewrite Hcheck. cbn [Z.eqb negb MOSQ_ERR_SUCCESS].
  assert (exists d2, (if 0 <? qos then on_in_packet c _mosquitto_read_uint16 else mret (ROk 0)) d1
            = Some (ROk (if 0 <? qos then mid else 0), d2)
          /\ d2 = ahead c (strlen mid_bytes) d1 /\ unparsed c payload d2) as (d2 & E2 & Ed2 & Hp2).
  { subst mid_bytes. destruct (0 <? qos).
    - destruct (on_in_packet_takes c _ _ payload mid d1 (takes_uint16 mid Hmid) Hp1) as [E2 Hp2]. by eexists.
    - exists d1. rewrite ahead_0. done. }
  rewrite (bind_at _ _ _ _ _ E2).
  assert (listener_ok d2 x /\ mount_point d2 x = mount_point d x) as [Hl2 Em] by by rewrite Ed2.
  destruct (get_listener_run d2 x Hl2) as (l & E3 & El). rewrite (bind_at _ _ _ _ _ E3).
  assert (admissible d2 payload) as Ha2 by by rewrite Ed2.
  rewrite (bind_at _ _ _ _ _ (read_message_run c payload d2 Hp2 Ha2 Hs)).
  unfold mounted. rewrite El, Em, Ed2. subst d1. rewrite !ahead_ahead. unfold judge_message.
  rewrite !strlen_app. do 3 f_equal. lia.
Qed.

(** The packet in the buffer is the frame that was received. *)
Lemma received_unparsed f p : frame_wf f ->
  let q := (received f p) <| p_pos := 0 |> in
  p_command q = Z_of_byte (f_command f) /\ inpacket_wf q /\ unread q = f_body f.
Proof.
  intros (_ & _ & Hlen & Hv) q. subst q. unfold received, with_body, headed, inpacket_wf, unread.
  split; [done|]. pose proof (digits_value_bound (map Z_of_byte (f_digits f))) as Hb. rewrite length_map in Hb.
  pose proof (Z.pow_le_mono_r 128 (Z.of_nat (length (f_digits f))) 4 ltac:(lia) ltac:(lia)) as Hp.
  change (128 ^ 4) with (2 ^ 28) in Hp. cbn. rewrite length_app, length_replicate, Nat.sub_diag, app_nil_r, Nat.add_0_r.
  split; [lia | done].
Qed.

Lemma only_reads_frame c d d' : only_reads c d d' ->
  exists x x', d_contexts d !! c = Some x /\ d_contexts d' !! c = Some x'
  /\ x' = x <| c_in_packet := c_in_packet x' |> <| c_last_msg_in := c_last_msg_in x' |>
  /\ d_config d' = d_config d /\ d_listeners d' = d_listeners d.
Proof.
  intros (x & x' & Hx & Ec & Ex & _ & Ed). exists x, x'. split; [done|].
  split; [rewrite Ec; apply lookup_insert_eq|]. split; [done|].
  split; [exact (f_equal d_config Ed) | exact (f_equal d_listeners Ed)].
Qed.

Lemma packet_read_whole handle c x d f extra rest :
  d_contexts d !! c = Some x -> c_sock x <> INVALID_SOCKET -> c_state x <> mosq_cs_connect_pending ->
  frame_wf f -> clean (c_in_packet x) -> may_start x (Z_of_byte (f_command f)) = true ->
  delivers (arriving d (c_sock x)) (frame_bytes f ++ extra) rest ->
  exists d1 x1, _mosquitto_packet_read handle c d = (rc ← handle c; read_finish c rc (d_time d)) d1
    /\ only_reads c d d1 /\ d_contexts d1 !! c = Some x1
    /\ p_command (c_in_packet x1) = Z_of_byte (f_command f) /\ inpacket_wf (c_in_packet x1)
    /\ unread (c_in_packet x1) = f_body f /\ delivers (arriving d1 (c_sock x)) extra rest.
Proof.
  intros Hx Hs Hst Hf Hc Hmay Hd. pose proof (packet_read_run handle c x d Hx Hs Hst) as H2.
  destruct (assemble_reads (may_start x) f (frame_bytes f) _ _ (frame_bytes f ++ extra) rest (d_bytes_received d)
    Hf (receiving_start f _ Hc) Hmay Hd) as [_ R].
  destruct (R extra eq_refl) as (p & n & rs & E & _ & Hrs). rewrite E in H2.
  destruct H2 as (d1 & x1 & E1 & Ep & Ho & Hx1 & Ea). exists d1, x1. rewrite Ep, Ea.
  destruct (received_unparsed f p Hf) as (? & ? & ?). done.
Qed.

Lemma strlen_uint16 w : strlen (enc_uint16 w) = 2.
Proof. done. Qed.

(** The bytes of a PUBLISH become a call of [judge_message]. *)
Lemma publish_arrives c x d mid topic payload qos retain dup extra rest :
  d_contexts d !! c = Some x -> c_sock x <> INVALID_SOCKET -> c_state x = mosq_cs_connected ->
  c_bridge x = None -> listener_ok d x -> clean (c_in_packet x) ->
  0 <= qos <= 2 -> 0 <= mid < 2 ^ 16 -> short_string topic -> topic <> [] ->
  mosquitto_pub_topic_check topic = MOSQ_ERR_SUCCESS -> admissible d payload ->
  4 + strlen topic + strlen payload < 2 ^ 28 ->
  delivers (arriving d (c_sock x)) (enc_publish mid topic payload qos retain dup ++ extra) rest ->
  exists d1, only_reads c d d1 /\ delivers (arriving d1 (c_sock x)) extra rest
    /\ packet_read c d
       = (rc ← judge_message c (default [] (mount_point d x) ++ topic) payload qos (if 0 <? qos then mid else 0) retain;
          read_finish c rc (d_time d))
         (count_received payload (ahead c (2 + strlen topic + (if 0 <? qos then 2 else 0) + strlen payload) d1)).
Proof.
  intros Hx Hsock Hst Hb Hl Hclean Hq Hmid Ht Hne Hcheck Ha Hsize Hd.
  pose proof (publish_command_byte qos retain dup Hq) as Ecmd.
  set (mid_bytes := if 0 <? qos then enc_uint16 mid else []).
  set (body := enc_string topic ++ mid_bytes ++ payload).
  assert (strlen body = 2 + strlen topic + (if 0 <? qos then 2 else 0) + strlen payload) as Hbody.
  { subst body mid_bytes. unfold enc_string. rewrite !strlen_app, strlen_uint16. destruct (0 <? qos); rewrite ?strlen_uint16; unfold strlen; cbn [length]; lia. }
  destruct (enc_packet_frame (publish_command qos retain dup) body) as (f & Ef & Hf & Hfc & Hfb).
  { intros E. rewrite E in Ecmd. change (Z_of_byte NUL) with 0 in Ecmd. unfold publish_header, PUBLISH in Ecmd.
    destruct retain, dup; cbn [zbool] in Ecmd; lia. }
  { fold (strlen body). destruct (0 <? qos); lia. }
  unfold enc_publish in Hd. fold mid_bytes body in Hd. rewrite Ef in Hd.
  assert (may_start x (Z_of_byte (f_command f)) = true) as Hmay.
  { unfold may_start. rewrite Hst, (bool_decide_eq_false_2 (mosq_cs_connected = mosq_cs_new)) by done.
    by rewrite andb_false_r. }
  destruct (packet_read_whole mqtt3_packet_handle c x d f extra rest Hx Hsock) as
    (d1 & x1 & E1 & Ho & Hx1 & Ec1 & Hw1 & Hu1 & Hd1); try done; [by rewrite Hst|].
  exists d1. split; [done|]. split; [done|]. unfold packet_read. rewrite E1.
  destruct (only_reads_frame c d d1 Ho) as (y & y' & Hy & Hy' & Ey & Econf & Elis).
  assert (y = x) as -> by congruence. assert (y' = x1) as -> by congruence.
  assert (c_bridge x1 = None /\ c_listener x1 = c_listener x) as [Hb1 Hl1] by (rewrite Ey; done).
  assert (mqtt3_packet_handle c d1 = mqtt3_handle_publish c d1) as Eh.
  { unfold mqtt3_packet_handle. rewrite (bind_at _ _ _ _ _ (get_ctx_at c x1 d1 Hx1)). rewrite Ec1, Hfc, Ecmd.
    assert (qos = 0 \/ qos = 1 \/ qos = 2) as [->|[->| ->]] by lia; by destruct retain, dup. }
  unfold mbind, st_bind. rewrite Eh, <- Hbody. subst body.
  assert (p_command (c_in_packet x1) = publish_header qos retain dup) as Ecmd1 by by rewrite Ec1, Hfc.
  assert (listener_ok d1 x1) as Hl2 by (unfold listener_ok; by rewrite Hl1, Elis).
  assert (unparsed c (enc_string topic ++ (if 0 <? qos then enc_uint16 mid else []) ++ payload) d1) as Hun.
  { exists x1. split; [exact Hx1|]. split; [exact Hw1|]. by rewrite Hu1, Hfb. }
  assert (admissible d1 payload) as Ha1 by (unfold admissible; by rewrite Econf).
  assert (strlen payload < 2 ^ 28) as Hs1 by (pose proof (strlen_nonneg topic); lia).
  rewrite (handle_publish_run c x1 d1 mid topic payload qos retain dup Hx1 Hb1 Hl2 Ecmd1 Hq Hmid Ht Hne Hcheck Hun Ha1 Hs1).
  assert (mount_point d1 x1 = mount_point d x) as -> by (unfold mount_point; by rewrite Hl1, Elis).
  reflexivity.
Qed.

End exchange.

(** * QoS 2: stored, acknowledged, released once *)

(** A message that a PUBREL for [mid] passes over. *)
Definition passed_over (mid : Z) (m : mosquitto_client_msg) : Prop :=
  msg_is mid mosq_md_in m = false /\ is_queued m = false.

Lemma set_msgs_same c x d : d_contexts d !! c = Some x -> set_msgs c (c_msgs x) d = Some (tt, d).
Proof.
  intros Hx. unfold set_msgs. rewrite (upd_ctx_eq c x) by done. do 2 f_equal.
  rewrite <- (insert_ctx_id c x d Hx) at 2. do 2 f_equal. by destruct x.
Qed.

Lemma release_promote_unqueued c m i d : is_queued m = false -> release_promote c m i d = Some (m, d).
Proof. intros Hq. unfold release_promote, mbind, st_bind, get. by rewrite Hq. Qed.

(** The part of the loop for the message that is released. *)
Definition release_found (fuel : nat) (c : addr) (mid : Z) (m : mosquitto_client_msg) (max_inflight i : Z) : M Z :=
  match fuel with
  | O => fault
  | S fuel =>
    st ← get_store (m_store m);
    rc ←
      (match s_topic st with
       | None => mret 0
       | Some topic =>
         '(rc, stored) ← mqtt3_db_messages_queue (Some (s_source_id st)) topic (s_qos st)
                           (m_retain m) (m_store m);
         unwrap stored;;
         mret rc
       end);
    if negb (rc =? 0) then mret 1 else
    x ← get_ctx c;
    '(before, m, rest) ← unwrap (split_msg (m_addr m) (c_msgs x));
    _message_remove c before rest m;;
    if max_inflight <? i then mret MOSQ_ERR_SUCCESS
    else release_loop fuel c mid mosq_md_in before rest i true
  end.

Lemma release_loop_cons fuel c mid before m rest i deleted :
  release_loop fuel c mid mosq_md_in before (m :: rest) i deleted
  = (max_inflight ← gets d_max_inflight;
     m ← release_promote c m (i + 1);
     set_msgs c (before ++ m :: rest);;
     if msg_is mid mosq_md_in m then release_found fuel c mid m max_inflight (i + 1)
     else if (max_inflight <? i + 1) && deleted then mret MOSQ_ERR_SUCCESS
     else release_loop fuel c mid mosq_md_in (before ++ [m]) rest (i + 1) deleted).
Proof. by destruct fuel. Qed.

(** One step of the loop at a message that is not queued. *)
Lemma release_step fuel c mid before m rest i deleted x d :
  d_contexts d !! c = Some x -> c_msgs x = before ++ m :: rest -> passed_over mid m ->
  release_loop fuel c mid mosq_md_in before (m :: rest) i deleted d
  = if (d_max_inflight d <? i + 1) && deleted then Some (MOSQ_ERR_SUCCESS, d)
    else release_loop fuel c mid mosq_md_in (before ++ [m]) rest (i + 1) deleted d.
Proof.
  intros Hx Hm [Hn Hq]. rewrite release_loop_cons.
  rewrite (bind_at _ _ d (d_max_inflight d) d) by done. rewrite (bind_at _ _ _ _ _ (release_promote_unqueued c m (i + 1) d Hq)).
  rewrite <- Hm. rewrite (bind_at _ _ _ _ _ (set_msgs_same c x d Hx)). rewrite Hn. by destruct (_ && _).
Qed.

Lemma release_walk fuel c mid l before i deleted x d :
  d_contexts d !! c = Some x -> c_msgs x = before ++ l -> Forall (passed_over mid) l ->
  release_loop fuel c mid mosq_md_in before l i deleted d = Some (if deleted then MOSQ_ERR_SUCCESS else 1, d).
Proof.
  intros Hx. revert before i. induction l as [|m l IH]; intros before i Hm Hl; [by destruct fuel|].
  inversion Hl; subst. rewrite (release_step fuel c mid before m l i deleted x d) by done.
  rewrite (IH (before ++ [m])); [|by rewrite <- app_assoc|done]. destruct deleted; [by destruct (_ && _)|].
  by rewrite andb_false_r.
Qed.

Lemma release_skip fuel c mid l before tail i x d :
  d_contexts d !! c = Some x -> c_msgs x = before ++ l ++ tail -> Forall (passed_over mid) l ->
  release_loop fuel c mid mosq_md_in before (l ++ tail) i false d
  = release_loop fuel c mid mosq_md_in (before ++ l) tail (i + Z.of_nat (length l)) false d.
Proof.
  intros Hx. revert before i. induction l as [|m l IH]; intros before i Hm Hl.
  { cbn. by rewrite app_nil_r, Z.add_0_r. }
  inversion Hl; subst. cbn [app]. rewrite (release_step fuel c mid before m (l ++ tail) i false x d) by done.
  rewrite andb_false_r, (IH (before ++ [m])); [|by rewrite <- app_assoc|done].
  rewrite <- app_assoc. cbn [app length]. f_equal. lia.
Qed.

Lemma split_msg_at a before m rest : m_addr m = a -> (a ∉ m_addr <$> before) ->
  split_msg a (before ++ m :: rest) = Some (before, m, rest).
Proof.
  intros Ha. induction before as [|n before IH]; cbn [app split_msg fmap list_fmap].
  - intros _. by rewrite decide_True.
  - intros [Hne Hb]%not_elem_of_cons. rewrite decide_False by congruence. by rewrite IH.
Qed.


(** C13: a repeated QoS 2 PUBLISH, whose identifier is still waiting for its PUBREL, is neither stored nor published nor queued again, only acknowledged: the client is sent one PUBREC, and nothing else changes. *)
Theorem qos2_duplicate_acknowledged c topic payload mid retain x d before m rest st :
  d_contexts d !! c = Some x -> ctx_out_wf x -> c_msgs x = before ++ m :: rest ->
  Forall (fun m => is_Some (d_stores d !! m_store m)) before ->
  d_stores d !! m_store m = Some st -> s_source_mid st = mid -> m_direction m = mosq_md_in ->
  wp (accept_message c topic payload 2 mid retain) (fun rc d' => exists sent,
    queues c (enc_packet PUBREC (enc_uint16 mid)) x d sent d' /\ rc = if sent =? 0 then 0 else 1) d.
Proof.
  intros Hx Hwf Hm Hbefore Hst Hmid Hdir.
  assert (exists s, mqtt3_db_message_store_find c mid d = Some (Some s, d)) as [s Es].
  { unfold mqtt3_db_message_store_find. rewrite (bind_at _ _ _ _ _ (get_ctx_at c x d Hx)), Hm. clear Hm.
    induction Hbefore as [|n before [stn Hn] _ IH]; cbn [app store_find_loop].
    - unfold get_store, mbind, st_bind, get, unwrap. rewrite Hst. cbn [mret st_ret].
      rewrite Hmid, Z.eqb_refl, bool_decide_eq_true_2 by done. by eexists.
    - unfold get_store, mbind, st_bind, get, unwrap. rewrite Hn. cbn [mret st_ret]. destruct (_ && _); [by eexists | done]. }
  unfold accept_message. cbn [Z.ltb Z.compare]. rewrite wp_bind, (wp_eq (mqtt3_db_message_store_find c mid)), Es.
  wp_step. wp_ptr. rewrite bool_decide_eq_true_2 by done. cbn [Z.eqb Pos.eqb]. wp_step. rewrite Z.eqb_refl. wp_step.
  eapply wp_mono; [by apply (send_mid_sends c PUBREC mid)|]. cbv beta. intros rc d' Hq. wp_step.
  exists rc. split; [done|]. by destruct (rc =? 0).
Qed.

(** * Retries *)

Definition retimed (threshold now : Z) (x : mosquitto) : mosquitto :=
  x <| c_msgs ::= map (timeout_msg threshold now) |>.

(** Waiting for an answer of the client. *)
Definition awaiting (m : mosquitto_client_msg) : bool :=
  match m_state m with
  | mosq_ms_wait_for_puback | mosq_ms_wait_for_pubrec | mosq_ms_wait_for_pubrel | mosq_ms_wait_for_pubcomp => true
  | _ => false
  end.

Lemma timeout_contexts_run threshold now l d : NoDup l -> Forall (fun c => is_Some (d_contexts d !! c)) l ->
  timeout_contexts threshold now l d
  = Some (tt, d <| d_contexts := map_imap (fun c x => Some (if decide (c ∈ l) then retimed threshold now x else x)) (d_contexts d) |>).
Proof.
  revert d. induction l as [|c l IH]; intros d Hnd Hl; cbn [timeout_contexts].
  - unfold mret, st_ret. do 2 f_equal. destruct d. db_compute. f_equal. apply map_eq. intros a.
    rewrite map_lookup_imap. destruct (d_contexts !! a); cbn; [|done].
    by rewrite decide_False by apply not_elem_of_nil.
  - apply NoDup_cons in Hnd as [Hc Hnd]. inversion Hl as [|? ? [x Hx] Hl']; subst.
    rewrite (bind_at _ _ _ _ _ (upd_ctx_eq c x _ d Hx)). rewrite IH; [|done|].
    + do 2 f_equal. destruct d. db_compute. f_equal. apply map_eq. intros a. cbn in Hx. rewrite !map_lookup_imap.
      destruct (decide (a = c)) as [->|Hne].
      * rewrite lookup_insert_eq, Hx. cbn. rewrite decide_False, decide_True by (done || by left). done.
      * rewrite lookup_insert_ne by done. destruct (d_contexts !! a); cbn; [|done]. f_equal.
        destruct (decide (a ∈ l)) as [Hin|Hn]; [rewrite decide_True by by right | rewrite decide_False by (by intros [?|?]%elem_of_cons)]; done.
    + eapply Forall_impl; [exact Hl'|]. intros a [y Hy]. cbn. destruct (decide (a = c)) as [->|Hne].
      * rewrite lookup_insert_eq. by eexists.
      * rewrite lookup_insert_ne by done. by exists y.
Qed.

Lemma timeout_msg_eq threshold now m :
  timeout_msg threshold now m =
  if awaiting m && (m_timestamp m <? threshold)
  then m <| m_timestamp := now |> <| m_state := timeout_state (m_state m) |> <| m_dup := true |> else m.
Proof.
  unfold timeout_msg, awaiting, is_queued. destruct (m_timestamp m <? threshold); [|by rewrite andb_false_r].
  rewrite andb_true_r. destruct m as [ma ms mt mmid mq mr mdir mst mdup]. by destruct mst.
Qed.


(** * Bridges: topics in and out *)

(** The verdict of the matcher. *)
Definition verdict (sub topic : str) : bool :=
  bool_decide (starts_dollar sub = starts_dollar topic) && code_match (levels sub) (levels topic).

Definition has_prefix (t : _mqtt3_bridge_topic) : bool :=
  bool_decide (bt_remote_prefix t <> None) || bool_decide (bt_local_prefix t <> None).

(** The entry applies to messages that go out, come in. *)
Definition maps_out (topic : str) (t : _mqtt3_bridge_topic) : bool :=
  bool_decide (bt_direction t <> bd_in) && has_prefix t && verdict (bt_local_topic t) topic.
Definition maps_in (topic : str) (t : _mqtt3_bridge_topic) : bool :=
  bool_decide (bt_direction t <> bd_out) && has_prefix t && verdict (bt_remote_topic t) topic.

Definition first_mapping (f : _mqtt3_bridge_topic -> bool) (map_topic : _mqtt3_bridge_topic -> str -> str)
    (ts : list _mqtt3_bridge_topic) (topic : str) : str :=
  match List.find f ts with Some t => map_topic t topic | None => topic end.

Lemma matches_verdict sub topic r : filter_ok sub -> topic_ok topic ->
  mosquitto_topic_matches_sub sub topic r = (MOSQ_ERR_SUCCESS, Some (verdict sub topic)).
Proof. intros (? & ? & ?) (? & ?). by apply topic_matches_sub_code. Qed.

Lemma bridge_remap_first ts topic r : topic_ok topic -> Forall (fun t => filter_ok (bt_local_topic t)) ts ->
  bridge_remap ts topic r = Some (inr (first_mapping (maps_out topic) map_remote ts topic)).
Proof.
  intros Ht. unfold first_mapping. revert r. induction ts as [|t ts IH]; intros r Hts; cbn [bridge_remap List.find]; [done|].
  inversion Hts as [|? ? Hf Hts']; subst. unfold maps_out at 1.
  assert (bool_decide (bt_direction t = bd_both) || bool_decide (bt_direction t = bd_out)
          = bool_decide (bt_direction t <> bd_in)) as -> by by destruct (bt_direction t).
  fold (has_prefix t). destruct (_ && has_prefix t); cbn [andb]; [|by apply IH].
  rewrite matches_verdict by done. cbn [MOSQ_ERR_SUCCESS Z.eqb negb].
  destruct (verdict _ _); [done | by apply IH].
Qed.

Lemma bridge_remap_in_first ts topic r : topic_ok topic -> Forall (fun t => filter_ok (bt_remote_topic t)) ts ->
  bridge_remap_in ts topic r = Some (inr (first_mapping (maps_in topic) map_local ts topic)).
Proof.
  intros Ht. unfold first_mapping. revert r. induction ts as [|t ts IH]; intros r Hts; cbn [bridge_remap_in List.find]; [done|].
  inversion Hts as [|? ? Hf Hts']; subst. unfold maps_in at 1.
  assert (bool_decide (bt_direction t = bd_both) || bool_decide (bt_direction t = bd_in)
          = bool_decide (bt_direction t <> bd_out)) as -> by by destruct (bt_direction t).
  fold (has_prefix t). destruct (_ && has_prefix t); cbn [andb]; [|by apply IH].
  rewrite matches_verdict by done. cbn [MOSQ_ERR_SUCCESS Z.eqb negb].
  destruct (verdict _ _); [done | by apply IH].
Qed.

Lemma strneq_prefix p s : strneq p (p ++ s) (length p) = true.
Proof. unfold strneq. rewrite take_app_length, firstn_all. by apply bool_decide_eq_true_2. Qed.

Definition prefix_of (p : option str) : str := default [] p.

Lemma map_remote_prefix t s : map_remote t (prefix_of (bt_local_prefix t) ++ s) = prefix_of (bt_remote_prefix t) ++ s.
Proof.
  unfold map_remote. destruct (bt_local_prefix t) as [lp|], (bt_remote_prefix t) as [rp|]; cbn [prefix_of default];
    rewrite ?strneq_prefix, ?drop_app_length; done.
Qed.

Lemma map_local_prefix t s : map_local t (prefix_of (bt_remote_prefix t) ++ s) = prefix_of (bt_local_prefix t) ++ s.
Proof.
  unfold map_local. destruct (bt_local_prefix t) as [lp|], (bt_remote_prefix t) as [rp|]; cbn [prefix_of default];
    rewrite ?strneq_prefix, ?drop_app_length; done.
Qed.

(** C39: a bridge renames a topic by the first of its topics that applies in that direction, has a prefix and matches, and leaves it alone when there is none; the matcher never fails and its verdict is never read before it was set.  Renaming replaces one prefix by the other, so that a message under the local prefix that goes out through an entry and comes back through the same entry has its topic again. *)
Theorem bridge_renames ts topic r :
  topic_ok topic -> Forall (fun t => filter_ok (bt_local_topic t) /\ filter_ok (bt_remote_topic t)) ts ->
  bridge_remap ts topic r = Some (inr (first_mapping (maps_out topic) map_remote ts topic))
  /\ bridge_remap_in ts topic r = Some (inr (first_mapping (maps_in topic) map_local ts topic))
  /\ forall t s, List.find (maps_out topic) ts = Some t -> topic = prefix_of (bt_local_prefix t) ++ s ->
       bridge_remap ts topic r = Some (inr (prefix_of (bt_remote_prefix t) ++ s))
       /\ map_local t (prefix_of (bt_remote_prefix t) ++ s) = topic.
Proof.
  intros Ht Hts. assert (Forall (fun t => filter_ok (bt_local_topic t)) ts) as H1.
  { eapply Forall_impl; [exact Hts|]. by intros t []. }
  assert (Forall (fun t => filter_ok (bt_remote_topic t)) ts) as H2.
  { eapply Forall_impl; [exact Hts|]. by intros t []. }
  pose proof (bridge_remap_first ts topic r Ht H1) as E1. split; [done|]. split; [by apply bridge_remap_in_first|].
  intros t s Hf ->. rewrite map_local_prefix. split; [|done].
  rewrite E1. unfold first_mapping. by rewrite Hf, map_remote_prefix.
Qed.

(** * Witnesses *)

Definition sample_crypto : Crypto :=
  {| _pw_digest := fun pw salt => ROk (salt ++ pw); _base64_decode := Some |}.
Definition sample_environment : Environment :=
  {| uuid_text := fun _ => lit "uuid"; peer_common_name := fun _ => None |}.
Definition sample_network : Network :=
  {| host_name := Some (lit "host"); socket_connect := fun _ _ => (1, -1);
     try_connect := fun _ _ => 1; errno_enotconn := fun _ => false |}.
#[local] Existing Instances sample_crypto sample_environment sample_network.

(** The state a routine leaves. *)
Definition after {A} (m : M A) (d : mosquitto_db) : mosquitto_db :=
  match m d with Some (_, d') => d' | None => d end.

Lemma after_run {A} (m : M A) d : bool_decide (is_Some (m d)) = true -> exists a, m d = Some (a, after m d).
Proof. intros [[a d'] E]%bool_decide_eq_true. exists a. unfold after. by rewrite E. Qed.

Definition sample_publisher : mosquitto :=
  context_calloc <| c_sock := 7 |> <| c_state := mosq_cs_connected |> <| c_id := Some (lit "p") |>
    <| c_listener := Some 0%nat |> <| c_in_packet ::= _mosquitto_packet_cleanup |>.

(** A PUBLISH at QoS 1 arrives in two pieces. *)
Definition sample_publishing : mosquitto_db :=
  sample_mounted_db <| d_contexts := {[1%nat := sample_publisher]} |>
    <| d_reads := {[7 := [RdOk (map byte_of_Z [0x33; 6; 0]); RdOk (map byte_of_Z [1] ++ lit "a" ++ map byte_of_Z [0; 9] ++ lit "x"); RdAgain]]} |>.


(** A message with identifier 9 waits for its PUBREL. *)
Definition sample_incoming : mosquitto_client_msg :=
  ClientMsg 30 7 0 9 2 false mosq_md_in mosq_ms_wait_for_pubrel false.
Definition sample_releaser : mosquitto :=
  context_calloc <| c_id := Some (lit "c3") |> <| c_sock := 8 |> <| c_state := mosq_cs_connected |>
    <| c_msgs := [sample_incoming] |> <| c_last_msg := Some 30%nat |> <| c_msg_count := 1 |> <| c_msg_count12 := 1 |>.
Definition sample_message : mosquitto_msg_store :=
  Store 1 (lit "c3") [] 2 (Some (lit "a")) (lit "hello") 9 0 2 false.
Definition sample_unreleased : mosquitto_db :=
  sample_broker <| d_contexts ::= <[3%nat := sample_releaser]> |> <| d_stores ::= <[7%nat := sample_message]> |>.

Lemma sample_releaser_lookup : d_contexts sample_unreleased !! 3%nat = Some sample_releaser.
Proof. by vm_compute. Qed.

Lemma sample_message_lookup : d_stores sample_unreleased !! 7%nat = Some sample_message.
Proof. by vm_compute. Qed.

Definition sample_published : mosquitto_db :=
  after (mqtt3_db_messages_queue (Some (lit "c3")) (lit "a") 2 false 7) sample_unreleased.
Definition sample_published_message : mosquitto_msg_store :=
  default sample_message (d_stores sample_published !! 7%nat).


Lemma qos2_duplicate_acknowledged_witness :
  wp (accept_message 3%nat (lit "a") (lit "hello") 2 9 false) (fun rc d' => rc = 0 /\ d_stores d' = d_stores sample_unreleased)
    sample_unreleased.
Proof.
  assert (c_msgs sample_releaser = [] ++ sample_incoming :: []) as Hm by reflexivity.
  assert (Forall write_ok (d_writes sample_unreleased)) as Hw by constructor.
  assert (c_sock sample_releaser <> INVALID_SOCKET) as Hs by by vm_compute.
  eapply wp_mono; [apply (qos2_duplicate_acknowledged 3%nat (lit "a") (lit "hello") 9 false sample_releaser sample_unreleased []
    sample_incoming [] sample_message sample_releaser_lookup); [constructor | exact Hm | constructor | exact sample_message_lookup | reflexivity | reflexivity]|].
  cbv beta. intros rc d' (sent & (Ho & _ & _ & Hok) & ->). destruct (Hok Hw) as [_ Hrc]. rewrite (Hrc Hs).
  split; [reflexivity|]. destruct Ho as (x & x' & _ & _ & _ & _ & E). exact (f_equal d_stores E).
Defined.


Definition sample_bridge_topic : _mqtt3_bridge_topic :=
  BridgeTopic (Some (lit "t/+")) 0 bd_both (Some (lit "l/")) (Some (lit "r/")) (lit "l/t/+") (lit "r/t/+").

Lemma bridge_renames_witness :
  bridge_remap [sample_bridge_topic] (lit "l/t/a") None = Some (inr (lit "r/t/a"))
  /\ map_local sample_bridge_topic (lit "r/t/a") = lit "l/t/a".
Proof.
  destruct (bridge_renames [sample_bridge_topic] (lit "l/t/a") None) as (_ & _ & Hr).
  - by split.
  - repeat constructor; by_compute.
  - apply (Hr sample_bridge_topic (lit "t/a")); by vm_compute.
Defined.
