(* ===== verification/Starting.v ===== *)
(** Starting: the process gives up the rights of root, and it listens on the sockets of all
    its listeners. *)

From S2P Require Export Start Exchange.
#[local] Open Scope Z_scope.

(** * Identities *)

(** What is documented about the calls: those of a privileged process change what their
    name says, and a process can always go back to its real identity. *)
Definition identity_set (call : id_call) (n : Z) (p : process) : process :=
  match call with
  | setgid => p <| pr_gid := n |> <| pr_egid := n |>
  | setegid => p <| pr_egid := n |>
  | setuid => p <| pr_uid := n |> <| pr_euid := n |>
  | seteuid => p <| pr_euid := n |>
  end.

Class Identities `{System} : Prop := {
  id_privileged call n p p' : pr_euid p = 0 -> set_id call n p = Some p' -> p' = identity_set call n p;
  id_real_group p : set_id setegid (pr_gid p) p = Some (identity_set setegid (pr_gid p) p);
  id_real_user p : set_id seteuid (pr_uid p) p = Some (identity_set seteuid (pr_uid p) p) }.

(** * What a start leaves of the configuration *)

Definition settled (g g' : config) : Prop := exists ls, g' = g <| g_listeners := ls |>.

#[global] Instance settled_pre : PreOrder settled.
Proof. split; [intros g; exists (g_listeners g); by destruct g | intros g1 g2 g3 (l & ->) (l' & ->); by exists l']. Qed.

Lemma settled_listeners g f : settled g (g <| g_listeners ::= f |>).
Proof. exists (f (g_listeners g)). by destruct g. Qed.

Section starting.
Context `{Crypto, Environment, Network, Files, System}.

(** * Privileges *)

Section privileges.
Context `{!Identities} (user : str) (uid gid : Z).
Hypotheses (not_root : user <> lit "root") (known : getpwnam user = Some (uid, gid)).

(** A privileged process of root. *)
Definition privileged (p : process) : Prop := pr_uid p = 0 /\ pr_gid p = 0 /\ pr_euid p = 0.

Lemma wlp_call_id call n Q p : pr_euid p = 0 ->
  Q true (identity_set call n p) -> Q false p -> wlp (call_id call n) Q p.
Proof.
  intros Hp Ht Hf. unfold wlp, call_id. destruct (set_id call n p) as [p'|] eqn:E; [|done].
  by rewrite (id_privileged call n p p').
Qed.

Lemma drop_privileges_run temporary p : privileged p ->
  wlp (drop_privileges (Some user) temporary) (fun rc p' =>
    if rc =? 0 then p' = (if temporary then Process 0 0 uid gid else Process uid gid uid gid)
    else temporary = true -> privileged p') p.
Proof.
  intros (Hu & Hg & He). destruct p as [u g eu eg]. cbn in Hu, Hg, He. subst.
  unfold drop_privileges. rewrite wlp_bind, wlp_get. cbn [pr_euid Z.eqb negb].
  unfold streq. rewrite bool_decide_eq_false_2, known by done. case_match; [by rewrite wlp_ret|].
  rewrite wlp_bind. apply wlp_call_id; [done|cbn [negb]|cbn [negb]; by rewrite wlp_ret].
  rewrite wlp_bind. apply wlp_call_id; [by destruct temporary|cbn [negb]..]; rewrite wlp_ret; by destruct temporary.
Qed.

Lemma restore_privileges_run eu eg :
  restore_privileges (Process 0 0 eu eg) = Some (MOSQ_ERR_SUCCESS, Process 0 0 0 0).
Proof.
  pose proof (id_real_group (Process 0 0 eu eg) : _ = Some (Process 0 0 eu 0)) as Hg.
  pose proof (id_real_user (Process 0 0 eu 0) : _ = Some (Process 0 0 0 0)) as Hu. cbn in Hg, Hu.
  unfold restore_privileges, mbind, st_bind, get, call_id. cbn. rewrite Hg. cbn.
  by rewrite Hu.
Qed.

(** Opening the log changes the identity and changes it back, if the file opens. *)
Lemma log_init_process b : privileged (bo_process b) -> g_user (bo_config b) = Some user ->
  (forall file, g_log_file (bo_config b) = Some file -> opens_for_writing file = true) ->
  wlp mqtt3_log_init (fun _ b' => privileged (bo_process b')) b.
Proof.
  intros Hp Hu Hf. unfold mqtt3_log_init. rewrite wlp_bind, wlp_gets, wlp_bind, wlp_modify.
  case_match; [by rewrite wlp_ret|].
  rewrite wlp_bind, wlp_on_process, Hu. cbn [upd bo_process]. eapply wlp_mono; [by apply drop_privileges_run|].
  intros rc p. cbv beta. destruct (rc =? 0) eqn:Erc; cbn [negb].
  - intros ->. rewrite wlp_bind, wlp_unwrap. intros file Hfile. rewrite wlp_bind, wlp_on_config, wlp_modify, Hf by done. cbn [negb].
    rewrite wlp_bind, wlp_on_process. unfold wlp at 1. cbn [upd bo_process]. rewrite restore_privileges_run.
    by rewrite wlp_ret.
  - intros Hq. rewrite wlp_ret. by apply Hq.
Qed.
End privileges.

Lemma log_init_config b :
  wlp mqtt3_log_init (fun _ b' => exists opened, bo_config b' = (bo_config b) <| g_log_fptr := opened |>) b.
Proof.
  assert (exists opened, bo_config b = (bo_config b) <| g_log_fptr := opened |>) as Hb.
  { exists (g_log_fptr (bo_config b)). by destruct (bo_config b). }
  unfold mqtt3_log_init. rewrite wlp_bind, wlp_gets, wlp_bind, wlp_modify. case_match; [by rewrite wlp_ret|].
  rewrite wlp_bind, wlp_on_process. apply wlp_any. intros rc p. case_match; [by rewrite wlp_ret|].
  rewrite wlp_bind, wlp_unwrap. intros file _. rewrite wlp_bind, wlp_on_config, wlp_modify.
  case_match; [rewrite wlp_ret; by eexists|]. rewrite wlp_bind, wlp_on_process. apply wlp_any. intros ? p'.
  rewrite wlp_ret. by eexists.
Qed.

(** * Listening *)

(** An address for which there is a socket. *)
Definition usable (i : addr_info) : bool := ai_inet i && negb (ai_socket i =? INVALID_SOCKET).

Definition usable_sockets (infos : list addr_info) : list Z := map ai_socket (List.filter usable infos).

(** [l'] is the listener [l] after it was opened: it has one socket or more, those of its addresses
    in order, all of which listen; else it is as before. *)
Definition opened (l l' : conf_listener) : Prop :=
  if bool_decide (cl_protocol l = mp_mqtt) then
    exists infos ssl, getaddrinfo (cl_host l) (l_port (cl_core l)) = Some infos
      /\ Forall (fun i => ai_nonblock i && ai_bind i && ai_listen i = true) (List.filter usable infos)
      /\ usable_sockets infos <> []
      /\ l' = l <| cl_core ::= (fun c => c <| l_socks := usable_sockets infos |> <| l_ssl_ctx := ssl |>) |>
  else l' = l.

Definition sockets (ls : list conf_listener) : list Z :=
  concat (map (fun l => if bool_decide (cl_protocol l = mp_mqtt) then l_socks (cl_core l) else []) ls).

Lemma listen_loop_run infos socks r : listen_loop infos socks = (true, r) ->
  r = socks ++ usable_sockets infos
  /\ Forall (fun i => ai_nonblock i && ai_bind i && ai_listen i = true) (List.filter usable infos).
Proof.
  revert socks. induction infos as [|i infos IH]; intros socks; cbn [listen_loop].
  { intros [= <-]. by rewrite app_nil_r. }
  unfold usable_sockets, usable. cbn [List.filter]. fold usable.
  destruct (negb (ai_inet i) || (ai_socket i =? INVALID_SOCKET)) eqn:E.
  - intros H4%IH. replace (ai_inet i && negb _) with false; [exact H4|]. by destruct (ai_inet i), (_ =? _).
  - case_match eqn:Ef; [|done]. intros [-> H4]%IH. replace (ai_inet i && negb _) with true.
    + cbn. rewrite <- app_assoc. split; [done|]. by constructor.
    + by destruct (ai_inet i), (_ =? _).
Qed.

Lemma socket_listen_run l l' : mqtt3_socket_listen l = (0, l') -> cl_protocol l = mp_mqtt -> opened l l'.
Proof.
  unfold mqtt3_socket_listen, opened. intros E Hl. rewrite bool_decide_eq_true_2 by done.
  destruct (getaddrinfo _ _) as [infos|]; [|done]. destruct (listen_loop infos []) as [[] socks] eqn:El; [|done].
  apply listen_loop_run in El as [-> Hall]. cbn [app negb] in E. case_bool_decide as Hne; [done|].
  exists infos. destruct (listener_tls _) as [ok|].
  - exists true. injection E as _ <-. by split_and!.
  - exists (l_ssl_ctx (cl_core l)). injection E as <-. by split_and!.
Qed.

Lemma opened_protocol l l' : opened l l' -> cl_protocol l' = cl_protocol l.
Proof. unfold opened. case_bool_decide; [by intros (? & ? & _ & _ & _ & ->) | by intros ->]. Qed.

Lemma listen_all_run pre todo socks b : g_listeners (bo_config b) = pre ++ todo ->
  wlp (listen_all (length pre) todo socks) (fun r b' => forall s, r = ROk s -> exists ls,
    Forall2 opened todo ls /\ s = socks ++ sockets ls /\ g_listeners (bo_config b') = pre ++ ls
    /\ settled (bo_config b) (bo_config b') /\ bo_process b' = bo_process b) b.
Proof.
  revert pre socks b. induction todo as [|l todo IH]; intros pre socks b Hb; cbn [listen_all].
  { rewrite wlp_ret. intros s [= <-]. exists []. by rewrite app_nil_r. }
  assert (forall l' b', opened l l' -> g_listeners (bo_config b') = pre ++ l' :: todo ->
      settled (bo_config b) (bo_config b') -> bo_process b' = bo_process b ->
    wlp (listen_all (S (length pre)) todo (socks ++ sockets [l'])) (fun r b'' => forall s, r = ROk s -> exists ls,
      Forall2 opened (l :: todo) ls /\ s = socks ++ sockets ls /\ g_listeners (bo_config b'') = pre ++ ls
      /\ settled (bo_config b) (bo_config b'') /\ bo_process b'' = bo_process b) b') as Hnext.
  { intros l' b' Hl Hb' Hs Hp. pose proof (IH (pre ++ [l']) (socks ++ sockets [l']) b') as H4.
    rewrite length_app, Nat.add_1_r in H4. eapply wlp_mono; [apply H4; by rewrite <- app_assoc|].
    intros r b'' Hr s Es. destruct (Hr s Es) as (ls & HF & -> & Hls & Hs' & Hp'). exists (l' :: ls). split_and!.
    - by constructor.
    - rewrite <- app_assoc. f_equal. unfold sockets. cbn. by rewrite app_nil_r.
    - by rewrite <- app_assoc in Hls.
    - by etrans.
    - congruence. }
  destruct (bool_decide (cl_protocol l = mp_mqtt)) eqn:El; cbn [negb].
  - destruct (mqtt3_socket_listen l) as [rc l'] eqn:E. rewrite wlp_bind, wlp_on_config, wlp_modify.
    destruct (Z.eqb_spec rc 0) as [->|]; cbn [negb orb]; [|rewrite wlp_bind; apply wlp_any; intros ? ?; by rewrite wlp_ret].
    case_match; [rewrite wlp_bind; apply wlp_any; intros ? ?; by rewrite wlp_ret|].
    apply bool_decide_eq_true in El as El'. apply socket_listen_run in E as Ho; [|done].
    replace (l_socks (cl_core l')) with (sockets [l'])
      by (unfold sockets; cbn; by rewrite (opened_protocol _ _ Ho), El, app_nil_r).
    apply Hnext; try done; [|apply settled_listeners].
    cbn. by rewrite Hb, insert_app_r_alt, Nat.sub_diag by done.
  - assert (socks ++ sockets [l] = socks) as E by (unfold sockets; cbn; by rewrite El, !app_nil_r).
    pose proof (Hnext l b) as H4. rewrite E in H4. apply H4; try done. unfold opened. by rewrite El.
Qed.

(** * The phases of a start *)

Definition same_but_db (b b' : boot) : Prop := bo_process b' = bo_process b /\ bo_config b' = bo_config b.

Lemma wlp_db_only {A} (m : M A) Q b : (forall a b', same_but_db b b' -> Q a b') -> wlp (on_db m) Q b.
Proof. intros HQ. rewrite wlp_on_db. apply wlp_any. intros a d. by apply HQ. Qed.

(** What is run in between only touches the database. *)
Record phases (argv : list str) (b0 : boot) (socks : list Z) (b : boot) (g : config) (b1 b2 b3 b4 : boot) : Prop := {
  ph_config : mqtt3_config_parse_args argv mqtt3_config_init = Some (MOSQ_ERR_SUCCESS, g);
  ph_configured : bo_process b1 = bo_process b0 /\ bo_config b1 = g;
  ph_log : exists rc, mqtt3_log_init b1 = Some (rc, b2);
  ph_between : same_but_db b2 b3;
  ph_listen : listen_all 0 (g_listeners g) [] b3 = Some (ROk socks, b4);
  ph_drop : drop_privileges (g_user (bo_config b4)) false (bo_process b4) = Some (0, bo_process b);
  ph_end : bo_config b = bo_config b4 }.

Lemma configure_run argv b0 : wlp (main_configure argv) (fun r b1 => forall g, r = ROk g ->
  mqtt3_config_parse_args argv mqtt3_config_init = Some (MOSQ_ERR_SUCCESS, g)
  /\ bo_process b1 = bo_process b0 /\ bo_config b1 = g) b0.
Proof.
  unfold main_configure. rewrite wlp_bind, wlp_on_config, wlp_modify, wlp_bind, wlp_on_config. cbn [upd bo_config].
  unfold wlp at 1. destruct (mqtt3_config_parse_args argv mqtt3_config_init) as [[rc g]|] eqn:E; [|done].
  destruct (Z.eqb_spec rc 0) as [->|]; cbn [negb]; [|by rewrite wlp_ret].
  unfold share. rewrite wlp_bind, wlp_modify, wlp_bind, wlp_gets.
  repeat case_match; rewrite wlp_ret; try done; by intros ? [= <-].
Qed.

Lemma main_start_phases argv b0 socks b : main_start argv b0 = Some (ROk socks, b) ->
  exists g b1 b2 b3 b4, phases argv b0 socks b g b1 b2 b3 b4.
Proof.
  intros E.
  assert (wlp (main_start argv) (fun r b => forall socks, r = ROk socks ->
    exists g b1 b2 b3 b4, phases argv b0 socks b g b1 b2 b3 b4) b0) as Hw.
  2: { unfold wlp in Hw. rewrite E in Hw. by apply Hw. }
  clear socks b E. unfold main_start. rewrite wlp_bind. eapply wlp_mono; [apply configure_run|].
  intros [g|rc] b1 K1; cbv beta iota; [|by rewrite wlp_ret]. destruct (K1 g eq_refl) as (Hg & Hp1 & Hg1).
  rewrite wlp_bind. apply wlp_db_only. intros rc b2 [Hp2 Hg2]. case_match; [by rewrite wlp_ret|].
  rewrite wlp_bind. unfold wlp at 1. destruct (mqtt3_log_init b2) as [[rc2 b3]|] eqn:E2; [|done].
  rewrite wlp_bind. apply wlp_db_only. intros rc3 b4 [Hp4 Hg4]. case_match; [by rewrite wlp_ret|].
  rewrite wlp_bind. apply wlp_db_only. intros rc4 b5 [Hp5 Hg5]. case_match; [by rewrite wlp_ret|].
  rewrite wlp_bind. apply wlp_db_only. intros rc5 b6 [Hp6 Hg6].
  rewrite wlp_bind. unfold wlp at 1. destruct (listen_all 0 (g_listeners g) [] b6) as [[[socks|rc6] b7]|] eqn:E6; [|by rewrite wlp_ret|done].
  unfold share. rewrite wlp_bind, wlp_modify, wlp_bind, wlp_gets, wlp_bind, wlp_on_process. cbn [upd bo_process bo_config].
  unfold wlp at 1. destruct (drop_privileges _ false _) as [[rc7 p]|] eqn:E7; [|done].
  destruct (Z.eqb_spec rc7 0) as [->|]; cbn [negb]; [|by rewrite wlp_ret].
  rewrite wlp_bind. apply wlp_db_only. intros ? b8 [Hp8 Hg8]. rewrite wlp_ret. intros ? [= <-].
  exists g, b2, b3, b6, b7. split; [done|..].
  - split; congruence.
  - by eexists.
  - split; congruence.
  - done.
  - by rewrite E7, Hp8.
  - exact Hg8.
Qed.

(** From the log to the listeners. *)
Lemma start_listeners g b1 rc b2 b3 socks b4 : mqtt3_log_init b1 = Some (rc, b2) -> bo_config b1 = g ->
  bo_config b3 = bo_config b2 -> listen_all 0 (g_listeners g) [] b3 = Some (ROk socks, b4) ->
  exists ls o, Forall2 opened (g_listeners g) ls /\ socks = sockets ls
    /\ bo_config b4 = g <| g_log_fptr := o |> <| g_listeners := ls |> /\ bo_process b4 = bo_process b3.
Proof.
  intros Hlog Hg Hb Hl. destruct (wlp_some _ _ _ _ _ (log_init_config b1) Hlog) as [o Ho].
  assert (g_listeners (bo_config b3) = [] ++ g_listeners g) as Hls by (by rewrite Hb, Ho, <- Hg).
  destruct (wlp_some _ _ _ _ _ (listen_all_run [] (g_listeners g) [] b3 Hls) Hl socks eq_refl)
    as (ls & HF & Hs & Hls' & [ls' Hset] & Hp).
  exists ls, o. split_and!; try done. rewrite Hset, Hb, Ho, Hg in Hls' |- *. cbn in Hls'. by subst.
Qed.

(** * Properties *)

(** C5: When the broker starts as root it gives up the rights of root for good: its real and its effective identities, user and group, are those of the configured user, provided that the log file, if there is one, can be opened. *)
Theorem start_drops_privileges `{!Identities} argv b0 socks b user uid gid :
  bo_process b0 = Process 0 0 0 0 -> main_start argv b0 = Some (ROk socks, b) ->
  g_user (bo_config b) = Some user -> user <> lit "root" -> getpwnam user = Some (uid, gid) ->
  (forall file, g_log_file (bo_config b) = Some file -> opens_for_writing file = true) ->
  bo_process b = Process uid gid uid gid.
Proof.
  intros Hp0 (g & b1 & b2 & b3 & b4 & [Hg [Hp1 Hg1] [rc Hlog] [Hp3 Hg3] Hlisten Hdrop Hend])%main_start_phases Hu Hroot Hpw Hf.
  destruct (start_listeners _ _ _ _ _ _ _ Hlog Hg1 Hg3 Hlisten) as (ls & opened & _ & _ & Hg4 & Hp4).
  rewrite Hend, Hg4 in Hu, Hf. change (g_user g = Some user) in Hu.
  assert (privileged (bo_process b4)) as Hpr.
  { rewrite Hp4, Hp3. refine (wlp_some _ _ _ _ _ (log_init_process user uid gid Hroot Hpw b1 _ _ _) Hlog); rewrite ?Hp1, ?Hg1; try done.
    by rewrite Hp0. }
  rewrite Hg4 in Hdrop. change (g_user (upd g_listeners _ _)) with (g_user g) in Hdrop. rewrite Hu in Hdrop.
  exact (wlp_some _ _ _ _ _ (drop_privileges_run user uid gid Hroot Hpw false (bo_process b4) Hpr) Hdrop).
Qed.

(** C7: When the broker starts, the listeners of the configuration that was read are open: each that speaks MQTT has at least one socket, and its sockets are those of the addresses of its host, in order, each bound and listening; the loop accepts connections on exactly these sockets. *)
Theorem start_listens argv b0 socks b : main_start argv b0 = Some (ROk socks, b) ->
  exists g, mqtt3_config_parse_args argv mqtt3_config_init = Some (MOSQ_ERR_SUCCESS, g)
    /\ Forall2 opened (g_listeners g) (g_listeners (bo_config b)) /\ socks = sockets (g_listeners (bo_config b)).
Proof.
  intros (g & b1 & b2 & b3 & b4 & [Hg [Hp1 Hg1] [rc Hlog] [Hp3 Hg3] Hlisten Hdrop Hend])%main_start_phases.
  destruct (start_listeners _ _ _ _ _ _ _ Hlog Hg1 Hg3 Hlisten) as (ls & opened & HF & -> & Hg4 & _).
  exists g. rewrite Hend, Hg4. by split_and!.
Qed.
End starting.

(** * Examples *)

(** The calls as POSIX has them, without saved identities. *)
Definition posix_set_id (call : id_call) (n : Z) (p : process) : option process :=
  if pr_euid p =? 0 then Some (identity_set call n p) else
  match call with
  | setgid | setegid => if n =? pr_gid p then Some (p <| pr_egid := n |>) else None
  | setuid | seteuid => if n =? pr_uid p then Some (p <| pr_euid := n |>) else None
  end.

(** A host with the user "m" and two addresses of a socket each. *)
Definition posix_system (log_opens : bool) : System := {|
  getpwnam _ := Some (7, 8); initgroups _ _ := true; set_id := posix_set_id; opens_for_writing _ := log_opens;
  lib_load _ := None; getaddrinfo _ _ := Some [AddrInfo true 3 true true true; AddrInfo false (-1) false false false; AddrInfo true 4 true true true];
  tls_certificates _ := false; tls_psk _ := false; fork := fork_child; build_timestamp := lit "today" |}.

#[local] Instance posix_identities log_opens : @Identities (posix_system log_opens).
Proof.
  split; cbn.
  - intros call n p p' E. unfold posix_set_id. rewrite E. by intros [= <-].
  - intros p. unfold posix_set_id. rewrite Z.eqb_refl. by destruct (pr_euid p =? 0).
  - intros p. unfold posix_set_id. rewrite Z.eqb_refl. by destruct (pr_euid p =? 0).
Qed.

#[local] Existing Instances sample_crypto sample_environment sample_network.

#[local] Instance sample_start_files : Files :=
  files_of [(lit "m.conf", text ["user m"; "log_dest file m.log"; "listener 1884"]%string)] [] [].

Definition root_boot : boot := Boot (Process 0 0 0 0) MQTT3_LOG_STDERR 0 mqtt3_config_init db_calloc.
Definition start_args : list str := [lit "-c"; lit "m.conf"].
Abbreviation started log_opens :=
  (@main_start sample_crypto sample_network sample_start_files (posix_system log_opens) start_args root_boot).

Lemma started_run : (fun '(r, b) => (r, g_user (bo_config b))) <$> started true = Some (ROk [3; 4], Some (lit "m")).
Proof. by vm_compute. Qed.

Lemma started_ok : exists b, started true = Some (ROk [3; 4], b) /\ g_user (bo_config b) = Some (lit "m").
Proof.
  pose proof started_run as E. destruct (started true) as [[r b]|]; [|done]. injection E as -> Hu. by exists b.
Qed.

Lemma start_drops_privileges_witness : exists b, started true = Some (ROk [3; 4], b) /\ bo_process b = Process 7 8 7 8.
Proof.
  destruct started_ok as (b & E & Hu). exists b. split; [exact E|].
  apply (@start_drops_privileges sample_crypto sample_network sample_start_files (posix_system true) (posix_identities true) start_args root_boot [3; 4] b (lit "m") 7 8);
    [done|exact E|exact Hu|done|done|done].
Defined.

Lemma start_listens_witness : exists b g, started true = Some (ROk [3; 4], b)
  /\ Forall2 (@opened (posix_system true)) (g_listeners g) (g_listeners (bo_config b))
  /\ [3; 4] = sockets (g_listeners (bo_config b)).
Proof.
  destruct started_ok as (b & E & _).
  destruct (@start_listens sample_crypto sample_network sample_start_files (posix_system true) start_args root_boot [3; 4] b E) as (g & _ & HF & Hs).
  exists b, g. split; [exact E|]. by split.
Defined.

(** When the log file cannot be opened, the broker starts all the same, and the real
    identity of its process stays root: the temporary change was not undone, so the final
    one does nothing. *)
Example closed_log_keeps_root : match started false with
  | Some (ROk _, b) => bo_process b = Process 0 0 7 8
  | _ => False
  end.
Proof. by vm_compute. Qed.
