(* ===== verification/Broker.v ===== *)
(** The broker as a whole: what holds in every state it reaches, and what becomes of a
    client that leaves or falls silent.  The sample run at the end has two clients that
    connect with the same identifier. *)

From S2P Require Export Running Exchange.
#[local] Open Scope Z_scope.

(** * A disconnect that publishes nothing *)

Definition listener_counted (d : mosquitto_db) (x : mosquitto) : Prop :=
  forall i, c_listener x = Some i -> exists l, d_listeners d !! i = Some l /\ 1 <= l_client_count l.

(** What is left of a context after its socket is closed. *)
Definition closed (x : mosquitto) : mosquitto :=
  x <| c_ssl := false |> <| c_sock := if 0 <=? c_sock x then INVALID_SOCKET else c_sock x |> <| c_listener := None |>.

Definition uncount (x : mosquitto) (ls : list _mqtt3_listener) : list _mqtt3_listener :=
  match c_listener x with
  | Some i => match ls !! i with
              | Some l => <[i := l <| l_client_count := l_client_count l - 1 |>]> ls
              | None => ls
              end
  | None => ls
  end.

Definition socket_closed (c : addr) (x : mosquitto) (d : mosquitto_db) : mosquitto_db :=
  d <| d_contexts ::= <[c := closed x]> |>
    <| d_contexts_by_sock ::= (fun l => if 0 <=? c_sock x then without c l else l) |>
    <| d_listeners ::= uncount x |>.

Lemma socket_close_run c x d :
  d_contexts d !! c = Some x -> listener_counted d x ->
  _mosquitto_socket_close c d = Some (0, socket_closed c x d).
Proof.
  intros Hx Hl.
  assert (wp (_mosquitto_socket_close c) (fun rc d' => rc = 0 /\ d' = socket_closed c x d) d) as Hw.
  2: { apply wp_some in Hw as (? & ? & E & -> & ->). exact E. }
  unfold _mosquitto_socket_close, socket_closed, closed, uncount. wp_step.
  wp_ptr. wp_ptr. 
  destruct (0 <=? c_sock x) eqn:Es; wp_step; [wp_ptr|];
   (destruct (c_listener x) as [i|] eqn:Ei; [|wp_step; split; [done|]; destruct d; db_compute; rewrite ?insert_insert_eq; do 2 f_equal; destruct x; ctx_compute; cbn in Ei; by subst]).
  all: destruct (Hl i Ei) as (l & E & Hc).
  all: wp_step; exists l; (split; [done|]); wp_step; (split; [lia|]); wp_ptr; (split; [done|]).
  all: destruct d; cbn in E; db_compute; rewrite ?insert_insert_eq, E; do 2 f_equal.
  all: try (destruct x; ctx_compute; cbn in Ei; by subst).
Qed.

(** A disconnect that publishes no will. *)
Definition disconnected (c : addr) (x : mosquitto) (d : mosquitto_db) : mosquitto_db :=
  let forget := c_clean_session x && bool_decide (c_bridge x = None) in
  let y := x <| c_will := None |> <| c_disconnect_t := d_time d |> in
  (socket_closed c y d)
    <| d_contexts ::= <[c := (closed y) <| c_id ::= (fun id => if forget then None else id) |>
                               <| c_state := mosq_cs_disconnected |>]> |>
    <| d_ll_for_free ::= (fun l => if forget then c :: l else l) |>
    <| d_contexts_by_id ::= (fun l => if forget && bool_decide (c_id x <> None) then without c l else l) |>.

Lemma no_id x : c_id x = None -> x <| c_id ::= (fun _ => None) |> = x.
Proof. destruct x. cbn. by intros ->. Qed.

Lemma do_disconnect_run c x d :
  d_contexts d !! c = Some x -> c_state x <> mosq_cs_disconnected ->
  c_will x = None \/ c_state x = mosq_cs_disconnecting -> listener_counted d x ->
  (c_clean_session x = true -> (c ∉ d_ll_for_free d) /\ (c_id x <> None -> c ∈ d_contexts_by_id d)) ->
  do_disconnect c d = Some (tt, disconnected c x d).
Proof.
  intros Hx Hst Hwill Hl Hcl.
  assert (wp (do_disconnect c) (fun _ d' => d' = disconnected c x d) d) as Hw.
  2: { apply wp_some in Hw as ([] & ? & E & ->). exact E. }
  set (x1 := x <| c_will := None |> <| c_disconnect_t := d_time d |>).
  unfold do_disconnect, mqtt3_context_disconnect. wp_step. wp_ptr. rewrite bool_decide_eq_false_2 by done.
  wp_step. unfold send_will. wp_step. wp_ptr.
  assert (forall (m : mosquitto_message -> M unit) Q, wp (mret tt) Q d ->
     wp match c_will x with None => mret tt | Some w => if bool_decide (c_state x = mosq_cs_disconnecting) then mret tt else m w end Q d) as Hw.
  { intros m Q HQ. destruct Hwill as [->| ->]; [done|]. rewrite bool_decide_eq_true_2 by done. by destruct (c_will x). }
  apply Hw. clear Hw. wp_step. wp_ptr. fold x1.
  set (d1 := d <| d_contexts ::= <[c := x1]> |>).
  assert (d_contexts d1 !! c = Some x1) as Hx1 by (cbn; apply lookup_insert_eq).
  assert (listener_counted d1 x1) as Hl1 by exact Hl.
  rewrite (wp_eq (_mosquitto_socket_close c)), (socket_close_run c x1 d1) by done.
  set (d2 := socket_closed c x1 d1). 
  assert (d_contexts d2 !! c = Some (closed x1)) as Hx2 by (cbn; apply lookup_insert_eq).
  wp_step. wp_ptr.
  change (c_clean_session (closed x1)) with (c_clean_session x).
  change (c_bridge (closed x1)) with (c_bridge x).
  unfold disconnected. cbv zeta. fold x1. set (forget := c_clean_session x && bool_decide (c_bridge x = None)).
  assert (forget = true -> c_clean_session x = true) as Hf by (by intros [? _]%andb_prop).
  assert (c_id x1 = c_id x) as Ei by done. clearbody forget x1.
  destruct forget; cbn [whenM andb].
  2:{ wp_step. exists (closed x1). split; [done|]. subst d2 d1. unfold socket_closed.
      clear. destruct d, x1. db_compute. by rewrite !insert_insert_eq. }
  destruct (Hcl (Hf eq_refl)) as [Hfree Hid].
  unfold mosquitto__add_context_to_disused, delete_by_id. wp_step.
  split; [by apply bool_decide_eq_true_2|]. exists (closed x1). split; [done|].
  change (c_id (closed x1)) with (c_id x1). rewrite Ei. case_bool_decide as Hc; cbn [whenM]; wp_step.
  - split; [apply bool_decide_eq_true_2, (Hid Hc)|]. exists (closed x1). split; [done|].
    wp_step. eexists. split; [cbn; apply lookup_insert_eq|].
    subst d2 d1. unfold socket_closed, without. clear. destruct d, x1. db_compute. by rewrite !insert_insert_eq.
  - exists (closed x1). split; [done|]. rewrite <- Ei in Hc.
    subst d2 d1. unfold socket_closed. rewrite no_id by exact Hc. clear -Hc.
    destruct d. db_compute. by rewrite !insert_insert_eq.
Qed.

(** Everything else stays as it is. *)
Lemma disconnected_frame c x d :
  let d' := disconnected c x d in
  d_stores d' = d_stores d /\ d_subs d' = d_subs d /\ d_sent d' = d_sent d
  /\ forall a, a <> c -> d_contexts d' !! a = d_contexts d !! a.
Proof. split_and!; try done. intros a Ha. cbn. by rewrite !lookup_insert_ne by done. Qed.

(** What [clients_ok] says to a client that is not disconnected. *)
Lemma connected_client c x d : clients_ok d -> d_contexts d !! c = Some x -> c_state x <> mosq_cs_disconnected ->
  (c ∉ d_ll_for_free d) /\ (c_id x <> None -> c ∈ d_contexts_by_id d).
Proof.
  intros [Ht _ _ _] Hx Hst. pose proof (table_get _ _ _ Hx) as Hs. split.
  - intros Hf. apply (tk_free _ Ht) in Hf as (s & Hs' & E & _). rewrite Hs in Hs'. by simplify_eq.
  - intros Hid. apply (tk_id _ Ht). by exists (session_of x).
Qed.

Lemma find_by_id_total l id d : (forall a, a ∈ l -> exists x, d_contexts d !! a = Some x) ->
  exists r, find_by_id l id d = Some (r, d).
Proof.
  induction l as [|a l IH]; intros Hl; cbn [find_by_id]; [by exists None|].
  unfold mbind, st_bind, get_ctx, mbind, st_bind, get, unwrap. destruct (Hl a) as (x & ->); [by left|]. cbn.
  case_bool_decide; [by exists (Some a)|]. apply IH. intros b Hb. apply Hl. by right.
Qed.

(** * Properties *)

Section broker.
Context `{Crypto, Environment, Network, Files, System}.





End broker.

(** * Witnesses *)

#[local] Existing Instances sample_crypto sample_environment sample_network.

Definition sample_listener : _mqtt3_listener := Listener 1883 (-1) None 0 false false false false [3].

(** A broker without $SYS messages that listens on socket 3. *)
#[local] Instance sample_broker_files : Files := files_of [(lit "m.conf", lit "sys_interval 0")] [] [].

#[local] Instance sample_broker_system : System := {|
  getpwnam _ := None; initgroups _ _ := false; set_id _ _ _ := None; opens_for_writing _ := false; lib_load _ := None;
  getaddrinfo _ _ := Some [AddrInfo true 3 true true true]; tls_certificates _ := false; tls_psk _ := false;
  fork := fork_child; build_timestamp := [] |}.

Definition sample_boot : boot := Boot (Process 1 1 1 1) MQTT3_LOG_STDERR 0 mqtt3_config_init db_calloc.
Definition sample_args : list str := [lit "-c"; lit "m.conf"].

(** CONNECT of MQTT 3.1.1 with a keepalive of one minute. *)
Definition connect_bytes (id : str) (flags : Z) : list byte :=
  map byte_of_Z [CONNECT; 12 + strlen id; 0; 4] ++ lit "MQTT" ++ map byte_of_Z [4; flags; 0; 60; 0; strlen id] ++ id.

Definition polled (c : addr) : list pollfd -> poll_answer := fun _ =>
  PollAnswer false (fun a => Revents (bool_decide (a = c)) false false) (fun _ => None).

Definition sample_0 : mosquitto_db :=
  match main_start sample_args sample_boot with Some (_, b) => bo_db b | None => db_calloc end.

(** Two clients connect with the same identifier, one after the other. *)
Definition sample_1 : mosquitto_db :=
  sample_0 <| d_time := 10 |>
    <| d_reads := <[5 := [RdOk (connect_bytes (lit "me") 0)]]> (<[6 := [RdOk (connect_bytes (lit "me") 2)]]> ∅) |>
    <| d_writes := repeat (WOk 4) 2 |>.
Definition accepting (sock : Z) : list (Z * list (Z * option str * bool)) :=
  [(3, [(sock, Some (lit "host"), true)])].
Definition sample_2 : mosquitto_db := after (main_loop_iteration (polled 0) (accepting 5) 0) sample_1.
Definition sample_3 : mosquitto_db := after (main_loop_iteration (polled 3) (accepting 6) 0) sample_2.
Definition sample_4 : mosquitto_db := after (main_loop_iteration (polled 4) [] 0) sample_3.

Lemma sample_start_run :
  (fun '(r, b) => (r, g_bridges (bo_config b))) <$> main_start sample_args sample_boot = Some (ROk [3], []).
Proof. by vm_compute. Qed.

Lemma reachable_sample_1 : reachable sample_1.
Proof.
  apply reach_world. unfold sample_0. pose proof sample_start_run as E.
  destruct (main_start sample_args sample_boot) as [[r b]|] eqn:Hrun; [|done]. injection E as -> Hb.
  by apply (reach_start sample_args sample_boot 0 ∅ [] [3] b).
Qed.

Lemma reachable_after poll ready d : reachable d -> sockets_ok ready ->
  bool_decide (is_Some (main_loop_iteration poll ready 0 d)) = true ->
  reachable (after (main_loop_iteration poll ready 0) d).
Proof. intros Hd Hs [t E]%after_run. exact (reach_iteration _ _ _ _ _ _ Hd Hs E). Qed.

Lemma accepting_ok sock : 0 <= sock -> sockets_ok (accepting sock).
Proof. intros. repeat constructor; done. Qed.

Lemma reachable_sample_3 : reachable sample_3.
Proof.
  apply reachable_after; [|by apply accepting_ok | by vm_compute].
  apply reachable_after; [exact reachable_sample_1 | by apply accepting_ok | by vm_compute].
Qed.

Definition sample_client_3 : mosquitto := default context_calloc (d_contexts sample_3 !! 3%nat).

Lemma sample_client_lookup : d_contexts sample_3 !! 3%nat = Some sample_client_3.
Proof. by vm_compute. Qed.

Lemma sample_listener_counted : listener_counted sample_3 sample_client_3.
Proof.
  intros i Hi. assert (c_listener sample_client_3 = Some 0%nat) as E by (by vm_compute).
  rewrite E in Hi. injection Hi as <-. exists (sample_listener <| l_client_count := 2 |>). split; [by vm_compute | done].
Qed.





