(* ===== verification/Joining.v ===== *)
(** CONNECT from one broker to another: what the library's [connect_body] writes the
    broker reads back, and nobody gets in without being authorised. *)

From S2P Require Export Broker.
#[local] Open Scope Z_scope.

(** * CONNECT *)

Section connect_exchange.
Context `{Crypto, Environment}.

(** The state in which the context of [c] is [y]. *)
Definition put (c : addr) (y : mosquitto) (d : mosquitto_db) : mosquitto_db := d <| d_contexts ::= <[c := y]> |>.

Definition moved (bs : list byte) (y : mosquitto) : mosquitto := y <| c_in_packet ::= advance (strlen bs) |>.

(** [bs] is left of the packet in the buffer of [y]. *)
Definition left_in (y : mosquitto) (bs : list byte) : Prop :=
  inpacket_wf (c_in_packet y) /\ unread (c_in_packet y) = bs.

Lemma put_get c y d : get_ctx c (put c y d) = Some (y, put c y d).
Proof. apply get_ctx_at, lookup_insert_eq. Qed.

Lemma put_upd c f y d : upd_ctx c f (put c y d) = Some (tt, put c (f y) d).
Proof.
  rewrite (upd_ctx_eq c y) by apply lookup_insert_eq. unfold put. by rewrite insert_ctx_twice.
Qed.

Lemma put_same c x d : d_contexts d !! c = Some x -> put c x d = d.
Proof. apply insert_ctx_id. Qed.

Lemma left_in_moved y bs rest : left_in y (bs ++ rest) -> left_in (moved bs y) rest.
Proof.
  intros [Hw Hu]. pose proof (unread_length _ Hw) as Hl. rewrite Hu, length_app in Hl.
  split; [apply advance_wf; [done | unfold strlen; lia]|].
  change (unread (advance (strlen bs) (c_in_packet y)) = rest). rewrite unread_advance by (done || unfold strlen; lia).
  unfold strlen. by rewrite Hu, Nat2Z.id, drop_app_length.
Qed.

Lemma put_takes {A} c (m : ST packet (res A)) bs rest a y d :
  takes m bs a -> left_in y (bs ++ rest) -> on_in_packet c m (put c y d) = Some (ROk a, put c (moved bs y) d).
Proof.
  intros Hm [Hw Hu]. unfold on_in_packet. rewrite (bind_at _ _ _ _ _ (put_get c y d)).
  rewrite (Hm _ rest) by done. by rewrite (bind_at _ _ _ _ _ (put_upd c _ y d)).
Qed.

(** Reading the next field. *)
Lemma put_read {A} c (m : ST packet (res A)) bs rest a y d : takes m bs a -> left_in y (bs ++ rest) ->
  read_or_1 c m (put c y d) = Some (ROk a, put c (moved bs y) d) /\ left_in (moved bs y) rest.
Proof.
  intros Hm Hl. split; [|by apply left_in_moved].
  unfold read_or_1. by rewrite (bind_at _ _ _ _ _ (put_takes c m bs rest a y d Hm Hl)).
Qed.

(** ** The packet *)

Definition protocol_of (version : Z) : _mosquitto_protocol :=
  if version =? MQTT_PROTOCOL_V31 then mosq_p_mqtt31 else mosq_p_mqtt311.

Definition enc_will (w : option mosquitto_message) : list byte :=
  match w with Some w => enc_string (msg_topic w) ++ enc_string (msg_payload w) | None => [] end.

Definition enc_opt (s : option str) : list byte := match s with Some s => enc_string s | None => [] end.

Definition enc_connect (x : mosquitto) (version keepalive : Z) (clean_session : bool) (clientid : str)
    (username password : option str) : list byte :=
  enc_string (if version =? MQTT_PROTOCOL_V31 then PROTOCOL_NAME_v31 else PROTOCOL_NAME_v311)
  ++ [byte_of_Z (connect_version_byte x version)] ++ [byte_of_Z (connect_flags x clean_session username)]
  ++ enc_uint16 keepalive ++ enc_string clientid ++ enc_will (c_will x)
  ++ (match username with Some u => enc_string u ++ enc_opt password | None => [] end).

(** What a client may connect with. *)
Record connectable (x : mosquitto) (version keepalive : Z) (clientid : str)
    (username password : option str) : Prop := Connectable {
  cn_version : version = MQTT_PROTOCOL_V31 \/ version = MQTT_PROTOCOL_V311;
  cn_keepalive : 0 <= keepalive < 2 ^ 16;
  cn_clientid : short_string clientid /\ clientid <> [];
  cn_will : forall w, c_will x = Some w ->
    short_string (msg_topic w) /\ msg_topic w <> [] /\ mosquitto_pub_topic_check (msg_topic w) = 0
    /\ strlen (msg_payload w) < 2 ^ 16 /\ 0 <= msg_qos w <= 2;
  cn_username : forall u, username = Some u -> short_string u;
  cn_password : forall p, password = Some p -> short_string p /\ username <> None;
  cn_same : (c_password x = None <-> password = None) }.

Definition flags_of (x : mosquitto) (clean_session : bool) (username password : option str) : connect_flag_bits :=
  Flags clean_session (bool_decide (c_will x <> None)) (match c_will x with Some w => msg_qos w | None => 0 end)
    (match c_will x with Some w => msg_retain w | None => false end)
    (bool_decide (password <> None)) (bool_decide (username <> None)).

Lemma parse_connect_flags x version keepalive clientid clean_session username password :
  connectable x version keepalive clientid username password ->
  parse_flags (Z_of_byte (byte_of_Z (connect_flags x clean_session username)))
  = flags_of x clean_session username password.
Proof.
  intros [_ _ _ Hw _ Hp Hs]. unfold connect_flags, flags_of.
  assert (match username with
          | Some _ => bool_decide (c_password x <> None) | None => false end = bool_decide (password <> None)) as E.
  { destruct username as [u|].
    - apply bool_decide_ext. tauto.
    - symmetry. apply bool_decide_eq_false_2. intros Hn. destruct password as [p|]; [|done].
      by destruct (Hp p eq_refl). }
  rewrite <- E. destruct (c_will x) as [w|].
  - destruct (Hw w eq_refl) as (_ & _ & _ & _ & Hq).
    assert (msg_qos w = 0 \/ msg_qos w = 1 \/ msg_qos w = 2) as Hq' by lia.
    destruct (c_password x), username, clean_session, (msg_retain w), Hq' as [->|[->| ->]]; by vm_compute.
  - destruct (c_password x), username, clean_session; by vm_compute.
Qed.

Lemma version_byte x version : version = MQTT_PROTOCOL_V31 \/ version = MQTT_PROTOCOL_V311 ->
  let b := Z_of_byte (byte_of_Z (connect_version_byte x version)) in
  b = connect_version_byte x version /\ Z.land b 0x7F = version.
Proof.
  unfold connect_version_byte. destruct (c_bridge x) as [b|]; [destruct (_ && _)|]; by intros [-> | ->].
Qed.

(** Every string fits into a field of the packet. *)
Definition connect_fits (x : mosquitto) (clientid : str) (username password : option str) : Prop :=
  strlen clientid < 2 ^ 16
  /\ (forall w, c_will x = Some w -> strlen (msg_topic w) < 2 ^ 16 /\ strlen (msg_payload w) < 2 ^ 16)
  /\ (forall u, username = Some u -> strlen u < 2 ^ 16) /\ (forall p, password = Some p -> strlen p < 2 ^ 16).

Lemma connectable_fits x version keepalive clientid username password :
  connectable x version keepalive clientid username password -> connect_fits x clientid username password.
Proof.
  intros [_ _ [[Hid _] _] Hw Hu Hp _]. split; [done|]. split; [|split].
  - intros w E. by destruct (Hw w E) as ([? _] & _ & _ & ? & _).
  - intros u E. by destruct (Hu u E).
  - intros p E. by destruct (Hp p E) as [[? _] _].
Qed.

Lemma connect_body_writes x version keepalive clean_session clientid username password :
  connect_fits x clientid username password ->
  writes (enc_connect x version keepalive clean_session clientid username password)
    (connect_body x version keepalive clean_session clientid username password).
Proof.
  intros (Hid & Hw & Hu & Hp). unfold enc_connect, connect_body.
  apply writes_bind; [apply writes_string; by destruct (_ =? _)|].
  apply writes_bind; [apply writes_byte|]. apply writes_bind; [apply writes_byte|].
  apply writes_bind; [apply writes_uint16|]. apply writes_bind; [by apply writes_string|].
  apply writes_bind.
  - unfold enc_will. destruct (c_will x) as [w|]; [|apply writes_ret]. destruct (Hw w eq_refl) as [Ht Hl].
    apply writes_bind; [by apply writes_string | by apply (writes_string (msg_payload w))].
  - destruct username as [u|]; [|apply writes_ret].
    apply writes_bind; [by apply writes_string, Hu|]. unfold enc_opt. destruct password as [p|]; [|apply writes_ret].
    by apply writes_string, Hp.
Qed.

(** ** How it is read *)

(** Reading changes the buffer, the protocol and the keepalive of the context only. *)
Definition parsed (y y' : mosquitto) : Prop :=
  y' = y <| c_in_packet := c_in_packet y' |> <| c_protocol := c_protocol y' |> <| c_keepalive := c_keepalive y' |>
  /\ p_command (c_in_packet y') = p_command (c_in_packet y).

#[local] Instance parsed_pre : PreOrder parsed.
Proof.
  split; [intros y; split; [by destruct y | done]|].
  intros y1 y2 y3 [E1 C1] [E2 C2]. split; [|congruence]. rewrite E2 at 1. rewrite E1 at 1. reflexivity.
Qed.

Lemma parsed_moved bs y : parsed y (moved bs y).
Proof. split; [by destruct y | by destruct y as [? ? ? ? ? ? ? ? ? ? ? ? []]]. Qed.

Lemma parsed_protocol y p : parsed y (y <| c_protocol := p |>).
Proof. split; by destruct y. Qed.

Lemma parsed_keepalive y k : parsed y (y <| c_keepalive := k |>).
Proof. split; by destruct y. Qed.

(** [m] reads [bs] off the packet of [c] and returns [a]; [set] is what it changes. *)
Definition reads_off {A} (c : addr) (m : M (res A)) (bs : list byte) (a : A) (y : mosquitto) (d : mosquitto_db)
    (set : mosquitto -> mosquitto) : Prop :=
  forall rest, left_in y (bs ++ rest) ->
    exists y', m (put c y d) = Some (ROk a, put c y' d) /\ left_in y' rest /\ parsed y y'
      /\ c_protocol y' = c_protocol (set y) /\ c_keepalive y' = c_keepalive (set y).

Lemma left_in_set y bs f : (forall y, c_in_packet (f y) = c_in_packet y) -> left_in y bs -> left_in (f y) bs.
Proof. intros Hf [? ?]. split; by rewrite Hf. Qed.

Lemma read_protocol_run c x version keepalive clientid username password y d :
  connectable x version keepalive clientid username password ->
  (version = MQTT_PROTOCOL_V311 -> header_flags y = 0) ->
  reads_off c (read_protocol c)
    (enc_string (if version =? MQTT_PROTOCOL_V31 then PROTOCOL_NAME_v31 else PROTOCOL_NAME_v311)
     ++ [byte_of_Z (connect_version_byte x version)])
    (connect_version_byte x version) y d (fun y => y <| c_protocol := protocol_of version |>).
Proof.
  intros Hc Hh rest Hl. pose proof (cn_version _ _ _ _ _ _ Hc) as Hv.
  destruct (version_byte x version Hv) as [Eb Eland]. set (b := byte_of_Z (connect_version_byte x version)) in *.
  set (name := if version =? MQTT_PROTOCOL_V31 then PROTOCOL_NAME_v31 else PROTOCOL_NAME_v311) in *.
  assert (short_string name) as Hn.
  { subst name. destruct (version =? _); split; try done; by apply (bool_decide_unpack _); vm_compute. }
  rewrite <- app_assoc in Hl. unfold read_protocol.
  destruct (put_read c _ _ _ name y d (takes_string name Hn) Hl) as [E1 H1]. rewrite (bind_at _ _ _ _ _ E1). clear E1.
  destruct (put_read c _ [b] rest (Z_of_byte b) (moved (enc_string name) y) d (takes_byte b) H1) as [E2 H2].
  rewrite (bind_at _ _ _ _ _ E2). clear E2. set (y2 := moved [b] (moved (enc_string name) y)) in *.
  assert (parsed y y2) as Hp by (etransitivity; apply parsed_moved).
  assert (header_flags y2 = header_flags y) as Hh2 by (unfold header_flags; by rewrite (proj2 Hp)).
  rewrite (bind_at _ _ _ _ _ (put_get c y2 d)). rewrite Eland, Eb.
  assert (forall p, c_protocol (y2 <| c_protocol := p |>) = p) as Hproto by done.
  exists (y2 <| c_protocol := protocol_of version |>).
  split; [|split; [by apply (left_in_set y2 rest (fun y => y <| c_protocol := protocol_of version |>))|]].
  - subst name. destruct Hv as [-> | ->]; cbn [Z.eqb Pos.eqb MQTT_PROTOCOL_V31 MQTT_PROTOCOL_V311 negb].
    + unfold streq. rewrite bool_decide_eq_true_2 by done. rewrite (bind_at _ _ _ _ _ (put_upd c _ y2 d)). done.
    + unfold streq. rewrite bool_decide_eq_false_2 by done. rewrite bool_decide_eq_true_2 by done.
      rewrite Hh2, Hh by done. cbn [Z.eqb negb]. rewrite (bind_at _ _ _ _ _ (put_upd c _ y2 d)). done.
  - split; [etransitivity; [exact Hp | apply parsed_protocol]|]. split; [done|].
    cbn. by destruct y.
Qed.

Lemma read_client_id_run c clientid keepalive fl y d :
  0 <= keepalive < 2 ^ 16 -> short_string clientid -> clientid <> [] ->
  (forall p, cf_clientid_prefixes (d_config d) = Some p -> strneq p clientid (length p) = true) ->
  reads_off c (read_client_id c fl) (enc_uint16 keepalive ++ enc_string clientid) clientid y d
    (fun y => y <| c_keepalive := keepalive |>).
Proof.
  intros Hk Hs Hne Hpre rest Hl. rewrite <- app_assoc in Hl. unfold read_client_id.
  destruct (put_read c _ _ _ keepalive y d (takes_uint16 keepalive Hk) Hl) as [E1 H1]. rewrite (bind_at _ _ _ _ _ E1). clear E1.
  set (y1 := moved _ y) in *. rewrite (bind_at _ _ _ _ _ (put_upd c _ y1 d)).
  set (y2 := y1 <| c_keepalive := keepalive |>).
  apply (left_in_set _ _ (fun y => y <| c_keepalive := keepalive |>)) in H1; [|done]. fold y2 in H1.
  destruct (put_read c _ _ rest clientid y2 d (takes_string clientid Hs) H1) as [E2 H2]. rewrite (bind_at _ _ _ _ _ E2). clear E2.
  set (y3 := moved _ y2) in *. rewrite (bind_at _ _ _ _ _ (put_get c y3 d)).
  assert (parsed y y3) as Hp.
  { etransitivity; [apply (parsed_moved (enc_uint16 keepalive))|]. etransitivity; [apply (parsed_keepalive _ keepalive)|].
    apply parsed_moved. }
  exists y3. split; [|split; [done|split; [done|]]].
  - rewrite (bind_at _ _ (put c y3 d) (put c y3 d) (put c y3 d)) by done.
    assert ((strlen clientid =? 0) = false) as ->.
    { destruct clientid; [done|]. rewrite strlen_cons. pose proof (strlen_nonneg clientid). lia. }
    rewrite (bind_at _ _ _ (ROk clientid) (put c y3 d)) by done. change (d_config (put c y3 d)) with (d_config d).
    destruct (cf_clientid_prefixes (d_config d)) as [p|]; [|done]. by rewrite Hpre.
  - split; by destruct y.
Qed.

Lemma read_will_run c x clean_session username password y d :
  (forall w, c_will x = Some w ->
    short_string (msg_topic w) /\ msg_topic w <> [] /\ mosquitto_pub_topic_check (msg_topic w) = 0
    /\ strlen (msg_payload w) < 2 ^ 16) ->
  reads_off c (read_will c (flags_of x clean_session username password)) (enc_will (c_will x)) (c_will x) y d (fun y => y).
Proof.
  intros Hw rest Hl. unfold read_will, flags_of. cbn [fl_will fl_will_qos fl_will_retain].
  destruct (c_will x) as [w|] eqn:Ew.
  - destruct (Hw w eq_refl) as (Ht & Hne & Hc & Hpl). rewrite bool_decide_eq_true_2 by done.
    cbn [enc_will] in Hl. unfold enc_string at 2 in Hl. rewrite <- !app_assoc in Hl.
    destruct (put_read c _ _ _ (msg_topic w) y d (takes_string _ Ht) Hl) as [E1 H1]. rewrite (bind_at _ _ _ _ _ E1). clear E1.
    set (y1 := moved _ y) in *. assert ((strlen (msg_topic w) =? 0) = false) as ->.
    { clear -Hne. destruct (msg_topic w) as [|b l]; [done|]. rewrite strlen_cons. pose proof (strlen_nonneg l). lia. }
    rewrite Hc. cbn [Z.eqb negb]. pose proof (strlen_nonneg (msg_payload w)) as Hpl0.
    destruct (put_read c _ _ _ (strlen (msg_payload w)) y1 d (takes_uint16 (strlen (msg_payload w)) ltac:(lia)) H1) as [E2 H2]. rewrite (bind_at _ _ _ _ _ E2). clear E2.
    set (y2 := moved _ y1) in *. destruct (0 <? strlen (msg_payload w)) eqn:E0.
    + destruct (put_read c _ _ rest (msg_payload w) y2 d (takes_bytes (msg_payload w) _ eq_refl) H2) as [E3 H3].
      exists (moved (msg_payload w) y2). rewrite (bind_at _ _ _ _ _ E3). split; [by destruct w|]. split; [done|].
      split; [etransitivity; [|apply parsed_moved]; etransitivity; apply parsed_moved|]. by destruct y.
    + assert (msg_payload w = []) as Enil.
      { destruct (msg_payload w) as [|b l]; [done|]. rewrite strlen_cons in E0. pose proof (strlen_nonneg l). lia. }
      rewrite Enil in H2. exists y2. split; [destruct w; cbn in Enil; by subst|]. split; [done|].
      split; [etransitivity; apply parsed_moved|]. by destruct y.
  - rewrite bool_decide_eq_false_2 by (by intros []). rewrite (bind_at _ _ _ _ _ (put_get c y d)).
    cbn [Z.eqb negb orb]. rewrite andb_false_r. exists y. split; [done|]. split; [done|]. split; [reflexivity|done].
Qed.

Lemma read_credentials_run c x clean_session username password y d :
  (forall u, username = Some u -> short_string u) ->
  (forall p, password = Some p -> short_string p /\ username <> None) ->
  reads_off c (read_credentials c (flags_of x clean_session username password))
    (match username with Some u => enc_string u ++ enc_opt password | None => [] end) (username, password) y d (fun y => y).
Proof.
  intros Hu Hp rest Hl. unfold read_credentials, flags_of. cbn [fl_username fl_password].
  rewrite (bind_at _ _ _ _ _ (put_get c y d)). destruct username as [u|].
  - rewrite (bool_decide_eq_true_2 (Some u <> None)) by done. rewrite <- app_assoc in Hl.
    rewrite (bind_at _ _ _ _ _ (put_takes c _ _ _ u y d (takes_string u (Hu u eq_refl)) Hl)).
    apply left_in_moved in Hl. set (y1 := moved _ y) in *. destruct password as [p|].
    + rewrite bool_decide_eq_true_2 by done. destruct (Hp p eq_refl) as [Hps _].
      rewrite (bind_at _ _ _ _ _ (put_takes c _ _ _ p y1 d (takes_string p Hps) Hl)). apply left_in_moved in Hl.
      exists (moved (enc_string p) y1). split; [done|]. split; [done|].
      split; [etransitivity; apply parsed_moved|]. by destruct y.
    + rewrite bool_decide_eq_false_2 by (by intros []). exists y1. split; [done|]. split; [done|].
      split; [apply parsed_moved|]. by destruct y.
  - destruct password as [p|]; [by destruct (Hp p eq_refl)|].
    rewrite !bool_decide_eq_false_2 by (by intros []). rewrite andb_false_r.
    exists y. split; [done|]. split; [done|]. split; [reflexivity|done].
Qed.

(** C25: what a client of the library (a bridge) puts into its CONNECT, the broker takes out of it: [connect_body] writes exactly the bytes [enc_connect], and [mqtt3_handle_connect] reads protocol version (with the private bridge bit), clean session flag, keepalive, client identifier, will with topic, payload, QoS and retain flag, user name and password off them, to the last byte, before it authenticates the client with that user name and password. *)
Theorem connect_understood c x version keepalive clean_session clientid username password y d :
  connectable x version keepalive clientid username password ->
  left_in y (enc_connect x version keepalive clean_session clientid username password) ->
  c_state y = mosq_cs_new -> (version = MQTT_PROTOCOL_V311 -> header_flags y = 0) ->
  (forall p, cf_clientid_prefixes (d_config d) = Some p -> strneq p clientid (length p) = true) ->
  writes (enc_connect x version keepalive clean_session clientid username password)
    (connect_body x version keepalive clean_session clientid username password)
  /\ exists y', left_in y' [] /\ parsed y y'
    /\ c_protocol y' = protocol_of version /\ c_keepalive y' = keepalive
    /\ read_connect c (put c y d)
       = (ok ←r authenticate c username password;
          client_id ←r final_client_id c clientid;
          mret (ROk (client_id, flags_of x clean_session username password,
                     connect_version_byte x version, c_will x))) (put c y' d).
Proof.
  intros Hc Hl Hnew Hh Hpre. split; [by eapply connect_body_writes, connectable_fits|].
  pose proof Hc as [Hv Hk [Hid Hne] Hw Hu Hp _]. unfold read_connect.
  rewrite (bind_at _ _ _ _ _ (put_get c y d)). rewrite Hnew, bool_decide_eq_true_2 by done. cbn [negb].
  unfold enc_connect in Hl. rewrite app_assoc in Hl.
  destruct (read_protocol_run c x version keepalive clientid username password y d Hc Hh _ Hl)
    as (y1 & E1 & L1 & P1 & Q1 & K1). rewrite (bind_at _ _ _ _ _ E1). clear E1.
  destruct (put_read c _ _ _ _ y1 d (takes_byte _) L1) as [E2 L2]. rewrite (bind_at _ _ _ _ _ E2). clear E2.
  rewrite (parse_connect_flags x version keepalive clientid clean_session username password Hc).
  set (y2 := moved _ y1) in *. set (fl := flags_of x clean_session username password).
  assert ((fl_will_qos fl =? 3) = false) as ->.
  { subst fl. cbn. destruct (c_will x) as [w|]; [|done]. destruct (Hw w eq_refl) as (_ & _ & _ & _ & Hq). lia. }
  rewrite app_assoc in L2.
  destruct (read_client_id_run c clientid keepalive fl y2 d Hk Hid Hne Hpre _ L2) as (y3 & E3 & L3 & P3 & Q3 & K3).
  rewrite (bind_at _ _ _ _ _ E3). clear E3.
  destruct (read_will_run c x clean_session username password y3 d) with (rest := match username with Some u => enc_string u ++ enc_opt password | None => [] end)
    as (y4 & E4 & L4 & P4 & Q4 & K4); [|exact L3|].
  { intros w Ew. destruct (Hw w Ew) as (? & ? & ? & ? & _). done. }
  fold fl in E4. rewrite (bind_at _ _ _ _ _ E4). clear E4.
  rewrite <- (app_nil_r (match username with Some u => _ | None => _ end)) in L4.
  destruct (read_credentials_run c x clean_session username password y4 d Hu Hp [] L4) as (y5 & E5 & L5 & P5 & Q5 & K5).
  fold fl in E5. rewrite (bind_at _ _ _ _ _ E5). clear E5. exists y5.
  split; [done|]. split.
  { transitivity y1; [done|]. transitivity y2; [apply parsed_moved|]. transitivity y3; [done|]. by transitivity y4. }
  split; [rewrite Q5, Q4, Q3; exact Q1|]. split; [rewrite K5, K4, K3; done | done].
Qed.

(** ** Only who is allowed gets in *)

Lemma wlp_refuse {A} c code rc (Q : res A -> mosquitto_db -> Prop) d :
  (forall rc d', Q (RErr rc) d') -> wlp (refuse c code rc) Q d.
Proof.
  intros HQ. unfold refuse. apply wlp_bind. unfold wlp. destruct (_mosquitto_send_connack c 0 code d) as [[? ?]|]; [|done].
  apply HQ.
Qed.

(** A refusal on the way to [k] is a refusal. *)
Lemma wlp_read {A B} (m : M (res A)) (k : A -> M (res B)) (Q : B -> mosquitto_db -> Prop) d :
  (forall a d', m d = Some (ROk a, d') -> wlp (k a) (fun r d => match r with ROk b => Q b d | RErr _ => True end) d') ->
  wlp (a ←r m; k a) (fun r d => match r with ROk b => Q b d | RErr _ => True end) d.
Proof.
  intros Hk. apply wlp_bind. unfold wlp. destruct (m d) as [[[a|rc] d']|]; [by apply Hk | done | done].
Qed.

(** Who may connect as the name in the context [x]. *)
Definition authorised (d : mosquitto_db) (x : mosquitto) : Prop :=
  let by_password :=
    (c_username x <> None /\ mosquitto_unpwd_check d (c_username x) (c_password x) = MOSQ_ERR_SUCCESS)
    \/ cf_allow_anonymous (d_config d) = true in
  match c_listener x ≫= fun i => d_listeners d !! i with
  | Some l => if l_ssl_ctx l && l_use_identity_as_username l then c_ssl x = true /\ c_username x <> None
              else by_password
  | None => by_password
  end.

Lemma unpwd_check_same d d' u p : d_auth_plugin d' = d_auth_plugin d -> d_unpwd d' = d_unpwd d ->
  mosquitto_unpwd_check d' u p = mosquitto_unpwd_check d u p.
Proof. unfold mosquitto_unpwd_check, mosquitto_unpwd_check_default. by intros -> ->. Qed.

Lemma check_credentials_run c x username password d : d_contexts d !! c = Some x ->
  wlp (check_credentials c username password) (fun r d' => match r with
    | ROk _ => exists x', d_contexts d' !! c = Some x' /\ c_listener x' = c_listener x /\ d_listeners d' = d_listeners d
        /\ ((c_username x' <> None /\ mosquitto_unpwd_check d' (c_username x') (c_password x') = MOSQ_ERR_SUCCESS)
            \/ cf_allow_anonymous (d_config d') = true)
    | RErr _ => True end) d.
Proof.
  intros Hx. unfold check_credentials. wlp_step. wlp_step. cbv zeta. destruct username as [u|].
  - destruct (_ =? MOSQ_ERR_SUCCESS) eqn:E.
    + wlp_step. apply wlp_upd_ctx. intros y Hy. wlp_step. simplify_eq. cbn. rewrite lookup_insert_eq. eexists.
      split; [done|]. split; [done|]. split; [done|]. left. split; [done|].
      apply Z.eqb_eq in E. rewrite <- E. by apply unpwd_check_same.
    + apply wlp_bind. unfold wlp. destruct (whenM _ _ d) as [[? d1]|]; [|done].
      unfold mbind, st_bind. by destruct (mqtt3_context_disconnect c d1) as [[? ?]|].
  - destruct (cf_allow_anonymous (d_config d)) eqn:E; [|by apply wlp_refuse].
    wlp_step. exists x. split_and!; try done. by right.
Qed.

Lemma authenticate_run c username password d :
  wlp (authenticate c username password) (fun r d' => match r with
    | ROk _ => exists x, d_contexts d' !! c = Some x /\ authorised d' x
    | RErr _ => True end) d.
Proof.
  unfold authenticate. wlp_step. apply wlp_get_ctx. intros x Hx.
  assert (forall Q : option _mqtt3_listener -> mosquitto_db -> Prop,
    Q (c_listener x ≫= fun i => d_listeners d !! i) d -> wlp (get_listener (c_listener x)) Q d) as Hgl.
  { intros Q HQ. unfold get_listener. destruct (c_listener x) as [i|]; [|by wlp_step]. wlp_step. wlp_step. wlp_step.
    wlp_step. wlp_step. cbn in HQ. by match goal with H : _ !! _ = Some _ |- _ => rewrite H in HQ end. }
  wlp_step. apply Hgl. clear Hgl.
  pose proof (check_credentials_run c x username password d Hx) as Hcc.
  assert (forall o, o = (c_listener x ≫= fun i => d_listeners d !! i) ->
    match o with Some l => l_ssl_ctx l && l_use_identity_as_username l = false | None => True end ->
    wlp (check_credentials c username password) (fun r d' => match r with
      | ROk _ => exists x, d_contexts d' !! c = Some x /\ authorised d' x | RErr _ => True end) d) as Hby.
  { intros o Eo Ho. eapply wlp_mono; [exact Hcc|]. cbv beta. intros [[]|] d' H'; [|done].
    destruct H' as (x' & Hx' & El & Els & Hauth). exists x'. split; [done|]. unfold authorised.
    rewrite El, Els, <- Eo. destruct o as [l|]; [by rewrite Ho | done]. }
  destruct (c_listener x ≫= fun i => d_listeners d !! i) as [l|] eqn:El; [|by apply (Hby None)].
  destruct (l_ssl_ctx l && l_use_identity_as_username l) eqn:Et; [|by apply (Hby (Some l))].
  unfold identify_peer. wlp_step. apply wlp_get_ctx. intros x2 Hx2. rewrite Hx in Hx2. injection Hx2 as <-.
  destruct (c_ssl x) eqn:Essl; cbn [negb]; [|by apply wlp_refuse].
  destruct (l_psk_hint l).
  - case_bool_decide as Hu; [by apply wlp_refuse|]. wlp_step. exists x. split; [done|]. unfold authorised. by rewrite El, Et.
  - destruct (peer_common_name c) as [name|]; [|by apply wlp_refuse]. wlp_step. apply wlp_upd_ctx. intros x3 Hx3. wlp_step.
    rewrite Hx in Hx3. injection Hx3 as <-. cbn. rewrite lookup_insert_eq. eexists. split; [done|]. unfold authorised. cbn. by rewrite El, Et.
Qed.

(** C19: no client gets past [read_connect], and so none is connected, that is not allowed in: when the CONNECT is accepted, either TLS vouches for the user name, or user name and password pass the check of the plugin or the password file, or anonymous clients are allowed; with [use_username_as_clientid] the identifier is that user name. *)
Theorem connect_is_authorised c d client_id fl version will d' :
  read_connect c d = Some (ROk (client_id, fl, version, will), d') ->
  exists x, d_contexts d' !! c = Some x /\ authorised d' x
    /\ forall i l, c_listener x = Some i -> d_listeners d' !! i = Some l -> l_use_username_as_clientid l = true ->
         c_username x = Some client_id.
Proof.
  intros Hrun. set (Q := fun r (d : mosquitto_db) => exists x, d_contexts d !! c = Some x /\ authorised d x
    /\ forall i l, c_listener x = Some i -> d_listeners d !! i = Some l -> l_use_username_as_clientid l = true ->
         c_username x = Some (r : str * connect_flag_bits * Z * option mosquitto_message).1.1.1).
  refine (wlp_some _ (fun r d => match r with ROk b => Q b d | RErr _ => True end) d _ _ _ Hrun). clear Hrun.
  unfold read_connect. wlp_step. apply wlp_get_ctx. intros x Hx. destruct (negb _); [by wlp_step|].
  apply wlp_read. intros pv d1 _. apply wlp_read. intros byte d2 _. cbv zeta. destruct (_ =? 3); [by wlp_step|].
  apply wlp_read. intros cid d3 _. apply wlp_read. intros w d4 _. apply wlp_read. intros cred d5 _.
  apply wlp_read. intros [] d6 H6. pose proof (wlp_some _ _ _ _ _ (authenticate_run c cred.1 cred.2 d5) H6) as (y & Hy & Ha).
  apply wlp_read. intros final d7 H7. wlp_step. unfold Q. cbn [fst].
  unfold final_client_id in H7. rewrite (bind_at _ _ _ _ _ (get_ctx_at c y d6 Hy)) in H7.
  unfold get_listener in H7. destruct (c_listener y) as [i|] eqn:Ei.
  - unfold mbind at 1 2 3, st_bind, get in H7. destruct (d_listeners d6 !! i) as [l|] eqn:El; [|done]. cbn [unwrap mret st_ret] in H7.
    destruct (l_use_username_as_clientid l) eqn:Eu.
    + destruct (c_username y) as [u|] eqn:Euser; [|exfalso; revert H7; unfold refuse, mbind, st_bind; by destruct (_mosquitto_send_connack _ _ _ _) as [[]|]].
      injection H7 as -> ->. exists y. split; [done|]. split; [done|]. by intros.
    + injection H7 as -> ->. exists y. split; [done|]. split; [done|]. intros j l' E1 E2 E3. rewrite Ei in E1. congruence.
  - injection H7 as -> ->. exists y. split; [done|]. split; [done|]. intros j l' E1. by rewrite Ei in E1.
Qed.
End connect_exchange.

(** * Witnesses *)

#[local] Existing Instances sample_crypto sample_environment sample_network.

(** A bridge with a will, a name and a password. *)
Definition sample_bridge_client : mosquitto :=
  context_calloc <| c_password := Some (lit "pw") |>
    <| c_will := Some (Message (lit "w/t") (lit "gone") 1 true) |>.

Definition sample_connect : list byte :=
  enc_connect sample_bridge_client MQTT_PROTOCOL_V311 60 true (lit "me") (Some (lit "bob")) (Some (lit "pw")).

Definition sample_connecting : mosquitto :=
  context_calloc <| c_sock := 5 |> <| c_in_packet := packet_calloc <| p_command := CONNECT |>
    <| p_payload := sample_connect |> <| p_remaining_length := strlen sample_connect |> |>.

(** The broker knows the user. *)
Definition sample_guarded : mosquitto_db :=
  db_calloc <| d_contexts := {[1%nat := sample_connecting]} |>
    <| d_unpwd := [Unpwd (lit "bob") (Some (lit "saltpw")) (lit "salt")] |>.

Lemma sample_connectable :
  connectable sample_bridge_client MQTT_PROTOCOL_V311 60 (lit "me") (Some (lit "bob")) (Some (lit "pw")).
Proof.
  split.
  - by right.
  - lia.
  - split; [split; [done | by_compute] | discriminate].
  - intros w [= <-]. split; [split; [done | by_compute]|]. split; [discriminate|]. split; [by vm_compute|].
    split; [by vm_compute|]. cbn. lia.
  - intros u [= <-]. split; [done | by_compute].
  - intros p [= <-]. split; [split; [done | by_compute] | discriminate].
  - split; discriminate.
Qed.

Lemma connect_understood_witness : exists y', c_keepalive y' = 60 /\ c_protocol y' = mosq_p_mqtt311
  /\ read_connect 1 (put 1 sample_connecting sample_guarded)
     = (ok ←r authenticate 1 (Some (lit "bob")) (Some (lit "pw"));
        client_id ←r final_client_id 1 (lit "me");
        mret (ROk (client_id, Flags true true 1 true true true, 4, Some (Message (lit "w/t") (lit "gone") 1 true))))
       (put 1 y' sample_guarded).
Proof.
  destruct (connect_understood 1%nat sample_bridge_client MQTT_PROTOCOL_V311 60 true (lit "me") (Some (lit "bob"))
    (Some (lit "pw")) sample_connecting sample_guarded sample_connectable) as (_ & y' & _ & _ & Hp & Hk & E).
  - split; [vm_compute; intuition discriminate | by vm_compute].
  - reflexivity.
  - reflexivity.
  - intros p Hp. discriminate Hp.
  - exists y'. split; [exact Hk|]. split; [exact Hp | exact E].
Defined.

Definition sample_admitted : mosquitto_db := after (read_connect 1) sample_guarded.

Lemma connect_is_authorised_witness : exists x, d_contexts sample_admitted !! 1%nat = Some x
  /\ c_username x = Some (lit "bob") /\ authorised sample_admitted x.
Proof.
  destruct (connect_is_authorised 1%nat sample_guarded (lit "me") (Flags true true 1 true true true) 4
    (Some (Message (lit "w/t") (lit "gone") 1 true)) sample_admitted) as (x & Hx & Ha & _); [by vm_compute|].
  exists x. split; [exact Hx|]. split; [|exact Ha].
  assert (c_username <$> d_contexts sample_admitted !! 1%nat = Some (Some (lit "bob"))) as E by by vm_compute.
  rewrite Hx in E. change (Some (c_username x) = Some (Some (lit "bob"))) in E. exact (Some_inj _ _ E).
Defined.
