(* ===== verification/ClientRules.v ===== *)
(** Client library, first part: rules for the routines of Client.v, what queueing
    a packet writes, the incremental reader on any input, and the invariant [lists_ok]
    of the two lists of messages. *)

From S2P Require Export Joining Client.

#[local] Open Scope Z_scope.

(** * Rules for the routines of Client.v *)

Lemma wp_upd_mosq f Q s : wp (upd_mosq f) Q s <-> Q tt (s <| cl_mosq ::= f |>).
Proof. unfold upd_mosq. by wp_step. Qed.

Lemma wp_lib_time Q s : wp lib_time Q s <-> Q (cl_time s) s.
Proof. unfold lib_time. by wp_step. Qed.

Lemma wp_lib_malloc Q s : wp lib_malloc Q s <-> Q (cl_next s) (s <| cl_next ::= S |>).
Proof. unfold lib_malloc. by wp_step. Qed.

(** [s] after the callback for [e]. *)
Definition called (e : event) (s : client) : client :=
  if cl_callbacks s e then s <| cl_events ::= (fun l => l ++ [e]) |> else s.

Lemma wp_callback e Q s : wp (callback e) Q s <-> Q tt (called e s).
Proof. unfold callback. by wp_step. Qed.

Lemma wp_lib_socket_close Q s :
  wp lib_socket_close Q s <->
  Q 0 (s <| cl_mosq ::= (fun x => x <| c_ssl := false |>
         <| c_sock ::= (fun s => if 0 <=? s then INVALID_SOCKET else s) |>) |>).
Proof. unfold lib_socket_close. wp_step. by rewrite wp_upd_mosq. Qed.

#[global] Hint Rewrite wp_upd_mosq wp_lib_time wp_lib_malloc wp_callback wp_lib_socket_close : wp.

Ltac cl_compute :=
  lazy beta iota delta [upd cl_mosq cl_host cl_port cl_bind_address cl_threaded cl_message_retry
    cl_last_retry_check cl_reconnect_delay cl_reconnect_delay_max cl_reconnect_exponential_backoff
    cl_in_messages cl_in_messages_last cl_out_messages cl_out_messages_last cl_in_queue_len
    cl_out_queue_len cl_inflight_messages cl_max_inflight_messages cl_callbacks cl_events cl_leaked
    cl_next cl_writes cl_reads cl_sent cl_again cl_time].

(** * What the library makes the socket send *)

Definition lib_stream (s : client) : list byte := cl_sent s ++ pending (cl_mosq s).

(** The callbacks for packets that are out. *)
Definition out_event (e : event) : Prop := e = on_disconnect 0 \/ exists mid, e = on_publish mid.

(** From [s] to [s'] packets were queued and written, [bs] more than before, and
    nothing else happened. *)
Record written_more (bs : list byte) (s s' : client) : Prop := WrittenMore {
  wm_client : s' = s <| cl_mosq := cl_mosq s' |> <| cl_writes := cl_writes s' |> <| cl_sent := cl_sent s' |>
                     <| cl_again := cl_again s' |> <| cl_events := cl_events s' |>;
  wm_mosq : cl_mosq s' = (cl_mosq s) <| c_ssl := c_ssl (cl_mosq s') |> <| c_sock := c_sock (cl_mosq s') |>
              <| c_current_out_packet := c_current_out_packet (cl_mosq s') |>
              <| c_out_packet := c_out_packet (cl_mosq s') |>
              <| c_last_msg_out := c_last_msg_out (cl_mosq s') |>;
  wm_sock : c_sock (cl_mosq s') = c_sock (cl_mosq s) \/ c_sock (cl_mosq s') = INVALID_SOCKET;
  wm_wf : ctx_out_wf (cl_mosq s) -> ctx_out_wf (cl_mosq s');
  wm_stream : ctx_out_wf (cl_mosq s) -> lib_stream s' = lib_stream s ++ bs;
  wm_events : exists es, cl_events s' = cl_events s ++ es /\ Forall out_event es;
  wm_writes : Forall write_ok (cl_writes s) -> Forall write_ok (cl_writes s') }.

Lemma written_more_refl s : written_more [] s s.
Proof.
  split.
  - by destruct s.
  - by destruct (cl_mosq s).
  - by left.
  - done.
  - by rewrite app_nil_r.
  - exists []. by rewrite app_nil_r.
  - done.
Qed.

Lemma written_more_trans bs1 bs2 s1 s2 s3 :
  written_more bs1 s1 s2 -> written_more bs2 s2 s3 -> written_more (bs1 ++ bs2) s1 s3.
Proof.
  intros [A1 A2 A3 A4 A5 (es1 & A6 & A6') A7] [B1 B2 B3 B4 B5 (es2 & B6 & B6') B7]. split.
  - rewrite B1, A1. by destruct s1.
  - rewrite B2, A2. by destruct (cl_mosq s1).
  - destruct B3 as [->|]; [done|by right].
  - auto.
  - intros H. rewrite B5, A5, app_assoc; auto.
  - exists (es1 ++ es2). rewrite B6, A6, app_assoc. split; [done|]. by apply Forall_app.
  - auto.
Qed.

(** What a call of [packet_drain] on the current packet does to the client. *)
Definition drained (cur' : option packet) (queue : list packet) (ws : list write_result) (sent : list byte)
    (again : bool) (t : Z) (s : client) : client :=
  s <| cl_writes := ws |> <| cl_sent ::= (fun bs => bs ++ sent) |> <| cl_again := again |>
    <| cl_mosq ::= (fun x => x <| c_current_out_packet := cur' |> <| c_out_packet := queue |>
                               <| c_last_msg_out := t |>) |>.

Lemma called_inv e s : called e s = s <| cl_events := cl_events (called e s) |>
  /\ exists es, cl_events (called e s) = cl_events s ++ es /\ (es = [] \/ es = [e]).
Proof.
  unfold called. destruct (cl_callbacks s e); split; try by destruct s.
  - exists [e]. by auto.
  - exists []. rewrite app_nil_r. by auto.
Qed.

Lemma called_mosq e s : cl_mosq (called e s) = cl_mosq s.
Proof. unfold called. by destruct (cl_callbacks s e). Qed.

Lemma called_more e s : out_event e -> written_more [] s (called e s).
Proof.
  intros He. destruct (called_inv e s) as [E (es & E2 & Hes)]. split; rewrite ?called_mosq.
  - unfold called. destruct (cl_callbacks s e); by destruct s.
  - by destruct (cl_mosq s).
  - by left.
  - done.
  - unfold lib_stream. rewrite called_mosq, app_nil_r. unfold called. by destruct (cl_callbacks s e).
  - exists es. split; [done|]. destruct Hes as [->| ->]; [by apply Forall_nil_2|by apply Forall_singleton].
  - unfold called. by destruct (cl_callbacks s e).
Qed.

Lemma drained_more cur cur' queue queue' ws sent again t s :
  c_current_out_packet (cl_mosq s) = Some cur -> c_out_packet (cl_mosq s) = queue ->
  (out_wf cur -> Forall out_wf queue ->
   Forall out_wf (with_current cur' queue')
   /\ unsent cur ++ concat (map unsent queue) = sent ++ concat (map unsent (with_current cur' queue'))) ->
  (Forall write_ok (cl_writes s) -> Forall write_ok ws) ->
  written_more [] s (drained cur' queue' ws sent again t s).
Proof.
  intros Hc Hq Hb Hw. assert (ctx_out_wf (cl_mosq s) -> out_wf cur /\ Forall out_wf queue) as Hwf.
  { unfold ctx_out_wf, out_packets. rewrite Hc, Hq. cbn. by intros [? ?]%Forall_cons. }
  unfold drained. split; proj_simpl.
  - by destruct s.
  - by destruct (cl_mosq s).
  - by left.
  - intros [H1 H2]%Hwf. by destruct (Hb H1 H2).
  - intros [H1 H2]%Hwf. destruct (Hb H1 H2) as [_ E]. unfold lib_stream, pending, out_packets. proj_simpl.
    rewrite Hc, Hq, app_nil_r. cbn [with_current map concat]. by rewrite E, app_assoc.
  - exists []. by rewrite app_nil_r.
  - done.
Qed.

Lemma close_more s : written_more [] s (s <| cl_mosq ::= (fun x => x <| c_ssl := false |>
         <| c_sock ::= (fun s => if 0 <=? s then INVALID_SOCKET else s) |>) |>).
Proof.
  split; proj_simpl.
  - by destruct s.
  - by destruct (cl_mosq s).
  - destruct (0 <=? _); auto.
  - done.
  - intros _. unfold lib_stream, pending. proj_simpl. by rewrite app_nil_r.
  - exists []. by rewrite app_nil_r.
  - done.
Qed.

Definition writing_done (s : client) (rc : Z) (s' : client) : Prop :=
  written_more [] s s' /\ (Forall write_ok (cl_writes s) -> rc = MOSQ_ERR_SUCCESS).

Lemma writing_done_trans s s1 rc s2 : written_more [] s s1 -> writing_done s1 rc s2 -> writing_done s rc s2.
Proof.
  intros H [H1 H2]. split; [exact (written_more_trans [] [] _ _ _ H H1)|].
  intros Hw. apply H2. by apply (wm_writes _ _ _ H).
Qed.

Lemma called_upd e f s : (called e s) <| cl_mosq ::= f |> = called e (s <| cl_mosq ::= f |>).
Proof. unfold called. destruct s. cl_compute. by destruct (_ e). Qed.

Definition closed_sock (x : mosquitto) : mosquitto :=
  x <| c_ssl := false |> <| c_sock ::= (fun s => if 0 <=? s then INVALID_SOCKET else s) |>.

Definition next_packet (queue : list packet) (t : Z) (x : mosquitto) : mosquitto :=
  x <| c_current_out_packet := head queue |> <| c_out_packet := tail queue |> <| c_last_msg_out := t |>.

Lemma close_next queue t s :
  s <| cl_mosq ::= closed_sock |> <| cl_mosq ::= next_packet queue t |>
  = s <| cl_mosq ::= next_packet queue t |> <| cl_mosq ::= closed_sock |>.
Proof. by destruct s as [[]]. Qed.

(** After a packet was written completely. *)
Lemma write_next queue t p (k : L Z) s0 s :
  written_more [] s0 (s <| cl_mosq ::= next_packet queue t |>) ->
  (forall s1, written_more [] s0 s1 ->
     c_current_out_packet (cl_mosq s1) = head queue -> c_out_packet (cl_mosq s1) = tail queue ->
     wp k (writing_done s0) s1) ->
  wp (if is_publish_sent p then callback (on_publish (p_mid p));; upd_mosq (next_packet queue t);; k
      else if Z.land (p_command p) 0xF0 =? DISCONNECT then
        lib_socket_close;; upd_mosq (next_packet queue t);; callback (on_disconnect 0);; mret MOSQ_ERR_SUCCESS
      else upd_mosq (next_packet queue t);; k) (writing_done s0) s.
Proof.
  intros H1 Hk. set (s1 := s <| cl_mosq ::= next_packet queue t |>) in *.
  assert (forall e, out_event e -> written_more [] s0 (called e s1)) as Hc
    by (intros e He; apply (written_more_trans [] [] _ _ _ H1); by apply called_more).
  destruct (is_publish_sent p); [|destruct (_ =? DISCONNECT)]; wp_step.
  - rewrite called_upd. fold s1. apply Hk; rewrite ?called_mosq; [|done|done].
    apply Hc. right. by eexists.
  - change (fun x => x <| c_ssl := false |> <| c_sock ::= (fun s => if 0 <=? s then INVALID_SOCKET else s) |>)
      with closed_sock.
    rewrite close_next. fold s1. split; [|done]. apply (written_more_trans [] [] _ _ _ H1).
    apply (written_more_trans [] [] _ _ _ (close_more s1)). apply called_more. by left.
  - fold s1. by apply Hk.
Qed.

Lemma lib_write_loop_run queue cur s :
  c_current_out_packet (cl_mosq s) = Some cur -> c_out_packet (cl_mosq s) = queue ->
  wp (lib_write_loop cur queue) (writing_done s) s.
Proof.
  revert cur s. induction queue as [|q queue IH]; intros cur s Hc Hq; cbn [lib_write_loop]; wp_step;
    pose proof (packet_drain_spec (cl_writes s) cur []) as Hd;
    pose proof (packet_drain_ok (cl_writes s) cur []) as Hok;
    destruct (packet_drain (cl_writes s) cur []) as [[[r p'] sent] ws]; wp_step.
  all: assert (forall cur' queue' again t,
    (out_wf p' -> Forall out_wf (c_out_packet (cl_mosq s)) -> (r = inr tt -> unsent p' = []) ->
       Forall out_wf (with_current cur' queue')
       /\ unsent p' ++ concat (map unsent (c_out_packet (cl_mosq s))) = concat (map unsent (with_current cur' queue'))) ->
    written_more [] s (drained cur' queue' ws sent again t s)) as Hm.
  1,3: intros cur' queue' again t Hb; apply drained_more with cur (c_out_packet (cl_mosq s)); [done|done| |by intros Hw; destruct (Hok Hw)];
    intros H1 H2; destruct (Hd H1) as (D1 & _ & (bs & D3 & ->) & D4 & _); cbn in D3; subst bs;
    destruct (Hb D1 H2 D4) as [E1 E2]; split; [done|]; by rewrite <- app_assoc, E2.
  all: destruct r as [rc|[]]; wp_step.
  1,3: split; [|intros Hw; destruct (Hok Hw) as [_ [E|E]]; [done|by injection E as ->]].
  1,2: lazymatch goal with |- written_more [] ?s ?s' =>
      replace s' with (drained (Some p') (c_out_packet (cl_mosq s)) ws sent (bool_decide (@inl Z unit rc = inl 0))
        (c_last_msg_out (cl_mosq s)) s)
        by (unfold drained; destruct s as [x]; cl_compute; f_equal; by destruct x)
      end;
    apply Hm; intros H1 H2 _; cbn [with_current map concat]; split; [by constructor|done].
  - apply (write_next []); [apply (Hm None []); cbn; intros _ _ ->; [|done]; by rewrite Hq|].
    intros s1 H1 _ _. by wp_step.
  - apply (write_next (q :: queue)); [apply (Hm (Some q) queue); cbn; intros _ H ->; [|done]; by rewrite Hq in *|].
    intros s1 H1 E1 E2. eapply wp_mono; [by apply IH|]. intros rc s2 H2. by eapply writing_done_trans.
Qed.

Lemma pop_current_more s : written_more [] s (s <| cl_mosq ::= pop_current |>).
Proof.
  assert (forall x, same_but_out x (pop_current x)) as Hs by apply pop_current_only.
  split; proj_simpl.
  - by destruct s.
  - rewrite (Hs (cl_mosq s)). by destruct (cl_mosq s).
  - left. by rewrite (Hs (cl_mosq s)).
  - unfold ctx_out_wf. by rewrite pop_current_packets.
  - intros _. unfold lib_stream, pending. proj_simpl. by rewrite pop_current_packets, app_nil_r.
  - exists []. by rewrite app_nil_r.
  - done.
Qed.

Definition connected (s : client) : Prop := c_sock (cl_mosq s) <> INVALID_SOCKET.

Lemma lib_packet_write_run s :
  wp lib_packet_write (fun rc s' => written_more [] s s'
    /\ (~ connected s -> rc = MOSQ_ERR_NO_CONN)
    /\ (connected s -> Forall write_ok (cl_writes s) -> rc = MOSQ_ERR_SUCCESS)) s.
Proof.
  unfold lib_packet_write, connected. wp_step. destruct (_ =? INVALID_SOCKET) eqn:Es; wp_step.
  { split; [apply written_more_refl|]. split; [done|lia]. }
  set (s1 := s <| cl_mosq ::= pop_current |>). pose proof (pop_current_more s : written_more [] s s1) as H1.
  destruct (bool_decide _); wp_step; [split; [done|]; split; [lia|done]|].
  destruct (c_current_out_packet (cl_mosq s1)) as [cur|] eqn:Ec; wp_step; [|split; [done|]; split; [lia|done]].
  eapply wp_mono; [by apply lib_write_loop_run|]. intros rc s2 H2.
  destruct (writing_done_trans _ _ _ _ H1 H2) as [H3 H4]. split; [done|]. split; [lia|done].
Qed.

(** [m] queues exactly [bs]. *)
Definition lib_sends (bs : list byte) (m : L Z) : Prop :=
  forall s, wp m (fun rc s' => written_more bs s s'
    /\ (connected s -> Forall write_ok (cl_writes s) -> rc = MOSQ_ERR_SUCCESS)) s.

Lemma lib_packet_queue_sends p bs : holds bs p -> lib_sends bs (lib_packet_queue p).
Proof.
  intros [Hp <-] s. unfold lib_packet_queue. wp_step.
  set (q := p <| p_pos := 0 |> <| p_to_process := p_packet_length p |>).
  set (s1 := s <| cl_mosq ::= _ |>).
  assert (written_more (p_payload p) s s1) as H1.
  { assert (out_packets (cl_mosq s1) = out_packets (cl_mosq s) ++ [q]) as E.
    { unfold out_packets, s1. proj_simpl. by destruct (c_current_out_packet _). }
    destruct Hp as [Hp1 Hp2]. assert (out_wf q) as Hq.
    { unfold out_wf, q. proj_simpl. unfold strlen in *. lia. }
    assert (unsent q = p_payload p) as Hu by done. clearbody q. split; unfold s1; proj_simpl.
    - by destruct s.
    - by destruct (cl_mosq s).
    - by left.
    - intros H. change (ctx_out_wf (cl_mosq s1)). unfold ctx_out_wf. rewrite E.
      apply Forall_app. split; [done|]. by apply Forall_singleton.
    - intros _. unfold lib_stream, pending. fold s1. rewrite E, map_app, concat_app. cbn.
      by rewrite Hu, app_nil_r, app_assoc.
    - exists []. by rewrite app_nil_r.
    - done. }
  destruct (cl_threaded s1); wp_step; [done|].
  eapply wp_mono; [apply lib_packet_write_run|]. cbv beta. intros rc s2 (H2 & _ & H3).
  split; [rewrite <- (app_nil_r (p_payload p)); by eapply written_more_trans|].
  intros Hc Hw. apply H3; [|by apply (wm_writes _ _ _ H1)]. unfold connected, s1 in *. by proj_simpl.
Qed.

Lemma lib_queue_built_sends b bs :
  wp b (fun rc p => rc = 0 /\ holds bs p) packet_calloc -> lib_sends bs (lib_queue_built b).
Proof.
  intros Hb. unfold lib_queue_built. rewrite wp_eq in Hb.
  destruct (b packet_calloc) as [[rc p]|]; [|done]. destruct Hb as [-> Hp]. by apply lib_packet_queue_sends.
Qed.

Lemma lib_send_mid_sends command mid :
  lib_sends (enc_packet command (enc_uint16 mid)) (lib_send_command_with_mid command mid).
Proof. apply lib_queue_built_sends, build_packet_pokes. Qed.

Lemma lib_send_simple_sends command : lib_sends (enc_packet command []) (lib_send_simple_command command).
Proof.
  apply lib_queue_built_sends. eapply wp_mono; [by apply (build_packet_writes command []); [apply writes_ret|..]|cbv beta].
  intros rc p [(-> & _ & H)|[_ ?]]; [done|lia].
Qed.

(** A topic and a payload that the library takes. *)
Definition lib_sendable (topic : str) (payload : list byte) : Prop :=
  strlen topic < 2 ^ 16 /\ 4 + strlen topic + Z.of_nat (length payload) < 2 ^ 28.

Lemma lib_send_real_publish_sends mid topic payload qos retain dup : lib_sendable topic payload ->
  lib_sends (enc_publish mid topic payload qos retain dup)
    (lib_send_real_publish mid topic payload qos retain dup).
Proof.
  intros [Ht Hl]. apply lib_queue_built_sends. wp_step.
  eapply wp_mono; [apply (build_packet_writes (publish_command qos retain dup)
    (enc_string topic ++ (if 0 <? qos then enc_uint16 mid else []) ++ payload))|cbv beta].
  - auto 8 with writes.
  - unfold enc_string, strlen. destruct (0 <? qos); rewrite ?length_app; cbn [length enc_uint16]; lia.
  - destruct (0 <? qos); lia.
  - intros rc p [(-> & _ & H)|[_ ?]]; [done|]. exfalso. destruct (0 <? qos); lia.
Qed.

(** * The incremental reader on any input *)

(** A packet that is being read: up to four digits of its length, or the buffer and
    how much of it is filled. *)
Definition partial_ok (p : packet) : Prop :=
  (p_remaining_count p <= 0 ->
     -4 <= p_remaining_count p /\ 0 <= p_remaining_length p < 128 ^ (- p_remaining_count p)
     /\ p_remaining_mult p = 128 ^ (- p_remaining_count p)
     /\ p_payload p = [] /\ p_pos p = 0 /\ p_to_process p = 0)
  /\ (0 < p_remaining_count p ->
     0 <= p_pos p /\ 0 <= p_to_process p /\ p_pos p + p_to_process p = p_remaining_length p
     /\ Z.of_nat (length (p_payload p)) = p_remaining_length p /\ p_remaining_length p < 2 ^ 28).

(** All of it is there. *)
Definition complete (p : packet) : Prop :=
  p_pos p = p_remaining_length p /\ Z.of_nat (length (p_payload p)) = p_remaining_length p
  /\ 0 <= p_remaining_length p < 2 ^ 28.

Lemma cleanup_partial p : partial_ok (_mosquitto_packet_cleanup p).
Proof. split; cbn; [|lia]. by intros _. Qed.

Lemma complete_inpacket p : complete p -> inpacket_wf (p <| p_pos := 0 |>).
Proof. intros (H1 & H2 & H3). unfold inpacket_wf. proj_simpl. lia. Qed.

Lemma land_127_bound z : 0 <= Z.land z 127 <= 127.
Proof.
  change 127 with (Z.ones 7). rewrite Z.land_ones by done.
  pose proof (Z.mod_pos_bound z (2 ^ 7) eq_refl). change (Z.ones 7) with 127. lia.
Qed.

Lemma read_remaining_any fuel rs p n :
  partial_ok p -> p_remaining_count p <= 0 ->
  let '(out, p', _, _) := read_remaining fuel rs p n in
  match out with
  | inr tt => partial_ok p' /\ p_remaining_count p' < 0
  | inl rc => rc = MOSQ_ERR_SUCCESS -> partial_ok p' /\ p_remaining_count p' <= 0
  end.
Proof.
  revert rs p n. induction fuel as [|fuel IH]; intros rs p n Hp Hc; cbn [read_remaining]; [done|].
  destruct (_mosquitto_net_read rs 1) as [r rs'] eqn:Er.
  destruct r as [[|b [|? ?]]| | | |]; try done.
  destruct (_ <? -4) eqn:E4; [done|]. proj_simpl.
  set (p1 := p <| p_remaining_count ::= Z.pred |> <| p_remaining_length ::= _ |> <| p_remaining_mult ::= _ |>).
  assert (partial_ok p1 /\ p_remaining_count p1 < 0) as [Hp1 Hc1].
  { destruct Hp as [Hp _]. destruct (Hp Hc) as (H1 & H2 & H3 & H4). unfold p1, partial_ok. proj_simpl.
    split; [|lia]. split; [|lia]. intros _. split; [by apply Z.ltb_ge in E4|].
    assert (0 <= Z.land (Z_of_byte b) 127 <= 127) as Hb by apply land_127_bound.
    apply Z.ltb_ge in E4. clear IH Er Hp p1.
    remember (- p_remaining_count p) as k eqn:Ek. assert (0 <= k <= 3) as Hk by lia.
    replace (- Z.pred (p_remaining_count p)) with (Z.succ k) by lia. rewrite Z.pow_succ_r by lia.
    assert (1 <= 128 ^ k <= 128 ^ 3) as Hpow by (split; [pose proof (Z.pow_pos_nonneg 128 k ltac:(lia) ltac:(lia)); lia | apply Z.pow_le_mono_r; lia]).
    change (128 ^ 3) with 2097152 in Hpow.
    rewrite H3. set (q := 128 ^ k) in *. set (v := Z.land (Z_of_byte b) 127) in *.
    assert (0 <= v * q <= 127 * q) as Hvq by nia. clearbody q v.
    rewrite !u32_small by lia. split; [lia|]. split; [lia|]. done. }
  clearbody p1. destruct (_ =? 0); [done|]. apply IH; [done|lia].
Qed.

Lemma read_length_partial rs p n :
  partial_ok p ->
  let '(out, p', _, _) := read_length rs p n in
  match out with
  | inr tt => partial_ok p' /\ 0 < p_remaining_count p'
  | inl rc => rc = MOSQ_ERR_SUCCESS -> partial_ok p'
  end.
Proof.
  intros Hp. unfold read_length. destruct (0 <? p_remaining_count p) eqn:Ec; [split; [done|lia]|].
  pose proof (read_remaining_any 5 rs p n Hp ltac:(lia)) as H.
  destruct (read_remaining 5 rs p n) as [[[[rc|[]] p1] n1] rs1]; [intros E; by destruct (H E)|].
  destruct H as [[H _] Hc]. destruct (H ltac:(lia)) as (H1 & H2 & H3 & H4 & H5 & H6).
  assert (p_remaining_length p1 < 2 ^ 28) as Hl.
  { change (2 ^ 28) with (128 ^ 4). eapply Z.lt_le_trans; [apply H2|apply Z.pow_le_mono_r; lia]. }
  proj_simpl. destruct (0 <? p_remaining_length p1) eqn:El; unfold partial_ok; proj_simpl.
  - split; [|lia]. split; [lia|]. intros _. rewrite length_replicate. lia.
  - split; [|lia]. split; [lia|]. intros _. rewrite H4. cbn. lia.
Qed.

Lemma net_read_some rs count b bs more :
  _mosquitto_net_read rs count = (RdOk (b :: bs), more) -> 0 < count -> strlen (b :: bs) <= count.
Proof.
  unfold _mosquitto_net_read. destruct rs as [|[l| | | |] rest]; try done. intros E Hc.
  destruct (drop (Z.to_nat count) l) as [|y k] eqn:Ed.
  - injection E as -> _. apply (f_equal length) in Ed. rewrite length_drop in Ed. unfold strlen. cbn [length] in *. lia.
  - injection E as E _. apply (f_equal length) in E. rewrite length_take in E. unfold strlen. lia.
Qed.

Lemma read_payload_any rs p n :
  partial_ok p -> 0 < p_remaining_count p ->
  let '(out, p', _, _) := read_payload rs p n in
  match out with
  | inr tt => complete p'
  | inl (rc, _) => partial_ok p'
  end.
Proof.
  revert p n. induction rs as [|r rs IH]; intros p n Hp Hc; cbn [read_payload];
    pose proof (proj2 Hp Hc) as (H1 & H2 & H3 & H4 & H5); destruct (0 <? p_to_process p) eqn:Et;
    try done; try (unfold complete; lia).
  destruct (_mosquitto_net_read (r :: rs) (p_to_process p)) as [[[|b bs]| | | |] more] eqn:Er; try done.
  pose proof (net_read_some _ _ _ _ _ Er ltac:(lia)) as Hn.
  pose proof (strlen_nonneg (b :: bs)) as Hn0.
  set (k := strlen (b :: bs)) in *. set (p1 := p <| p_payload ::= _ |> <| p_to_process ::= _ |> <| p_pos ::= _ |>).
  assert (partial_ok p1 /\ 0 < p_remaining_count p1) as [Hp1 Hc1].
  { unfold p1, partial_ok. proj_simpl. split; [|done]. split; [lia|]. intros _.
    rewrite !u32_small, memcpy_at_length by (unfold k, strlen in *; lia). lia. }
  destruct (0 <? p_to_process p1) eqn:E1; [by apply IH|].
  pose proof (proj2 Hp1 Hc1) as (G1 & G2 & G3 & G4 & G5). unfold complete. lia.
Qed.

Lemma assemble_partial may rs p n :
  partial_ok p ->
  let '(out, p', _, _) := assemble may rs p n in
  match out with
  | inr tt => complete p'
  | inl (rc, _) => rc = MOSQ_ERR_SUCCESS -> partial_ok p'
  end.
Proof.
  intros Hp. unfold assemble, read_command.
  assert (forall c, partial_ok (p <| p_command := c |>)) as Hcmd by (intros c; unfold partial_ok; by proj_simpl).
  assert (forall p1 n1 rs1, partial_ok p1 ->
    let '(out, p', _, _) := match read_length rs1 p1 n1 with
      | (inl rc, p, received, rs) => (inl (rc, false), p, received, rs)
      | (inr tt, p, received, rs) => read_payload rs p received
      end in
    match out with inr tt => complete p' | inl (rc, _) => rc = MOSQ_ERR_SUCCESS -> partial_ok p' end) as Hrest.
  { intros p1 n1 rs1 Hp1. pose proof (read_length_partial rs1 p1 n1 Hp1) as H.
    destruct (read_length rs1 p1 n1) as [[[[rc|[]] p2] n2] rs2]; [done|]. destruct H as [H Hc].
    pose proof (read_payload_any rs2 p2 n2 H Hc) as H3.
    destruct (read_payload rs2 p2 n2) as [[[[[rc b]|[]] p3] n3] rs3]; by intros. }
  destruct (negb (p_command p =? 0)); [by apply Hrest|].
  destruct (_mosquitto_net_read rs 1) as [[[|b [|? ?]]| | | |] rs']; try done.
  destruct (may _); [by apply Hrest|]. by intros.
Qed.

(** * The lists of messages *)

Definition message_ok (m : mosquitto_message_all) : Prop :=
  0 < msg_qos (ma_msg m) <= 2 /\ strlen (msg_topic (ma_msg m)) < 2 ^ 16
  /\ Z.of_nat (length (msg_payload (ma_msg m))) <= MQTT_MAX_PAYLOAD.

(** What CONNECT carries, and what fits into it. *)
Definition names (x : mosquitto) : option str * option str * option str * option mosquitto_message :=
  (c_id x, c_username x, c_password x, c_will x).

Definition short (o : option str) : Prop := forall s, o = Some s -> strlen s < 2 ^ 16.

Definition names_ok (x : mosquitto) : Prop :=
  c_id x <> None /\ short (c_id x) /\ short (c_username x) /\ short (c_password x)
  /\ forall w, c_will x = Some w -> strlen (msg_topic w) < 2 ^ 16 /\ strlen (msg_payload w) < 2 ^ 16.

Lemma names_ok_eq x y : names x = names y -> names_ok x -> names_ok y.
Proof. unfold names, names_ok. by intros [= -> -> -> ->]. Qed.

(** The pointers to the last messages point there, the lengths are those of the lists,
    and no message is on both. *)
Record lists_ok (s : client) : Prop := ListsOk {
  lo_in_last : cl_in_messages_last s = last_addr (cl_in_messages s);
  lo_out_last : cl_out_messages_last s = last_addr (cl_out_messages s);
  lo_in_len : cl_in_queue_len s = Z.of_nat (length (cl_in_messages s));
  lo_out_len : cl_out_queue_len s = Z.of_nat (length (cl_out_messages s));
  lo_in : Forall (fun m => msg_qos (ma_msg m) = 2) (cl_in_messages s);
  lo_messages : Forall message_ok (cl_in_messages s ++ cl_out_messages s);
  lo_nodup : NoDup (map ma_addr (cl_in_messages s ++ cl_out_messages s));
  lo_fresh : Forall (fun m => (ma_addr m < cl_next s)%nat) (cl_in_messages s ++ cl_out_messages s);
  lo_wf : ctx_out_wf (cl_mosq s);
  lo_names : names_ok (cl_mosq s);
  lo_sock : -1 <= c_sock (cl_mosq s);
  lo_bind : cl_bind_address s <> Freed }.

Lemma lists_ok_mosq f s :
  lists_ok s -> (ctx_out_wf (cl_mosq s) -> ctx_out_wf (f (cl_mosq s))) -> names (f (cl_mosq s)) = names (cl_mosq s) ->
  -1 <= c_sock (f (cl_mosq s)) -> lists_ok (s <| cl_mosq ::= f |>).
Proof.
  intros [] H1 H2 H3. split; proj_simpl; try done; [by apply H1|by eapply names_ok_eq].
Qed.

Lemma lists_ok_more bs s s' : lists_ok s -> written_more bs s s' -> lists_ok s'.
Proof.
  intros [] H. pose proof (wm_wf _ _ _ H) as Hwf. pose proof (wm_mosq _ _ _ H) as Hm.
  pose proof (wm_sock _ _ _ H) as Hsock. rewrite (wm_client _ _ _ H) in *.
  split; proj_simpl; try done; [by apply Hwf| |].
  - eapply names_ok_eq; [|done]. rewrite Hm. by proj_simpl.
  - unfold INVALID_SOCKET in *. lia.
Qed.

Lemma lists_ok_called e s : lists_ok s -> lists_ok (called e s).
Proof. unfold called. destruct (cl_callbacks s e); [|done]. by intros []. Qed.

(** [m] only queues and writes packets. *)
Definition only_sends {A} (m : L A) : Prop := forall s, wp m (fun _ s' => exists bs, written_more bs s s') s.

Lemma only_sends_ret {A} (a : A) : only_sends (mret a).
Proof. intros s. wp_step. exists []. apply written_more_refl. Qed.

Lemma only_sends_bind {A B} (m : L A) (f : A -> L B) :
  only_sends m -> (forall a, only_sends (f a)) -> only_sends (m ≫= f).
Proof.
  intros Hm Hf s. wp_step. eapply wp_mono; [apply Hm|]. intros a s1 [bs1 H1].
  eapply wp_mono; [apply Hf|]. intros b s2 [bs2 H2]. exists (bs1 ++ bs2). by eapply written_more_trans.
Qed.

Lemma only_sends_sends bs m : lib_sends bs m -> only_sends m.
Proof. intros H s. eapply wp_mono; [apply H|]. intros rc s' [? _]. by exists bs. Qed.

Lemma only_sends_keeps_lists {A} (m : L A) s : only_sends m -> lists_ok s -> wp m (fun _ s' => lists_ok s') s.
Proof. intros Hm Hs. eapply wp_mono; [apply Hm|]. intros _ s' [bs H]. by eapply lists_ok_more. Qed.

Lemma queue_built_only_sends command bs rl body :
  writes bs body -> rl = Z.of_nat (length bs) -> rl < 2 ^ 32 ->
  only_sends (lib_queue_built (build_packet command rl body)).
Proof.
  intros Hb Hrl Hl s. unfold lib_queue_built.
  pose proof (build_packet_writes command bs rl body packet_calloc Hb Hrl Hl) as H. rewrite wp_eq in H.
  destruct (build_packet _ _ _ _) as [[rc p]|]; [|done]. destruct H as [(-> & _ & Hh)|[-> _]].
  - change (negb (0 =? 0)) with false. cbv iota.
    eapply wp_mono; [exact (lib_packet_queue_sends p _ Hh s)|]. intros rc s' [H _]. by eexists.
  - change (negb (MOSQ_ERR_PAYLOAD_SIZE =? 0)) with true. cbv iota. apply only_sends_ret.
Qed.

Lemma lib_send_publish_only_sends mid topic payload qos retain dup :
  strlen topic < 2 ^ 16 -> Z.of_nat (length payload) <= MQTT_MAX_PAYLOAD ->
  only_sends (lib_send_publish mid topic payload qos retain dup).
Proof.
  intros Ht Hp s. unfold lib_send_publish. wp_step. destruct (_ =? INVALID_SOCKET); [apply only_sends_ret|].
  unfold lib_send_real_publish, lib_queue_built. set (b := _ ;; _).
  assert (wp b (fun rc p => rc = MOSQ_ERR_PAYLOAD_SIZE \/ rc = 0
    /\ holds (enc_publish mid topic payload qos retain dup) p) packet_calloc) as Hb.
  { unfold b. wp_step. eapply wp_mono; [apply (build_packet_writes (publish_command qos retain dup)
      (enc_string topic ++ (if 0 <? qos then enc_uint16 mid else []) ++ payload))|cbv beta].
    - auto 8 with writes.
    - unfold enc_string, strlen. destruct (0 <? qos); rewrite ?length_app; cbn [length enc_uint16]; lia.
    - unfold MQTT_MAX_PAYLOAD in *. destruct (0 <? qos); lia.
    - intros rc p [(-> & _ & H)|[-> _]]; [by right|by left]. }
  rewrite wp_eq in Hb. destruct (b packet_calloc) as [[rc p]|]; [|done].
  destruct Hb as [->|[-> Hh]].
  - change (negb (MOSQ_ERR_PAYLOAD_SIZE =? 0)) with true. cbv iota. apply only_sends_ret.
  - change (negb (0 =? 0)) with false. cbv iota.
    eapply wp_mono; [exact (lib_packet_queue_sends p _ Hh s)|]. intros rc s' [H _]. by eexists.
Qed.

Lemma send_message_only_sends m : message_ok m -> only_sends (send_message m).
Proof. intros (_ & H2 & H3). unfold send_message. apply lib_send_publish_only_sends; [exact H2|exact H3]. Qed.

(** ** Lists of messages *)

Lemma last_addr_snoc l m : last_addr (l ++ [m]) = Some (ma_addr m).
Proof. unfold last_addr. by rewrite last_snoc. Qed.

Lemma last_addr_some l a : last_addr l = Some a -> exists k m, l = k ++ [m] /\ ma_addr m = a.
Proof.
  unfold last_addr. destruct l as [|m k _] using rev_ind; [done|]. rewrite last_snoc. intros [= <-]. by exists k, m.
Qed.

Lemma cut_after_last a l : NoDup (map ma_addr l) -> last_addr l = Some a -> cut_after a l = Some (l, []).
Proof.
  intros Hn (k & m & -> & <-)%last_addr_some. rewrite map_app in Hn. cbn [map] in Hn.
  induction k as [|n k IH]; cbn [app cut_after].
  - by rewrite decide_True.
  - cbn [map app] in Hn. inversion Hn as [|? ? Hn1 Hn2]; subst. rewrite decide_False.
    + by rewrite IH.
    + intros E. apply Hn1. rewrite E. set_solver.
Qed.

Lemma cut_after_not_in a l : (a ∉ map ma_addr l) -> cut_after a l = None.
Proof.
  induction l as [|m l IH]; [done|]. cbn [map cut_after]. intros [H1 H2]%not_elem_of_cons.
  rewrite decide_False by congruence. by rewrite IH.
Qed.

Lemma split_mid_app mid l before m rest :
  split_mid mid l = Some (before, m, rest) ->
  l = before ++ m :: rest /\ ma_mid m = mid /\ Forall (fun n => ma_mid n <> mid) before.
Proof.
  revert before. induction l as [|n l IH]; intros before; cbn [split_mid]; [done|].
  destruct (ma_mid n =? mid) eqn:E.
  - intros [= <- <- <-]. split; [done|]. split; [lia|constructor].
  - destruct (split_mid mid l) as [[[b' m'] r']|] eqn:E2; [|done]. cbn. intros [= <- <- <-].
    destruct (IH b' eq_refl) as (-> & ? & ?). split; [done|]. split; [done|]. constructor; [lia|done].
Qed.
