(* ===== verification/ClientLists.v ===== *)
(** Client library, second part: queueing, resetting, releasing and resending messages
    keep [lists_ok]. *)

From S2P Require Export ClientRules.

#[local] Open Scope Z_scope.

(** ** Operations on the lists *)

Lemma lists_ok_set_out outs s :
  lists_ok s -> map ma_addr outs = map ma_addr (cl_out_messages s) -> Forall message_ok outs ->
  lists_ok (s <| cl_out_messages := outs |>).
Proof.
  intros [] Ha Hm.
  assert (length outs = length (cl_out_messages s)) as Hl by (rewrite <- (length_map ma_addr outs), Ha; apply length_map).
  split; proj_simpl; try done.
  - rewrite lo_out_last. unfold last_addr. change (@fmap option _ _ _ ma_addr) with (@fmap option _ _ _ ma_addr).
    rewrite <- !fmap_last. change (fmap (M := list)) with (@map mosquitto_message_all addr). by rewrite Ha.
  - by rewrite Hl.
  - apply Forall_app in lo_messages as [? _]. by apply Forall_app.
  - rewrite map_app, Ha, <- map_app. done.
  - apply Forall_app in lo_fresh as [H1 H2]. apply Forall_app. split; [done|].
    rewrite <- (Forall_map ma_addr (fun a => (a < cl_next s)%nat)) in H2 |- *. by rewrite Ha.
Qed.

Lemma lists_ok_set_in ins s :
  lists_ok s -> map ma_addr ins = map ma_addr (cl_in_messages s) -> Forall message_ok ins ->
  Forall (fun m => msg_qos (ma_msg m) = 2) ins -> lists_ok (s <| cl_in_messages := ins |>).
Proof.
  intros [] Ha Hm Hq.
  assert (length ins = length (cl_in_messages s)) as Hl by (rewrite <- (length_map ma_addr ins), Ha; apply length_map).
  split; proj_simpl; try done.
  - rewrite lo_in_last. unfold last_addr.
    rewrite <- !fmap_last. change (fmap (M := list)) with (@map mosquitto_message_all addr). by rewrite Ha.
  - by rewrite Hl.
  - apply Forall_app in lo_messages as [_ ?]. by apply Forall_app.
  - rewrite map_app, Ha, <- map_app. done.
  - apply Forall_app in lo_fresh as [H1 H2]. apply Forall_app. split; [|done].
    rewrite <- (Forall_map ma_addr (fun a => (a < cl_next s)%nat)) in H1 |- *. by rewrite Ha.
Qed.

Definition fresh_message (m : mosquitto_message_all) (s : client) : Prop :=
  message_ok m /\ (ma_addr m ∉ map ma_addr (cl_in_messages s ++ cl_out_messages s)) /\ (ma_addr m < cl_next s)%nat.

(** Queueing is appending to the list. *)
Lemma queue_out_run m s : lists_ok s -> fresh_message m s ->
  wp (_mosquitto_message_queue m mosq_md_out) (fun _ s' => lists_ok s'
    /\ cl_out_messages s' = cl_out_messages s ++ [m] /\ cl_in_messages s' = cl_in_messages s
    /\ s' = s <| cl_out_messages := cl_out_messages s' |> <| cl_out_messages_last := cl_out_messages_last s' |>
              <| cl_out_queue_len := cl_out_queue_len s' |> <| cl_inflight_messages := cl_inflight_messages s' |>
    /\ cl_inflight_messages s' = if in_window s then cl_inflight_messages s + 1 else cl_inflight_messages s) s.
Proof.
  intros Hs (Hm & Ha & Hf). pose proof Hs as []. unfold _mosquitto_message_queue. wp_step. rewrite lo_out_last.
  rewrite map_app in lo_nodup, Ha. apply NoDup_app in lo_nodup as (N1 & N2 & N3).
  apply not_elem_of_app in Ha as [Ha1 Ha2].
  assert (wp (match last_addr (cl_out_messages s) with
              | Some a => link_after a m
              | None => modify (fun s => s <| cl_out_messages := [m] |>)
              end) (fun _ s' => s' = s <| cl_out_queue_len ::= Z.succ |> <| cl_out_messages ::= (fun l => l ++ [m]) |>)
            (s <| cl_out_queue_len ::= Z.succ |>)) as Hlink.
  { destruct (last_addr (cl_out_messages s)) as [a|] eqn:El; [|wp_step].
    - unfold link_after. wp_step. proj_simpl. rewrite (cut_after_last a (cl_out_messages s)) by done.
      rewrite cut_after_not_in.
      + wp_step. destruct s. by cl_compute.
      + intros Hin. apply (N2 a Hin). apply last_addr_some in El as (k & n & -> & <-). rewrite map_app. apply elem_of_app. right. cbn. by left.
    - unfold last_addr in El. destruct (cl_out_messages s) as [|n k _] eqn:E using rev_ind; [|by rewrite last_snoc in El].
      destruct s. cbn in E. subst. by cl_compute. }
  eapply wp_mono; [exact Hlink|]. cbv beta. intros _ s' ->. wp_step. unfold in_window. proj_simpl.
  assert ((0 <? msg_qos (ma_msg m)) = true) as -> by (destruct Hm; lia). cbn [andb].
  set (w := _ || _). destruct w; wp_step.
  all: split; [|split; [|split; [|split]]]; proj_simpl; try done; try (destruct s; by cl_compute); try lia.
  all: split; proj_simpl; try done; rewrite ?last_addr_snoc, ?length_app; cbn [length]; try lia.
  all: rewrite ?app_assoc; try (apply Forall_app; split; [done|]; by apply Forall_singleton).
  all: try reflexivity.
  all: rewrite !map_app; apply NoDup_app; split; [apply NoDup_app; by split_and!|]; split; [|apply NoDup_singleton].
  all: intros a [H|H]%elem_of_app Hin; cbn in Hin; apply list_elem_of_singleton in Hin as ->; done.
Qed.

Lemma queue_in_run m s : lists_ok s -> fresh_message m s -> msg_qos (ma_msg m) = 2 ->
  wp (_mosquitto_message_queue m mosq_md_in) (fun _ s' => lists_ok s'
    /\ s' = s <| cl_in_messages := cl_in_messages s ++ [m] |> <| cl_in_messages_last := Some (ma_addr m) |>
              <| cl_in_queue_len := cl_in_queue_len s + 1 |>) s.
Proof.
  intros Hs (Hm & Ha & Hf) Hq. pose proof Hs as []. unfold _mosquitto_message_queue. wp_step. rewrite lo_in_last.
  rewrite map_app in lo_nodup, Ha. apply NoDup_app in lo_nodup as (N1 & N2 & N3).
  apply not_elem_of_app in Ha as [Ha1 Ha2]. apply Forall_app in lo_messages as [M1 M2], lo_fresh as [F1 F2].
  assert (wp (match last_addr (cl_in_messages s) with
              | Some a => link_after a m
              | None => modify (fun s => s <| cl_in_messages := [m] |>)
              end) (fun _ s' => s' = s <| cl_in_queue_len ::= Z.succ |> <| cl_in_messages ::= (fun l => l ++ [m]) |>)
            (s <| cl_in_queue_len ::= Z.succ |>)) as Hlink.
  { destruct (last_addr (cl_in_messages s)) as [a|] eqn:El; [|wp_step].
    - unfold link_after. wp_step. proj_simpl. rewrite (cut_after_last a (cl_in_messages s)) by done.
      wp_step. destruct s. by cl_compute.
    - unfold last_addr in El. destruct (cl_in_messages s) as [|n k _] eqn:E using rev_ind; [|by rewrite last_snoc in El].
      destruct s. cbn in E. subst. by cl_compute. }
  eapply wp_mono; [exact Hlink|]. cbv beta. intros _ s' ->. wp_step.
  split; [|destruct s; by cl_compute].
  split; proj_simpl; try done; rewrite ?last_addr_snoc, ?length_app; cbn [length]; try lia; try reflexivity.
  - apply Forall_app. split; [done|]. by apply Forall_singleton.
  - apply Forall_app. split; [|done]. apply Forall_app. split; [done|]. by apply Forall_singleton.
  - rewrite !map_app, <- app_assoc. apply NoDup_app. split; [done|]. split.
    + intros a H1 [H2|H2]%elem_of_app; [|by apply (N2 a)]. cbn in H2. apply list_elem_of_singleton in H2 as ->. done.
    + cbn. by constructor.
  - apply Forall_app. split; [|done]. apply Forall_app. split; [done|]. by apply Forall_singleton.
Qed.

(** ** Connecting again *)

(** Only what must be sent again is on the list of incoming messages, so all is kept. *)
Lemma in_reset_all kept l n : Forall (fun m => msg_qos (ma_msg m) = 2) l ->
  in_reset_loop kept l n = Some (kept ++ map (fun m => m <| ma_timestamp := 0 |>) l, n + Z.of_nat (length l)).
Proof.
  intros Hl. revert kept n. induction Hl as [|m l Hm Hl IH]; intros kept n; cbn [in_reset_loop map length].
  - by rewrite app_nil_r, Z.add_0_r.
  - rewrite Hm. change (negb (2 =? 2)) with false. cbv iota. rewrite IH, <- app_assoc. cbn [app]. do 2 f_equal. lia.
Qed.

Lemma out_reset_addrs max n l : map ma_addr (out_reset_loop max n l).1 = map ma_addr l.
Proof.
  revert n. induction l as [|m l IH]; intros n; cbn [out_reset_loop]; [done|].
  specialize (IH (if 0 <? msg_qos (ma_msg m) then n + 1 else n)).
  destruct (out_reset_loop _ _ l) as [l' n']. cbn in *. by rewrite IH.
Qed.

Lemma out_reset_messages max n l : map ma_msg (out_reset_loop max n l).1 = map ma_msg l.
Proof.
  revert n. induction l as [|m l IH]; intros n; cbn [out_reset_loop]; [done|].
  specialize (IH (if 0 <? msg_qos (ma_msg m) then n + 1 else n)).
  destruct (out_reset_loop _ _ l) as [l' n']. cbn in *. by rewrite IH.
Qed.

Lemma messages_ok_map l k : map ma_msg l = map ma_msg k -> Forall message_ok k -> Forall message_ok l.
Proof.
  intros E H. pose proof (Forall_map ma_msg (fun x => 0 < msg_qos x <= 2 /\ strlen (msg_topic x) < 2 ^ 16
    /\ Z.of_nat (length (msg_payload x)) <= MQTT_MAX_PAYLOAD)) as F.
  apply F. rewrite <- E || rewrite E. by apply F.
Qed.

Lemma last_addr_map l k : map ma_addr l = map ma_addr k -> last_addr l = last_addr k.
Proof.
  intros E. unfold last_addr. rewrite <- !fmap_last.
  change (fmap (M := list)) with (@map mosquitto_message_all addr). by rewrite E.
Qed.

Lemma map_addr_length l k : map ma_addr l = map ma_addr k -> length l = length k.
Proof. intros E. by rewrite <- (length_map ma_addr l), E, length_map. Qed.

(** The defect of the shared [prev]: it shows when only incoming messages are kept. *)
Definition resettable (s : client) : Prop := cl_out_messages s <> [] \/ cl_in_messages s = [].

Lemma reconnect_reset_ok s : lists_ok s -> resettable s ->
  wp _mosquitto_messages_reconnect_reset (fun _ s' => lists_ok s' /\ cl_mosq s' = cl_mosq s
    /\ cl_host s' = cl_host s /\ cl_port s' = cl_port s /\ cl_bind_address s' = cl_bind_address s) s.
Proof.
  intros Hs Hr. pose proof Hs as []. unfold _mosquitto_messages_reconnect_reset. wp_step.
  rewrite in_reset_all by done. wp_step. eexists. split; [done|]. cbn [app].
  pose proof (out_reset_addrs (cl_max_inflight_messages s) 0 (cl_out_messages s)) as Ha.
  pose proof (out_reset_messages (cl_max_inflight_messages s) 0 (cl_out_messages s)) as Hm.
  destruct (out_reset_loop _ _ _) as [outs n]. cbn [fst] in Ha, Hm. wp_step.
  set (ins := map (fun m => m <| ma_timestamp := 0 |>) (cl_in_messages s)).
  assert (map ma_addr ins = map ma_addr (cl_in_messages s)) as Hia by (unfold ins; by rewrite map_map).
  assert (map ma_msg ins = map ma_msg (cl_in_messages s)) as Him by (unfold ins; by rewrite map_map).
  assert (Forall (fun m => msg_qos (ma_msg m) = 2) ins) as Hiq by (apply Forall_map; by eapply Forall_impl).
  assert (length ins = length (cl_in_messages s)) as Hil by by apply map_addr_length.
  clearbody ins. split; [|done]. split; proj_simpl; try done.
  - destruct (last_addr outs) as [a|] eqn:El; [done|].
    assert (outs = []) as -> by (unfold last_addr in El; destruct outs as [|m k _] using rev_ind; [done|by rewrite last_snoc in El]).
    destruct Hr as [Hr|Hr]; [by destruct (cl_out_messages s)|]. rewrite Hr in Hil. by destruct ins.
  - lia.
  - apply messages_ok_map with (cl_in_messages s ++ cl_out_messages s); [|done]. by rewrite !map_app, Him, Hm.
  - by rewrite map_app, Hia, Ha, <- map_app.
  - rewrite <- (Forall_map ma_addr (fun a => (a < cl_next s)%nat)), map_app, Hia, Ha, <- map_app.
    by apply Forall_map.
Qed.

(** ** Removing, resending *)

Lemma last_after_ok before rest m :
  last_after before rest (last_addr (before ++ m :: rest)) = last_addr (before ++ rest).
Proof.
  unfold last_after, last_addr. destruct rest as [|n rest]; [by rewrite app_nil_r|].
  by rewrite !last_app_cons, last_cons_cons.
Qed.

Lemma fill_window_ok before l s : lists_ok s -> cl_out_messages s = before ++ l ->
  wp (fill_window before l) (fun _ s' => lists_ok s') s.
Proof.
  revert before s. induction l as [|m l IH]; intros before s Hs E; cbn [fill_window]; [by wp_step|].
  wp_step. destruct (in_window s); [|by wp_step].
  assert (forall m', ma_addr m' = ma_addr m -> ma_msg m' = ma_msg m -> forall s1, lists_ok s1 -> cl_out_messages s1 = before ++ m :: l ->
    lists_ok (s1 <| cl_out_messages := before ++ m' :: l |>)) as Hset.
  { intros m' E1 E2 s1 Hs1 Es1. apply lists_ok_set_out; [done| |].
    - rewrite Es1, !map_app. cbn. by rewrite E1.
    - apply messages_ok_map with (cl_out_messages s1); [rewrite Es1, !map_app; cbn; by rewrite E2|].
      pose proof (lo_messages _ Hs1) as H. by apply Forall_app in H as [_ ?]. }
  destruct (_ && _); [|apply IH; [done|by rewrite <- app_assoc]].
  set (m' := m <| ma_state := first_state m |>). wp_step.
  set (s1 := s <| cl_inflight_messages ::= Z.succ |>).
  assert (lists_ok s1) as Hs1 by (destruct Hs; by split).
  assert (lists_ok (s1 <| cl_out_messages := before ++ m' :: l |>)) as Hs2 by by apply Hset.
  assert (message_ok m') as Hm'.
  { pose proof (lo_messages _ Hs2) as H. apply Forall_app in H as [_ H]. apply Forall_app in H as [_ H].
    by apply Forall_cons in H as [? _]. }
  eapply wp_mono; [by apply send_message_only_sends|]. cbv beta. intros rc s3 [bs H3].
  pose proof (lists_ok_more _ _ _ Hs2 H3) as Hs3. destruct (negb (rc =? 0)); [by wp_step|].
  apply IH; [done|]. rewrite (wm_client _ _ _ H3). proj_simpl. by rewrite <- app_assoc.
Qed.

Lemma nodup_remove {A} (l k : list A) a : NoDup (l ++ a :: k) -> NoDup (l ++ k).
Proof. rewrite !NoDup_ListNoDup. apply NoDup_remove_1. Qed.

Lemma lists_ok_remove_out before m rest n s : lists_ok s -> cl_out_messages s = before ++ m :: rest ->
  lists_ok (s <| cl_out_messages := before ++ rest |> <| cl_out_queue_len ::= Z.pred |>
    <| cl_out_messages_last ::= last_after before rest |> <| cl_inflight_messages ::= n |>).
Proof.
  intros [] E. rewrite E in *. split; proj_simpl; try done.
  - by rewrite lo_out_last, last_after_ok.
  - rewrite length_app in *. cbn [length] in *. lia.
  - rewrite !Forall_app, Forall_cons in *. tauto.
  - rewrite !map_app in *. cbn in lo_nodup. rewrite app_assoc in *. by apply nodup_remove in lo_nodup.
  - rewrite !Forall_app, Forall_cons in *. tauto.
Qed.

Lemma lists_ok_remove_in before m rest s : lists_ok s -> cl_in_messages s = before ++ m :: rest ->
  lists_ok (s <| cl_in_messages := before ++ rest |> <| cl_in_queue_len ::= Z.pred |>
    <| cl_in_messages_last ::= last_after before rest |>).
Proof.
  intros [] E. rewrite E in *. split; proj_simpl; try done.
  - by rewrite lo_in_last, last_after_ok.
  - rewrite length_app in *. cbn [length] in *. lia.
  - rewrite Forall_app, Forall_cons in *. tauto.
  - rewrite !Forall_app, Forall_cons in *. tauto.
  - rewrite !map_app, <- !app_assoc in *. cbn in lo_nodup. by apply nodup_remove in lo_nodup.
  - rewrite !Forall_app, Forall_cons in *. tauto.
Qed.

Lemma message_remove_ok mid dir s : lists_ok s ->
  wp (_mosquitto_message_remove mid dir) (fun _ s' => lists_ok s') s.
Proof.
  intros Hs. unfold _mosquitto_message_remove. wp_step.
  destruct dir; destruct (split_mid mid _) as [[[before m] rest]|] eqn:E; wp_step; try done;
    apply split_mid_app in E as (E & _).
  - by apply lists_ok_remove_in with m.
  - eapply wp_mono; [by apply fill_window_ok; [apply lists_ok_remove_out with m|]|]. intros rc s' H. by wp_step.
Qed.

Lemma lists_ok_leak f s : lists_ok s -> lists_ok (s <| cl_leaked ::= f |>).
Proof. by intros []. Qed.

Lemma message_delete_ok mid dir s : lists_ok s ->
  wp (_mosquitto_message_delete mid dir) (fun _ s' => lists_ok s') s.
Proof.
  intros Hs. unfold _mosquitto_message_delete. wp_step.
  eapply wp_mono; [by apply message_remove_ok|]. intros [rc m] s' H. cbv beta iota. wp_step.
  destruct (negb _); cbn [whenM]; wp_step; [by apply lists_ok_leak|done].
Qed.

(** [put] replaces one of the lists, [sel] is that list. *)
Record list_field (put : list mosquitto_message_all -> client -> client)
    (sel : client -> list mosquitto_message_all) : Prop := ListField {
  lf_set : forall l s, lists_ok s -> map ma_addr l = map ma_addr (sel s) -> map ma_msg l = map ma_msg (sel s) ->
           lists_ok (put l s);
  lf_get : forall l s, sel (put l s) = l;
  lf_ok : forall s, lists_ok s -> Forall message_ok (sel s);
  lf_more : forall bs s s', written_more bs s s' -> sel s' = sel s }.

Lemma out_field : list_field (fun l s => s <| cl_out_messages := l |>) cl_out_messages.
Proof.
  split.
  - intros l s Hs H1 H2. apply lists_ok_set_out; [done|done|]. apply messages_ok_map with (cl_out_messages s); [done|].
    pose proof (lo_messages _ Hs) as H. by apply Forall_app in H as [_ ?].
  - done.
  - intros s Hs. pose proof (lo_messages _ Hs) as H. by apply Forall_app in H as [_ ?].
  - intros bs s s' H. rewrite (wm_client _ _ _ H). by proj_simpl.
Qed.

Lemma in_field : list_field (fun l s => s <| cl_in_messages := l |>) cl_in_messages.
Proof.
  split.
  - intros l s Hs H1 H2. pose proof (lo_messages _ Hs) as H. apply Forall_app in H as [H _].
    apply lists_ok_set_in; [done|done|by apply messages_ok_map with (cl_in_messages s)|].
    pose proof (lo_in _ Hs) as Hq. rewrite <- (Forall_map ma_msg (fun x => msg_qos x = 2)) in Hq |- *. by rewrite H2.
  - done.
  - intros s Hs. pose proof (lo_messages _ Hs) as H. by apply Forall_app in H as [? _].
  - intros bs s s' H. rewrite (wm_client _ _ _ H). by proj_simpl.
Qed.

Lemma resend_only_sends state send m : resend state = Some send -> message_ok m -> only_sends (send m).
Proof.
  intros E Hm. destruct state; try discriminate E; injection E as <-;
    first [by apply send_message_only_sends | eapply only_sends_sends, lib_send_mid_sends].
Qed.

Lemma retry_loop_ok put sel before l s : list_field put sel -> lists_ok s -> sel s = before ++ l ->
  wp (retry_loop put before l) (fun _ s' => lists_ok s') s.
Proof.
  intros Hf. revert before s. induction l as [|m l IH]; intros before s Hs E; cbn [retry_loop]; wp_step; [done|].
  destruct (if _ <? cl_time s then resend (ma_state m) else None) as [send|] eqn:Er;
    [|apply IH; [done|by rewrite <- app_assoc]].
  set (m' := m <| ma_timestamp := _ |> <| ma_dup := true |>). wp_step.
  assert (lists_ok (put (before ++ m' :: l) s)) as Hs1
    by (apply (lf_set _ _ Hf); [done|by rewrite E, !map_app|by rewrite E, !map_app]).
  assert (message_ok m') as Hm.
  { pose proof (lf_ok _ _ Hf s Hs) as H. rewrite E in H. apply Forall_app in H as [_ H]. by apply Forall_cons in H as [? _]. }
  eapply wp_mono; [eapply resend_only_sends; [|exact Hm]; by destruct (_ <? cl_time s)|]. cbv beta. intros _ s2 [bs H2].
  apply IH; [by eapply lists_ok_more|]. rewrite (lf_more _ _ Hf _ _ _ H2), (lf_get _ _ Hf). by rewrite <- app_assoc.
Qed.

Lemma retry_check_ok s : lists_ok s -> wp _mosquitto_message_retry_check (fun _ s' => lists_ok s') s.
Proof.
  intros Hs. unfold _mosquitto_message_retry_check. wp_step.
  eapply wp_mono; [by apply (retry_loop_ok _ _ [] _ _ out_field)|]. cbv beta. intros _ s1 H1. wp_step.
  by apply (retry_loop_ok _ _ [] _ _ in_field).
Qed.

Lemma out_update_ok mid state s : lists_ok s ->
  wp (_mosquitto_message_out_update mid state) (fun _ s' => lists_ok s') s.
Proof.
  intros Hs. unfold _mosquitto_message_out_update. wp_step.
  destruct (split_mid mid _) as [[[before m] rest]|] eqn:E; wp_step; [|done].
  apply split_mid_app in E as (E & _). apply (lf_set _ _ out_field); [done|by rewrite E, !map_app..].
Qed.

(** The message at [a] is replaced; it is nowhere else. *)
Lemma map_put_fresh (m' : mosquitto_message_all) l : (ma_addr m' ∉ map ma_addr l) ->
  map (fun n => if decide (ma_addr n = ma_addr m') then m' else n) l = l.
Proof.
  induction l as [|n l IH]; [done|]. cbn [map]. intros [H1 H2]%not_elem_of_cons.
  rewrite decide_False by congruence. by rewrite IH.
Qed.

Lemma wp_set_message_last m m' outs s Q :
  lists_ok s -> cl_out_messages s = outs ++ [m] -> ma_addr m' = ma_addr m ->
  Q tt (s <| cl_out_messages := outs ++ [m'] |>) -> wp (set_message m') Q s.
Proof.
  intros Hs E Ea HQ. pose proof (lo_nodup _ Hs) as Hn. rewrite E, app_assoc, map_app in Hn.
  apply NoDup_app in Hn as (_ & Hn & _).
  assert (ma_addr m' ∉ map ma_addr (cl_in_messages s ++ outs)) as Hf.
  { intros Hin. apply (Hn (ma_addr m')); [done|]. rewrite Ea. by left. }
  rewrite map_app in Hf. apply not_elem_of_app in Hf as [Hi Ho].
  unfold set_message. wp_step. set (put := fun n => if decide _ then m' else n).
  assert (map put (cl_in_messages s) = cl_in_messages s) as E1 by by apply map_put_fresh.
  assert (map put (cl_out_messages s) = outs ++ [m']) as E2.
  { rewrite E, map_app. unfold put at 1. rewrite map_put_fresh by done. cbn. unfold put. by rewrite decide_True. }
  clearbody put. replace (s <| cl_in_messages ::= map put |> <| cl_out_messages ::= map put |>)
    with (s <| cl_out_messages := outs ++ [m'] |>) by (destruct s; cbn in E1, E2; cl_compute; by rewrite E1, E2).
  exact HQ.
Qed.
