(* ===== verification/Library.v ===== *)
(** Client library, third part: every handler, every call of the interface and the
    loop keep the invariant, so that no sequence of calls and no input makes the library
    fault; and the computations that show where it does not do what it means to. *)

From S2P Require Export ClientLists.

#[local] Open Scope Z_scope.

(** * Handling what the broker sends *)

Definition in_packet (s : client) : packet := c_in_packet (cl_mosq s).

(** A state in which a complete packet is being taken apart. *)
Definition handling (s : client) : Prop := lists_ok s /\ inpacket_wf (in_packet s).

Definition handles {A} (m : L A) : Prop := forall s, handling s -> wp m (fun _ s' => lists_ok s') s.

(** A reader of the packet: it never reads past it, and [P] holds of what it returns. *)
Definition reader {A} (P : A -> Prop) (m : ST packet (res A)) : Prop :=
  forall p, inpacket_wf p -> exists r p', m p = Some (r, p') /\ inpacket_wf p'
    /\ match r with ROk a => P a | RErr _ => True end.

Lemma reader_uint16 : reader (fun _ => True) _mosquitto_read_uint16.
Proof.
  intros p Hp. rewrite read_uint16_eq by done. pose proof (unread_length p Hp) as Hl.
  destruct (unread p) as [|a [|b u]]; cbn [length] in Hl; eexists _, _; (split; [done|]); try done.
  split; [apply advance_wf; [done|lia]|done].
Qed.

Lemma reader_byte : reader (fun _ => True) _mosquitto_read_byte.
Proof.
  intros p Hp. rewrite read_byte_eq by done. pose proof (unread_length p Hp) as Hl.
  destruct (unread p) as [|a u]; cbn [length] in Hl; eexists _, _; (split; [done|]); try done.
  split; [apply advance_wf; [done|lia]|done].
Qed.

Lemma cstr_length s : (length (cstr s) <= length s)%nat.
Proof. induction s as [|c s IH]; cbn; [done|]. case_decide; cbn; lia. Qed.

Lemma reader_string : reader (fun t : str => strlen t < 2 ^ 16) _mosquitto_read_string.
Proof.
  intros p Hp. rewrite read_string_eq by done. pose proof (unread_length p Hp) as Hl.
  destruct (unread p) as [|a [|b u]]; cbn [length] in Hl; try (eexists _, _; split; [done|]; by split).
  pose proof (Z_of_byte_range a). pose proof (Z_of_byte_range b). cbv zeta.
  set (len := 256 * Z_of_byte a + Z_of_byte b) in *. assert (0 <= len < 2 ^ 16) as Hlen by (unfold len; lia).
  clearbody len. destruct (_ <? len) eqn:E; eexists _, _; (split; [done|]).
  - split; [apply advance_wf; [done|lia]|done].
  - split; [apply advance_wf; [done|lia]|]. unfold strlen.
    pose proof (cstr_length (take (Z.to_nat len) u)) as Hc. rewrite length_take in Hc. lia.
Qed.

Lemma reader_bytes n : 0 <= n < 2 ^ 28 ->
  reader (fun bs : list byte => Z.of_nat (length bs) <= MQTT_MAX_PAYLOAD) (_mosquitto_read_bytes n).
Proof.
  intros Hn p Hp. rewrite read_bytes_eq by done. pose proof (unread_length p Hp) as Hl.
  destruct (_ <? n) eqn:E; eexists _, _; (split; [done|]); [done|].
  split; [apply advance_wf; [done|lia]|]. rewrite length_take. unfold MQTT_MAX_PAYLOAD. lia.
Qed.

Lemma wp_lib_in_packet {A} (m : ST packet A) Q s :
  wp (lib_in_packet m) Q s <->
  exists a p, m (in_packet s) = Some (a, p) /\ Q a (s <| cl_mosq ::= (fun x => x <| c_in_packet := p |>) |>).
Proof.
  unfold lib_in_packet, in_packet. wp_step. destruct (m _) as [[a p]|].
  - wp_step. split; [by exists a, p|]. by intros (? & ? & [= <- <-] & ?).
  - split; [done|]. by intros (? & ? & ? & _).
Qed.

Lemma handling_advance p s : lists_ok s -> inpacket_wf p ->
  handling (s <| cl_mosq ::= (fun x => x <| c_in_packet := p |>) |>).
Proof. intros Hs Hp. split; [|done]. apply lists_ok_mosq; [done|done|done|apply Hs]. Qed.

(** Read, then go on: an error ends the handler. *)
Lemma wp_reader {A B} (P : A -> Prop) (m : ST packet (res A)) (k : res A -> L B) Q s :
  reader P m -> handling s ->
  (forall a s', P a -> handling s' -> s' = s <| cl_mosq := cl_mosq s' |> -> wp (k (ROk a)) Q s') ->
  (forall rc s', handling s' -> wp (k (RErr rc)) Q s') ->
  wp (lib_in_packet m ≫= k) Q s.
Proof.
  intros Hm [Hs Hp] Hok Herr. wp_step. apply wp_lib_in_packet.
  destruct (Hm _ Hp) as (r & p' & E & Hp' & Hr). exists r, p'. split; [done|].
  pose proof (handling_advance p' s Hs Hp') as Hh. destruct r; [|by apply Herr]. apply Hok; [done|done|]. by destruct s.
Qed.

Lemma handles_sends {A} (m : L A) : only_sends m -> handles m.
Proof. intros Hm s [Hs _]. by apply only_sends_keeps_lists. Qed.

Lemma send_mid_only command mid : only_sends (lib_send_command_with_mid command mid).
Proof. eapply only_sends_sends, lib_send_mid_sends. Qed.

Lemma send_simple_only command : only_sends (lib_send_simple_command command).
Proof. eapply only_sends_sends, lib_send_simple_sends. Qed.

Lemma handles_pingresp : handles lib_handle_pingresp.
Proof. intros s [Hs _]. unfold lib_handle_pingresp. wp_step. apply lists_ok_mosq; [done|done|done|apply Hs]. Qed.

Ltac read_next := eapply wp_reader;
  [first [exact reader_uint16|exact reader_byte]|done| |by intros rc s' []; wp_step].

Lemma handles_pubackcomp : handles lib_handle_pubackcomp.
Proof.
  intros s Hs. unfold lib_handle_pubackcomp. read_next. intros mid s1 _ [H1 _] _. cbv beta iota. wp_step.
  eapply wp_mono; [by apply message_delete_ok|]. cbv beta. intros rc s2 H2.
  destruct (rc =? 0); cbn [whenM]; wp_step; [by apply lists_ok_called|done].
Qed.

Lemma handles_pubrec : handles lib_handle_pubrec.
Proof.
  intros s Hs. unfold lib_handle_pubrec. read_next. intros mid s1 _ [H1 _] _. cbv beta iota. wp_step.
  eapply wp_mono; [by apply out_update_ok|]. cbv beta. intros rc s2 H2.
  destruct (negb _); [by wp_step|]. apply only_sends_keeps_lists; [apply send_mid_only|done].
Qed.

Lemma handles_pubrel : handles lib_handle_pubrel.
Proof.
  intros s Hs. unfold lib_handle_pubrel. rewrite wp_bind, wp_get. destruct (_ && _); [by destruct Hs; wp_step|].
  read_next. intros mid s1 _ [H1 _] _. cbv beta iota. wp_step.
  eapply wp_mono; [by apply message_remove_ok|]. cbv beta. intros [rc m] s2 H2. wp_step.
  destruct m as [m|]; [destruct (rc =? 0)|]; cbn [whenM]; wp_step;
    (apply only_sends_keeps_lists; [apply send_mid_only|]); [by apply lists_ok_called|done|done].
Qed.

Lemma read_codes_handles fuel granted s : handling s ->
  p_remaining_length (in_packet s) - p_pos (in_packet s) <= Z.of_nat fuel ->
  wp (lib_read_codes fuel granted) (fun _ s' => lists_ok s') s.
Proof.
  revert granted s. induction fuel as [|fuel IH]; intros granted s Hs Hf; cbn [lib_read_codes]; wp_step;
    change (c_in_packet (cl_mosq s)) with (in_packet s); destruct (_ <? _) eqn:E; try (destruct Hs; by wp_step). 1: exfalso; apply Z.ltb_lt in E; lia.
  destruct Hs as [Hs Hp]. wp_step. apply wp_lib_in_packet. rewrite read_byte_eq by done.
  pose proof (unread_length _ Hp) as Hl. destruct (unread (in_packet s)) as [|b u]; eexists _, _; (split; [done|]).
  - wp_step. by apply (handling_advance (in_packet s) s Hs).
  - cbn [length] in Hl. assert (inpacket_wf (advance 1 (in_packet s))) as Hp1. { apply advance_wf; [done|lia]. }
    apply IH; [by apply handling_advance|]. unfold in_packet, advance in *. proj_simpl. lia.
Qed.

Lemma handles_suback : handles lib_handle_suback.
Proof.
  intros s Hs. unfold lib_handle_suback. read_next. intros mid s1 _ H1 _. cbv beta iota. wp_step.
  change (c_in_packet (cl_mosq s1)) with (in_packet s1).
  eapply wp_mono; [apply read_codes_handles; [done|]|].
  - destruct H1 as [_ (H & _)]. lia.
  - cbv beta. intros [g|rc] s2 H2; wp_step; [by apply lists_ok_called|done].
Qed.

Lemma handles_unsuback : handles lib_handle_unsuback.
Proof.
  intros s Hs. unfold lib_handle_unsuback. read_next. intros mid s1 _ [H1 _] _. cbv beta iota. wp_step.
  by apply lists_ok_called.
Qed.

Lemma handles_connack : handles lib_handle_connack.
Proof.
  intros s Hs. unfold lib_handle_connack. read_next. intros b s1 _ H1 _. cbv beta iota.
  read_next. intros result s2 _ [H2 _] _. cbv beta iota. wp_step.
  assert (lists_ok (called (on_connect result) s2)) as H3 by by apply lists_ok_called.
  destruct (result =? 0); wp_step; [|destruct (_ && _); by wp_step].
  apply lists_ok_mosq; [done|by destruct (bool_decide _)..|destruct (bool_decide _); apply H3].
Qed.

Lemma read_publish_ok qos s Q : handling s ->
  (forall mid topic payload s', handling s' -> s' = s <| cl_mosq := cl_mosq s' |> ->
     strlen topic < 2 ^ 16 -> Z.of_nat (length payload) <= MQTT_MAX_PAYLOAD ->
     Q (ROk (mid, topic, payload)) s') ->
  (forall rc s', handling s' -> Q (RErr rc) s') ->
  wp (lib_read_publish qos) Q s.
Proof.
  intros Hs Hok Herr. unfold lib_read_publish.
  eapply wp_reader; [exact reader_string|done| |by intros rc s' ?; wp_step; apply Herr].
  intros topic s1 Ht H1 N1. cbv beta iota. destruct (bool_decide _); [wp_step; by apply Herr|].
  assert (forall mid s2, handling s2 -> s2 = s <| cl_mosq := cl_mosq s2 |> ->
    wp (s ← get;
        let p := c_in_packet (cl_mosq s) in
        let payloadlen := u32 (p_remaining_length p - p_pos p) in
        if payloadlen =? 0 then mret (ROk (mid, topic, [])) else
        r ← lib_in_packet (_mosquitto_read_bytes payloadlen);
        mret (match r with ROk payload => ROk (mid, topic, payload) | RErr rc => RErr rc end)) Q s2) as Hrest.
  { intros mid s2 H2 N2. rewrite wp_bind, wp_get. cbv zeta. change (c_in_packet (cl_mosq s2)) with (in_packet s2).
    pose proof H2 as [_ (P1 & P2 & P3)]. rewrite u32_small by lia.
    destruct (_ =? 0); [wp_step; apply Hok; done|].
    eapply wp_reader; [apply reader_bytes; lia|done| |].
    - intros payload s3 Hp H3 N3. wp_step. apply Hok; [done|rewrite N3, N2; by proj_simpl|done|done].
    - intros rc s3 H3. wp_step. by apply Herr. }
  destruct (0 <? qos).
  - eapply wp_reader; [exact reader_uint16|done| |by intros rc s' ?; wp_step; apply Herr].
    intros mid s2 _ H2 N2. apply Hrest; [done|rewrite N2, N1; by proj_simpl].
  - rewrite wp_bind, wp_ret. by apply Hrest.
Qed.

Lemma lists_ok_fresh a s : lists_ok s -> (cl_next s <= a)%nat ->
  (a ∉ map ma_addr (cl_in_messages s ++ cl_out_messages s)).
Proof.
  intros Hs Ha (m & -> & Hm)%list_elem_of_fmap. pose proof (lo_fresh _ Hs) as H.
  rewrite Forall_forall in H. specialize (H m Hm). lia.
Qed.

Lemma lists_ok_next f s : lists_ok s -> (cl_next s <= f (cl_next s))%nat -> lists_ok (s <| cl_next ::= f |>).
Proof.
  intros [] Hf. split; proj_simpl; try done. eapply Forall_impl; [done|]. cbv beta. intros m ?. lia.
Qed.

Lemma written_more_lists bs s s' : written_more bs s s' ->
  cl_in_messages s' = cl_in_messages s /\ cl_out_messages s' = cl_out_messages s /\ cl_next s' = cl_next s.
Proof. intros H. rewrite (wm_client _ _ _ H). by proj_simpl. Qed.

Lemma handles_publish : handles _mosquitto_handle_publish.
Proof.
  intros s [Hs Hp]. unfold _mosquitto_handle_publish. rewrite wp_bind, wp_lib_malloc.
  set (a := cl_next s). set (s1 := s <| cl_next ::= S |>).
  assert (handling s1) as H1 by (split; [apply lists_ok_next; [done|lia]|done]).
  assert (a ∉ map ma_addr (cl_in_messages s1 ++ cl_out_messages s1)) as Ha by (apply (lists_ok_fresh a s); [done|lia]).
  assert (cl_next s1 = S a) as Na by done.
  rewrite wp_bind, wp_get. cbv zeta. set (qos := Z.shiftr _ 1). rewrite wp_bind.
  assert (forall s2, s2 = s1 <| cl_mosq := cl_mosq s2 |> -> cl_in_messages s2 = cl_in_messages s1
    /\ cl_out_messages s2 = cl_out_messages s1) as Hkeep by (intros s2 ->; by proj_simpl).
  eapply wp_mono with (Q := fun r s2 => handling s2
    /\ match r with ROk (mid, topic, payload) => cl_next s2 = S a
                    /\ (a ∉ map ma_addr (cl_in_messages s2 ++ cl_out_messages s2)) /\ strlen topic < 2 ^ 16 /\ Z.of_nat (length payload) <= MQTT_MAX_PAYLOAD
                  | RErr _ => True end) .
  - apply read_publish_ok; [done| |done].
    intros mid topic payload s2 H2 E2 Ht Hl. destruct (Hkeep s2 E2) as [L1 L2]. rewrite L1, L2, E2. proj_simpl.
    split; [by rewrite <- E2|]. done.
  - cbv beta. intros [[[mid topic] payload]|rc] s2 (H2 & Hr); [|wp_step; by destruct H2].
    destruct Hr as (N2 & A2 & Ht & Hpl). destruct H2 as [H2 _]. cbv beta iota.
    destruct (qos =? 0) eqn:E0; [wp_step; by apply lists_ok_called|]. destruct (qos =? 1) eqn:E1.
    + wp_step. eapply wp_mono; [apply send_mid_only|]. cbv beta. intros rc s3 [bs H3]. wp_step.
      apply lists_ok_called. by eapply lists_ok_more.
    + destruct (qos =? 2) eqn:E2; [|by wp_step]. wp_step.
      eapply wp_mono; [apply send_mid_only|]. cbv beta. intros rc s3 [bs H3].
      pose proof (written_more_lists _ _ _ H3) as (L1 & L2 & L3). wp_step.
      eapply wp_mono; [apply queue_in_run|].
      * by eapply lists_ok_more.
      * split; [|rewrite L1, L2, L3; split; [done|cbn; lia]]. split; [cbn; lia|done].
      * cbn. lia.
      * cbv beta. intros _ s4 [H4 _]. by wp_step.
Qed.

Lemma handles_packet : handles _mosquitto_packet_handle.
Proof.
  intros s Hs. unfold _mosquitto_packet_handle. rewrite wp_bind, wp_get. cbv zeta.
  repeat match goal with |- wp (if ?b then _ else _) _ _ => destruct b end.
  - by apply (handles_sends _ (send_simple_only PINGRESP)).
  - by apply handles_pingresp.
  - by apply handles_pubackcomp.
  - by apply handles_pubackcomp.
  - by apply handles_publish.
  - by apply handles_pubrec.
  - by apply handles_pubrel.
  - by apply handles_connack.
  - by apply handles_suback.
  - by apply handles_unsuback.
  - destruct Hs. by wp_step.
Qed.

(** * The invariant of the library *)

Record lib_ok (s : client) : Prop := LibOk {
  lk_lists : lists_ok s;
  lk_reading : connected s -> partial_ok (in_packet s) }.

Lemma lib_ok_more bs s s' : lib_ok s -> written_more bs s s' -> lib_ok s'.
Proof.
  intros [H1 H2] H. split; [by eapply lists_ok_more|]. pose proof (wm_mosq _ _ _ H) as Hm.
  unfold connected, in_packet in *. destruct (wm_sock _ _ _ H) as [E|E]; [|by rewrite E].
  rewrite E, Hm. by proj_simpl.
Qed.

Lemma only_sends_ok {A} (m : L A) s : only_sends m -> lib_ok s -> wp m (fun _ s' => lib_ok s') s.
Proof. intros Hm Hs. eapply wp_mono; [apply Hm|]. intros _ s' [bs H]. by eapply lib_ok_more. Qed.

Lemma lib_packet_read_ok s : lib_ok s ->
  wp lib_packet_read (fun rc s' => lists_ok s' /\ (rc = MOSQ_ERR_SUCCESS -> lib_ok s')) s.
Proof.
  intros [Hs Hp]. unfold lib_packet_read. rewrite wp_bind, wp_get. cbv zeta.
  destruct (_ =? INVALID_SOCKET) eqn:Ec; [by wp_step|]. assert (connected s) as Hc by (unfold connected; lia).
  specialize (Hp Hc). unfold in_packet in Hp. destruct (bool_decide _); [by wp_step|].
  pose proof (assemble_partial (fun _ => true) (cl_reads s) (c_in_packet (cl_mosq s)) 0 Hp) as Ha.
  destruct (assemble _ _ _ _) as [[[out p] n] rs]. wp_step.
  assert (forall b, lists_ok (s <| cl_reads := rs |> <| cl_again := b |>)) as H1 by (intros b; destruct Hs; by split).
  destruct out as [[rc slow]|[]].
  - assert (forall t b, let s' := s <| cl_reads := rs |> <| cl_again := b |> <| cl_mosq ::= fun x => x <| c_in_packet := p |> |>
        <| cl_mosq ::= fun x => if (slow : bool) then x <| c_last_msg_in := t |> else x |> in
      lists_ok s' /\ (rc = MOSQ_ERR_SUCCESS -> lib_ok s')) as H2.
    { intros t b s'. assert (lists_ok s') as H2 by (unfold s'; destruct slow;
        repeat (apply lists_ok_mosq; [|done|done|apply Hs]); apply H1).
      split; [done|]. intros E. split; [done|]. intros _. unfold s', in_packet. by destruct slow; proj_simpl; apply Ha. }
    destruct slow; cbn [whenM]; wp_step; [apply H2|].
    specialize (H2 0 (rc =? MOSQ_ERR_SUCCESS)). cbv zeta beta iota in H2.
    match type of H2 with lists_ok ?s1 /\ _ => match goal with |- lists_ok ?s2 /\ _ =>
      replace s2 with s1 by (by destruct s) end end. exact H2.
  - wp_step. eapply wp_mono; [apply handles_packet|].
    + split; [repeat (apply lists_ok_mosq; [|done|done|apply Hs]); apply H1|].
      unfold in_packet. proj_simpl. by apply complete_inpacket.
    + cbv beta. intros rc s' H'. wp_step.
      set (s2 := s' <| cl_mosq ::= _ |>).
      assert (lists_ok s2) as H2 by (apply lists_ok_mosq; [done|done|done|apply H']).
      split; [done|]. intros _. split; [done|]. intros _. apply cleanup_partial.
Qed.

Lemma lost_connection_ok rc s : lists_ok s ->
  wp (lost_connection rc) (fun rc' s' => lib_ok s' /\ ~ connected s') s.
Proof.
  intros Hs. unfold lost_connection. wp_step. proj_simpl.
  set (s1 := s <| cl_mosq ::= _ |>). assert (~ connected s1) as Hc.
  { unfold connected, s1, INVALID_SOCKET. proj_simpl. pose proof (lo_sock _ Hs). destruct (0 <=? _) eqn:E; lia. }
  assert (lists_ok s1) as H1.
  { apply lists_ok_mosq; [done|done|done|]. proj_simpl. pose proof (lo_sock _ Hs). destruct (0 <=? _) eqn:E; unfold INVALID_SOCKET; lia. }
  assert (forall e, ~ connected (called e s1)) as Hc2 by (intros e; unfold connected; by rewrite called_mosq).
  wp_step. split; [|done]. split; [by apply lists_ok_called|]. intros H. by destruct (Hc2 _ H).
Qed.

Lemma packet_loop_ok n once rc s :
  (forall s, lib_ok s -> wp once (fun rc s' => lists_ok s' /\ (rc = MOSQ_ERR_SUCCESS -> lib_ok s')) s) ->
  lib_ok s -> wp (packet_loop n once rc) (fun _ s' => lib_ok s') s.
Proof.
  intros Hm. revert rc s. induction n as [|n IH]; intros rc s Hs; cbn [packet_loop]; [by wp_step|]. wp_step.
  eapply wp_mono; [by apply Hm|]. cbv beta. intros rc' s1 [H1 H2]. wp_step.
  destruct (negb (rc' =? 0)) eqn:E; cbn [orb].
  - unfold _mosquitto_loop_rc_handle. rewrite E. eapply wp_mono; [by apply lost_connection_ok|]. by intros _ s' [? _].
  - assert (rc' = MOSQ_ERR_SUCCESS) as -> by (unfold MOSQ_ERR_SUCCESS; lia). specialize (H2 eq_refl).
    destruct (cl_again s1); [unfold _mosquitto_loop_rc_handle; by wp_step|by apply IH].
Qed.

Lemma lib_packet_write_ok s : lib_ok s ->
  wp lib_packet_write (fun rc s' => lists_ok s' /\ (rc = MOSQ_ERR_SUCCESS -> lib_ok s')) s.
Proof.
  intros Hs. eapply wp_mono; [apply lib_packet_write_run|]. cbv beta. intros rc s' (H & _).
  pose proof (lib_ok_more _ _ _ Hs H) as H2. by destruct H2.
Qed.

Lemma loop_read_ok n s : lib_ok s -> wp (mosquitto_loop_read n) (fun _ s' => lib_ok s') s.
Proof.
  intros Hs. unfold mosquitto_loop_read. destruct (n <? 1); wp_step; [done|].
  by apply packet_loop_ok; [apply lib_packet_read_ok|].
Qed.

Lemma loop_write_ok n s : lib_ok s -> wp (mosquitto_loop_write n) (fun _ s' => lib_ok s') s.
Proof.
  intros Hs. unfold mosquitto_loop_write. destruct (n <? 1); wp_step; [done|].
  by apply packet_loop_ok; [apply lib_packet_write_ok|].
Qed.

(** * Calls *)

Lemma lib_ok_mosq f s : lib_ok s -> (ctx_out_wf (cl_mosq s) -> ctx_out_wf (f (cl_mosq s))) ->
  names (f (cl_mosq s)) = names (cl_mosq s) -> c_sock (f (cl_mosq s)) = c_sock (cl_mosq s) ->
  c_in_packet (f (cl_mosq s)) = c_in_packet (cl_mosq s) -> lib_ok (s <| cl_mosq ::= f |>).
Proof.
  intros [Hs Hp] H1 H2 H3 H4. split; [apply lists_ok_mosq; [done|done|done|rewrite H3; apply Hs]|].
  unfold connected, in_packet in *. proj_simpl. by rewrite H3, H4.
Qed.

(** The part of a state that the reader depends on. *)
Definition reading_kept (s s' : client) : Prop :=
  connected s' -> connected s /\ in_packet s' = in_packet s.

#[local] Instance reading_kept_preorder : PreOrder reading_kept.
Proof.
  split; [by intros s H|]. intros s1 s2 s3 H12 H23 H. destruct (H23 H) as [H2 E2], (H12 H2) as [H1 E1].
  split; [done|congruence].
Qed.

Lemma written_more_reading bs s s' : written_more bs s s' -> reading_kept s s'.
Proof.
  intros H Hc. pose proof (wm_mosq _ _ _ H) as Hm. unfold connected, in_packet in *.
  destruct (wm_sock _ _ _ H) as [E|E]; [|by rewrite E in Hc]. rewrite E in Hc. split; [done|]. rewrite Hm. by proj_simpl.
Qed.

Definition keeps_reading {A} (m : L A) : Prop := forall s a s', m s = Some (a, s') -> reading_kept s s'.

Lemma keeps_reading_bind {A B} (m : L A) (f : A -> L B) :
  keeps_reading m -> (forall a, keeps_reading (f a)) -> keeps_reading (m ≫= f).
Proof.
  intros Hm Hf s b s'. unfold mbind, st_bind. destruct (m s) as [[a s1]|] eqn:E; [|done]. intros E2.
  transitivity s1; [by eapply Hm|by eapply Hf].
Qed.

Lemma keeps_reading_ret {A} (a : A) : keeps_reading (mret a).
Proof. by intros s b s' [= <- <-]. Qed.

Lemma keeps_reading_get : keeps_reading get.
Proof. by intros s b s' [= <- <-]. Qed.

Lemma keeps_reading_modify f : (forall s, cl_mosq (f s) = cl_mosq s) -> keeps_reading (modify f).
Proof. intros H s b s' [= <- <-]. unfold reading_kept, connected, in_packet. by rewrite H. Qed.

Lemma keeps_reading_wp {A} (m : L A) : (forall s, wp m (fun _ s' => exists bs, written_more bs s s') s) -> keeps_reading m.
Proof.
  intros H s a s' E. specialize (H s). rewrite wp_eq, E in H. destruct H as [bs H]. by eapply written_more_reading.
Qed.

Lemma keeps_reading_queue p : keeps_reading (lib_packet_queue p).
Proof.
  unfold lib_packet_queue. apply keeps_reading_bind.
  - intros s a s' [= <- <-]. unfold reading_kept, connected, in_packet. by proj_simpl.
  - intros _. apply keeps_reading_bind; [apply keeps_reading_get|]. intros s. destruct (cl_threaded s); [apply keeps_reading_ret|].
    apply keeps_reading_wp. intros s1. eapply wp_mono; [apply lib_packet_write_run|]. intros rc s' [H _]. by eexists.
Qed.

Lemma keeps_reading_built b : keeps_reading (lib_queue_built b).
Proof.
  unfold lib_queue_built. destruct (b packet_calloc) as [[rc p]|]; [|by intros s a s'].
  destruct (negb _); [apply keeps_reading_ret|apply keeps_reading_queue].
Qed.

Lemma keeps_reading_send_message m : keeps_reading (send_message m).
Proof.
  unfold send_message, lib_send_publish. apply keeps_reading_bind; [apply keeps_reading_get|]. intros s.
  destruct (_ =? _); [apply keeps_reading_ret|apply keeps_reading_built].
Qed.

Lemma keeps_reading_resend state send m : resend state = Some send -> keeps_reading (send m).
Proof.
  intros E. destruct state; try discriminate E; injection E as <-;
    first [apply keeps_reading_send_message | apply keeps_reading_built].
Qed.

Lemma keeps_reading_retry put before l : (forall k s, cl_mosq (put k s) = cl_mosq s) -> keeps_reading (retry_loop put before l).
Proof.
  intros Hput. revert before. induction l as [|m l IH]; intros before; cbn [retry_loop]; [apply keeps_reading_ret|].
  apply keeps_reading_bind; [apply keeps_reading_get|]. intros s.
  destruct (if _ <? cl_time s then resend (ma_state m) else None) as [send|] eqn:Er; [|apply IH]. cbv zeta.
  apply keeps_reading_bind; [by apply keeps_reading_modify|]. intros _.
  apply keeps_reading_bind; [|intros _; apply IH].
  eapply keeps_reading_resend. by destruct (_ <? cl_time s).
Qed.

Lemma retry_check_lib_ok s : lib_ok s -> wp _mosquitto_message_retry_check (fun _ s' => lib_ok s') s.
Proof.
  intros [Hs Hp]. pose proof (retry_check_ok s Hs) as H.
  assert (keeps_reading _mosquitto_message_retry_check) as Hk.
  { unfold _mosquitto_message_retry_check. repeat (apply keeps_reading_bind; [first [apply keeps_reading_get|by apply keeps_reading_retry]|intros ?]).
    by apply keeps_reading_retry. }
  rewrite wp_eq in *. destruct (_mosquitto_message_retry_check s) as [[[] s']|] eqn:E; [|done].
  split; [done|]. intros Hc. destruct (Hk _ _ _ E Hc) as [H1 ->]. by apply Hp.
Qed.

Lemma lib_ok_called e s : lib_ok s -> lib_ok (called e s).
Proof.
  intros [Hs Hp]. split; [by apply lists_ok_called|]. unfold connected, in_packet in *. by rewrite called_mosq.
Qed.

Lemma send_connect_only keepalive clean_session s : lib_ok s ->
  wp (lib_send_connect keepalive clean_session) (fun _ s' => lib_ok s') s.
Proof.
  intros Hs. unfold lib_send_connect. wp_step. pose proof (lo_names _ (lk_lists _ Hs)) as (Hid & S1 & S2 & S3 & Sw).
  destruct (c_id (cl_mosq s)) as [id|] eqn:Eid; [|done]. exists id. split; [done|].
  set (x := cl_mosq s) in *. destruct (match c_protocol x with mosq_p_mqtt31 => _ | _ => _ end) as [[version hl]|] eqn:Ev; [|by wp_step].
  assert (connect_fits x id (c_username x) (c_password x)) as Hf by (split_and!; [by apply S1|done|exact S2|exact S3]).
  pose proof (connect_body_writes x version keepalive clean_session id (c_username x) (c_password x) Hf) as Hw.
  assert (hl + connect_payloadlen x id (c_username x) (c_password x)
    = Z.of_nat (length (enc_connect x version keepalive clean_session id (c_username x) (c_password x)))) as Hl.
  { unfold connect_payloadlen, enc_connect, enc_will, enc_opt, opt_len, enc_string, strlen.
    assert (hl = Z.of_nat (length (if version =? MQTT_PROTOCOL_V31 then PROTOCOL_NAME_v31 else PROTOCOL_NAME_v311)) + 6) as ->
      by (destruct (c_protocol x); simplify_eq; done).
    destruct (c_will x), (c_username x), (c_password x); rewrite ?length_app; cbn [length enc_uint16]; unfold enc_uint16; cbn [length]; lia. }
  assert (hl + connect_payloadlen x id (c_username x) (c_password x) < 2 ^ 32) as Hb.
  { destruct Hf as (F1 & F2 & F3 & F4). unfold connect_payloadlen, opt_len.
    assert (hl <= 12) by (destruct (c_protocol x); simplify_eq; lia).
    destruct (c_will x) as [w|]; [destruct (F2 w eq_refl)|]; (destruct (c_username x) as [u|]; [pose proof (F3 u eq_refl)|]);
      (destruct (c_password x) as [p|]; [pose proof (F4 p eq_refl)|]); unfold strlen in *; lia. }
  pose proof (build_packet_writes CONNECT _ _ _ packet_calloc Hw Hl Hb) as H. rewrite wp_eq in H.
  destruct (build_packet _ _ _ _) as [[rc p]|]; [|done]. destruct H as [(-> & _ & Hh)|[-> _]].
  - change (negb (0 =? 0)) with false. cbv iota. wp_step.
    eapply wp_mono; [exact (lib_packet_queue_sends p _ Hh _)|]. cbv beta. intros rc s' [H _].
    eapply lib_ok_more; [|exact H]. by apply lib_ok_mosq.
  - change (negb (MOSQ_ERR_PAYLOAD_SIZE =? 0)) with true. cbv iota. by wp_step.
Qed.

Section calls.
Context `{LibSystem}.
Hypothesis socket_valid : forall s blocking, (lib_socket_connect s blocking).1 <= 0 -> 0 <= (lib_socket_connect s blocking).2.

Lemma reconnect_ok blocking s : lib_ok s -> resettable s ->
  wp (_mosquitto_reconnect blocking) (fun _ s' => lib_ok s') s.
Proof.
  intros Hs Hr. unfold _mosquitto_reconnect. wp_step. destruct (_ || _); wp_step; [done|].
  set (s1 := s <| cl_mosq ::= _ |>).
  assert (lists_ok s1) as H1 by (apply lists_ok_mosq; [apply Hs|by constructor|done|apply Hs]).
  assert (in_packet s1 = _mosquitto_packet_cleanup (in_packet s)) as P1 by done.
  eapply wp_mono; [apply reconnect_reset_ok; [done|exact Hr]|]. cbv beta. intros _ s2 (H2 & E2 & _).
  assert (in_packet s2 = _mosquitto_packet_cleanup (in_packet s)) as P2 by (unfold in_packet in *; by rewrite E2).
  clearbody s1. wp_step. split; [by destruct (cl_bind_address s2) eqn:E; [..|destruct (lo_bind _ H2)]|].
  pose proof (socket_valid s2 blocking) as Hv. destruct (lib_socket_connect s2 blocking) as [rc sock]. cbn [fst snd] in Hv.
  destruct (0 <? rc) eqn:Erc; wp_step; [split; [done|]; intros _; rewrite P2; apply cleanup_partial|].
  apply send_connect_only. set (s3 := s2 <| cl_mosq ::= _ |>).
  assert (lists_ok s3) as H3 by (apply lists_ok_mosq; [done|done|done|]; proj_simpl; lia).
  split; [destruct H3; by split|]. intros _. change (partial_ok (in_packet s2)). rewrite P2. apply cleanup_partial.
Qed.

Lemma publish_ok topic payload qos retain s : lib_ok s ->
  wp (mosquitto_publish topic payload qos retain) (fun _ s' => lib_ok s') s.
Proof.
  intros Hs. unfold mosquitto_publish. destruct topic as [topic|]; [|by wp_step].
  destruct (_ || _) eqn:Eq; [by wp_step|]. destruct (strlen topic =? 0); [by wp_step|].
  destruct (MQTT_MAX_PAYLOAD <? _) eqn:Ep; [by wp_step|].
  destruct (mosquitto_pub_topic_check topic =? _) eqn:Et; cbn [negb]; [|by wp_step].
  unfold lib_mid_generate. wp_step. proj_simpl. set (mid := next_mid _).
  set (s1 := s <| cl_mosq ::= _ |>). assert (lib_ok s1) as H1 by by apply lib_ok_mosq.
  assert (strlen topic < 2 ^ 16) as Ht.
  { apply Z.eqb_eq, pub_topic_check_no_wildcard in Et as [_ Et]. lia. }
  destruct (qos =? 0) eqn:E0; wp_step.
  { eapply wp_mono; [by apply only_sends_ok; [apply lib_send_publish_only_sends; [done|lia]|]|]. intros rc s' H'. by wp_step. }
  set (a := cl_next s1). set (s2 := s1 <| cl_next ::= S |>).
  set (m := MessageAll a _ _ _ _ _).
  assert (message_ok m) as Hm by (unfold message_ok, m; cbn; lia).
  assert (lists_ok s2) as H2 by (apply lists_ok_next; [apply H1|lia]).
  eapply wp_mono; [apply queue_out_run; [done|]|].
  { split; [done|]. split; [apply (lists_ok_fresh a s1); [apply H1|done]|]. cbn. unfold a. lia. }
  cbv beta. intros _ s3 (H3 & L3 & I3 & E3 & _). wp_step.
  assert (lib_ok s3) as K3.
  { split; [done|]. rewrite E3. apply H1. }
  destruct (in_window s3); wp_step; [|done]. set (m' := m <| ma_state := first_state m |>).
  apply (wp_set_message_last m m' (cl_out_messages s2)); [done|done|done|]. wp_step.
  assert (message_ok m') as Hm' by done.
  eapply wp_mono; [apply only_sends_ok; [by apply send_message_only_sends|]|intros rc s5 H5; by wp_step].
  split; [|apply K3]. apply lists_ok_set_out; [done|by rewrite L3, !map_app|].
  pose proof (lo_messages _ H2) as Hf. apply Forall_app in Hf as [_ ?]. apply Forall_app. split; [done|]. by apply Forall_singleton.
Qed.
End calls.

Lemma sub_topic_check_length s : mosquitto_sub_topic_check s = MOSQ_ERR_SUCCESS -> strlen s < 2 ^ 16.
Proof.
  unfold mosquitto_sub_topic_check. destruct (sub_topic_loop NUL s 0) as [k|] eqn:E; [|done].
  apply sub_topic_loop_length in E. destruct (65535 <? k) eqn:El; [done|]. intros _. lia.
Qed.

(** A packet whose identifier is drawn after the buffer was allocated. *)
Lemma lib_queue_with_mid_ok command len body (bs : Z -> list byte) s : lib_ok s ->
  (forall mid, writes (bs mid) (body mid)) -> (forall mid, Z.of_nat (length (bs mid)) = len) -> len < 2 ^ 28 ->
  wp (lib_queue_with_mid command len body) (fun _ s' => lib_ok s') s.
Proof.
  intros Hs Hb Hl Hlen. unfold lib_queue_with_mid. assert (0 <= len) as H0 by (rewrite <- (Hl 0); lia).
  assert (wp (build_packet command len (mret tt)) (fun rc p => rc = 0 /\ packet_wf p /\ room p = len) packet_calloc) as H.
  { apply build_packet_run; [lia| |lia]. intros p _ Hw Hr _ _. by wp_step. }
  rewrite wp_eq in H. destruct (build_packet _ _ _ _) as [[rc p]|]; [|done]. destruct H as (-> & Hw & Hr).
  change (negb (0 =? 0)) with false. cbv iota. unfold lib_mid_generate. wp_step. proj_simpl. set (mid := next_mid _).
  set (s1 := s <| cl_mosq ::= _ |>). assert (lib_ok s1) as H1 by by apply lib_ok_mosq.
  pose proof (Hb mid p Hw) as H. rewrite Hl, Hr in H. specialize (H ltac:(lia)). rewrite wp_eq in H.
  destruct (body mid p) as [[[] p2]|]; [|done]. pose proof (appends_wf _ _ _ H) as (W0 & W1 & W2).
  wp_step. eapply wp_mono; [exact (lib_packet_queue_sends p2 (p_payload p2) ltac:(by split) s1)|].
  cbv beta. intros rc s' [H' _]. wp_step. by eapply lib_ok_more.
Qed.

Lemma subscribe_ok sub qos s : lib_ok s -> wp (mosquitto_subscribe sub qos) (fun _ s' => lib_ok s') s.
Proof.
  intros Hs. unfold mosquitto_subscribe. wp_step. destruct (_ =? INVALID_SOCKET); [by wp_step|].
  destruct (mosquitto_sub_topic_check sub =? 0) eqn:E; cbn [negb]; [|by wp_step].
  apply Z.eqb_eq, sub_topic_check_length in E. unfold lib_send_subscribe.
  apply lib_queue_with_mid_ok with (bs := fun mid => enc_uint16 mid ++ enc_string sub ++ [byte_of_Z (u8 qos)]); [done| | |].
  - intros mid. auto with writes.
  - intros mid. unfold enc_string, strlen. rewrite !length_app. cbn [length enc_uint16]. unfold enc_uint16. cbn [length]. lia.
  - lia.
Qed.

Lemma unsubscribe_ok sub s : lib_ok s -> wp (mosquitto_unsubscribe sub) (fun _ s' => lib_ok s') s.
Proof.
  intros Hs. unfold mosquitto_unsubscribe. wp_step. destruct (_ =? INVALID_SOCKET); [by wp_step|].
  destruct (mosquitto_sub_topic_check sub =? 0) eqn:E; cbn [negb]; [|by wp_step].
  apply Z.eqb_eq, sub_topic_check_length in E. unfold lib_send_unsubscribe.
  apply lib_queue_with_mid_ok with (bs := fun mid => enc_uint16 mid ++ enc_string sub); [done| | |].
  - intros mid. auto with writes.
  - intros mid. unfold enc_string, strlen. rewrite !length_app. unfold enc_uint16. cbn [length]. lia.
  - lia.
Qed.

Lemma lost_ok rc s : lib_ok s -> wp (lost_connection rc) (fun _ s' => lib_ok s') s.
Proof. intros [Hs _]. eapply wp_mono; [by apply lost_connection_ok|]. by intros rc' s' [? _]. Qed.

Lemma loop_misc_ok s : lib_ok s -> wp mosquitto_loop_misc (fun _ s' => lib_ok s') s.
Proof.
  intros Hs. unfold mosquitto_loop_misc. wp_step. destruct (_ =? INVALID_SOCKET); wp_step; [done|].
  assert (wp lib_check_keepalive (fun _ s' => lib_ok s') s) as Hk.
  { unfold lib_check_keepalive. wp_step. destruct (keepalive_due _ _); [|by wp_step]. destruct (_ && _).
    - unfold lib_send_pingreq. wp_step. eapply wp_mono; [apply only_sends_ok; [apply send_simple_only|done]|].
      cbv beta. intros rc s1 H1. wp_step. destruct (rc =? _); cbn [whenM]; wp_step; repeat (apply lib_ok_mosq; [|done|done|done|done]); done.
    - wp_step. eapply wp_mono; [by apply lost_ok|]. intros. by wp_step. }
  eapply wp_mono; [exact Hk|]. cbv beta. intros _ s1 H1. wp_step.
  assert (wp (whenM (cl_last_retry_check s1 + 1 <? cl_time s1)
    (_mosquitto_message_retry_check;; modify (fun s => s <| cl_last_retry_check := cl_time s |>)))
    (fun _ s' => lib_ok s') s1) as Hr.
  { destruct (_ <? _); cbn [whenM]; wp_step; [|done].
    eapply wp_mono; [by apply retry_check_lib_ok|]. cbv beta. intros _ s2 [H2 P2]. wp_step. split; [by destruct H2; split|done]. }
  eapply wp_mono; [exact Hr|]. cbv beta. intros _ s2 H2. wp_step. destruct (_ && _); wp_step; [|done].
  eapply wp_mono; [by apply lost_ok|]. intros. by wp_step.
Qed.

Lemma loop_ok answer n s : lib_ok s -> wp (mosquitto_loop answer n) (fun _ s' => lib_ok s') s.
Proof.
  intros Hs. unfold mosquitto_loop, mosquitto_want_write. destruct (n <? 1); wp_step; [done|].
  destruct (FD_SETSIZE <=? _); wp_step; [done|]. destruct answer as [b|readable writable woken]; [by wp_step|].
  destruct (_ =? INVALID_SOCKET); [by apply loop_misc_ok|]. wp_step.
  eapply wp_mono with (Q := fun _ s' => lib_ok s'); [destruct readable; [by apply loop_read_ok|by wp_step]|].
  cbv beta. intros rc s1 H1. wp_step. destruct (_ || _); wp_step; [done|].
  eapply wp_mono with (Q := fun _ s' => lib_ok s'); [destruct (_ || woken); [by apply loop_write_ok|by wp_step]|].
  cbv beta. intros rc2 s2 H2. wp_step. destruct (_ || _); wp_step; [done|]. by apply loop_misc_ok.
Qed.

(** The calls of the interface. *)
Inductive call :=
| CPublish (topic : option str) (payload : list byte) (qos : Z) (retain : bool)
| CSubscribe (sub : str) (qos : Z)
| CUnsubscribe (sub : str)
| CConnect (host : option str) (port keepalive : Z) (bind_address : option str) (blocking : bool)
| CReconnect (blocking : bool)
| CDisconnect
| CLoop (answer : select_answer) (max_packets : Z)
| CLoopRead (max_packets : Z)
| CLoopWrite (max_packets : Z)
| CLoopMisc
| CWillSet (topic : option str) (payload : list byte) (qos : Z) (retain : bool)
| CWillClear
| CUsernamePwSet (username password : option str)
| CMaxInflight (n : Z)
| CRetry (n : Z)
| CReconnectDelay (delay delay_max : Z) (backoff : bool)
| COpts (protocol_version : option Z).

Section run_call.
Context `{LibSystem}.

Definition run_call (c : call) : L unit :=
  match c with
  | CPublish topic payload qos retain => mosquitto_publish topic payload qos retain;; mret tt
  | CSubscribe sub qos => mosquitto_subscribe sub qos;; mret tt
  | CUnsubscribe sub => mosquitto_unsubscribe sub;; mret tt
  | CConnect host port keepalive bind_address blocking =>
    (if blocking then mosquitto_connect_bind host port keepalive bind_address
     else mosquitto_connect_bind_async host port keepalive bind_address);; mret tt
  | CReconnect blocking => (if blocking then mosquitto_reconnect else mosquitto_reconnect_async);; mret tt
  | CDisconnect => mosquitto_disconnect;; mret tt
  | CLoop answer n => mosquitto_loop answer n;; mret tt
  | CLoopRead n => mosquitto_loop_read n;; mret tt
  | CLoopWrite n => mosquitto_loop_write n;; mret tt
  | CLoopMisc => mosquitto_loop_misc;; mret tt
  | CWillSet topic payload qos retain => mosquitto_will_set topic payload qos retain;; mret tt
  | CWillClear => mosquitto_will_clear;; mret tt
  | CUsernamePwSet u p => mosquitto_username_pw_set u p;; mret tt
  | CMaxInflight n => mosquitto_max_inflight_messages_set n;; mret tt
  | CRetry n => mosquitto_message_retry_set n
  | CReconnectDelay a b e => mosquitto_reconnect_delay_set a b e;; mret tt
  | COpts v => mosquitto_opts_set v;; mret tt
  end.

(** What the library leaves to its user: strings that fit into CONNECT; and the two
    defects it has are not run into: a client that connects again must not have only
    incoming messages left, and a client that was bound to an address must give one
    again. *)
Definition allowed (c : call) (s : client) : Prop :=
  match c with
  | CConnect _ _ _ bind_address _ => resettable s /\ (bind_address = None -> cl_bind_address s = Null)
  | CReconnect _ => resettable s
  | CWillSet _ payload _ _ => strlen payload < 2 ^ 16
  | CUsernamePwSet u p => short u /\ short p
  | _ => True
  end.

Definition world (rs : list read_result) (ws : list write_result) (now : Z) (s : client) : client :=
  s <| cl_reads := rs |> <| cl_writes := ws |> <| cl_time := now |>.

Inductive lib_reachable : client -> Prop :=
| lr_new id clean_session s s' :
    short id -> mosquitto_new id clean_session s = Some (Some 0, s') -> lib_reachable s'
| lr_world rs ws now s : lib_reachable s -> lib_reachable (world rs ws now s)
| lr_callbacks f s : lib_reachable s -> lib_reachable (s <| cl_callbacks := f |>)
| lr_threaded b s : lib_reachable s -> lib_reachable (s <| cl_threaded := b |>)
| lr_call c s s' : lib_reachable s -> allowed c s -> run_call c s = Some (tt, s') -> lib_reachable s'.

Hypothesis socket_valid : forall s blocking, (lib_socket_connect s blocking).1 <= 0 -> 0 <= (lib_socket_connect s blocking).2.
Hypothesis random_short : strlen random_chars < 2 ^ 15.

Lemma lib_ok_of_unit {A} (m : L A) s : wp m (fun _ s' => lib_ok s') s -> wp (m;; mret tt) (fun _ s' => lib_ok s') s.
Proof. intros Hm. wp_step. eapply wp_mono; [exact Hm|]. intros. by wp_step. Qed.

Lemma lib_connect_ok blocking host port keepalive bind_address s : lib_ok s -> resettable s ->
  (bind_address = None -> cl_bind_address s = Null) ->
  wp (if blocking : bool then mosquitto_connect_bind host port keepalive bind_address
      else mosquitto_connect_bind_async host port keepalive bind_address) (fun _ s' => lib_ok s') s.
Proof.
  intros Hs Hr Hb.
  assert (wp (_mosquitto_connect_init host port keepalive bind_address) (fun rc s' => lib_ok s' /\ resettable s') s) as Hi.
  { unfold _mosquitto_connect_init. destruct host as [host|]; [|by wp_step]. destruct (port <=? 0); [by wp_step|].
    unfold free_bind_address. wp_step. pose proof (lo_bind _ (lk_lists _ Hs)) as Hf.
    assert (wp (match cl_bind_address s with Freed => fault | _ => mret tt end) (fun _ s' => s' = s) s) as H0
      by (destruct (cl_bind_address s); [by wp_step..|done]).
    eapply wp_mono; [exact H0|]. cbv beta. intros _ s' ->. wp_step. split; [|exact Hr].
    destruct Hs as [[] Hp]. split; [|exact Hp]. split; proj_simpl; try done.
    destruct bind_address; [done|]. by rewrite Hb. }
  destruct blocking; unfold mosquitto_connect_bind, mosquitto_connect_bind_async; wp_step;
    (eapply wp_mono; [exact Hi|]); cbv beta; intros rc s1 [H1 R1]; destruct (negb _); wp_step; try done;
    (apply reconnect_ok; [done|by apply lib_ok_mosq|exact R1]).
Qed.

Lemma call_ok c s : lib_ok s -> allowed c s -> wp (run_call c) (fun _ s' => lib_ok s') s.
Proof.
  intros Hs Ha. destruct c; cbn [run_call allowed] in *; try apply lib_ok_of_unit.
  - by apply publish_ok.
  - by apply subscribe_ok.
  - by apply unsubscribe_ok.
  - destruct Ha. by apply lib_connect_ok.
  - by destruct blocking; apply reconnect_ok.
  - unfold mosquitto_disconnect. wp_step. set (s1 := s <| cl_mosq ::= _ |>).
    assert (lib_ok s1) as H1 by by apply lib_ok_mosq. destruct (_ =? INVALID_SOCKET); [by wp_step|].
    by apply only_sends_ok; [apply send_simple_only|].
  - by apply loop_ok.
  - by apply loop_read_ok.
  - by apply loop_write_ok.
  - by apply loop_misc_ok.
  - unfold mosquitto_will_set, lib_will_set. destruct topic as [topic|]; [|by wp_step].
    destruct (MQTT_MAX_PAYLOAD <? _); [by wp_step|].
    destruct (mosquitto_pub_topic_check topic =? 0) eqn:Et; cbn [negb]; wp_step; [|done].
    apply Z.eqb_eq, pub_topic_check_no_wildcard in Et as [_ Et].
    destruct Hs as [[] Hp]. split; [|exact Hp]. split; proj_simpl; try done.
    destruct lo_names as (N1 & N2 & N3 & N4 & _). split_and!; try done. intros w. proj_simpl. intros [= <-]. cbn. lia.
  - unfold mosquitto_will_clear. wp_step. destruct Hs as [[] Hp]. split; [|exact Hp]. split; proj_simpl; try done.
    destruct lo_names as (N1 & N2 & N3 & N4 & _). split_and!; try done.
  - unfold mosquitto_username_pw_set. wp_step. destruct Ha as [A1 A2]. destruct Hs as [[] Hp]. split; [|exact Hp]. split; proj_simpl; try done.
    destruct lo_names as (N1 & N2 & N3 & N4 & N5). split_and!; try done. proj_simpl. by destruct (bool_decide _).
  - unfold mosquitto_max_inflight_messages_set. wp_step. by destruct Hs as [[] Hp].
  - unfold mosquitto_message_retry_set. wp_step. by destruct Hs as [[] Hp].
  - unfold mosquitto_reconnect_delay_set. wp_step. by destruct Hs as [[] Hp].
  - unfold mosquitto_opts_set. destruct protocol_version as [v|]; [|by wp_step].
    destruct (v =? _); wp_step; [by apply lib_ok_mosq|]. destruct (v =? _); wp_step; [by apply lib_ok_mosq|done].
Qed.

Lemma new_ok id clean_session s : short id ->
  wp (mosquitto_new id clean_session) (fun r s' => r = Some 0 -> lib_ok s') s.
Proof.
  intros Hid. assert (forall i now s0, strlen i < 2 ^ 16 -> lib_ok (client_defaults i now (client_settings clean_session (client_zero s0)))) as Hd.
  { intros i now s0 Hi. split; [|by intros []]. split; try done; try by constructor.
    split; [done|]. split; [by intros ? [= <-]|]. by split_and!. }
  unfold mosquitto_new, mosquitto_reinitialise, _mosquitto_destroy, free_bind_address, _mosquitto_message_cleanup_all.
  destruct (negb clean_session && _) eqn:E; [by wp_step|]. wp_step. proj_simpl.
  change (negb (INVALID_SOCKET =? INVALID_SOCKET)) with false. cbn [whenM]. wp_step. proj_simpl.
  match goal with |- context [cl_bind_address ?s] => change (cl_bind_address s) with (@Null str) end. wp_step.
  destruct id as [id|]; [destruct (strlen id =? 0)|]; wp_step.
  - change (negb (MOSQ_ERR_INVAL =? 0)) with true. cbv iota. wp_step. proj_simpl. by vm_compute.
  - change (negb (MOSQ_ERR_SUCCESS =? 0)) with false. cbv iota. wp_step. intros _. apply Hd. by apply Hid.
  - change (negb (MOSQ_ERR_SUCCESS =? 0)) with false. cbv iota. wp_step. intros _. apply Hd. rewrite strlen_app. change (strlen (lit "mosq/")) with 5. lia.
Qed.

Lemma reachable_lib_ok s : lib_reachable s -> lib_ok s.
Proof.
  induction 1 as [id cs s s' Hid Hn|rs ws now s _ IH|f s _ IH|b s _ IH|c s s' _ IH Ha Hrun].
  - pose proof (new_ok id cs s Hid) as Hw. rewrite wp_eq, Hn in Hw. by apply Hw.
  - by destruct IH as [[] Hp].
  - by destruct IH as [[] Hp].
  - by destruct IH as [[] Hp].
  - pose proof (call_ok c s IH Ha) as Hw. by rewrite wp_eq, Hrun in Hw.
Qed.

End run_call.

(** A client that has connected and published, between two calls. *)
#[local] Instance sample_lib_system : LibSystem :=
  {| lib_socket_connect _ _ := (0, 5); random_chars := lit "0123456789abcdefgh" |}.

Definition sample_new : client :=
  client_zero (Client context_calloc None 0 Null false 0 0 0 0 false [] None [] None 0 0 0 0 (fun _ => false) [] [] 0 [] [] [] false 0).

Definition lib_after {A} (m : L A) (s : client) : client :=
  match m s with Some (_, s') => s' | None => s end.

Definition sample_connected : client :=
  lib_after (run_call (CConnect (Some (lit "h")) 1883 60 None true)) (lib_after (mosquitto_new (Some (lit "me")) true) sample_new).

Definition sample_lib_client : client :=
  lib_after (run_call (CPublish (Some (lit "a")) (lit "x") 2 false)) sample_connected.


(** * Where the library does not do what it means to *)

Definition calls (cs : list call) (s : client) : client := fold_left (fun s c => lib_after (run_call c) s) cs s.

(** The broker's bytes arrive and the library is let run. *)
Definition receives (bs : list Z) (s : client) : client :=
  lib_after (run_call (CLoopRead 1)) (s <| cl_reads := [RdOk (map byte_of_Z bs)] |>).

Definition sample_lib_ready (window : Z) : client :=
  receives [32; 2; 0; 0] (calls [CMaxInflight window; CConnect (Some (lit "h")) 1883 60 None true]
    (lib_after (mosquitto_new (Some (lit "me")) true) sample_new) <| cl_callbacks := fun _ => true |>).

Definition publish_a (qos : Z) : call := CPublish (Some (lit "a")) (lit "x") qos false.

(** PUBLISH of one byte on topic "a" at QoS 2; the sample's PUBLISH at QoS 1. *)
Definition publish2_bytes (mid x : Z) : list Z := [52; 6; 0; 1; 97; 0; mid; x].

(** With room for one message in flight nothing is ever sent: [_mosquitto_message_queue]
    counts the message and then [mosquitto_publish] finds no room for it. *)
Lemma window_of_one_sends_nothing :
  let s := sample_lib_ready 1 in
  let s' := calls [publish_a 1; publish_a 2] s in
  lib_stream s' = lib_stream s /\ map ma_state (cl_out_messages s') = [mosq_ms_invalid; mosq_ms_invalid].
Proof. by vm_compute. Qed.

(** A message that was counted when it was queued without being sent is counted again
    when it is sent: once a burst has filled the window, with everything acknowledged and
    nothing on the list, one place is lost; with room for two, nothing is sent any more. *)
Definition after_burst : client :=
  receives [64; 2; 0; 3] (receives [64; 2; 0; 2] (receives [64; 2; 0; 1]
    (calls [publish_a 1; publish_a 1; publish_a 1] (sample_lib_ready 2)))).

Lemma window_leaks :
  cl_out_messages after_burst = [] /\ cl_inflight_messages after_burst = 1 /\
  let s' := calls [publish_a 1] after_burst in
  lib_stream s' = lib_stream after_burst /\ map ma_state (cl_out_messages s') = [mosq_ms_invalid].
Proof. by vm_compute. Qed.

(** Connecting again while a QoS 2 message waits for its PUBREL and none is going out
    leaves the end of the outgoing list pointing to the incoming one: the next message
    that is published is linked there. Its PUBREL, that no one sends, would deliver it to
    its own sender; its PUBACK finds nothing. *)
Lemma reconnect_mixes_the_lists :
  let s := calls [CReconnect true; publish_a 1] (receives (publish2_bytes 9 120) (sample_lib_ready 20)) in
  map ma_mid (cl_in_messages s) = [9; 1] /\ cl_out_messages s = [] /\
  cl_events (receives [64; 2; 0; 1] s) = cl_events s /\
  exists m, cl_events (receives [98; 2; 0; 1] s) = cl_events s ++ [on_message 1 m].
Proof. split_and!; [by vm_compute..|]. eexists. by vm_compute. Qed.

(** A QoS 2 message that the broker sends a second time, because its PUBREC was late, is
    put on the list a second time; when its identifier is used again, the old message is
    delivered a second time and the new one is not. *)
Lemma repeated_qos2_is_delivered_twice :
  let first := receives (publish2_bytes 9 120) (sample_lib_ready 20) in
  let released := receives [98; 2; 0; 9] (receives (60 :: tl (publish2_bytes 9 120)) first) in
  let again := receives [98; 2; 0; 9] (receives (publish2_bytes 9 121) released) in
  cl_events again =
    [on_connect 0; on_message 9 (Message (lit "a") (lit "x") 2 false); on_message 9 (Message (lit "a") (lit "x") 2 false)] /\
  map (fun m => msg_payload (ma_msg m)) (cl_in_messages again) = [lit "y"].
Proof. by vm_compute. Qed.

(** Giving up a bind address frees it without forgetting it. *)
Lemma bind_address_is_used_after_free :
  run_call (CConnect (Some (lit "h")) 1883 60 None true)
    (calls [CConnect (Some (lit "h")) 1883 60 (Some (lit "10.0.0.1")) true]
      (lib_after (mosquitto_new (Some (lit "me")) true) sample_new)) = None.
Proof. by vm_compute. Qed.

(** The waits between attempts to connect, which mosquitto.h gives as 3, 6, 12, 24, 30
    with backoff, and as 2, 4, 6, 8, 10 without. *)
Fixpoint waits (n : nat) (s : client) (reconnects : Z) : list Z :=
  match n with
  | O => []
  | S n => let '(wait, reconnects) := next_delay s reconnects in wait :: waits n s reconnects
  end.

Lemma waits_with_backoff :
  waits 5 (calls [CReconnectDelay 3 30 true] sample_new) 0 = [0; 3; 12; 27; 30] /\
  waits 5 (calls [CReconnectDelay 2 10 false] sample_new) 0 = [2; 2; 2; 2; 2].
Proof. by vm_compute. Qed.
