(* ===== verification/Delivery.v ===== *)
(** Messages between the library and a broker: what [mosquitto_publish] sends is what
    the broker decides on, and what a broker sends is what the user is given, a QoS 2
    message once. *)

From S2P Require Export Library.

#[local] Open Scope Z_scope.

(** * From the user to the broker *)

Lemma next_mid_range m : 0 < next_mid m < 2 ^ 16.
Proof.
  unfold next_mid. cbv zeta. assert (forall z, u16 z = z mod 65536) as Hu by done. rewrite !Hu.
  destruct (Z.eqb_spec ((m + 1) mod 65536) 0); change (2 ^ 16) with 65536; Z.to_euclidean_division_equations; lia.
Qed.

Section publish.
Context `{LibSystem}.

(** One message more may be in flight. *)
Definition in_room (qos : Z) (s : client) : Prop :=
  qos = 0 \/ cl_max_inflight_messages s = 0 \/ cl_inflight_messages s + 1 < cl_max_inflight_messages s.

Lemma room_in_window qos s s' : qos <> 0 -> in_room qos s ->
  cl_max_inflight_messages s' = cl_max_inflight_messages s ->
  cl_inflight_messages s' = (if in_window s then cl_inflight_messages s + 1 else cl_inflight_messages s) ->
  in_window s' = true.
Proof.
  intros Hq Hr E1 E2. unfold in_window in *. rewrite E1, E2. destruct Hr as [?|[?|?]]; [done|by rewrite (proj2 (Z.eqb_eq _ 0))|].
  rewrite (proj2 (Z.ltb_lt _ _)); [by rewrite orb_true_r|]. destruct (_ =? 0); cbn [orb]; [lia|].
  destruct (Z.ltb_spec (cl_inflight_messages s) (cl_max_inflight_messages s)); lia.
Qed.

(** A message that was sent and waits for its acknowledgement. *)
Definition sent_message (a : addr) (now mid : Z) (topic : str) (payload : list byte) (qos : Z) (retain : bool) :=
  MessageAll a now (if qos =? 1 then mosq_ms_wait_for_puback else mosq_ms_wait_for_pubrec) false mid
    (Message topic payload qos retain).

(** What [mosquitto_publish] does when there is room. *)
Definition published (topic : str) (payload : list byte) (qos : Z) (retain : bool) (s : client)
    (r : Z * option Z) (s' : client) : Prop :=
  let mid := next_mid (c_last_mid (cl_mosq s)) in
  r = (MOSQ_ERR_SUCCESS, Some mid) /\ lists_ok s'
  /\ lib_stream s' = lib_stream s ++ enc_publish mid topic payload qos retain false
  /\ cl_in_messages s' = cl_in_messages s
  /\ cl_out_messages s' = cl_out_messages s ++
       (if qos =? 0 then [] else [sent_message (cl_next s) (cl_time s) mid topic payload qos retain]).

Lemma lib_send_publish_run mid topic payload qos retain s : connected s -> Forall write_ok (cl_writes s) ->
  lib_sendable topic payload ->
  wp (lib_send_publish mid topic payload qos retain false) (fun rc s' => rc = MOSQ_ERR_SUCCESS
    /\ written_more (enc_publish mid topic payload qos retain false) s s') s.
Proof.
  intros Hc Hw Hs. unfold lib_send_publish. wp_step. rewrite (proj2 (Z.eqb_neq _ _)) by exact Hc.
  eapply wp_mono; [by apply lib_send_real_publish_sends|]. cbv beta. intros rc s' [H1 H2]. auto.
Qed.

Lemma publish_sends topic payload qos retain s :
  lists_ok s -> connected s -> Forall write_ok (cl_writes s) ->
  0 <= qos <= 2 -> topic <> [] -> mosquitto_pub_topic_check topic = MOSQ_ERR_SUCCESS ->
  4 + strlen topic + strlen payload < 2 ^ 28 -> in_room qos s ->
  wp (mosquitto_publish (Some topic) payload qos retain) (published topic payload qos retain s) s.
Proof.
  intros Hs Hc Hw Hq Hne Hck Hsize Hroom. pose proof (strlen_nonneg topic) as Ht0.
  assert (strlen topic < 2 ^ 16) as Ht by (apply pub_topic_check_no_wildcard in Hck as [_ ?]; lia).
  assert (lib_sendable topic payload) as Hsend by (split; [done|unfold strlen in *; lia]).
  unfold mosquitto_publish. rewrite (proj2 (Z.ltb_ge qos 0)), (proj2 (Z.ltb_ge 2 qos)) by lia. cbn [orb].
  rewrite (proj2 (Z.eqb_neq (strlen topic) 0)) by (intros E; apply Hne; by destruct topic).
  rewrite (proj2 (Z.ltb_ge MQTT_MAX_PAYLOAD _)) by (unfold MQTT_MAX_PAYLOAD, strlen in *; lia).
  rewrite Hck. change (negb (MOSQ_ERR_SUCCESS =? MOSQ_ERR_SUCCESS)) with false. cbv iota.
  unfold lib_mid_generate. wp_step. proj_simpl. unfold published. set (mid := next_mid _).
  set (s1 := s <| cl_mosq ::= _ |>).
  assert (lists_ok s1) as H1 by (apply lists_ok_mosq; [done|done|done|apply Hs]).
  assert (lib_stream s1 = lib_stream s) as E1 by done.
  destruct (qos =? 0) eqn:E0; wp_step.
  { eapply wp_mono; [by apply (lib_send_publish_run mid topic payload qos retain s1)|]. cbv beta.
    intros rc s2 [-> H2]. wp_step. split; [done|]. split; [by eapply lists_ok_more|].
    rewrite (wm_stream _ _ _ H2) by apply H1. destruct (written_more_lists _ _ _ H2) as (-> & -> & _).
    by rewrite app_nil_r. }
  set (s2 := s1 <| cl_next ::= S |>). set (m := MessageAll _ _ _ _ _ _).
  assert (lists_ok s2) as H2 by (apply lists_ok_next; [done|lia]).
  eapply wp_mono; [apply queue_out_run; [exact H2|]|].
  { split; [unfold message_ok, m; cbn; unfold MQTT_MAX_PAYLOAD, strlen in *; lia|].
    split; [apply (lists_ok_fresh _ s1); [done|cbn; lia]|cbn; lia]. }
  cbv beta. intros _ s3 (H3 & L3 & I3 & E3 & N3). wp_step.
  assert (in_window s3 = true) as ->.
  { apply (room_in_window qos s2 s3); [lia|exact Hroom|by rewrite E3; proj_simpl|exact N3]. }
  wp_step. set (m' := m <| ma_state := first_state m |>).
  apply (wp_set_message_last m m' (cl_out_messages s2)); [done|done|done|].
  assert (m' = sent_message (cl_next s) (cl_time s) mid topic payload qos retain) as Em.
  { unfold m', m, sent_message, first_state. cbn. destruct (qos =? 1) eqn:Eq1; [done|].
    apply Z.eqb_neq in E0, Eq1. by rewrite (proj2 (Z.eqb_eq qos 2)) by lia. }
  set (s4 := s3 <| cl_out_messages := _ |>).
  assert (lists_ok s4) as H4.
  { apply lists_ok_set_out; [done|by rewrite L3, !map_app|].
    pose proof (lo_messages _ H3) as Hf. apply Forall_app in Hf as [_ Hf]. rewrite L3 in Hf.
    apply Forall_app in Hf as [? Hf]. apply Forall_app. split; [done|]. rewrite Forall_singleton in Hf. apply Forall_singleton. exact Hf. }
  assert (lib_stream s4 = lib_stream s /\ connected s4 /\ cl_writes s4 = cl_writes s) as (E4 & C4 & W4).
  { unfold s4, lib_stream, connected. rewrite E3. by proj_simpl. }
  rewrite wp_bind. eapply wp_mono; [exact (lib_send_publish_run mid topic payload qos retain s4 C4 ltac:(by rewrite W4) Hsend)|].
  cbv beta. intros rc s5 [-> H5]. wp_step. split; [done|]. split; [by eapply lists_ok_more|].
  rewrite (wm_stream _ _ _ H5) by apply H4. rewrite E4. destruct (written_more_lists _ _ _ H5) as (-> & -> & _).
  split; [done|]. unfold s4. proj_simpl. rewrite I3, Em. done.
Qed.
End publish.

(** * From the broker to the user *)

(** [bs] is what is left of the packet that is handled. *)
Definition lib_unparsed (bs : list byte) (s : client) : Prop :=
  inpacket_wf (in_packet s) /\ unread (in_packet s) = bs.

Definition lib_ahead (n : Z) (s : client) : client :=
  s <| cl_mosq ::= (fun x => x <| c_in_packet ::= advance n |>) |>.

Lemma wp_lib_takes {A B} (m : ST packet (res A)) bs rest a (k : res A -> L B) Q s :
  takes m bs a -> lib_unparsed (bs ++ rest) s ->
  (lib_unparsed rest (lib_ahead (strlen bs) s) -> wp (k (ROk a)) Q (lib_ahead (strlen bs) s)) ->
  wp (lib_in_packet m ≫= k) Q s.
Proof.
  intros Hm [Hp Hu] HQ. rewrite wp_bind. apply wp_lib_in_packet. eexists _, _. split; [by apply (Hm _ rest)|].
  unfold lib_unparsed, lib_ahead, in_packet in *.
  pose proof (unread_length _ Hp) as Hl. rewrite Hu, length_app in Hl. unfold strlen in *.
  apply HQ. proj_simpl. split; [apply advance_wf; [done|lia]|].
  rewrite unread_advance by (done || lia). by rewrite Hu, Nat2Z.id, drop_app_length.
Qed.

Lemma lib_ahead_ahead n m s : lib_ahead n (lib_ahead m s) = lib_ahead (n + m) s.
Proof. unfold lib_ahead. destruct s as [[]]. cl_compute. ctx_compute. by rewrite advance_add. Qed.

Lemma lib_ahead_0 s : lib_ahead 0 s = s.
Proof. unfold lib_ahead, advance. destruct s as [[? ? ? ? ? ? ? ? ? ? ? ? []]]. cl_compute. by ctx_compute. Qed.

(** What a PUBLISH carries after its header. *)
Definition publish_body (mid : Z) (topic : str) (payload : list byte) (qos : Z) : list byte :=
  enc_string topic ++ (if 0 <? qos then enc_uint16 mid else []) ++ payload.

Lemma read_publish_takes mid topic payload qos s Q :
  0 <= mid < 2 ^ 16 -> short_string topic -> topic <> [] -> strlen payload < 2 ^ 28 ->
  lib_unparsed (publish_body mid topic payload qos) s ->
  Q (ROk (if 0 <? qos then mid else 0, topic, payload)) (lib_ahead (strlen (publish_body mid topic payload qos)) s) ->
  wp (lib_read_publish qos) Q s.
Proof.
  intros Hmid Ht Hne Hp Hu HQ. unfold lib_read_publish, publish_body in *.
  eapply wp_lib_takes; [by apply takes_string|exact Hu|]. intros H1. cbv beta iota.
  rewrite bool_decide_eq_false_2 by done.
  assert (forall m s1, lib_unparsed payload s1 -> Q (ROk (m, topic, payload)) (lib_ahead (strlen payload) s1) ->
    wp (s ← get;
        let p := c_in_packet (cl_mosq s) in
        let payloadlen := u32 (p_remaining_length p - p_pos p) in
        if payloadlen =? 0 then mret (ROk (m, topic, [])) else
        r ← lib_in_packet (_mosquitto_read_bytes payloadlen);
        mret (match r with ROk payload => ROk (m, topic, payload) | RErr rc => RErr rc end)) Q s1) as Hrest.
  { intros m s1 [Hw Hu1] HQ1. rewrite wp_bind, wp_get. cbv zeta. change (c_in_packet (cl_mosq s1)) with (in_packet s1).
    pose proof (unread_length _ Hw) as Hl. rewrite Hu1 in Hl. fold (strlen payload) in Hl.
    pose proof (strlen_nonneg payload). rewrite <- Hl, u32_small by lia.
    destruct (Z.eqb_spec (strlen payload) 0) as [E|E].
    - wp_step. assert (payload = []) as -> by (by destruct payload). by rewrite lib_ahead_0 in HQ1.
    - eapply (wp_lib_takes _ payload []); [by apply takes_bytes|by rewrite app_nil_r|]. intros _. by wp_step. }
  destruct (0 <? qos).
  - eapply wp_lib_takes; [by apply takes_uint16|exact H1|]. intros H2. apply Hrest; [exact H2|].
    rewrite !lib_ahead_ahead. rewrite !strlen_app in HQ. 
    match goal with |- Q _ (lib_ahead ?n _) => replace n with (strlen (enc_string topic) + (strlen (enc_uint16 mid) + strlen payload)) by lia end. exact HQ.
  - rewrite wp_bind, wp_ret. apply Hrest; [exact H1|]. rewrite lib_ahead_ahead. rewrite !strlen_app in HQ.
    match goal with |- Q _ (lib_ahead ?n _) => replace n with (strlen (enc_string topic) + (strlen (@nil byte) + strlen payload)) by (unfold strlen; cbn [length]; lia) end. exact HQ.
Qed.

(** What becomes of the library once a message was taken. *)
Record taken (mid : Z) (m : mosquitto_message) (dup : bool) (s s' : client) : Prop := Taken {
  tk_lists : lists_ok s';
  tk_out : cl_out_messages s' = cl_out_messages s;
  tk_in : cl_in_messages s' = cl_in_messages s ++
    (if msg_qos m =? 2 then [MessageAll (cl_next s) (cl_time s) mosq_ms_wait_for_pubrel dup mid m] else []);
  tk_stream : lib_stream s' = lib_stream s ++
    (if msg_qos m =? 0 then [] else enc_packet (if msg_qos m =? 1 then PUBACK else PUBREC) (enc_uint16 mid));
  tk_events : exists es, Forall out_event es /\ cl_events s' = cl_events s ++ es ++
    (if (msg_qos m <? 2) && cl_callbacks s (on_message mid m) then [on_message mid m] else []) }.

Lemma publish_header_dup qos retain dup : 0 <= qos <= 2 ->
  negb (Z.land (publish_header qos retain dup) 0x08 =? 0) = dup.
Proof. intros Hq. assert (qos = 0 \/ qos = 1 \/ qos = 2) as [->|[->| ->]] by lia; by destruct retain, dup. Qed.

Lemma called_events e s : cl_events (called e s) = cl_events s ++ (if cl_callbacks s e then [e] else []).
Proof. unfold called. destruct (cl_callbacks s e); [by destruct s|by rewrite app_nil_r]. Qed.

Lemma called_rest e s : cl_in_messages (called e s) = cl_in_messages s /\ cl_out_messages (called e s) = cl_out_messages s
  /\ lib_stream (called e s) = lib_stream s /\ cl_reads (called e s) = cl_reads s.
Proof. unfold called. by destruct (cl_callbacks s e). Qed.

Lemma written_more_seen bs s s' : written_more bs s s' ->
  cl_callbacks s' = cl_callbacks s /\ cl_reads s' = cl_reads s /\ cl_time s' = cl_time s.
Proof. intros H. rewrite (wm_client _ _ _ H). by proj_simpl. Qed.

Lemma handle_publish_takes mid topic payload qos retain dup s :
  lists_ok s -> connected s -> Forall write_ok (cl_writes s) ->
  0 <= qos <= 2 -> 0 <= mid < 2 ^ 16 -> short_string topic -> topic <> [] -> strlen payload < 2 ^ 28 ->
  p_command (in_packet s) = publish_header qos retain dup ->
  lib_unparsed (publish_body mid topic payload qos) s ->
  wp _mosquitto_handle_publish (fun rc s' => rc = MOSQ_ERR_SUCCESS
    /\ taken (if 0 <? qos then mid else 0) (Message topic payload qos retain) dup s s' /\ cl_reads s' = cl_reads s) s.
Proof.
  intros Hs Hc Hw Hq Hmid Ht Hne Hp Hcmd Hu. unfold _mosquitto_handle_publish. rewrite wp_bind, wp_lib_malloc.
  rewrite wp_bind, wp_get. cbv zeta. change (p_command (c_in_packet (cl_mosq (s <| cl_next ::= S |>)))) with (p_command (in_packet s)).
  destruct (publish_header_qos qos retain dup Hq) as [Eq Er]. rewrite Hcmd, Eq, Er, publish_header_dup by done.
  rewrite wp_bind. eapply read_publish_takes; [done..|]. cbv beta iota.
  set (n := strlen _). set (s1 := lib_ahead n _). set (msg := Message topic payload qos retain).
  assert (lists_ok s1) as H1.
  { apply lists_ok_mosq; [apply lists_ok_next; [done|lia]|done|done|apply Hs]. }
  assert (lib_stream s1 = lib_stream s) as E1 by done.
  assert (forall bs s2, written_more bs s1 s2 -> lists_ok s2 /\ lib_stream s2 = lib_stream s ++ bs
    /\ cl_in_messages s2 = cl_in_messages s /\ cl_out_messages s2 = cl_out_messages s /\ cl_next s2 = S (cl_next s)
    /\ cl_callbacks s2 = cl_callbacks s /\ cl_reads s2 = cl_reads s /\ cl_time s2 = cl_time s
    /\ exists es, cl_events s2 = cl_events s ++ es /\ Forall out_event es) as Hsent.
  { intros bs s2 H2. split; [by eapply lists_ok_more|]. rewrite (wm_stream _ _ _ H2) by apply H1.
    destruct (written_more_lists _ _ _ H2) as (-> & -> & ->). destruct (written_more_seen _ _ _ H2) as (-> & -> & ->).
    do 7 (split; [done|]). apply (wm_events _ _ _ H2). }
  assert (qos = 0 \/ qos = 1 \/ qos = 2) as [->|[->| ->]] by lia; cbn [Z.eqb Z.ltb Z.compare Pos.compare Pos.compare_cont Pos.eqb].
  - wp_step. split; [done|]. destruct (called_rest (on_message 0 msg) s1) as (C1 & C2 & C3 & C4).
    rewrite C4. split; [|done]. split; rewrite ?C1, ?C2, ?C3; [by apply lists_ok_called|done|by rewrite app_nil_r|by rewrite app_nil_r, E1|].
    exists []. split; [done|]. by rewrite called_events.
  - wp_step. eapply wp_mono; [apply lib_send_mid_sends|]. cbv beta. intros rc s2 [H2 Hrc].
    destruct (Hsent _ _ H2) as (L2 & S2 & I2 & O2 & N2 & B2 & R2 & T2 & es & E2 & Hes). wp_step.
    split; [by apply Hrc|]. destruct (called_rest (on_message mid msg) s2) as (C1 & C2 & C3 & C4).
    rewrite C4. split; [|done]. split; rewrite ?C1, ?C2, ?C3; [by apply lists_ok_called|done|by rewrite app_nil_r|done|].
    exists es. split; [done|]. by rewrite called_events, E2, B2, <- app_assoc.
  - wp_step. eapply wp_mono; [apply lib_send_mid_sends|]. cbv beta. intros rc s2 [H2 Hrc].
    destruct (Hsent _ _ H2) as (L2 & S2 & I2 & O2 & N2 & B2 & R2 & T2 & es & E2 & Hes). wp_step.
    set (m := MessageAll _ _ _ _ _ _).
    eapply wp_mono; [apply (queue_in_run m s2 L2); [|done]|].
    { split; [unfold message_ok, m; cbn; unfold MQTT_MAX_PAYLOAD, short_string, strlen in *; lia|].
      rewrite I2, O2, N2. split; [by apply lists_ok_fresh|cbn; lia]. }
    cbv beta. intros _ s3 [H3 E3]. wp_step. split; [by apply Hrc|].
    split; [|by rewrite E3]. split; [done|rewrite E3; by proj_simpl|rewrite E3; proj_simpl; by rewrite I2| |].
    + rewrite E3. exact S2.
    + exists es. split; [done|]. rewrite E3. proj_simpl. by rewrite app_nil_r.
Qed.

(** ** A whole packet *)

Definition read_done (now : Z) (s : client) : client :=
  s <| cl_mosq ::= (fun x => x <| c_in_packet ::= _mosquitto_packet_cleanup |> <| c_last_msg_in := now |>) |>.

Lemma lib_read_frame f extra rest s Q :
  connected s -> c_state (cl_mosq s) <> mosq_cs_connect_pending -> clean (in_packet s) -> frame_wf f ->
  delivers (cl_reads s) (frame_bytes f ++ extra) rest ->
  (forall s1, s1 = s <| cl_reads := cl_reads s1 |> <| cl_again := false |>
                     <| cl_mosq ::= (fun x => x <| c_in_packet := in_packet s1 |>) |> ->
     p_command (in_packet s1) = Z_of_byte (f_command f) -> lib_unparsed (f_body f) s1 ->
     delivers (cl_reads s1) extra rest ->
     wp _mosquitto_packet_handle (fun rc s' => Q rc (read_done (cl_time s) s')) s1) ->
  wp lib_packet_read Q s.
Proof.
  intros Hc Hst Hcl Hf Hd HQ. unfold lib_packet_read. rewrite wp_bind, wp_get. cbv zeta.
  rewrite (proj2 (Z.eqb_neq _ _)) by exact Hc. rewrite bool_decide_eq_false_2 by done.
  destruct (assemble_reads (fun _ => true) f (frame_bytes f) (in_packet s) (cl_reads s) (frame_bytes f ++ extra) rest 0
    Hf (receiving_start f _ Hcl) eq_refl Hd) as [_ R].
  destruct (R extra eq_refl) as (p & n & rs & E & _ & Hrs). unfold in_packet in E at 1. rewrite E.
  destruct (received_unparsed f p Hf) as (Hcmd & Hw & Hu). wp_step.
  set (s1 := _ <| cl_mosq ::= fun x => x <| c_in_packet ::= _ |> |>).
  eapply wp_mono; [apply (HQ s1)|].
  - unfold s1, in_packet. by destruct s as [[]].
  - exact Hcmd.
  - by split.
  - exact Hrs.
  - cbv beta. intros rc s' H'. by wp_step.
Qed.

(** PUBLISH is for its handler. *)
Lemma packet_handle_publish qos retain dup s : 0 <= qos <= 2 -> p_command (in_packet s) = publish_header qos retain dup ->
  forall Q, wp _mosquitto_handle_publish Q s -> wp _mosquitto_packet_handle Q s.
Proof.
  intros Hq Hcmd Q H. unfold _mosquitto_packet_handle. rewrite wp_bind, wp_get. cbv zeta. unfold in_packet in Hcmd. rewrite Hcmd.
  assert (qos = 0 \/ qos = 1 \/ qos = 2) as [->|[->| ->]] by lia; by destruct retain, dup.
Qed.

(** A client between two packets, whose socket works. *)
Definition ready (s : client) : Prop :=
  lists_ok s /\ connected s /\ c_state (cl_mosq s) <> mosq_cs_connect_pending /\ clean (in_packet s)
  /\ Forall write_ok (cl_writes s).

(** Whatever else changed in between. *)
Definition seen (s : client) :=
  (cl_out_messages s, cl_in_messages s, cl_next s, cl_time s, lib_stream s, cl_events s, cl_callbacks s).

(** A packet [enc_packet command body] arrives. *)
Lemma lib_read_packet command body extra rest s Q :
  ready s -> byte_of_Z command <> NUL -> strlen body < 2 ^ 28 ->
  delivers (cl_reads s) (enc_packet command body ++ extra) rest ->
  (forall s1, lists_ok s1 -> connected s1 -> Forall write_ok (cl_writes s1) -> seen s1 = seen s ->
     p_command (in_packet s1) = Z_of_byte (byte_of_Z command) -> lib_unparsed body s1 -> delivers (cl_reads s1) extra rest ->
     wp _mosquitto_packet_handle (fun rc s' => Q rc (read_done (cl_time s) s')) s1) ->
  wp lib_packet_read Q s.
Proof.
  intros (Hs & Hc & Hst & Hcl & Hw) Hcmd Hb Hd HQ.
  destruct (enc_packet_frame command body Hcmd Hb) as (f & Ef & Hf & Hfc & Hfb). rewrite Ef in Hd.
  eapply lib_read_frame; [done..|]. intros s1 E1 C1 U1 D1. rewrite Hfc in C1. rewrite Hfb in U1.
  apply HQ; try done.
  - rewrite E1. apply lists_ok_mosq; [by destruct Hs|done|done|apply Hs].
  - unfold connected. rewrite E1. exact Hc.
  - rewrite E1. exact Hw.
  - rewrite E1. reflexivity.
Qed.

Lemma read_done_seen now s : seen (read_done now s) = seen s.
Proof. done. Qed.

Lemma read_done_lists now s : lists_ok s -> lists_ok (read_done now s).
Proof. intros Hs. apply lists_ok_mosq; [done|done|done|apply Hs]. Qed.

Lemma taken_seen mid m dup s1 s s2 s' :
  seen s1 = seen s -> seen s2 = seen s' -> lists_ok s' -> taken mid m dup s1 s2 -> taken mid m dup s s'.
Proof.
  unfold seen. intros [= A1 A2 A3 A4 A5 A6 A7] [= B1 B2 B3 B4 B5 B6 B7] Hl [].
  split; [done|..]; rewrite <- ?A1, <- ?A2, <- ?A3, <- ?A4, <- ?A5, <- ?A6, <- ?A7, <- ?B1, <- ?B2, <- ?B5, <- ?B6; done.
Qed.

Section arrival.
Context `{LibSystem}.

End arrival.

Section release.
Context `{LibSystem}.

(** What PUBREL does to the messages that wait for it and to the user. *)
Definition released (mid : Z) (s s' : client) : Prop :=
  lists_ok s' /\ cl_out_messages s' = cl_out_messages s
  /\ lib_stream s' = lib_stream s ++ enc_packet PUBCOMP (enc_uint16 mid)
  /\ exists es, Forall out_event es /\
     match split_mid mid (cl_in_messages s) with
     | Some (before, m, after) =>
       cl_in_messages s' = before ++ after
       /\ cl_events s' = cl_events s ++ (if cl_callbacks s (on_message mid (ma_msg m)) then [on_message mid (ma_msg m)] else []) ++ es
     | None => cl_in_messages s' = cl_in_messages s /\ cl_events s' = cl_events s ++ es
     end.

Lemma released_seen mid s1 s s2 s' :
  seen s1 = seen s -> seen s2 = seen s' -> lists_ok s' -> released mid s1 s2 -> released mid s s'.
Proof.
  unfold seen, released. intros [= A1 A2 A3 A4 A5 A6 A7] [= B1 B2 B3 B4 B5 B6 B7] Hl (_ & R2 & R3 & es & Hes & R4).
  split; [done|]. rewrite <- A1, <- A2, <- A5, <- A6, <- A7, <- B1, <- B2, <- B5, <- B6. split; [done|]. split; [done|].
  by exists es.
Qed.

(** Sending after the message, if there was one, was taken off the list and handed over. *)
Lemma pubcomp_after mid es0 s s0 :
  lists_ok s0 -> Forall write_ok (cl_writes s0) -> connected s0 -> lib_stream s0 = lib_stream s ->
  cl_out_messages s0 = cl_out_messages s -> cl_reads s0 = cl_reads s -> cl_events s0 = cl_events s ++ es0 ->
  wp (lib_send_pubcomp mid) (fun rc s' => rc = MOSQ_ERR_SUCCESS /\ cl_reads s' = cl_reads s /\ lists_ok s'
    /\ cl_out_messages s' = cl_out_messages s /\ cl_in_messages s' = cl_in_messages s0
    /\ lib_stream s' = lib_stream s ++ enc_packet PUBCOMP (enc_uint16 mid)
    /\ exists es, Forall out_event es /\ cl_events s' = cl_events s ++ es0 ++ es) s0.
Proof.
  intros Hl Hw Hc E1 E2 E3 E4. eapply wp_mono; [apply lib_send_mid_sends|]. cbv beta. intros rc s' [H' Hrc].
  split; [by apply Hrc|]. destruct (written_more_lists _ _ _ H') as (L1 & L2 & _). destruct (written_more_seen _ _ _ H') as (_ & L3 & _).
  rewrite L1, L2, L3, E3, E2, (wm_stream _ _ _ H') by apply Hl. rewrite E1.
  split; [done|]. split; [by eapply lists_ok_more|]. do 3 (split; [done|]).
  destruct (wm_events _ _ _ H') as (es & E & Hes). exists es. split; [done|]. by rewrite E, E4, app_assoc.
Qed.

Lemma handle_pubrel_takes mid s :
  lists_ok s -> connected s -> Forall write_ok (cl_writes s) -> 0 <= mid < 2 ^ 16 ->
  p_command (in_packet s) = Z.lor PUBREL 2 -> lib_unparsed (enc_uint16 mid) s ->
  wp lib_handle_pubrel (fun rc s' => rc = MOSQ_ERR_SUCCESS /\ released mid s s' /\ cl_reads s' = cl_reads s) s.
Proof.
  intros Hs Hc Hw Hmid Hcmd Hu. unfold lib_handle_pubrel. rewrite wp_bind, wp_get.
  assert (header_flags (cl_mosq s) = 2) as -> by (unfold header_flags; unfold in_packet in Hcmd; by rewrite Hcmd).
  rewrite andb_false_r. cbv iota.
  eapply (wp_lib_takes _ (enc_uint16 mid) []); [by apply takes_uint16|by rewrite app_nil_r|]. intros _. cbv beta iota.
  set (s1 := lib_ahead _ s). assert (lists_ok s1) as H1 by (apply lists_ok_mosq; [done|done|done|apply Hs]).
  unfold _mosquitto_message_remove. wp_step. change (cl_in_messages s1) with (cl_in_messages s). unfold released.
  destruct (split_mid mid (cl_in_messages s)) as [[[before m] after]|] eqn:E; wp_step.
  - destruct (split_mid_app _ _ _ _ _ E) as (Ein & Emid & _). change (negb (MOSQ_ERR_SUCCESS =? 0)) with false.
    change (MOSQ_ERR_SUCCESS =? 0) with true. cbn [whenM]. wp_step.
    pose proof (lists_ok_remove_in before m after s1 H1 Ein) as H2. set (s2 := s1 <| cl_in_messages := _ |> <| cl_in_queue_len ::= _ |> <| cl_in_messages_last ::= _ |>) in *.
    destruct (called_rest (on_message (ma_mid m) (ma_msg m)) s2) as (C1 & C2 & C3 & C4).
    eapply wp_mono; [apply (pubcomp_after mid (if cl_callbacks s (on_message mid (ma_msg m)) then [on_message mid (ma_msg m)] else []) s)|].
    + by apply lists_ok_called.
    + unfold called. by destruct (cl_callbacks s2 _).
    + unfold connected. by rewrite called_mosq.
    + by rewrite C3.
    + by rewrite C2.
    + by rewrite C4.
    + rewrite called_events, Emid. done.
    + cbv beta. intros rc s3 (-> & R3 & L3 & O3 & I3 & S3 & es & Hes & E3). split; [done|]. split; [|done].
      do 3 (split; [done|]). exists es. split; [done|]. rewrite I3, C1. split; [done|]. by rewrite E3.
  - eapply wp_mono; [by apply (pubcomp_after mid [] s s1); [..|rewrite app_nil_r]|].
    cbv beta. intros rc s3 (-> & R3 & L3 & O3 & I3 & S3 & es & Hes & E3). split; [done|]. split; [|done].
    do 3 (split; [done|]). exists es. done.
Qed.

(** C17: the library hands a QoS 2 message over once: when a PUBREL arrives at a client between two packets, followed by anything, [lib_packet_read] succeeds and queues one PUBCOMP with its identifier; if a message with that identifier waits on the incoming list, the first such message is taken off the list and given to the user, once and unchanged, and the others stay in order; if none waits, because the PUBREL is repeated, the user is not called and the list stays as it is. *)
Theorem qos2_handed_over_once mid extra rest s :
  ready s -> 0 <= mid < 2 ^ 16 ->
  delivers (cl_reads s) (enc_packet (Z.lor PUBREL 2) (enc_uint16 mid) ++ extra) rest ->
  exists s', lib_packet_read s = Some (MOSQ_ERR_SUCCESS, s') /\ delivers (cl_reads s') extra rest /\ released mid s s'.
Proof.
  intros Hr Hmid Hd.
  assert (wp lib_packet_read (fun rc s' => rc = MOSQ_ERR_SUCCESS /\ delivers (cl_reads s') extra rest /\ released mid s s') s) as Hw.
  { apply (lib_read_packet (Z.lor PUBREL 2) (enc_uint16 mid) extra rest); [done|done|by rewrite strlen_uint16|exact Hd|].
    intros s1 L1 C1 W1 S1 P1 U1 D1. unfold _mosquitto_packet_handle. rewrite wp_bind, wp_get. cbv zeta.
    change (Z_of_byte (byte_of_Z (Z.lor PUBREL 2))) with (Z.lor PUBREL 2) in P1. pose proof P1 as P2. unfold in_packet in P2. rewrite P2.
    eapply wp_mono; [by apply (handle_pubrel_takes mid s1)|]. cbv beta. intros rc s2 (-> & R2 & D2).
    split; [done|]. split; [unfold read_done; proj_simpl; by rewrite D2|].
    eapply released_seen; [exact S1|symmetry; apply read_done_seen|apply read_done_lists, R2|exact R2]. }
  apply wp_some in Hw as (rc & s' & E & -> & Hw). by exists s'.
Qed.
End release.

Section delivery.
Context `{LibSystem, Crypto, Environment, Network}.

(** C15: a message that is published through the library is the message that the broker decides on: with room in the window, [mosquitto_publish] succeeds, puts the message at the end of the outgoing list (above QoS 0, waiting for its acknowledgement) and makes the socket send some bytes and no others; and whenever those bytes arrive at a broker from a connected client that is between two packets, in pieces of any size and followed by anything, the broker takes exactly them and decides on exactly this topic (behind the mount point of the listener), payload, QoS, identifier and retain flag. *)
Theorem published_reaches_broker topic payload qos retain s :
  lists_ok s -> connected s -> Forall write_ok (cl_writes s) ->
  0 <= qos <= 2 -> short_string topic -> topic <> [] -> mosquitto_pub_topic_check topic = MOSQ_ERR_SUCCESS ->
  4 + strlen topic + strlen payload < 2 ^ 28 -> in_room qos s ->
  exists mid bs s', mosquitto_publish (Some topic) payload qos retain s = Some ((MOSQ_ERR_SUCCESS, Some mid), s')
    /\ 0 < mid < 2 ^ 16 /\ lists_ok s' /\ cl_in_messages s' = cl_in_messages s
    /\ cl_out_messages s' = cl_out_messages s ++
         (if qos =? 0 then [] else [sent_message (cl_next s) (cl_time s) mid topic payload qos retain])
    /\ lib_stream s' = lib_stream s ++ bs
    /\ forall c x d extra rest,
         d_contexts d !! c = Some x -> c_sock x <> INVALID_SOCKET -> c_state x = mosq_cs_connected ->
         c_bridge x = None -> listener_ok d x -> clean (c_in_packet x) -> admissible d payload ->
         delivers (arriving d (c_sock x)) (bs ++ extra) rest ->
         exists d1, only_reads c d d1 /\ delivers (arriving d1 (c_sock x)) extra rest
           /\ packet_read c d
              = (rc ← judge_message c (default [] (mount_point d x) ++ topic) payload qos (if 0 <? qos then mid else 0) retain;
                 read_finish c rc (d_time d))
                (count_received payload (ahead c (2 + strlen topic + (if 0 <? qos then 2 else 0) + strlen payload) d1)).
Proof.
  intros Hs Hc Hw Hq Ht Hne Hck Hsize Hroom.
  pose proof (publish_sends topic payload qos retain s Hs Hc Hw Hq Hne Hck Hsize Hroom) as Hp.
  apply wp_some in Hp as (r & s' & E & -> & Hl & Hst & Hin & Hout). set (mid := next_mid _) in *.
  pose proof (next_mid_range (c_last_mid (cl_mosq s)) : 0 < mid < 2 ^ 16) as Hmid.
  exists mid, (enc_publish mid topic payload qos retain false), s'. do 6 (split; [done|]).
  intros c x d extra rest Hx Hsock Hstate Hb Hlis Hcl Ha Hd.
  apply (publish_arrives c x d mid topic payload qos retain false extra rest); try done; lia.
Qed.
End delivery.

(** * Witnesses *)

#[local] Existing Instances sample_lib_system sample_crypto sample_environment sample_network.

Lemma sample_socket s blocking : (lib_socket_connect s blocking).1 <= 0 -> 0 <= (lib_socket_connect s blocking).2.
Proof. intros _. cbn. lia. Qed.

Lemma sample_chars : strlen random_chars < 2 ^ 15.
Proof. by vm_compute. Qed.

Lemma lib_ok_after c s : lib_ok s -> allowed c s -> lib_ok (lib_after (run_call c) s).
Proof.
  intros Hs Ha. pose proof (call_ok sample_socket c s Hs Ha) as Hw.
  apply wp_some in Hw as ([] & s' & E & Hw). unfold lib_after. by rewrite E.
Qed.

Lemma lib_ok_reads rs s : lib_ok s -> lib_ok (s <| cl_reads := rs |>).
Proof. by intros [[] ?]. Qed.

Lemma lib_ok_callbacks f s : lib_ok s -> lib_ok (s <| cl_callbacks := f |>).
Proof. by intros [[] ?]. Qed.

Lemma sample_ready_ok : lib_ok (sample_lib_ready 20).
Proof.
  unfold sample_lib_ready, receives, calls. cbn [fold_left].
  apply lib_ok_after; [|exact I]. apply lib_ok_reads.
  apply lib_ok_after; [|vm_compute; auto].
  apply lib_ok_after; [|exact I].
  apply lib_ok_callbacks.
  assert (mosquitto_new (Some (lit "me")) true sample_new = Some (Some 0, lib_after (mosquitto_new (Some (lit "me")) true) sample_new)) as E
    by (vm_compute; reflexivity).
  pose proof (new_ok sample_chars (Some (lit "me")) true sample_new) as Hn. rewrite wp_eq, E in Hn.
  apply Hn; [|done]. intros ? [= <-]. by vm_compute.
Qed.

Lemma some_pair {A B} (a a' : A) (b b' : B) : Some (a, b) = Some (a', b') -> a = a' /\ b = b'.
Proof. by intros [= -> ->]. Qed.

(** A connected client whose next identifier is 9. *)
Definition sample_client_9 : client := (sample_lib_ready 20) <| cl_mosq ::= (fun x => x <| c_last_mid := 8 |>) |>.

Lemma lists_ok_last_mid n s : lists_ok s -> lists_ok (s <| cl_mosq ::= (fun x => x <| c_last_mid := n |>) |>).
Proof. intros Hs. apply lists_ok_mosq; [done|done|done|apply Hs]. Qed.

Lemma sample_client_9_lists : lists_ok sample_client_9.
Proof. apply lists_ok_last_mid, sample_ready_ok. Qed.

Lemma published_reaches_broker_witness : exists s' d1,
  mosquitto_publish (Some (lit "a")) (lit "x") 1 true sample_client_9 = Some ((MOSQ_ERR_SUCCESS, Some 9), s')
  /\ packet_read 1 sample_publishing
     = (rc ← judge_message 1 (lit "up/a") (lit "x") 1 9 true; read_finish 1 rc 0)
       (count_received (lit "x") (ahead 1 6 d1)).
Proof.
  assert (connected sample_client_9) as Hc by (vm_compute; discriminate).
  assert (Forall write_ok (cl_writes sample_client_9)) as Hw by (vm_compute; constructor).
  assert (short_string (lit "a")) as Ht by (split; [done | by_compute]).
  assert (in_room 1 sample_client_9) as Hr by (right; right; vm_compute; reflexivity).
  destruct (published_reaches_broker (lit "a") (lit "x") 1 true sample_client_9 sample_client_9_lists Hc Hw
    ltac:(lia) Ht ltac:(discriminate) ltac:(by vm_compute) ltac:(by vm_compute) Hr)
    as (mid & bs & s' & E & _ & _ & _ & _ & Hst & Hb).
  assert (mid = 9 /\ lib_stream s' = lib_stream sample_client_9 ++ enc_publish 9 (lit "a") (lit "x") 1 true false) as [-> Hst2].
  { apply (f_equal (option_map (fun r => (r.1.2, lib_stream r.2)))) in E. cbn [option_map fst snd] in E.
    assert (option_map (fun r => (r.1.2, lib_stream r.2)) (mosquitto_publish (Some (lit "a")) (lit "x") 1 true sample_client_9)
      = Some (Some 9, lib_stream sample_client_9 ++ enc_publish 9 (lit "a") (lit "x") 1 true false)) as E2 by (vm_compute; reflexivity).
    rewrite E2 in E. apply some_pair in E as [E3 E4]. apply (inj Some) in E3. split; [exact (eq_sym E3)|exact (eq_sym E4)]. }
  rewrite Hst2 in Hst. apply app_inv_head in Hst as <-.
  assert (d_contexts sample_publishing !! 1%nat = Some sample_publisher) as Hx by by vm_compute.
  assert (delivers (arriving sample_publishing (c_sock sample_publisher)) (enc_publish 9 (lit "a") (lit "x") 1 true false ++ [])
    [RdAgain]) as Hd.
  { exists [map byte_of_Z [0x33; 6; 0]; map byte_of_Z [1] ++ lit "a" ++ map byte_of_Z [0; 9] ++ lit "x"].
    split; [by repeat constructor|]. split; by vm_compute. }
  destruct (Hb 1%nat sample_publisher sample_publishing [] [RdAgain] Hx) as (d1 & _ & _ & E1);
    [by vm_compute|reflexivity|reflexivity|by intros i [= <-]; eexists|reflexivity|by left|exact Hd|].
  exists s', d1. split; [exact E|exact E1].
Defined.

(** Bytes arrive in two pieces. *)
Definition arriving_at (bs1 bs2 : list Z) (s : client) : client :=
  s <| cl_reads := [RdOk (map byte_of_Z bs1); RdOk (map byte_of_Z bs2)] |>.

Lemma ready_reads rs s : ready s -> ready (s <| cl_reads := rs |>).
Proof. intros ([] & H2 & H3 & H4 & H5). by split; [split|]. Qed.

Lemma lib_ok_ready s : lib_ok s -> connected s -> c_state (cl_mosq s) <> mosq_cs_connect_pending ->
  clean (in_packet s) -> Forall write_ok (cl_writes s) -> ready s.
Proof. by intros [Hs _]. Qed.

Lemma sample_ready_ready : ready (sample_lib_ready 20).
Proof.
  apply lib_ok_ready; [exact sample_ready_ok|vm_compute; discriminate..|vm_compute; reflexivity|vm_compute; constructor].
Qed.

Definition sample_arrival : client := arriving_at [0x35; 6; 0; 1] [97; 0; 9; 120] (sample_lib_ready 20).


(** The message waits, and its PUBREL comes. *)
Definition sample_waiting : client := receives (publish2_bytes 9 120) (sample_lib_ready 20).

Definition sample_release : client := arriving_at [0x62] [2; 0; 9] sample_waiting.

Lemma qos2_handed_over_once_witness : exists s',
  lib_packet_read sample_release = Some (MOSQ_ERR_SUCCESS, s')
  /\ map ma_mid (cl_in_messages sample_release) = [9] /\ released 9 sample_release s'.
Proof.
  assert (ready sample_release) as Hr.
  { apply ready_reads, lib_ok_ready; [|vm_compute; discriminate..|vm_compute; reflexivity|vm_compute; constructor].
    unfold sample_waiting, receives. apply lib_ok_after; [|exact I]. apply lib_ok_reads, sample_ready_ok. }
  assert (delivers (cl_reads sample_release) (enc_packet (Z.lor PUBREL 2) (enc_uint16 9) ++ []) []) as Hd.
  { exists [map byte_of_Z [0x62]; map byte_of_Z [2; 0; 9]]. split; [by repeat constructor|].
    split; vm_compute; reflexivity. }
  destruct (qos2_handed_over_once 9 [] [] sample_release Hr ltac:(lia) Hd) as (s' & E & _ & H).
  exists s'. split; [exact E|]. split; [vm_compute; reflexivity|exact H].
Defined.
