(* ===== verification/Saved.v ===== *)
(** What src/persist.c writes, it reads back: the readers of Persist.v on the bytes of its
    writers, chunk by chunk, then the whole file.  [saved] says what of a state is kept. *)

From S2P Require Export Persist.
#[local] Open Scope Z_scope.

(** * Bytes that a reader takes as a value *)

Definition decodes {A} (m : R A) (bs : list byte) (a : A) : Prop :=
  forall rest, m (bs ++ rest) = Some (a, rest).

Create HintDb decodes.

Lemma decodes_ret {A} (a : A) : decodes (mret a) [] a.
Proof. done. Qed.

Lemma decodes_bind {A B} (m : R A) (f : A -> R B) bs bs' a b :
  decodes m bs a -> decodes (f a) bs' b -> decodes (m ≫= f) (bs ++ bs') b.
Proof.
  intros Hm Hf rest. unfold mbind, st_bind. rewrite <- app_assoc, Hm. apply Hf.
Qed.

(** The last reader of a sequence. *)
Lemma decodes_last {A B} (m : R A) (f : A -> B) bs a :
  decodes m bs a -> decodes (x ← m; mret (f x)) bs (f a).
Proof. intros Hm rest. unfold mbind, st_bind. by rewrite Hm. Qed.

Lemma decodes_assert {A} (m : R A) b bs a : b = true -> decodes m bs a -> decodes (assertM b;; m) bs a.
Proof. by intros ->. Qed.

Lemma decodes_read n bs : length bs = n -> decodes (read_e n) bs bs.
Proof.
  intros <- rest. unfold read_e, mbind, st_bind, get, assertM, modify, mret, st_ret.
  rewrite length_app, (proj2 (Nat.leb_le _ _)) by lia. by rewrite drop_app_length, take_app_length.
Qed.

(** ** Integers *)

Lemma length_le_bytes n z : length (le_bytes n z) = n.
Proof. revert z. induction n; intros z; cbn; [done | by f_equal]. Qed.

Lemma le_value_bytes n z : 0 <= z < 256 ^ Z.of_nat n -> le_value (le_bytes n z) = z.
Proof.
  revert z. induction n as [|n IH]; intros z Hz; cbn [le_bytes le_value]; [cbn in Hz; lia|].
  rewrite Z_of_byte_of_Z, IH. { pose proof (Z_div_mod_eq_full z 256). lia. }
  rewrite Nat2Z.inj_succ, Z.pow_succ_r in Hz by lia.
  split; [apply Z.div_pos; lia | apply Z.div_lt_upper_bound; lia].
Qed.

Lemma decodes_le n z : 0 <= z < 256 ^ Z.of_nat n ->
  decodes (bs ← read_e n; mret (le_value bs)) (le_bytes n z) z.
Proof.
  intros Hz. rewrite <- (le_value_bytes n z Hz) at 2.
  apply (decodes_last _ le_value), decodes_read, length_le_bytes.
Qed.

Lemma decodes_be n z : 0 <= z < 256 ^ Z.of_nat n ->
  decodes (bs ← read_e n; mret (le_value (rev bs))) (rev (le_bytes n z)) z.
Proof.
  intros Hz. rewrite <- (le_value_bytes n z Hz) at 2. rewrite <- (rev_involutive (le_bytes n z)) at 2.
  apply (decodes_last _ (fun bs => le_value (rev bs))), decodes_read. by rewrite length_rev, length_le_bytes.
Qed.

Lemma decodes_u8 z : 0 <= z < 2 ^ 8 -> decodes r_u8 (w_u8 z) z.
Proof. apply (decodes_le 1). Qed.
Lemma decodes_be16 z : 0 <= z < 2 ^ 16 -> decodes r_be16 (w_be16 z) z.
Proof. apply (decodes_be 2). Qed.
Lemma decodes_be32 z : 0 <= z < 2 ^ 32 -> decodes r_be32 (w_be32 z) z.
Proof. apply (decodes_be 4). Qed.
Lemma decodes_le64 z : 0 <= z < 2 ^ 64 -> decodes r_le64 (w_le64 z) z.
Proof. apply (decodes_le 8). Qed.

Lemma decodes_flag (b : bool) : decodes r_u8 (w_u8 (zbool b)) (zbool b).
Proof. apply decodes_u8. destruct b; cbn; lia. Qed.

Lemma zbool_negb b : negb (zbool b =? 0) = b.
Proof. by destruct b. Qed.

(** ** Strings: what fits a 16-bit length and has no NUL *)

Definition c_string (s : str) : Prop := strlen s < 2 ^ 16 /\ (NUL ∉ s).

Lemma w_string_eq s : c_string s -> w_string s = w_be16 (strlen s) ++ s.
Proof.
  intros [Hl _]. pose proof (strlen_nonneg s). unfold w_string. rewrite u16_small by lia. cbv zeta.
  f_equal. unfold strlen. by rewrite Nat2Z.id, firstn_all.
Qed.

Lemma decodes_cstr s : c_string s -> decodes (bs ← read_e (Z.to_nat (strlen s)); mret (cstr bs)) s s.
Proof.
  intros [_ Hn]. rewrite <- (cstr_no_nul s Hn) at 3. apply (decodes_last _ cstr), decodes_read.
  unfold strlen. by rewrite Nat2Z.id.
Qed.

Lemma decodes_string s : c_string s -> decodes r_string (w_string s) s.
Proof.
  intros Hs. rewrite w_string_eq by done. eapply decodes_bind; [|by apply decodes_cstr].
  apply decodes_be16. destruct Hs. pose proof (strlen_nonneg s). lia.
Qed.

Lemma decodes_nonempty s : c_string s -> s <> [] -> decodes r_nonempty (w_string s) s.
Proof.
  intros Hs Hne. rewrite w_string_eq by done. eapply decodes_bind.
  - apply decodes_be16. destruct Hs. pose proof (strlen_nonneg s). lia.
  - apply decodes_assert; [|by apply decodes_cstr].
    destruct s; [done|]. rewrite strlen_cons. pose proof (strlen_nonneg s). by destruct (Z.eqb_spec (1 + strlen s) 0); [lia|].
Qed.

#[export] Hint Resolve decodes_u8 decodes_be16 decodes_be32 decodes_le64 decodes_flag decodes_string decodes_nonempty : decodes.

(** Follow a reader along the bytes of a writer. *)
Ltac decodes_step :=
  match goal with
  | |- decodes (x ← ?m; mret _) (_ ++ _) _ => fail
  | |- decodes _ (_ ++ _) _ => eapply decodes_bind; [solve [eauto with decodes]|cbv beta]
  end.

(** * Chunks *)

(** The reading of one chunk, as [restore_loop] does it. *)
Definition one_chunk (now : Z) : R db_chunk :=
  chunk ← r_be16; length ← r_be32; read_chunk MOSQ_DB_VERSION now chunk length.

Definition encodes (bs : list byte) (k : db_chunk) : Prop := forall now, decodes (one_chunk now) bs k.

Lemma encodes_chunk chunk length body k : 0 <= chunk < 2 ^ 16 ->
  (forall now, decodes (read_chunk MOSQ_DB_VERSION now chunk (u32 length)) body k) ->
  encodes (w_chunk chunk length body) k.
Proof.
  intros Hc Hb now. unfold one_chunk, w_chunk. eapply decodes_bind; [by apply decodes_be16|].
  eapply decodes_bind; [|apply Hb]. apply decodes_be32. apply Z.mod_pos_bound. lia.
Qed.

(** What of a stored message is saved. *)
Record storable (st : mosquitto_msg_store) (topic : str) : Prop := Storable {
  so_id : 0 <= s_db_id st < 2 ^ 64;
  so_source : c_string (s_source_id st);
  so_source_mid : 0 <= s_source_mid st < 2 ^ 16;
  so_mid : 0 <= s_mid st < 2 ^ 16;
  so_topic : s_topic st = Some topic;
  so_topic_ok : c_string topic /\ topic <> [];
  so_qos : 0 <= s_qos st < 2 ^ 8;
  so_payload : s_payloadlen st < 2 ^ 32 }.

(** Messages of the broker about itself are not retained when they are saved. *)
Definition system_topic (topic : str) : bool := strneq topic (lit "$SYS") 4.

Definition saved_store (st : mosquitto_msg_store) (topic : str) : db_chunk :=
  CkStore (StoreRec (s_db_id st) (s_source_id st) (s_source_mid st) topic (s_qos st)
    (negb (system_topic topic) && s_retain st) (s_payload st)).

Lemma store_chunk_encodes st topic : storable st topic ->
  exists bs, store_chunk st = Some bs /\ encodes bs (saved_store st topic).
Proof.
  intros [Hid Hsrc Hsm Hm Ht [Hts Htn] Hq Hp]. unfold store_chunk. rewrite Ht. eexists. split; [reflexivity|].
  apply encodes_chunk; [unfold DB_CHUNK_MSG_STORE; lia|]. intros now.
  change (if strneq topic (lit "$SYS") 4 then 0 else zbool (s_retain st))
    with (if system_topic topic then 0 else zbool (s_retain st)).
  replace (if system_topic topic then 0 else zbool (s_retain st))
    with (zbool (negb (system_topic topic) && s_retain st)) by (by destruct (system_topic topic)).
  unfold read_chunk, saved_store. cbn [Z.eqb DB_CHUNK_CFG DB_CHUNK_MSG_STORE Pos.eqb].
  apply (decodes_last _ CkStore). unfold read_store. rewrite <- (zbool_negb (_ && _)) at 2.
  do 7 decodes_step. assert (0 <= s_payloadlen st) by (unfold s_payloadlen; lia). decodes_step.
  apply (decodes_last _ (StoreRec _ _ _ _ _ _)), decodes_read. unfold s_payloadlen. by rewrite Nat2Z.id.
Qed.

(** A message of a client, and the client. *)
Record msg_storable (m : mosquitto_client_msg) : Prop := MsgStorable {
  mo_mid : 0 <= m_mid m < 2 ^ 16;
  mo_qos : 0 <= m_qos m < 2 ^ 8 }.

Definition saved_msg (id : str) (db_id : Z) (m : mosquitto_client_msg) : db_chunk :=
  CkClientMsg (ClientMsgRec id db_id (m_mid m) (m_qos m) (m_retain m) (direction_Z (m_direction m))
    (msg_state_Z (m_state m)) (m_dup m)).

Lemma client_msg_chunk_encodes id db_id m :
  c_string id -> id <> [] -> 0 <= db_id < 2 ^ 64 -> msg_storable m ->
  encodes (client_msg_chunk id db_id m) (saved_msg id db_id m).
Proof.
  intros Hid Hne Hdb [Hm Hq]. apply encodes_chunk; [unfold DB_CHUNK_CLIENT_MSG; lia|]. intros now.
  unfold read_chunk, saved_msg. cbn [Z.eqb DB_CHUNK_CFG DB_CHUNK_MSG_STORE DB_CHUNK_CLIENT_MSG Pos.eqb].
  apply (decodes_last _ CkClientMsg). unfold read_client_msg.
  rewrite <- (zbool_negb (m_retain m)) at 2. rewrite <- (zbool_negb (m_dup m)) at 2.
  do 5 decodes_step.
  eapply decodes_bind; [apply decodes_u8; by destruct (m_direction m)|]. cbv beta.
  eapply decodes_bind; [apply decodes_u8; by destruct (m_state m)|]. cbv beta.
  apply (decodes_last _ (fun dup => ClientMsgRec _ _ _ _ _ _ _ (negb (dup =? 0)))), decodes_flag.
Qed.

Lemma decodes_end {A B} (m : R A) (f : A -> R B) bs a b : decodes m bs a -> f a = mret b -> decodes (m ≫= f) bs b.
Proof. intros Hm Hf rest. unfold mbind, st_bind. by rewrite Hm, Hf. Qed.

Lemma signed64_small t : 0 <= t < 2 ^ 63 -> signed64 t = t.
Proof. intros Ht. unfold signed64. destruct (Z.ltb_spec t (2 ^ 63)); lia. Qed.

Lemma client_chunk_encodes id last_mid t :
  c_string id -> id <> [] -> 0 <= last_mid < 2 ^ 16 -> 0 <= t < 2 ^ 63 ->
  encodes (client_chunk id last_mid t) (CkClient id last_mid t).
Proof.
  intros Hid Hne Hm Ht. apply encodes_chunk; [unfold DB_CHUNK_CLIENT; lia|]. intros now.
  eapply (decodes_end _ _ _ (id, last_mid, t)); [|reflexivity]. unfold read_client. do 2 decodes_step.
  cbn [Z.eqb MOSQ_DB_VERSION Pos.eqb]. eapply (decodes_end _ _ _ t); [|reflexivity].
  rewrite <- (signed64_small t Ht) at 2. apply (decodes_last _ signed64), decodes_le64. lia.
Qed.

Lemma sub_chunk_encodes id sub qos :
  c_string id -> c_string sub -> 0 <= qos < 2 ^ 8 -> encodes (sub_chunk id sub qos) (CkSub id sub qos).
Proof.
  intros Hid Hs Hq. apply encodes_chunk; [unfold DB_CHUNK_SUB; lia|]. intros now.
  eapply (decodes_end _ _ _ (id, sub, qos)); [|reflexivity]. unfold read_sub. do 2 decodes_step.
  by apply (decodes_last _ (fun qos => (id, sub, qos))), decodes_u8.
Qed.

Lemma retain_chunk_encodes db_id : 0 <= db_id < 2 ^ 64 -> encodes (retain_chunk db_id) (CkRetain db_id).
Proof.
  intros H. apply encodes_chunk; [unfold DB_CHUNK_RETAIN; lia|]. intros now.
  by apply (decodes_last _ CkRetain), decodes_le64.
Qed.

Lemma cfg_chunk_encodes shutdown last_db_id : 0 <= last_db_id < 2 ^ 64 ->
  encodes (cfg_chunk shutdown last_db_id) (CkCfg last_db_id).
Proof.
  intros H. apply encodes_chunk; [unfold DB_CHUNK_CFG; lia|]. intros now.
  eapply (decodes_end _ _ _ (8, last_db_id)); [|reflexivity]. unfold read_cfg.
  decodes_step. eapply decodes_bind; [apply decodes_u8; lia|]. cbv beta. cbn [Z.eqb negb Pos.eqb].
  by apply (decodes_last _ (pair 8)), decodes_le64.
Qed.

(** * The loop over a file *)

(** What restoring does with the chunks of a file. *)
Fixpoint restore_all (ks : list db_chunk) (loads : load_table) : M Z :=
  match ks with
  | [] => mret 0
  | k :: ks =>
    '(rc, loads) ← restore_chunk loads k;
    if negb (rc =? 0) then mret 1 else restore_all ks loads
  end.

(** A file of chunks. *)
Inductive file_of : list byte -> list db_chunk -> Prop :=
| file_nil : file_of [] []
| file_cons bs k file ks : encodes bs k -> file_of file ks -> file_of (bs ++ file) (k :: ks).

Lemma file_one bs k : encodes bs k -> file_of bs [k].
Proof. intros H. rewrite <- (app_nil_r bs). by apply file_cons; [|apply file_nil]. Qed.

Lemma file_app f1 k1 f2 k2 : file_of f1 k1 -> file_of f2 k2 -> file_of (f1 ++ f2) (k1 ++ k2).
Proof. induction 1; intros; cbn; [done|]. rewrite <- app_assoc. apply file_cons; auto. Qed.

Lemma r_be16_some file chunk rest : r_be16 file = Some (chunk, rest) -> length file = S (S (length rest)).
Proof.
  unfold r_be16, read_e, mbind, st_bind, get, assertM, modify, mret, st_ret.
  destruct (Nat.leb_spec 2 (length file)); [|done]. cbn. intros [= _ <-]. rewrite length_drop. lia.
Qed.

Lemma encodes_nonempty bs k : encodes bs k -> (0 < length bs)%nat.
Proof.
  intros H. specialize (H 0 []). rewrite app_nil_r in H. unfold one_chunk, mbind at 1, st_bind at 1 in H.
  destruct (r_be16 bs) as [[chunk rest]|] eqn:E; [|done]. apply r_be16_some in E. lia.
Qed.

Lemma one_chunk_split bs k file : encodes bs k -> exists chunk rest,
  r_be16 (bs ++ file) = Some (chunk, rest)
  /\ forall now', (length ← r_be32; read_chunk MOSQ_DB_VERSION now' chunk length) rest = Some (k, file).
Proof.
  intros H. pose proof (H 0 file) as Hk. unfold one_chunk, mbind at 1, st_bind at 1 in Hk.
  destruct (r_be16 (bs ++ file)) as [[chunk rest]|] eqn:E; [|done]. exists chunk, rest. split; [done|].
  intros now'. specialize (H now' file). unfold one_chunk, mbind at 1, st_bind at 1 in H. by rewrite E in H.
Qed.

Lemma restore_loop_file fuel file ks loads : file_of file ks -> (length file <= fuel)%nat ->
  restore_loop fuel MOSQ_DB_VERSION file loads ≈ restore_all ks loads.
Proof.
  intros Hf. revert fuel loads. induction Hf as [|bs k file ks Hk _ IH]; intros fuel loads Hfuel.
  { by destruct fuel. }
  destruct (one_chunk_split bs k file Hk) as (chunk & rest & E & Hrest).
  pose proof (encodes_nonempty _ _ Hk) as Hbs. rewrite length_app in Hfuel.
  destruct fuel as [|fuel]; cbn [restore_loop]; rewrite E; [lia|].
  unfold mosquitto_time. split. intros d. unfold gets, mbind at 1, st_bind at 1. rewrite Hrest.
  apply st_eq_at. cbn [restore_all]. f_equiv. intros [rc loads']. destruct (negb _); [done|].
  apply IH. lia.
Qed.

(** * The saved database *)

(** The contents of the file for a state. *)
Definition saved_id (d : mosquitto_db) (s : addr) : Z := default 0 (s_db_id <$> d_stores d !! s).
Definition saved_topic (d : mosquitto_db) (s : addr) : str := default [] (d_stores d !! s ≫= s_topic).

Definition saved_stored (d : mosquitto_db) (s : addr) : list db_chunk :=
  match d_stores d !! s with Some st => [saved_store st (saved_topic d s)] | None => [] end.

Definition persistent (d : mosquitto_db) (c : addr) : option (mosquitto * str) :=
  match d_contexts d !! c with
  | Some x => if c_clean_session x then None else Some (x, default [] (c_id x))
  | None => None
  end.

Definition saved_client (d : mosquitto_db) (c : addr) : list db_chunk :=
  match persistent d c with
  | Some (x, id) =>
    CkClient id (c_last_mid x) (if c_disconnect_t x =? 0 then d_time d else c_disconnect_t x)
    :: ((fun m => saved_msg id (saved_id d (m_store m)) m) <$> c_msgs x)
  | None => []
  end.

Definition saved_leaf (d : mosquitto_db) (thistopic : str) (leaf : _mosquitto_subleaf) : list db_chunk :=
  match persistent d (lf_context leaf) with
  | Some (_, id) => [CkSub id thistopic (lf_qos leaf)]
  | None => []
  end.

Definition saved_retained (d : mosquitto_db) (retained : option addr) : list db_chunk :=
  match retained with
  | Some s => if system_topic (saved_topic d s) then [] else [CkRetain (saved_id d s)]
  | None => []
  end.

Fixpoint saved_subs (d : mosquitto_db) (topic : str) (h : _mosquitto_subhier) : list db_chunk :=
  match h with
  | HNil => []
  | HNode _ t subs retained children next =>
    (subs ≫= saved_leaf d (this_topic topic t)) ++ saved_retained d retained
    ++ saved_subs d (this_topic topic t) children ++ saved_subs d topic next
  end.

Definition saved (d : mosquitto_db) : list db_chunk :=
  CkCfg (d_last_db_id d) :: (d_msg_store d ≫= saved_stored d)
  ++ (d_contexts_by_id d ≫= saved_client d) ++ saved_subs d [] (d_subs d).

(** ** States that can be saved: no dangling pointers, and what fits its field *)

Definition store_savable (d : mosquitto_db) (s : addr) : Prop :=
  exists st topic, d_stores d !! s = Some st /\ storable st topic.

Record client_ok (d : mosquitto_db) (x : mosquitto) : Prop := ClientOk {
  cs_id : exists id, c_id x = Some id /\ c_string id /\ id <> [];
  cs_last_mid : 0 <= c_last_mid x < 2 ^ 16;
  cs_time : 0 <= c_disconnect_t x < 2 ^ 63;
  cs_msgs : Forall (fun m => msg_storable m /\ store_savable d (m_store m)) (c_msgs x) }.

(** A live context, whose client is well formed if it is to be saved. *)
Definition client_savable (d : mosquitto_db) (c : addr) : Prop :=
  exists x, d_contexts d !! c = Some x /\ (c_clean_session x = false -> client_ok d x).

Fixpoint tree_savable (d : mosquitto_db) (topic : str) (h : _mosquitto_subhier) : Prop :=
  match h with
  | HNil => True
  | HNode _ t subs retained children next =>
    Forall (fun leaf => client_savable d (lf_context leaf) /\ 0 <= lf_qos leaf < 2 ^ 8
                        /\ c_string (this_topic topic t)) subs
    /\ (forall s, retained = Some s -> store_savable d s)
    /\ tree_savable d (this_topic topic t) children /\ tree_savable d topic next
  end.

Record savable (d : mosquitto_db) : Prop := Savable {
  sv_last_id : 0 <= d_last_db_id d < 2 ^ 64;
  sv_time : 0 <= d_time d < 2 ^ 63;
  sv_stores : Forall (store_savable d) (d_msg_store d);
  sv_clients : Forall (client_savable d) (d_contexts_by_id d);
  sv_subs : tree_savable d [] (d_subs d) }.

(** ** What is written *)

(** [m] writes a file of the chunks [ks]. *)
Definition writes_file (m : M (list byte)) (d : mosquitto_db) (ks : list db_chunk) : Prop :=
  exists bs, m d = Some (bs, d) /\ file_of bs ks.

Lemma writes_none d : writes_file (mret []) d [].
Proof. exists []. split; [done | apply file_nil]. Qed.

Lemma writes_one bs k d : encodes bs k -> writes_file (mret bs) d [k].
Proof. intros H. exists bs. split; [done | by apply file_one]. Qed.

Lemma writes_then m f d ks1 ks2 :
  writes_file m d ks1 -> (forall bs1, file_of bs1 ks1 -> writes_file (f bs1) d (ks1 ++ ks2)) ->
  writes_file (m ≫= f) d (ks1 ++ ks2).
Proof.
  intros (bs1 & E1 & H1) H2. destruct (H2 bs1 H1) as (bs & E & H). exists bs.
  unfold mbind, st_bind. by rewrite E1.
Qed.

Lemma writes_seq m1 m2 d ks1 ks2 : writes_file m1 d ks1 -> writes_file m2 d ks2 ->
  writes_file (bs1 ← m1; bs2 ← m2; mret (bs1 ++ bs2)) d (ks1 ++ ks2).
Proof.
  intros (bs1 & E1 & H1) (bs2 & E2 & H2). exists (bs1 ++ bs2).
  split; [|by apply file_app]. unfold mbind, st_bind. by rewrite E1, E2.
Qed.

Lemma writes_concat_map {A} (f : A -> M (list byte)) l d ks :
  (forall a, a ∈ l -> writes_file (f a) d (ks a)) -> writes_file (concat_map f l) d (l ≫= ks).
Proof.
  induction l as [|a l IH]; intros H; cbn [concat_map]; [apply writes_none|].
  apply writes_seq; [apply H; left | apply IH; intros b Hb; apply H; by right].
Qed.

Lemma writes_get_ctx c x f d ks : d_contexts d !! c = Some x -> writes_file (f x) d ks ->
  writes_file (get_ctx c ≫= f) d ks.
Proof.
  intros Hx (bs & E & H). exists bs. split; [|done].
  unfold get_ctx, mbind, st_bind, get, unwrap. by rewrite Hx.
Qed.

Lemma writes_get_store s st f d ks : d_stores d !! s = Some st -> writes_file (f st) d ks ->
  writes_file (get_store s ≫= f) d ks.
Proof.
  intros Hx (bs & E & H). exists bs. split; [|done].
  unfold get_store, mbind, st_bind, get, unwrap. by rewrite Hx.
Qed.

Lemma saved_store_eq d s st topic : d_stores d !! s = Some st -> storable st topic ->
  saved_id d s = s_db_id st /\ saved_topic d s = topic.
Proof. intros Hs Ht. unfold saved_id, saved_topic. rewrite Hs. cbn. by rewrite (so_topic _ _ Ht). Qed.

Lemma persistent_eq d c x : d_contexts d !! c = Some x ->
  persistent d c = if c_clean_session x then None else Some (x, default [] (c_id x)).
Proof. intros Hx. unfold persistent. by rewrite Hx. Qed.

Lemma message_store_writes d : Forall (store_savable d) (d_msg_store d) ->
  writes_file mqtt3_db_message_store_write d (d_msg_store d ≫= saved_stored d).
Proof.
  intros Hs. unfold mqtt3_db_message_store_write.
  apply (writes_concat_map (fun s => st ← get_store s; unwrap (store_chunk st)) _ d (saved_stored d)).
  intros s Hin. rewrite Forall_forall in Hs. destruct (Hs s Hin) as (st & topic & Hst & Ht).
  apply (writes_get_store s st); [done|]. destruct (store_chunk_encodes st topic Ht) as (bs & E & Hk).
  rewrite E. unfold saved_stored. rewrite Hst, (proj2 (saved_store_eq d s st topic Hst Ht)).
  by apply writes_one.
Qed.

Lemma bind_one {A B} (g : A -> B) (l : list A) : (l ≫= fun a => [g a]) = g <$> l.
Proof. induction l as [|a l IH]; [done|]. change (g a :: (l ≫= fun a => [g a]) = g a :: (g <$> l)). by rewrite IH. Qed.

Lemma client_writes d c : 0 <= d_time d < 2 ^ 63 -> client_savable d c ->
  writes_file (client_write c) d (saved_client d c).
Proof.
  intros Htime (x & Hx & Hok). unfold client_write, saved_client. apply (writes_get_ctx c x); [done|].
  rewrite (persistent_eq d c x Hx). destruct (c_clean_session x); [apply writes_none|].
  destruct (Hok eq_refl) as [(id & Hid & Hs & Hne) Hm Ht Hmsgs]. rewrite Hid. cbn [default].
  assert (writes_file (mqtt3_db_client_messages_write c) d
            ((fun m => saved_msg id (saved_id d (m_store m)) m) <$> c_msgs x)) as (bs & E & Hf).
  { unfold mqtt3_db_client_messages_write. apply (writes_get_ctx c x); [done|].
    rewrite <- (bind_one (fun m => saved_msg id (saved_id d (m_store m)) m)).
    apply writes_concat_map. intros m Hin. rewrite Forall_forall in Hmsgs.
    destruct (Hmsgs m Hin) as [Hms (st & topic & Hst & Ht')]. rewrite Hid.
    change (unwrap (Some id)) with (mret id : M str). unfold mbind at 1, st_bind at 1, mret at 1, st_ret at 1.
    apply (writes_get_store _ st); [done|]. rewrite (proj1 (saved_store_eq d _ st topic Hst Ht')).
    apply writes_one, client_msg_chunk_encodes; try done. apply (so_id _ _ Ht'). }
  exists (client_chunk id (c_last_mid x) (if negb (c_disconnect_t x =? 0) then c_disconnect_t x else d_time d) ++ bs).
  split; [unfold mbind, st_bind, mosquitto_time, gets; cbn [unwrap]; unfold mret, st_ret; by rewrite E|].
  apply file_cons; [|done]. replace (if c_disconnect_t x =? 0 then d_time d else c_disconnect_t x)
    with (if negb (c_disconnect_t x =? 0) then c_disconnect_t x else d_time d) by (by destruct (c_disconnect_t x =? 0)).
  apply client_chunk_encodes; try done. by destruct (negb _).
Qed.

Lemma leaf_writes d thistopic leaf : client_savable d (lf_context leaf) -> 0 <= lf_qos leaf < 2 ^ 8 ->
  c_string thistopic -> writes_file (leaf_write thistopic leaf) d (saved_leaf d thistopic leaf).
Proof.
  intros (x & Hx & Hok) Hq Ht. unfold leaf_write, saved_leaf. apply (writes_get_ctx _ x); [done|].
  rewrite (persistent_eq d _ x Hx). destruct (c_clean_session x); [apply writes_none|].
  destruct (Hok eq_refl) as [(id & -> & Hs & Hne) _ _ _]. by apply writes_one, sub_chunk_encodes.
Qed.

Lemma retained_writes d retained : (forall s, retained = Some s -> store_savable d s) ->
  writes_file (retained_write retained) d (saved_retained d retained).
Proof.
  intros H. destruct retained as [s|]; [|apply writes_none].
  destruct (H s eq_refl) as (st & topic & Hst & Ht). unfold retained_write, saved_retained.
  apply (writes_get_store s st); [done|]. destruct (saved_store_eq d s st topic Hst Ht) as [-> ->].
  rewrite (so_topic _ _ Ht). change (unwrap (Some topic)) with (mret topic : M str).
  unfold mbind, st_bind, mret at 1, st_ret at 1. unfold system_topic.
  destruct (strneq topic (lit "$SYS") 4); [apply writes_none | apply writes_one, retain_chunk_encodes, (so_id _ _ Ht)].
Qed.

Lemma subs_writes d topic h : tree_savable d topic h ->
  writes_file (_db_subs_retain_write topic h) d (saved_subs d topic h).
Proof.
  revert topic. induction h as [|a t subs retained children IHc next IHn]; intros topic; cbn [_db_subs_retain_write saved_subs tree_savable].
  { intros _. apply writes_none. }
  intros (Hsubs & Hret & Hc & Hn).
  destruct (writes_concat_map (leaf_write (this_topic topic t)) subs d (saved_leaf d (this_topic topic t)))
    as (bs1 & E1 & F1).
  { intros leaf Hin. rewrite Forall_forall in Hsubs. destruct (Hsubs leaf Hin) as (? & ? & ?). by apply leaf_writes. }
  destruct (retained_writes d retained Hret) as (bs2 & E2 & F2).
  destruct (IHc _ Hc) as (bs3 & E3 & F3). destruct (IHn _ Hn) as (bs4 & E4 & F4).
  exists (bs1 ++ bs2 ++ bs3 ++ bs4). split; [unfold mbind, st_bind; by rewrite E1, E2, E3, E4|].
  by repeat apply file_app.
Qed.

Lemma backup_writes d shutdown : savable d ->
  exists body, mqtt3_db_backup shutdown d = Some (file_header ++ body, d) /\ file_of body (saved d).
Proof.
  intros [Hlast Htime Hstores Hclients Hsubs].
  destruct (message_store_writes d Hstores) as (bs1 & E1 & F1).
  destruct (writes_concat_map client_write (d_contexts_by_id d) d (saved_client d)) as (bs2 & E2 & F2).
  { intros c Hin. rewrite Forall_forall in Hclients. by apply client_writes, Hclients. }
  destruct (subs_writes d [] (d_subs d) Hsubs) as (bs3 & E3 & F3).
  exists (cfg_chunk shutdown (d_last_db_id d) ++ bs1 ++ bs2 ++ bs3). split.
  - unfold mqtt3_db_backup, mqtt3_db_client_write, mqtt3_db_subs_retain_write, mbind, st_bind, get, gets.
    by rewrite E1, E2, E3.
  - apply file_cons; [by apply cfg_chunk_encodes|]. by repeat apply file_app.
Qed.

(** The header is accepted. *)
Lemma restore_header body : mqtt3_db_restore (Some (file_header ++ body)) = restore_loop (length body) MOSQ_DB_VERSION body [].
Proof.
  unfold mqtt3_db_restore, file_header. rewrite <- !app_assoc. rewrite (decodes_read 15 magic eq_refl).
  rewrite bool_decide_eq_true_2 by done. cbn [negb].
  assert (decodes (crc ← r_be32; r_be32) (w_be32 0 ++ w_be32 MOSQ_DB_VERSION) MOSQ_DB_VERSION) as Hd.
  { eapply decodes_bind; apply decodes_be32; unfold MOSQ_DB_VERSION; lia. }
  specialize (Hd body). rewrite <- app_assoc in Hd. by rewrite Hd.
Qed.


(** * A file always ends *)

Definition shrinks {A} (m : R A) : Prop := forall file a rest, m file = Some (a, rest) -> (length rest <= length file)%nat.

Create HintDb shrinks.

Lemma shrinks_ret {A} (a : A) : shrinks (mret a).
Proof. by intros file b rest [= _ <-]. Qed.

Lemma shrinks_fault {A} : shrinks (@fault (list byte) A).
Proof. by intros file b rest E. Qed.

Lemma shrinks_assert b : shrinks (assertM b).
Proof. destruct b; [apply shrinks_ret | by intros file b rest E]. Qed.

Lemma shrinks_bind {A B} (m : R A) (f : A -> R B) : shrinks m -> (forall a, shrinks (f a)) -> shrinks (m ≫= f).
Proof.
  intros Hm Hf file b rest. unfold mbind, st_bind. destruct (m file) as [[a file']|] eqn:E; [|done].
  intros E'. apply Hm in E. apply Hf in E'. lia.
Qed.

Lemma shrinks_read_e n : shrinks (read_e n).
Proof.
  intros file a rest. unfold read_e, mbind, st_bind, get, assertM, modify, mret, st_ret.
  destruct (Nat.leb _ _); [|done]. intros [= _ <-]. rewrite length_drop. lia.
Qed.

Lemma shrinks_skip n : shrinks (skip_e n).
Proof. intros file a rest [= _ <-]. rewrite length_drop. lia. Qed.

#[export] Hint Resolve shrinks_ret shrinks_fault shrinks_assert shrinks_read_e shrinks_skip : shrinks.

Ltac shrinks_tac :=
  repeat first [ solve [auto with shrinks]
               | apply shrinks_bind; [|intros ?]
               | match goal with |- shrinks (match ?x with _ => _ end) => destruct x end
               | match goal with |- shrinks (let '_ := ?x in _) => destruct x end ].

Lemma shrinks_ints : shrinks r_u8 /\ shrinks r_be16 /\ shrinks r_be32 /\ shrinks r_le64 /\ shrinks r_string /\ shrinks r_nonempty.
Proof.
  unfold r_string, r_nonempty, r_u8, r_be16, r_be32, r_le64. split_and!; shrinks_tac.
Qed.

Lemma shrinks_read_chunk v now chunk : shrinks (length ← r_be32; read_chunk v now chunk length).
Proof.
  destruct shrinks_ints as (? & ? & ? & ? & ? & ?).
  unfold read_chunk, read_cfg, read_store, read_client_msg, read_sub, read_client. shrinks_tac.
Qed.


(** * Witnesses *)

Definition sample_saved_msg : mosquitto_client_msg :=
  ClientMsg 20 7 0 3 1 false mosq_md_out mosq_ms_queued false.

(** A persistent client with a subscription and a queued message that is also retained. *)
Definition sample_savable : mosquitto_db :=
  db_calloc
    <| d_contexts := {[1%nat := context_calloc <| c_id := Some (lit "me") |> <| c_sock := -1 |> <| c_last_mid := 3 |>
                                  <| c_disconnect_t := 77 |> <| c_msgs := [sample_saved_msg] |> <| c_last_msg := Some 20%nat |>
                                  <| c_subs := [Some 10%nat] |>]} |>
    <| d_stores := <[7%nat := Store 5 (lit "src") [lit "me"] 2 (Some (lit "a/b")) (lit "hello") 9 0 1 true]> ∅ |>
    <| d_contexts_by_id := [1%nat] |> <| d_msg_store := [7%nat] |> <| d_msg_store_count := 1 |>
    <| d_subs := HNode 6 [] [] None (HNode 8 [] [] None
                   (HNode 9 (lit "a") [] None (HNode 10 (lit "b") [Leaf 1 1] (Some 7%nat) HNil HNil) HNil) HNil)
                   (HNode 11 (lit "$SYS") [] None HNil HNil) |>
    <| d_last_db_id := 5 |> <| d_next := 30%nat |> <| d_time := 100 |>.

Lemma c_string_dec s : bool_decide (strlen s < 2 ^ 16) && bool_decide (NUL ∉ s) = true -> c_string s.
Proof. by intros [?%bool_decide_eq_true ?%bool_decide_eq_true]%andb_prop. Qed.

Lemma sample_store_savable : store_savable sample_savable 7.
Proof.
  eexists _, (lit "a/b"). split; [by vm_compute|].
  split; try (by vm_compute); try (by apply c_string_dec). by split; [apply c_string_dec|].
Qed.

Lemma sample_client_savable : client_savable sample_savable 1.
Proof.
  eexists. split; [by vm_compute|]. intros _. split; try (by vm_compute).
  - exists (lit "me"). split; [done|]. by split; [apply c_string_dec|].
  - repeat constructor; try done. apply sample_store_savable.
Qed.

Lemma sample_is_savable : savable sample_savable.
Proof.
  split; try (by vm_compute).
  - repeat constructor. apply sample_store_savable.
  - repeat constructor. apply sample_client_savable.
  - cbn. split_and!; try done; try (by constructor).
    + apply Forall_singleton. split_and!; [apply sample_client_savable | done | done | by apply c_string_dec].
    + intros s [= <-]. apply sample_store_savable.
Qed.



(** The database that a file of a saved one leaves behind. *)
Definition saved_and_restored (d : mosquitto_db) : option mosquitto_db :=
  '(file, _) ← mqtt3_db_backup false d;
  snd <$> (mqtt3_db_open_init;; mqtt3_db_restore (Some file)) db_calloc.

(** The counters that bound a client's queue do not count what was restored. *)
Lemma restore_forgets_counts :
  (fun d => (fun x => (length (c_msgs x), c_msg_count x, c_msg_count12 x)) <$> d_contexts d !! 4%nat)
  <$> saved_and_restored sample_savable = Some (Some (1%nat, 0, 0)).
Proof. by vm_compute. Qed.

(** A subscription to "/foo" is saved as one to "foo". *)
Lemma backup_drops_leading_slash :
  let d := db_calloc <| d_contexts := {[1%nat := context_calloc <| c_id := Some (lit "me") |>]} |> in
  ('(_, d) ← (mqtt3_db_open_init;; mqtt3_sub_add 1 (lit "/foo") 0) (d <| d_next := 5%nat |>);
   Some (saved_subs d [] (d_subs d))) = Some [CkSub (lit "me") (lit "foo") 0].
Proof. by vm_compute. Qed.
