(* ===== verification/Subscribing.v ===== *)
(** A subscription from the user to the tree and back: what [mosquitto_subscribe] sends
    is recorded in the broker's tree, and what the broker grants reaches the user. *)

From S2P Require Export Delivery.

#[local] Open Scope Z_scope.

(** * Offering retained messages leaves the packet that is handled alone *)

(** What the handler of a packet looks at again after it called other parts. *)
Definition handled (c : addr) (d : mosquitto_db) : option packet := c_in_packet <$> d_contexts d !! c.

Lemma handled_ctx c c' x y d : d_contexts d !! c' = Some x -> c_in_packet y = c_in_packet x ->
  handled c (d <| d_contexts ::= <[c' := y]> |>) = handled c d.
Proof.
  intros Hx Hy. unfold handled. proj_simpl. destruct (decide (c = c')) as [->|N].
  - rewrite lookup_insert_eq, Hx. cbn. by rewrite Hy.
  - by rewrite lookup_insert_ne.
Qed.

Lemma keeps_upd_ctx c c' f : (forall x, c_in_packet (f x) = c_in_packet x) -> keeps (handled c) (upd_ctx c' f).
Proof.
  intros Hf d. unfold upd_ctx, get_ctx, mbind, st_bind, get, unwrap, modify.
  destruct (d_contexts d !! c') as [x|] eqn:E; cbn; [|done]. by eapply handled_ctx.
Qed.

(** A context is replaced by what was made of it. *)
Lemma keeps_replace {A} c c' (f : mosquitto -> option mosquitto) (k : M A) :
  (forall x y, f x = Some y -> c_in_packet y = c_in_packet x) -> keeps (handled c) k ->
  keeps (handled c) (x ← get_ctx c'; y ← unwrap (f x); upd_ctx c' (fun _ => y);; k).
Proof.
  intros Hf Hk d. unfold upd_ctx, get_ctx, mbind, st_bind, get, unwrap, modify.
  destruct (d_contexts d !! c') as [x|] eqn:E; cbn; [|done].
  destruct (f x) as [y|] eqn:Ey; cbn; [|done]. rewrite E. cbn. specialize (Hk (d <| d_contexts ::= <[c' := y]> |>)).
  destruct (k _) as [[a s']|]; [|done]. rewrite Hk. eapply handled_ctx; [exact E|by eapply Hf].
Qed.

Lemma append_msg_in_packet m x y : append_msg m x = Some y -> c_in_packet y = c_in_packet x.
Proof. unfold append_msg. destruct (match c_last_msg x with Some a => _ | None => _ end) as [l|]; [|done]. by intros [= <-]. Qed.

#[local] Ltac handled_tac :=
  repeat first
    [ lazymatch goal with
      | |- keeps _ (upd_ctx _ _) => apply keeps_upd_ctx; intros ?; first [reflexivity | unfold lazy_threshold; by repeat case_match]
      | |- keeps _ (get_ctx _ ≫= (fun _ => unwrap (append_msg _ _) ≫= _)) => apply keeps_replace; [by intros ??; apply append_msg_in_packet|]
      end
    | keeps_step ].

Lemma keeps_handled_insert c c' mid dir qos retain s : keeps (handled c) (mqtt3_db_message_insert c' mid dir qos retain s).
Proof. unfold mqtt3_db_message_insert, drop_message, insert_append. handled_tac. Qed.

Lemma keeps_handled_mid c c' : keeps (handled c) (_mosquitto_mid_generate c').
Proof. unfold _mosquitto_mid_generate. handled_tac. Qed.
#[local] Hint Resolve keeps_handled_insert keeps_handled_mid : keeps.

Lemma keeps_handled_slot c c' qos r : keeps (handled c) (process_slot c' qos r).
Proof. unfold process_slot, _retain_process. handled_tac. Qed.
#[local] Hint Resolve keeps_handled_slot : keeps.

Lemma keeps_handled_search c c' qos h tokens level flag : keeps (handled c) (_retain_search c' qos h tokens level flag).
Proof. revert tokens level flag. induction h; intros tokens level flag; cbn [_retain_search]; handled_tac. Qed.
#[local] Hint Resolve keeps_handled_search : keeps.

Lemma keeps_handled_roots c c' qos h tokens : keeps (handled c) (retain_roots c' qos h tokens).
Proof. induction h; cbn [retain_roots]; handled_tac. Qed.
#[local] Hint Resolve keeps_handled_roots : keeps.

Lemma keeps_handled_retain c c' sub qos : keeps (handled c) (mqtt3_retain_queue c' sub qos).
Proof. unfold mqtt3_retain_queue. handled_tac. Qed.

Lemma unparsed_handled c bs d d' : handled c d' = handled c d -> unparsed c bs d -> unparsed c bs d'.
Proof.
  unfold handled. intros E (x & Hx & Hp & Hu). rewrite Hx in E. cbn in E.
  destruct (d_contexts d' !! c) as [x'|] eqn:Hx'; [|done]. cbn in E. injection E as E.
  exists x'. by rewrite E.
Qed.

(** Nothing is left of the packet. *)
Lemma unparsed_end c d : unparsed c [] d ->
  exists x, d_contexts d !! c = Some x /\ (p_pos (c_in_packet x) <? p_remaining_length (c_in_packet x)) = false.
Proof.
  intros (x & Hx & Hp & Hu). exists x. split; [done|]. pose proof (unread_length _ Hp) as Hl. rewrite Hu in Hl. cbn in Hl. lia.
Qed.

Lemma unparsed_more c b bs d : unparsed c (b :: bs) d ->
  exists x, d_contexts d !! c = Some x /\ (p_pos (c_in_packet x) <? p_remaining_length (c_in_packet x)) = true.
Proof.
  intros (x & Hx & Hp & Hu). exists x. split; [done|]. pose proof (unread_length _ Hp) as Hl. rewrite Hu in Hl. cbn [length] in Hl. lia.
Qed.

(** * The tree *)

(** The same tree, and the same clients by name. *)
Definition same_clients (d d' : mosquitto_db) : Prop :=
  d_subs d' = d_subs d /\ forall a, c_id <$> d_contexts d' !! a = c_id <$> d_contexts d !! a.

Lemma same_clients_ctx c x y d d' : d_contexts d !! c = Some x -> c_id y = c_id x ->
  d_subs d' = d_subs d -> d_contexts d' = <[c := y]> (d_contexts d) -> same_clients d d'.
Proof.
  intros Hx Hy Hs Hc. split; [done|]. intros a. rewrite Hc. destruct (decide (a = c)) as [->|N].
  - rewrite lookup_insert_eq, Hx. cbn. by rewrite Hy.
  - by rewrite lookup_insert_ne.
Qed.

Lemma same_clients_ahead c n x d : d_contexts d !! c = Some x -> same_clients d (ahead c n d).
Proof. intros Hx. rewrite (ahead_upd _ _ x) by done. apply (same_clients_ctx c x (x <| c_in_packet ::= advance n |>)); done. Qed.

Lemma same_clients_reads c d d' : only_reads c d d' -> same_clients d d'.
Proof.
  intros (x & x' & Hx & Hc & Ex & _ & Ed). eapply same_clients_ctx; [exact Hx| |by rewrite Ed|exact Hc]. by rewrite Ex.
Qed.

Lemma subscribed_same d d' c id qos subs : same_clients d d' -> subscribed d' c id qos subs = subscribed d c id qos subs.
Proof.
  intros [Hs Hn]. induction subs as [|leaf subs IH]; cbn [subscribed]; [done|]. rewrite IH.
  assert (leaf_is d' id leaf = leaf_is d id leaf) as ->; [|done].
  unfold leaf_is. specialize (Hn (lf_context leaf)).
  destruct (d_contexts d' !! _), (d_contexts d !! _); cbn in *; try done. by injection Hn as ->.
Qed.

(** The client [c], called [id], subscribed to [sub]: it is among the subscribers of that
    filter with its latest QoS, those of other filters and the retained messages are as before. *)
Record recorded (c : addr) (id sub : str) (qos : Z) (d d' : mosquitto_db) : Prop := Recorded {
  rec_wf : roots_wf (d_subs d');
  rec_here : subscribers (d_subs d') sub = subscribed d c id qos (subscribers (d_subs d) sub);
  rec_others f : f <> sub -> subscribers (d_subs d') f = subscribers (d_subs d) f;
  rec_retained t : retained_for (d_subs d') t = retained_for (d_subs d) t }.

(** The tree can take a subscription to [sub]. *)
Record subscribable (sub : str) (d : mosquitto_db) : Prop := Subscribable {
  sb_wf : roots_wf (d_subs d);
  sb_filter : valid_filter_levels (levels sub);
  sb_live : Forall (leaf_live d) (subscribers (d_subs d) sub) }.

Lemma subscribable_same sub d d' : same_clients d d' -> subscribable sub d -> subscribable sub d'.
Proof.
  intros [Hs Hn] [S1 S2 S3]. split; rewrite ?Hs; try done. eapply Forall_impl; [exact S3|]. intros leaf [x Hx].
  specialize (Hn (lf_context leaf)). unfold leaf_live. rewrite Hx in Hn. destruct (d_contexts d' !! _); [by eexists|done].
Qed.

Lemma recorded_same c id sub qos d d1 d' : same_clients d d1 -> recorded c id sub qos d1 d' -> recorded c id sub qos d d'.
Proof.
  intros Hn [R1 R2 R3 R4]. pose proof Hn as [Hs _]. rewrite Hs in *. split; [done| |exact R3|exact R4]. rewrite R2. by apply subscribed_same.
Qed.

Lemma sub_add_recorded c x id sub qos d : d_contexts d !! c = Some x -> c_id x = Some id -> subscribable sub d ->
  exists d', mqtt3_sub_add c sub qos d = Some (MOSQ_ERR_SUCCESS, d') /\ recorded c id sub qos d d'
    /\ handled c d' = handled c d /\ d_reads d' = d_reads d.
Proof.
  intros Hx Hid [Hw Hf Hl]. pose proof (sub_add_run c x id sub qos d Hx Hid Hw Hf Hl) as H.
  apply wp_some in H as (rc & d' & E & -> & H1 & H2 & H3 & H4 & a & Ed). exists d'. split; [exact E|]. split; [by split|].
  rewrite Ed. destruct (negb _); [|done]. split; [|done].
  transitivity (handled c (d <| d_contexts ::= <[c := x <| c_subs ::= fill_slot a |>]> |>)); [done|]. by apply (handled_ctx c c x).
Qed.

(** Two routines go on in the same way. *)
Lemma bind_from {S A B} (m m' : ST S A) (f : A -> ST S B) s s' : m s = m' s' -> (m ≫= f) s = (m' ≫= f) s'.
Proof. intros E. unfold mbind, st_bind. by rewrite E. Qed.

Lemma bind_same {S A B} (m : ST S A) (f g : A -> ST S B) s :
  (forall a s', m s = Some (a, s') -> f a s' = g a s') -> (m ≫= f) s = (m ≫= g) s.
Proof. intros E. unfold mbind, st_bind. destruct (m s) as [[a s']|] eqn:Em; [|done]. by apply E. Qed.

Lemma bind_in_turn {S A B C} (m : ST S A) (f : A -> ST S B) (g : B -> ST S C) s :
  ((m ≫= f) ≫= g) s = (m ≫= (fun a => f a ≫= g)) s.
Proof. unfold mbind, st_bind. by destruct (m s) as [[]|]. Qed.

(** * SUBSCRIBE *)

Definition enc_subscribe (mid : Z) (sub : str) (qos : Z) : list byte :=
  enc_packet (Z.lor SUBSCRIBE 2) (enc_uint16 mid ++ enc_string sub ++ [byte_of_Z qos]).

Section subscribing.
Context `{Crypto, Environment, Network}.

(** What is left to do once the subscription is in the tree: the retained messages are
    offered, the QoS is granted. *)
Definition granting (c : addr) (sub : str) (qos mid : Z) : M Z :=
  r ← mqtt3_retain_queue c sub qos;
  rc ← _mosquitto_send_suback c mid [byte_of_Z qos];
  modify (fun d => d <| d_persistence_changes ::= Z.succ |>);;
  mret (if negb (rc =? 0) then 1 else if negb (r =? 0) then 1 else 0).

(** A filter that can be sent and is accepted. *)
Record filter_sent (sub : str) : Prop := FilterSent {
  fs_string : short_string sub;
  fs_some : sub <> [];
  fs_check : mosquitto_sub_topic_check sub = MOSQ_ERR_SUCCESS }.

(** The loop at the end of the packet. *)
Lemma subscribe_loop_end fuel c payload rc d : unparsed c [] d ->
  subscribe_loop fuel c payload rc d = Some (ROk (payload, rc), d).
Proof.
  intros (x & Hx & Hp)%unparsed_end. destruct fuel; cbn [subscribe_loop];
    rewrite (bind_at _ _ _ _ _ (get_ctx_at c x d Hx)); by rewrite Hp.
Qed.

(** One topic is read and recorded. *)
Lemma subscribe_loop_one fuel c x id sub qos rest payload rc d : d_contexts d !! c = Some x -> c_id x = Some id ->
  listener_ok d x -> unparsed c (enc_string sub ++ byte_of_Z qos :: rest) d -> filter_sent sub -> 0 <= qos <= 2 ->
  let full := default [] (mount_point d x) ++ sub in
  subscribable full d ->
  exists d', recorded c id full qos d d' /\ unparsed c rest d' /\ d_reads d' = d_reads d
    /\ subscribe_loop (S fuel) c payload rc d
       = (r ← mqtt3_retain_queue c full qos;
          subscribe_loop fuel c (payload ++ [byte_of_Z qos]) (if negb (r =? 0) then 1 else rc)) d'.
Proof.
  intros Hx Hid Hl Hu [Ht Hne Hck] Hq full Hs. cbn [subscribe_loop].
  assert (exists x', d_contexts d !! c = Some x' /\ (p_pos (c_in_packet x') <? p_remaining_length (c_in_packet x')) = true) as (x' & Hx' & Hp).
  { destruct (enc_string sub) as [|b bs] eqn:E; [by destruct sub|]. by apply (unparsed_more c b (bs ++ byte_of_Z qos :: rest)). }
  assert (x' = x) as -> by congruence. rewrite (bind_at _ _ _ _ _ (get_ctx_at c x d Hx)), Hp.
  destruct (on_in_packet_takes c _ _ _ sub d (takes_string sub Ht) Hu) as [E1 Hu1]. rewrite (bind_at _ _ _ _ _ E1).
  assert ((strlen sub =? 0) = false) as ->.
  { destruct sub; [done|]. rewrite strlen_cons. pose proof (strlen_nonneg sub). lia. }
  rewrite Hck. change (negb (MOSQ_ERR_SUCCESS =? 0)) with false. cbv iota.
  destruct (on_in_packet_takes c _ [byte_of_Z qos] rest _ _ (takes_byte (byte_of_Z qos)) Hu1) as [E2 Hu2].
  rewrite (bind_at _ _ _ _ _ E2), Z_of_byte_of_Z, Z.mod_small by lia.
  rewrite (proj2 (Z.ltb_ge 2 qos)) by lia. rewrite ahead_ahead in *. set (n := strlen [byte_of_Z qos] + strlen (enc_string sub)) in *. set (d1 := ahead c n d) in *.
  destruct (get_listener_run d1 x Hl) as (l & E3 & El). rewrite (bind_at _ _ _ _ _ E3). cbv zeta.
  assert (mounted l sub = full) as -> by (unfold mounted; rewrite El; done).
  rewrite (proj2 (Z.eqb_neq qos 0x80)) by lia. cbn [negb].
  pose proof (ahead_get c n x d Hx) as Hx1. fold d1 in Hx1.
  pose proof (same_clients_ahead c n x d Hx) as Hn. fold d1 in Hn. pose proof (subscribable_same _ _ _ Hn Hs) as Hs1.
  destruct (sub_add_recorded c _ id full qos d1 Hx1 Hid Hs1) as (d2 & E4 & R & Eh & Er). exists d2.
  split; [by eapply recorded_same|].
  split; [by eapply unparsed_handled|]. split; [exact Er|]. unfold mbind at 1, st_bind at 1. 
  rewrite (bind_at _ _ _ _ _ E4). change (MOSQ_ERR_SUCCESS =? MOSQ_ERR_SUCCESS) with true. cbv iota.
  unfold mbind, st_bind. destruct (mqtt3_retain_queue c full qos d2) as [[r d3]|]; done.
Qed.

Lemma handle_subscribe_run c x id mid sub qos d : d_contexts d !! c = Some x -> c_id x = Some id -> listener_ok d x ->
  p_command (c_in_packet x) = 0x82 -> 0 <= mid < 2 ^ 16 ->
  unparsed c (enc_uint16 mid ++ enc_string sub ++ [byte_of_Z qos]) d -> filter_sent sub -> 0 <= qos <= 2 ->
  let full := default [] (mount_point d x) ++ sub in
  subscribable full d ->
  exists d', recorded c id full qos d d' /\ d_reads d' = d_reads d
    /\ mqtt3_handle_subscribe c d = granting c full qos mid d'.
Proof.
  intros Hx Hid Hl Hcmd Hmid Hu Hf Hq full Hs. unfold mqtt3_handle_subscribe.
  rewrite (bind_at _ _ _ _ _ (get_ctx_at c x d Hx)).
  assert (header_flags x = 2) as -> by (unfold header_flags; by rewrite Hcmd).
  change (negb (2 =? 2)) with false. rewrite andb_false_r. cbv iota.
  assert (exists fuel, Z.to_nat (p_remaining_length (c_in_packet x)) = S fuel) as [fuel ->].
  { destruct Hu as (x' & Hx' & Hp & Hu). assert (x' = x) as -> by congruence.
    pose proof (unread_length _ Hp) as E. rewrite Hu in E. destruct Hp as (Hp & _ & _). unfold enc_uint16 in E. cbn [app length] in E.
    exists (Z.to_nat (p_remaining_length (c_in_packet x) - 1)). lia. }
  destruct (on_in_packet_takes c _ _ _ mid d (takes_uint16 mid Hmid) Hu) as [E1 Hu1]. rewrite (bind_at _ _ _ _ _ E1). cbv iota.
  set (n := strlen (enc_uint16 mid)) in *. set (d1 := ahead c n d) in *.
  pose proof (ahead_get c n x d Hx) as Hx1. fold d1 in Hx1.
  pose proof (same_clients_ahead c n x d Hx) as Hn. fold d1 in Hn.
  destruct (subscribe_loop_one fuel c _ id sub qos [] [] 0 d1 Hx1 Hid Hl Hu1 Hf Hq (subscribable_same _ _ _ Hn Hs))
    as (d2 & R & Hu2 & Er & E2).
  exists d2. split; [by eapply recorded_same|]. split; [exact Er|].
  rewrite (bind_from _ _ _ _ _ E2), bind_in_turn. unfold granting. apply bind_same. intros r d3 E3.
  pose proof (keeps_handled_retain c c full qos d2) as Hk. rewrite E3 in Hk.
  rewrite (bind_at _ _ _ _ _ (subscribe_loop_end fuel c _ _ d3 (unparsed_handled _ _ _ _ Hk Hu2))). cbv iota.
  rewrite bool_decide_eq_false_2 with (P := [] ++ _ = []) by done. rewrite andb_false_r. by destruct (negb (r =? 0)).
Qed.

Lemma strlen_enc_string s : strlen (enc_string s) = 2 + strlen s.
Proof. unfold enc_string. rewrite strlen_app. by rewrite strlen_uint16. Qed.

(** The bytes of a SUBSCRIBE become a subscription. *)
Lemma subscribe_arrives c x id mid sub qos extra rest d :
  d_contexts d !! c = Some x -> c_id x = Some id -> c_sock x <> INVALID_SOCKET -> c_state x = mosq_cs_connected ->
  listener_ok d x -> clean (c_in_packet x) -> 0 <= mid < 2 ^ 16 -> filter_sent sub -> 0 <= qos <= 2 ->
  let full := default [] (mount_point d x) ++ sub in
  subscribable full d -> delivers (arriving d (c_sock x)) (enc_subscribe mid sub qos ++ extra) rest ->
  exists d', recorded c id full qos d d' /\ delivers (arriving d' (c_sock x)) extra rest
    /\ packet_read c d = (rc ← granting c full qos mid; read_finish c rc (d_time d)) d'.
Proof.
  intros Hx Hid Hsock Hst Hl Hclean Hmid Hf Hq full Hs Hd. pose proof Hf as [[Hlen Hn] Hne Hck].
  set (body := enc_uint16 mid ++ enc_string sub ++ [byte_of_Z qos]).
  destruct (enc_packet_frame (Z.lor SUBSCRIBE 2) body) as (f & Ef & Hwf & Hfc & Hfb); [done| |].
  { fold (strlen body). unfold body. rewrite !strlen_app, strlen_uint16, strlen_enc_string. change (strlen [byte_of_Z qos]) with 1. lia. }
  unfold enc_subscribe in Hd. fold body in Hd. rewrite Ef in Hd.
  assert (may_start x (Z_of_byte (f_command f)) = true) as Hmay.
  { unfold may_start. rewrite Hst, (bool_decide_eq_false_2 (mosq_cs_connected = mosq_cs_new)) by done. by rewrite andb_false_r. }
  destruct (packet_read_whole mqtt3_packet_handle c x d f extra rest Hx Hsock) as
    (d1 & x1 & E1 & Ho & Hx1 & Ec1 & Hw1 & Hu1 & Hd1); try done; [by rewrite Hst|].
  destruct (only_reads_frame c d d1 Ho) as (y & y' & Hy & Hy' & Ey & Econf & Elis).
  assert (y = x) as -> by congruence. assert (y' = x1) as -> by congruence.
  assert (c_id x1 = Some id /\ c_listener x1 = c_listener x) as [Hid1 Hl1] by (rewrite Ey; done).
  assert (p_command (c_in_packet x1) = 0x82) as Hcmd by by rewrite Ec1, Hfc.
  assert (mqtt3_packet_handle c d1 = mqtt3_handle_subscribe c d1) as Eh.
  { unfold mqtt3_packet_handle. rewrite (bind_at _ _ _ _ _ (get_ctx_at c x1 d1 Hx1)). by rewrite Hcmd. }
  assert (mount_point d1 x1 = mount_point d x) as Em by (unfold mount_point; by rewrite Hl1, Elis).
  pose proof (same_clients_reads _ _ _ Ho) as Hsame.
  destruct (handle_subscribe_run c x1 id mid sub qos d1 Hx1 Hid1) as (d2 & R & Er & E2); try done.
  { unfold listener_ok. by rewrite Hl1, Elis. }
  { exists x1. split; [done|]. split; [done|]. by rewrite Hu1, Hfb. }
  { rewrite Em. by eapply subscribable_same. }
  rewrite Em in R, E2. exists d2. split; [by eapply recorded_same|]. split; [unfold arriving in *; by rewrite Er|].
  unfold packet_read. rewrite E1. apply bind_from. by rewrite Eh.
Qed.
End subscribing.

(** * What the library sends *)

Section asking.
Context `{LibSystem}.

(** A packet whose identifier is drawn after its buffer was allocated. *)
Lemma lib_queue_with_mid_sends command len body (bs : Z -> list byte) s :
  lists_ok s -> connected s -> Forall write_ok (cl_writes s) ->
  (forall mid, writes (bs mid) (body mid)) -> (forall mid, Z.of_nat (length (bs mid)) = len) -> len < 2 ^ 28 ->
  let mid := next_mid (c_last_mid (cl_mosq s)) in
  wp (lib_queue_with_mid command len body) (fun r s' => r = (MOSQ_ERR_SUCCESS, Some mid) /\ lists_ok s'
    /\ cl_in_messages s' = cl_in_messages s /\ cl_out_messages s' = cl_out_messages s
    /\ lib_stream s' = lib_stream s ++ enc_packet command (bs mid)) s.
Proof.
  intros Hs Hc Hw Hb Hl Hlen mid. unfold lib_queue_with_mid. assert (0 <= len) as H0 by (rewrite <- (Hl 0); lia).
  assert (wp (build_packet command len (mret tt))
    (fun rc p => rc = 0 /\ packet_wf p /\ room p = len /\ written p = enc_header command len) packet_calloc) as Hb0.
  { apply build_packet_run; [lia| |lia]. intros p _ Hp Hr Hh _. by wp_step. }
  rewrite wp_eq in Hb0. destruct (build_packet _ _ _ _) as [[rc p]|]; [|done]. destruct Hb0 as (-> & Hp & Hr & Hh).
  change (negb (0 =? 0)) with false. cbv iota. unfold lib_mid_generate. wp_step. proj_simpl. fold mid.
  set (s1 := s <| cl_mosq ::= _ |>).
  assert (lists_ok s1) as H1 by (apply lists_ok_mosq; [done|done|done|apply Hs]).
  pose proof (Hb mid p Hp) as Ha. rewrite Hl, Hr in Ha. specialize (Ha ltac:(lia)). rewrite wp_eq in Ha.
  destruct (body mid p) as [[[] p2]|]; [|done]. pose proof (appends_wf _ _ _ Ha) as (W0 & W1 & W2).
  assert (holds (enc_packet command (bs mid)) p2) as Hp2.
  { pose proof (appends_room _ _ _ Ha) as Hroom. rewrite Hl, Hr in Hroom.
    split; [by split|]. rewrite <- written_full by (done || lia). destruct Ha as (_ & -> & _).
    unfold enc_packet. by rewrite Hh, Hl. }
  wp_step. eapply wp_mono; [exact (lib_packet_queue_sends p2 _ Hp2 s1)|]. cbv beta. intros rc s' [H' Hrc]. wp_step.
  rewrite Hrc by done. split; [done|]. split; [by eapply lists_ok_more|].
  rewrite (wm_stream _ _ _ H') by apply H1. destruct (written_more_lists _ _ _ H') as (-> & -> & _). done.
Qed.

Lemma subscribe_sends sub qos s : lists_ok s -> connected s -> Forall write_ok (cl_writes s) ->
  filter_sent sub -> 0 <= qos <= 2 ->
  let mid := next_mid (c_last_mid (cl_mosq s)) in
  wp (mosquitto_subscribe sub qos) (fun r s' => r = (MOSQ_ERR_SUCCESS, Some mid) /\ lists_ok s'
    /\ cl_in_messages s' = cl_in_messages s /\ cl_out_messages s' = cl_out_messages s
    /\ lib_stream s' = lib_stream s ++ enc_subscribe mid sub qos) s.
Proof.
  intros Hs Hc Hw [[Hlen _] _ Hck] Hq mid. unfold mosquitto_subscribe. wp_step.
  rewrite (proj2 (Z.eqb_neq _ _)) by exact Hc. rewrite Hck. change (negb (MOSQ_ERR_SUCCESS =? 0)) with false. cbv iota.
  assert (u8 qos = qos) as -> by (apply Z.mod_small; lia). unfold lib_send_subscribe.
  apply (lib_queue_with_mid_sends _ _ _ (fun mid => enc_uint16 mid ++ enc_string sub ++ [byte_of_Z qos])); try done.
  - intros m. auto with writes.
  - intros m. pose proof (strlen_uint16 m). pose proof (strlen_enc_string sub). unfold strlen in *.
    rewrite !length_app. cbn [length]. lia.
  - lia.
Qed.
End asking.

Section granted.
Context `{LibSystem, Crypto, Environment, Network}.

(** C4: A subscription that is made through the library is recorded in the broker's tree: with a filter that is accepted, [mosquitto_subscribe] succeeds and makes the socket send some bytes and no others; and whenever those bytes arrive at a broker from a connected client, in pieces of any size and followed by anything, the broker takes exactly them, and the subscribers of the filter (behind the mount point of the listener) are the old ones with this client among them once, with the QoS asked for, while those of other filters and the retained messages stay; what is left to do is to offer the client the retained messages and to grant the QoS with the identifier of the request. *)
Theorem subscription_recorded sub qos s :
  lists_ok s -> connected s -> Forall write_ok (cl_writes s) -> filter_sent sub -> 0 <= qos <= 2 ->
  exists mid bs s', mosquitto_subscribe sub qos s = Some ((MOSQ_ERR_SUCCESS, Some mid), s')
    /\ 0 < mid < 2 ^ 16 /\ lists_ok s' /\ cl_in_messages s' = cl_in_messages s /\ cl_out_messages s' = cl_out_messages s
    /\ lib_stream s' = lib_stream s ++ bs
    /\ forall c x id d extra rest,
         d_contexts d !! c = Some x -> c_id x = Some id -> c_sock x <> INVALID_SOCKET -> c_state x = mosq_cs_connected ->
         listener_ok d x -> clean (c_in_packet x) ->
         let full := default [] (mount_point d x) ++ sub in
         subscribable full d -> delivers (arriving d (c_sock x)) (bs ++ extra) rest ->
         exists d', recorded c id full qos d d' /\ delivers (arriving d' (c_sock x)) extra rest
           /\ packet_read c d = (rc ← granting c full qos mid; read_finish c rc (d_time d)) d'.
Proof.
  intros Hs Hc Hw Hf Hq. pose proof (subscribe_sends sub qos s Hs Hc Hw Hf Hq) as Hp.
  apply wp_some in Hp as (r & s' & E & -> & Hl & Hi & Ho & Hst). set (mid := next_mid _) in *.
  pose proof (next_mid_range (c_last_mid (cl_mosq s)) : 0 < mid < 2 ^ 16) as Hmid.
  exists mid, (enc_subscribe mid sub qos), s'. do 6 (split; [done|]).
  intros c x id d extra rest Hx Hid Hsock Hstate Hlis Hcl full Hsub Hd.
  apply (subscribe_arrives c x id mid sub qos extra rest d); try done; lia.
Qed.
End granted.

(** * What the broker grants *)

Section answer.
Context `{LibSystem}.

Lemma lib_read_codes_run fuel granted codes s Q : (length codes <= fuel)%nat -> lib_unparsed codes s ->
  Q (ROk (granted ++ map Z_of_byte codes)) (lib_ahead (strlen codes) s) -> wp (lib_read_codes fuel granted) Q s.
Proof.
  revert fuel granted s. induction codes as [|b codes IH]; intros fuel granted s Hfuel Hu HQ.
  - pose proof Hu as [Hp Hn]. pose proof (unread_length _ Hp) as Hl. rewrite Hn in Hl. cbn [length] in Hl. unfold in_packet in Hl.
    cbn [map] in HQ. rewrite app_nil_r, lib_ahead_0 in HQ.
    destruct fuel; cbn [lib_read_codes]; rewrite wp_bind, wp_get; cbv zeta;
      (rewrite (proj2 (Z.ltb_ge _ _)) by lia); by rewrite wp_ret.
  - destruct fuel as [|fuel]; [cbn in Hfuel; lia|]. pose proof Hu as [Hp Hn]. pose proof (unread_length _ Hp) as Hl.
    rewrite Hn in Hl. cbn [length] in Hl. unfold in_packet in Hl. cbn [lib_read_codes]. rewrite wp_bind, wp_get. cbv zeta.
    rewrite (proj2 (Z.ltb_lt _ _)) by lia. eapply (wp_lib_takes _ [b] codes); [by apply takes_byte|exact Hu|]. intros H1.
    cbv beta iota. apply IH; [cbn in Hfuel; lia|exact H1|]. rewrite lib_ahead_ahead, <- app_assoc. cbn [map app] in *.
    replace (strlen codes + strlen [b]) with (strlen (b :: codes)) by (rewrite !strlen_cons; change (strlen []) with 0; lia). exact HQ.
Qed.

(** The user is called with the answer, nothing else happens. *)
Definition told (e : event) (s s' : client) : Prop :=
  lists_ok s' /\ cl_in_messages s' = cl_in_messages s /\ cl_out_messages s' = cl_out_messages s
  /\ lib_stream s' = lib_stream s /\ cl_events s' = cl_events s ++ (if cl_callbacks s e then [e] else []).

Lemma handle_suback_takes mid codes s : lists_ok s -> 0 <= mid < 2 ^ 16 -> lib_unparsed (enc_uint16 mid ++ codes) s ->
  wp lib_handle_suback (fun rc s' => rc = MOSQ_ERR_SUCCESS /\ told (on_subscribe mid (map Z_of_byte codes)) s s'
    /\ cl_reads s' = cl_reads s) s.
Proof.
  intros Hs Hmid Hu. unfold lib_handle_suback. eapply wp_lib_takes; [by apply takes_uint16|exact Hu|]. intros H1.
  cbv beta iota. set (s1 := lib_ahead _ s) in *. rewrite wp_bind, wp_get, wp_bind.
  apply (lib_read_codes_run _ [] codes); [|exact H1|].
  { destruct H1 as [Hp Hn]. pose proof (unread_length _ Hp) as Hl. rewrite Hn in Hl. destruct Hp as (Hp & _ & _). unfold in_packet in *. lia. }
  cbv beta iota. cbn [app]. set (s2 := lib_ahead _ s1). set (e := on_subscribe _ _).
  assert (lists_ok s2) as H2 by (apply lists_ok_mosq; [apply lists_ok_mosq; [done|done|done|apply Hs]|done|done|apply Hs]).
  wp_step. split; [done|]. destruct (called_rest e s2) as (C1 & C2 & C3 & C4). unfold told.
  rewrite C1, C2, C3, C4, called_events. split; [|done]. split; [by apply lists_ok_called|done].
Qed.

(** C6: The QoS that the broker grants reaches the user: the broker's SUBACK is one packet, and when its bytes arrive at a client between two packets, in pieces of any size and followed by anything, [lib_packet_read] succeeds, takes exactly these bytes and calls the user once with the identifier and the QoS of each topic; the messages and what is to be sent stay as they are. *)
Theorem grant_reaches_user c mid codes :
  0 <= mid < 2 ^ 16 -> strlen codes < 2 ^ 16 ->
  let bs := enc_packet SUBACK (enc_uint16 mid ++ codes) in
  sends c bs (_mosquitto_send_suback c mid codes)
  /\ forall s extra rest, ready s -> delivers (cl_reads s) (bs ++ extra) rest ->
     exists s', lib_packet_read s = Some (MOSQ_ERR_SUCCESS, s') /\ delivers (cl_reads s') extra rest
       /\ told (on_subscribe mid (map Z_of_byte codes)) s s'.
Proof.
  intros Hmid Hl bs. split; [by apply send_suback_sends|].
  intros s extra rest Hr Hd.
  assert (wp lib_packet_read (fun rc s' => rc = MOSQ_ERR_SUCCESS /\ delivers (cl_reads s') extra rest
    /\ told (on_subscribe mid (map Z_of_byte codes)) s s') s) as Hw.
  { apply (lib_read_packet SUBACK (enc_uint16 mid ++ codes) extra rest); [done|done| |exact Hd|].
    { rewrite strlen_app, strlen_uint16. lia. }
    intros s1 L1 C1 W1 S1 P1 U1 D1. unfold _mosquitto_packet_handle. rewrite wp_bind, wp_get. cbv zeta.
    change (Z_of_byte (byte_of_Z SUBACK)) with SUBACK in P1. unfold in_packet in P1. rewrite P1.
    eapply wp_mono; [by apply (handle_suback_takes mid codes s1)|]. cbv beta. intros rc s2 (-> & (T1 & T2 & T3 & T4 & T5) & D2).
    split; [done|]. split; [unfold read_done; proj_simpl; by rewrite D2|].
    unfold seen in S1. injection S1 as A1 A2 A3 A4 A5 A6 A7. unfold told. rewrite <- A1, <- A2, <- A5, <- A6, <- A7.
    split; [by apply read_done_lists|done]. }
  apply wp_some in Hw as (rc & s' & E & -> & Hw). by exists s'.
Qed.
End answer.

(** * Examples *)

#[local] Existing Instances sample_lib_system sample_crypto sample_environment sample_network.

Lemma sent_filter : filter_sent (lit "a/+").
Proof. split; [split; [done|by_compute]|discriminate|by vm_compute]. Qed.

(** The client "c2" of the example of Subs.v, between two packets; a SUBSCRIBE for "a/+"
    arrives in two pieces. *)
Definition subscriber : mosquitto :=
  (sample_client (lit "c2") [Some 15%nat]) <| c_in_packet ::= _mosquitto_packet_cleanup |>.

Definition subscribing_broker : mosquitto_db :=
  sample_broker <| d_contexts ::= <[2%nat := subscriber]> |>
    <| d_reads := {[5 := [RdOk (map byte_of_Z [0x82; 8; 0]); RdOk (map byte_of_Z [9; 0; 3] ++ lit "a/+" ++ map byte_of_Z [2])]]} |>.

Lemma subscription_recorded_witness : exists s' d',
  mosquitto_subscribe (lit "a/+") 2 sample_client_9 = Some ((MOSQ_ERR_SUCCESS, Some 9), s')
  /\ subscribers (d_subs d') (lit "a/+") = [Leaf 1 1; Leaf 2 2]
  /\ packet_read 2 subscribing_broker = (rc ← granting 2 (lit "a/+") 2 9; read_finish 2 rc 0) d'.
Proof.
  assert (connected sample_client_9) as Hc by (vm_compute; discriminate).
  assert (Forall write_ok (cl_writes sample_client_9)) as Hw by (vm_compute; constructor).
  destruct (subscription_recorded (lit "a/+") 2 sample_client_9 sample_client_9_lists Hc Hw sent_filter ltac:(lia))
    as (mid & bs & s' & E & _ & _ & _ & _ & Hst & Hb).
  assert (mid = 9 /\ lib_stream s' = lib_stream sample_client_9 ++ enc_subscribe 9 (lit "a/+") 2) as [-> Hst2].
  { apply (f_equal (option_map (fun r => (r.1.2, lib_stream r.2)))) in E. cbn [option_map fst snd] in E.
    assert (option_map (fun r => (r.1.2, lib_stream r.2)) (mosquitto_subscribe (lit "a/+") 2 sample_client_9)
      = Some (Some 9, lib_stream sample_client_9 ++ enc_subscribe 9 (lit "a/+") 2)) as E2 by (vm_compute; reflexivity).
    rewrite E2 in E. apply some_pair in E as [E3 E4]. apply (inj Some) in E3. split; [exact (eq_sym E3)|exact (eq_sym E4)]. }
  rewrite Hst2 in Hst. apply app_inv_head in Hst as <-.
  assert (subscribable (lit "a/+") subscribing_broker) as Hs.
  { split; [by_compute|by_compute|]. constructor; [eexists; reflexivity|constructor]. }
  assert (delivers (arriving subscribing_broker (c_sock subscriber)) (enc_subscribe 9 (lit "a/+") 2 ++ []) []) as Hd.
  { exists [map byte_of_Z [0x82; 8; 0]; map byte_of_Z [9; 0; 3] ++ lit "a/+" ++ map byte_of_Z [2]].
    split; [by repeat constructor|]. split; by vm_compute. }
  assert (d_contexts subscribing_broker !! 2%nat = Some subscriber) as Hx by by vm_compute.
  destruct (Hb 2%nat subscriber (lit "c2") subscribing_broker [] [] Hx) as (d' & R & _ & E1);
    [reflexivity|by vm_compute|reflexivity|by intros ?|reflexivity|exact Hs|exact Hd|].
  change (recorded 2 (lit "c2") (lit "a/+") 2 subscribing_broker d') in R.
  exists s', d'. split; [exact E|]. split; [rewrite (rec_here _ _ _ _ _ _ R); vm_compute; reflexivity|exact E1].
Defined.

Definition sample_granted : client := arriving_at [0x90; 3; 0] [9; 2] (sample_lib_ready 20).

Lemma grant_reaches_user_witness : exists s',
  sends 1%nat (map byte_of_Z [0x90; 3; 0; 9; 2]) (_mosquitto_send_suback 1%nat 9 [byte_of_Z 2])
  /\ lib_packet_read sample_granted = Some (MOSQ_ERR_SUCCESS, s') /\ told (on_subscribe 9 [2]) sample_granted s'.
Proof.
  assert (0 <= 9 < 2 ^ 16) as Hm by lia. assert (strlen [byte_of_Z 2] < 2 ^ 16) as Hl by done.
  destruct (grant_reaches_user 1%nat 9 [byte_of_Z 2] Hm Hl) as [Hs Hb].
  assert (ready sample_granted) as Hr by (apply ready_reads, sample_ready_ready).
  destruct (Hb sample_granted [] [] Hr) as (s' & E & _ & T).
  { exists [map byte_of_Z [0x90; 3; 0]; map byte_of_Z [9; 2]]. split; [by repeat constructor|].
    split; vm_compute; reflexivity. }
  exists s'. split; [exact Hs|]. split; [exact E|exact T].
Defined.
